(* ===== verification/_CoqProject ===== *)
-Q . S2P
Prelude.v
Base128.v
Types.v
Mem.v
Iter.v
OStream.v
Encode.v
Wire.v
EncodeProof.v
IStream.v
Discipline.v
Decode.v
MemSafe.v
DecodeSafe.v
Total.v
Descriptors.v
RoundTrip.v
Values.v
Required.v
Client.v
Infallible.v
EncodeSpec.v
DecodeSpec.v
RoundTripSpec.v
MemorySpec.v
FieldSpec.v
Base64.v
Base64Proof.v
Coding.v
Crc32c.v
Bloom.v
CodingProof.v
BloomProof.v
FilterBlock.v
Crc32cProof.v
FilterBlockProof.v
Env.v
Log.v
LogFormat.v
LogProof.v
LogSpec.v
Order.v
Comparator.v
ComparatorProof.v
DbFormat.v
DbFormatProof.v
WriteBatch.v
WriteBatchProof.v
DbSpec.v
SkipList.v
SkipListProof.v
SkipListSet.v
SkipListSpec.v
Arena.v
Iterator.v
MemTable.v
MemTableSpec.v
Block.v
BlockProof.v
BlockIterProof.v
BlockSpec.v
Format.v
FormatProof.v
TableBuilder.v
TwoLevelIterator.v
Cache.v
Table.v
TwoLevelProof.v
TableBuilderProof.v
TableProof.v
TableSpec.v
TableDb.v
Merger.v
MergerProof.v
DbIter.v
DbIterProof.v
DbIterSpec.v
