(* ===== verification/Prelude.v ===== *)
(** * Verification of the C and C++ core under the chat application

    The repository is an iOS chat application on top of the Firebase pods.
    Its own Swift code is user interface and calls to Firebase; the C and C++
    code it ships is what this library verifies, all of it under
    [src/Firebase/FinalProject/Pods/]:

    - nanopb, the protocol-buffer runtime with which GoogleDataTransport
      uploads its log events ([nanopb/pb_encode.c], [pb_decode.c],
      [pb_common.c], [pb.h]), the generated descriptors of the messages
      ([cct.nanopb.c], [firebasecore.nanopb.c]) and the two functions that
      call the runtime ([GDTCCTNanopbHelpers.m]);
    - the base64 functions of the realtime database's web socket
      ([third_party/SocketRocket/fbase64.c]);
    - LevelDB, the store of the realtime database's cache
      ([leveldb-library/]).

    ** How the code is modelled

    The embedding is shallow.  A C function is a Rocq function into
    [outcome]: it returns ([Ok]), runs into undefined behaviour ([UB], with
    the kind of [fault]), or has used up the fuel the model gave it
    ([Timeout]).  Integers are [Z]; [wrap w] and [swrap w] are the
    reductions to a width and are written wherever the code may wrap.  A
    failed [assert] is a fault, so theorems that a function returns [Ok]
    include that its assertions hold.  Stateful nanopb functions are
    computations [M S A] on the stream or memory state; LevelDB's are written
    with explicit states.

    - Prelude: outcomes, the state monad and its notations, fixed-width
      integers, little-endian bytes, lists; [euclid], [case_outcome] and the
      [zlen] rewrite database automate the common cases.
    - Base128: the reference encoding of variable-length integers, shared by
      nanopb and LevelDB.

    ** nanopb

    - Types: descriptors, type constants and macros of [pb.h].  Mem: byte
      memory with uninitialised bytes, [realloc] and [free]; whether an
      allocation succeeds is the environment's decision.  Iter: the field
      iterator of [pb_common.c].
    - OStream, Encode: [pb_encode.c]; streams are the buffer, sizing and
      user-callback ones.  Wire states the wire format of a message in
      memory; EncodeProof refines the encoder against it.
    - IStream, Decode: [pb_decode.c].  Discipline, DecodeSafe: rules from
      which the memory safety of reads, consumption and termination of every
      decoder follow; MemSafe, Total, Required, Values and RoundTrip support
      the specifications.
    - Descriptors, Client: the generated messages and
      [GDTCCTEncodeBatchedLogRequest], [GDTCCTDecodeLogResponse]; Infallible:
      why encoding the app's request cannot fail.
    - EncodeSpec, DecodeSpec, RoundTripSpec, FieldSpec and MemorySpec hold
      the properties: output equals the wire format and
      stays in its buffer, decoding stays in its input and returns, values
      round trip, fields are range checked, allocations have the size asked
      for, descriptors designate the members they are meant for.

    The mutual recursion through submessages is tied by fuel, one unit per
    level of message nesting; [decode_returns] and [encode_returns] show that
    one more than the nesting depth of the descriptors is enough.  User
    callbacks and extension handlers are functions of the environment, with
    the well-behavedness [pb.h] asks of them as named hypotheses.

    ** base64

    Base64 and Base64Proof: both functions on a source and a
    target buffer, against the encoding of RFC 1521.

    ** LevelDB

    - Coding, CodingProof: [util/coding.cc] and [coding.h].  The
      class [Codec] is what an encoder and a parser promise their users.
    - Crc32c, Crc32cProof: [util/crc32c.cc], equal to
      division by the polynomial at every alignment.
    - Bloom, BloomProof, FilterBlock, FilterBlockProof:
      [util/hash.cc], [util/bloom.cc] and [table/filter_block.cc].  Filter
      blocks are proved against the class [LawfulPolicy], which the Bloom
      filter implements.
    - Env: statuses, slices and the file interfaces of [leveldb/env.h], with
      the laws [ReliableFile] and [ReadableFile] and files in memory that
      satisfy them.
    - Log: [db/log_writer.cc], [db/log_reader.cc].  LogFormat is
      the format as a relation, which the writer implements; LogProof and
      LogSpec: every prefix of a log is read back without a false report,
      logs can be continued, and the reader returns on any file.
    - Order: three-way comparisons that are total orders.  Comparator,
      ComparatorProof: [leveldb/comparator.h] and [util/comparator.cc], with
      the class [LawfulComparator].
    - DbFormat, DbFormatProof: [db/dbformat.cc] and [dbformat.h]; the internal
      comparator and filter policy are lawful when those they wrap are.
    - WriteBatch, WriteBatchProof: [db/write_batch.cc], over a handler
      interface and the interface [MemTableOps] of the memtable.  DbSpec holds
      the properties of keys and batches.
    - SkipList: [db/skiplist.h] and [util/random.h], for any comparison.
      SkipListProof: the invariant, level by level, and that every store of an
      insertion keeps it; SkipListSet: the operations as functions of the
      sorted list of keys; SkipListSpec: searches that run during insertions,
      and a sorted set with lock-free readers.  The
      atomics are sequentially consistent in the model: one turn of a search
      sees one state.
    - Iterator: the interface of [leveldb/iterator.h] as the class [Iterator],
      and the class [LawfulIterator]: an iterator is a cursor over a sorted
      list of entries; also the wrapper of [table/iterator_wrapper.h].  Block, BlockProof, BlockIterProof, BlockSpec:
      [table/block_builder.cc] and [table/block.cc]; the iterator of a block
      is lawful.
    - Format, FormatProof: [table/format.cc], footers, handles and stored
      blocks, and [leveldb/options.h].
    - TwoLevelIterator, TwoLevelProof: [table/two_level_iterator.cc]; the
      two-level iterator over a lawful index and lawful blocks is lawful.
      Merger, MergerProof: [table/merger.cc]; the merging iterator over lawful
      children is lawful over the sorted union of their entries.
    - Cache: [leveldb/cache.h] as the class [Cache], with [LawfulCache].
    - TableBuilder, TableBuilderProof: [table/table_builder.cc]; the invariant
      of a builder and the layout of the file it writes.  Table, TableProof,
      TableSpec: [table/table.cc]; a table that was built is read back by its
      iterator, and lookups find the entry an iterator would.  TableDb: tables
      of internal keys with Bloom filters, the tables of the database, and
      what a read at a snapshot finds in them.
    - Arena: [util/arena.cc]; pieces of memory never overlap.
    - MemTable, MemTableSpec: [db/memtable.cc] on the skip list,
      an instance of [MemTableOps]; lookups find the newest visible version,
      also of updates that came in through a batch.
    - DbIter, DbIterProof: [db/db_iter.cc]; over a lawful iterator of all
      updates, the database iterator is lawful over what its snapshot sees.
      DbIterSpec: the iterator of a memtable is lawful, and the database
      iterator over merged memtables shows the newest visible values.

    Loops of LevelDB that are not structural have as fuel the number of bytes
    they walk over plus one or two ([AddRecord]: at most one fragment of a
    record is empty, hence length plus two); the theorems give the result for
    that fuel, or for every fuel larger than the file.  A search of the skip
    list takes one turn for each node it passes and each level it leaves,
    hence the number of nodes plus the height; a random height is at most
    twelve.  A two-level iterator skips at most as many blocks as the index
    has entries, and an index block has fewer entries than bytes.  The loops of
    the database iterator have more fuel than there are updates; a period
    between read samples may be zero, but the generator never draws
    two of them in a row, which bounds the loop that draws them.

    The size hypotheses of the table theorems keep a file below 4 GB, where
    no 32-bit length of a block wraps.  The application builds LevelDB without
    Snappy, so the compression functions fail and blocks are stored as they
    are.

    ** Not modelled

    - The Swift application and the Objective-C and Objective-C++ pods: user
      interface, Foundation objects and network services.
    - Of nanopb: the oneof descriptor macros (no message of the app has a
      oneof, the codec's handling of them is modelled), the variants under
      [PB_WITHOUT_64BIT], [PB_BUFFER_ONLY] and [PB_NO_ERRMSG], which the app
      does not compile, and the constructors that copy Foundation objects
      into the request.
    - Of base64: [isspace] on bytes above 127, which is undefined for a
      negative [char], is taken to be false.
    - Of LevelDB: the LRU cache and version edits are to
      follow; the memtable's memory usage; the options that tables do not
      use; cleanup functions of iterators, apart from the release of cache
      handles; memory is taken to be available.  The POSIX environment, the
      compaction threads and [db_impl.cc] are input/output and concurrency
      around these formats.  The contents of memory the log reader
      overwrites after a fragment's last use, debug strings, and Bloom
      filters with a negative number of bits per key are left out. *)
From Stdlib Require Export ZArith Lia String.
From stdpp Require Export base list gmap.
#[global] Open Scope Z_scope.

(** ** Outcomes of C code

    A C function either returns, runs into behaviour the C standard leaves
    undefined (the constructor says which kind), or has not returned within
    the fuel the model gave it. *)
Inductive fault : Type :=
| OverRead    (** a stream read past the end of the input buffer *)
| OverWrite   (** a stream write past the end of the output buffer *)
| BadAccess   (** a load or store at an address that is not allocated, or of
                  bytes that were never initialised *)
| BadFree     (** free or realloc of a pointer that is not a live block *)
| BadCall     (** a call through a NULL or unknown function pointer *)
| BadPointer  (** use of a descriptor pointer that points to no descriptor *)
| BadShift    (** a shift by the width of its operand or more *)
| BadAssert   (** an assertion that fails *)
| BadInt.     (** a signed [int] that overflows *)

Inductive outcome (A : Type) : Type :=
| Ok (a : A)
| UB (f : fault)
| Timeout.
Arguments Ok {A} _.
Arguments UB {A} _.
Arguments Timeout {A}.

#[global] Instance fault_eq_dec : EqDecision fault.
Proof. solve_decision. Defined.

(** State-passing computations over a state [S]. *)
Definition M (S A : Type) : Type := S -> outcome (A * S).

Definition ret {S A} (a : A) : M S A := fun s => Ok (a, s).
Definition bind {S A B} (c : M S A) (k : A -> M S B) : M S B := fun s =>
  match c s with
  | Ok (a, s') => k a s'
  | UB f => UB f
  | Timeout => Timeout
  end.
Definition get {S} : M S S := fun s => Ok (s, s).
Definition modify {S} (f : S -> S) : M S unit := fun s => Ok (tt, f s).
Definition fails {S A} (f : fault) : M S A := fun _ => UB f.
Definition out_of_fuel {S A} : M S A := fun _ => Timeout.
Definition lift {S A} (o : outcome A) : M S A := fun s =>
  match o with Ok a => Ok (a, s) | UB f => UB f | Timeout => Timeout end.

(** [or_ub f o] is the value in [o], or the fault [f]. *)
Definition or_ub {A} (f : fault) (o : option A) : outcome A :=
  match o with Some a => Ok a | None => UB f end.

Definition obind {A B} (o : outcome A) (k : A -> outcome B) : outcome B :=
  match o with
  | Ok a => k a
  | UB f => UB f
  | Timeout => Timeout
  end.
(** [assert(b)]. *)
Definition assert {A} (b : bool) (k : outcome A) : outcome A := if b then k else UB BadAssert.

(** Addition of [int]s. *)
Definition int_add (a b : Z) : outcome Z :=
  if (- 2 ^ 31 <=? a + b) && (a + b <? 2 ^ 31) then Ok (a + b) else UB BadInt.

(** The result of a computation that uses no state. *)
Definition result {A} (c : M unit A) : outcome A := obind (c tt) (fun r => Ok (fst r)).

Declare Scope pb_scope.
Delimit Scope pb_scope with pb.
Notation "'do' x <- c ; k" := (bind c (fun x => k))
  (at level 10, x pattern, c at level 100, k at level 200) : pb_scope.
Notation "'run' c ; k" := (bind c (fun _ => k))
  (at level 10, c at level 100, k at level 200) : pb_scope.
Notation "'let!' x := c 'in' k" := (obind c (fun x => k))
  (at level 10, x pattern, c at level 100, k at level 200) : pb_scope.
(** [try c; k] is the C idiom [if (!c) return false; k]. *)
Notation "'try' c ; k" := (bind c (fun b : bool => if b then k else ret false))
  (at level 10, c at level 100, k at level 200) : pb_scope.
(** The same for a computation whose success carries a value. *)
Notation "'let?' x := c 'else' d 'in' k" :=
  (bind c (fun o => match o with Some x => k | None => ret d end))
  (at level 10, x pattern, c at level 100, d at level 100, k at level 200) : pb_scope.
#[global] Open Scope pb_scope.

Section Monad.
Context {S A B : Type}.

Lemma bind_Ok (c : M S A) (k : A -> M S B) s a s' :
  c s = Ok (a, s') -> bind c k s = k a s'.
Proof. unfold bind. by intros ->. Qed.

Lemma bind_inv (c : M S A) (k : A -> M S B) s r :
  bind c k s = Ok r -> exists a s', c s = Ok (a, s') /\ k a s' = Ok r.
Proof.
  unfold bind. destruct (c s) as [[a s']| |] eqn:E; try discriminate. eauto.
Qed.

Lemma obind_Ok (o : outcome A) (k : A -> outcome B) r :
  obind o k = Ok r -> exists a, o = Ok a /\ k a = Ok r.
Proof. destruct o; cbn; try discriminate. eauto. Qed.

Lemma ret_bind (a : A) (k : A -> M S B) s : bind (ret a) k s = k a s.
Proof. reflexivity. Qed.
End Monad.

(** Case analysis on the outcome of the computation the goal is stuck on. *)
Ltac case_outcome :=
  match goal with
  | |- context [match ?c with Ok _ => _ | UB _ => _ | Timeout => _ end] =>
      let E := fresh "E" in destruct c as [[? ?]| |] eqn:E; try done
  | H : context [match ?c with Ok _ => _ | UB _ => _ | Timeout => _ end] |- _ =>
      let E := fresh "E" in destruct c as [[? ?]| |] eqn:E; try done
  end.

(** The bytes of a string literal. *)
Definition chars (s : string) : list Z := map (fun c => Z.of_N (Ascii.N_of_ascii c)) (list_ascii_of_string s).

(** ** Fixed-width integers *)

(** [wrap w z] is [z] reduced to a [w]-bit unsigned integer. *)
Definition wrap (w z : Z) : Z := z mod 2 ^ w.
(** [swrap w z] is [z] reduced to a [w]-bit two's complement integer. *)
Definition swrap (w z : Z) : Z := (z + 2 ^ (w - 1)) mod 2 ^ w - 2 ^ (w - 1).

#[global] Arguments Nat.leb : simpl never.
#[global] Arguments Nat.ltb : simpl never.
#[global] Arguments wrap : simpl never.
#[global] Arguments swrap : simpl never.

Definition is_byte (b : Z) : Prop := 0 <= b < 256.
Definition bytes (l : list Z) : Prop := Forall is_byte l.

Lemma wrap_range w z : 0 <= w -> 0 <= wrap w z < 2 ^ w.
Proof. intros. apply Z.mod_pos_bound. lia. Qed.

Lemma wrap_small w z : 0 <= z < 2 ^ w -> wrap w z = z.
Proof. apply Z.mod_small. Qed.

Lemma wrap_wrap w z : wrap w (wrap w z) = wrap w z.
Proof. apply Zmod_mod. Qed.

Lemma swrap_range w z : 0 < w -> - 2 ^ (w - 1) <= swrap w z < 2 ^ (w - 1).
Proof.
  intros. unfold swrap.
  pose proof (Z.mod_pos_bound (z + 2 ^ (w - 1)) (2 ^ w) ltac:(lia)).
  replace (2 ^ w) with (2 * 2 ^ (w - 1)) in *
    by (rewrite <- Z.pow_succ_r by lia; f_equal; lia).
  lia.
Qed.

Lemma swrap_small w z :
  0 < w -> - 2 ^ (w - 1) <= z < 2 ^ (w - 1) -> swrap w z = z.
Proof.
  intros. unfold swrap. rewrite Z.mod_small; [lia|].
  replace (2 ^ w) with (2 * 2 ^ (w - 1))
    by (rewrite <- Z.pow_succ_r by lia; f_equal; lia).
  lia.
Qed.

Lemma swrap_wrap w z : 0 < w -> swrap w (wrap w z) = swrap w z.
Proof. intros. unfold swrap, wrap. by rewrite Zplus_mod_idemp_l. Qed.

Lemma wrap_swrap w z : 0 < w -> wrap w (swrap w z) = wrap w z.
Proof.
  intros. unfold swrap, wrap. rewrite Zminus_mod_idemp_l. f_equal. lia.
Qed.

(** Or-ing a shifted value into the bits above [n] is an addition. *)
Lemma lor_shiftl_add a b n :
  0 <= n -> 0 <= a < 2 ^ n -> Z.lor a (Z.shiftl b n) = a + b * 2 ^ n.
Proof.
  intros Hn Ha. rewrite <- Z.shiftl_mul_pow2 by done.
  assert (Hd : Z.land a (Z.shiftl b n) = 0).
  { apply Z.bits_inj'. intros i Hi. rewrite Z.land_spec, Z.bits_0.
    destruct (Z.ltb_spec i n).
    - by rewrite Z.shiftl_spec_low, andb_false_r by lia.
    - rewrite <- (Z.mod_small a (2 ^ n)), Z.mod_pow2_bits_high by lia. done. }
  rewrite <- Z.lxor_lor by done. symmetry. by apply Z.add_nocarry_lxor.
Qed.

(** Bitwise operations stay within the width. *)
Lemma lor_range a b n : 0 <= a < 2 ^ n -> 0 <= b < 2 ^ n -> 0 <= Z.lor a b < 2 ^ n.
Proof.
  intros Ha Hb. destruct (Z.ltb_spec n 0); [rewrite Z.pow_neg_r in Ha; lia|].
  assert (H0 : 0 <= Z.lor a b) by (apply Z.lor_nonneg; lia). split; [done|].
  assert (Hm : Z.lor a b mod 2 ^ n = Z.lor a b); [|rewrite <- Hm; apply Z.mod_pos_bound; lia].
  rewrite <- Z.land_ones, Z.land_lor_distr_l, !Z.land_ones, !Z.mod_small by lia. done.
Qed.

Lemma lxor_range a b n : 0 <= a < 2 ^ n -> 0 <= b < 2 ^ n -> 0 <= Z.lxor a b < 2 ^ n.
Proof.
  intros Ha Hb. destruct (Z.ltb_spec n 0); [rewrite Z.pow_neg_r in Ha; lia|].
  assert (H0 : 0 <= Z.lxor a b) by (apply Z.lxor_nonneg; lia). split; [done|].
  assert (Hm : Z.lxor a b mod 2 ^ n = Z.lxor a b); [|rewrite <- Hm; apply Z.mod_pos_bound; lia].
  rewrite <- Z.land_ones by lia. apply Z.bits_inj'. intros i Hi.
  rewrite Z.land_spec, Z.lxor_spec. destruct (Z.ltb_spec i n).
  - rewrite Z.ones_spec_low by lia. by rewrite andb_true_r.
  - rewrite Z.ones_spec_high by lia. rewrite andb_false_r.
    rewrite <- (Z.mod_small a (2 ^ n)), <- (Z.mod_small b (2 ^ n)) by lia.
    by rewrite !Z.mod_pow2_bits_high by lia.
Qed.

Lemma land_127 z : Z.land z 0x7F = z mod 128.
Proof. apply (Z.land_ones z 7). lia. Qed.

Lemma land_255 z : Z.land z 0xFF = z mod 256.
Proof. apply (Z.land_ones z 8). lia. Qed.

Lemma shiftr_div z n : 0 <= n -> Z.shiftr z n = z / 2 ^ n.
Proof. apply Z.shiftr_div_pow2. Qed.

(** Facts about a finite range, by evaluation. *)
Lemma range_cases n (P : Z -> bool) :
  forallb P (map Z.of_nat (seq 0 n)) = true -> forall i, 0 <= i < Z.of_nat n -> P i = true.
Proof.
  rewrite forallb_forall. intros Hall i Hi. apply Hall, in_map_iff.
  exists (Z.to_nat i). split; [lia|]. apply in_seq. lia.
Qed.

(** Linear goals about quotients and remainders by constants. *)
Ltac euclid := Z.to_euclidean_division_equations; lia.

(** ** Little-endian byte strings *)

Fixpoint le_bytes (n : nat) (z : Z) : list Z :=
  match n with
  | O => []
  | S n' => z mod 256 :: le_bytes n' (z / 256)
  end.

Fixpoint of_le (bs : list Z) : Z :=
  match bs with
  | [] => 0
  | b :: bs' => b + 256 * of_le bs'
  end.

Lemma length_le_bytes n z : length (le_bytes n z) = n.
Proof. revert z. induction n; simpl; auto. Qed.

Lemma le_bytes_bytes n z : bytes (le_bytes n z).
Proof.
  revert z. induction n as [|n IH]; intros z; constructor; [|apply IH].
  apply Z.mod_pos_bound. lia.
Qed.

Lemma of_le_bytes n z : of_le (le_bytes n z) = z mod 256 ^ Z.of_nat n.
Proof.
  revert z. induction n as [|n IH]; intros z.
  - simpl. by rewrite Z.mod_1_r.
  - cbn [le_bytes of_le]. rewrite IH, Nat2Z.inj_succ, Z.pow_succ_r by lia.
    rewrite Z.rem_mul_r by lia. done.
Qed.

Lemma of_le_range bs : bytes bs -> 0 <= of_le bs < 256 ^ Z.of_nat (length bs).
Proof.
  induction 1 as [|b bs Hb _ IH]; [simpl; lia|].
  cbn [of_le length]. rewrite Nat2Z.inj_succ, Z.pow_succ_r by lia.
  unfold is_byte in Hb. lia.
Qed.

Lemma le_bytes_of_le bs : bytes bs -> le_bytes (length bs) (of_le bs) = bs.
Proof.
  induction 1 as [|b bs Hb _ IH]; [done|].
  cbn [of_le length le_bytes]. unfold is_byte in Hb.
  rewrite (Z.mul_comm 256), Z.mod_add, Z.div_add, Z.mod_small, Z.div_small by lia.
  rewrite Z.add_0_l. by rewrite IH.
Qed.

(** ** Lists *)

Definition zlen {A} (l : list A) : Z := Z.of_nat (length l).

#[global] Arguments zlen : simpl never.

Lemma zlen_nonneg {A} (l : list A) : 0 <= zlen l.
Proof. unfold zlen. lia. Qed.

Lemma zlen_app {A} (l k : list A) : zlen (l ++ k) = zlen l + zlen k.
Proof. unfold zlen. rewrite length_app. lia. Qed.

Lemma zlen_cons {A} (x : A) l : zlen (x :: l) = 1 + zlen l.
Proof. unfold zlen. simpl length. lia. Qed.

Lemma zlen_nil A : zlen (@nil A) = 0.
Proof. done. Qed.

(** [overwrite buf pos bs] is [buf] with [bs] stored from index [pos] on. *)
Definition overwrite (buf : list Z) (pos : nat) (bs : list Z) : list Z :=
  take pos buf ++ bs ++ drop (pos + length bs) buf.

Lemma length_overwrite buf pos bs :
  (pos + length bs <= length buf)%nat -> length (overwrite buf pos bs) = length buf.
Proof.
  intros. unfold overwrite. rewrite !length_app, length_take, length_drop. lia.
Qed.

Lemma overwrite_nil buf pos : overwrite buf pos [] = buf.
Proof. unfold overwrite. simpl. rewrite Nat.add_0_r. apply take_drop. Qed.

Lemma overwrite_app buf pos a b :
  (pos + length a + length b <= length buf)%nat ->
  overwrite (overwrite buf pos a) (pos + length a) b = overwrite buf pos (a ++ b).
Proof.
  intros. unfold overwrite. rewrite length_app.
  assert (Hl : length (take pos buf) = pos) by (rewrite length_take; lia).
  rewrite (take_app_ge _ _ (pos + length a)), Hl by lia.
  replace (pos + length a - pos)%nat with (length a) by lia.
  rewrite take_app_length, <- !app_assoc. f_equal. f_equal. f_equal.
  rewrite (drop_app_ge (take pos buf)), Hl by lia.
  rewrite drop_app_ge by lia. rewrite drop_drop. f_equal. lia.
Qed.

Lemma take_overwrite buf pos bs :
  (pos <= length buf)%nat -> take pos (overwrite buf pos bs) = take pos buf.
Proof.
  intros. unfold overwrite. rewrite take_app_le by (rewrite length_take; lia).
  rewrite take_take. f_equal. lia.
Qed.

Lemma drop_overwrite buf pos bs n :
  (pos + length bs <= n)%nat -> (pos <= length buf)%nat ->
  drop n (overwrite buf pos bs) = drop n buf.
Proof.
  intros. unfold overwrite.
  rewrite drop_app_ge, length_take by (rewrite length_take; lia).
  rewrite drop_app_ge by lia. rewrite drop_drop. f_equal. lia.
Qed.

Create Rewrite HintDb zlen.
#[global] Hint Rewrite @zlen_app @zlen_cons @zlen_nil @length_app @length_le_bytes
  : zlen.
