(* ===== verification/Base128.v ===== *)
(** * Base-128 integers

    The variable-length integers of the protobuf wire format and of LevelDB's
    files: the reference both codecs are compared with. *)
From S2P Require Import Prelude.

(** At most [n] bytes, least significant group first; every byte but the
    last has its high bit set. *)
Fixpoint varint_n (n : nat) (z : Z) : list Z :=
  match n with
  | O => []
  | S n' => if z <? 128 then [z] else (128 + z mod 128) :: varint_n n' (z / 128)
  end.
Definition varint (z : Z) : list Z := varint_n 10 z.

Lemma varint_n_cons n v :
  varint_n (S n) v = if v <? 128 then [v] else (128 + v mod 128) :: varint_n n (v / 128).
Proof. done. Qed.

Lemma varint_n_shape n v :
  (0 < n)%nat -> 0 <= v < 2 ^ (7 * Z.of_nat n) ->
  exists l b, varint_n n v = l ++ [b] /\ Forall (fun x => 128 <= x < 256) l /\ 0 <= b < 128 /\
    (length l < n)%nat.
Proof.
  revert v. induction n as [|n IH]; intros v Hn Hv; [lia|]. cbn [varint_n].
  destruct (Z.ltb_spec v 128) as [|Hge].
  { exists [], v. split; [done|]. split; [constructor|]. simpl. lia. }
  assert (Hd : 0 <= v / 128 < 2 ^ (7 * Z.of_nat n)).
  { split; [apply Z.div_pos; lia|]. apply Z.div_lt_upper_bound; [lia|].
    change 128 with (2 ^ 7). rewrite <- Z.pow_add_r by lia.
    replace (7 + 7 * Z.of_nat n) with (7 * Z.of_nat (S n)) by lia. lia. }
  destruct n as [|n]; [change (2 ^ (7 * Z.of_nat 0)) with 1 in Hd; pose proof (Z.div_mod v 128 ltac:(lia));
    pose proof (Z.mod_pos_bound v 128 ltac:(lia)); lia|].
  destruct (IH (v / 128) ltac:(lia) Hd) as (l & b & -> & Hl & Hb & Hlen).
  pose proof (Z.mod_pos_bound v 128 ltac:(lia)).
  exists ((128 + v mod 128) :: l), b. split; [done|]. split; [constructor; [lia|done]|].
  simpl. lia.
Qed.

Lemma varint_nonempty v : 1 <= zlen (varint v).
Proof.
  unfold varint. cbn [varint_n]. destruct (v <? 128); rewrite zlen_cons;
    [pose proof (zlen_nonneg (@nil Z))|pose proof (zlen_nonneg (varint_n 9 (v / 128)))]; 
    cbn [varint_n] in *; lia.
Qed.

Lemma zlen_varint v : 0 <= v < 2 ^ 64 -> zlen (varint v) <= 10.
Proof.
  intros Hv. destruct (varint_n_shape 10 v ltac:(lia)) as (l & b & El & _ & _ & Hlen).
  { change (2 ^ (7 * Z.of_nat 10)) with (2 ^ 70). lia. }
  change (varint_n 10 v) with (varint v) in El. rewrite El, zlen_app. unfold zlen. simpl length. lia.
Qed.

Lemma varint_bytes v : 0 <= v < 2 ^ 64 -> bytes (varint v).
Proof.
  intros Hv. destruct (varint_n_shape 10 v ltac:(lia)) as (l & b & El & Hl & Hb & _).
  { change (2 ^ (7 * Z.of_nat 10)) with (2 ^ 70). lia. }
  change (varint_n 10 v) with (varint v) in El. rewrite El. apply Forall_app. split; [|apply Forall_singleton; unfold is_byte; lia].
  eapply Forall_impl; [exact Hl|]. cbn. unfold is_byte. lia.
Qed.
