(* ===== verification/Types.v ===== *)
(** * Field descriptors and constants ([pb.h])

    The compile-time configuration is the one of the project's [xcconfig]
    files: [PB_FIELD_32BIT], [PB_NO_PACKED_STRUCTS] and [PB_ENABLE_MALLOC]
    are defined and every other option keeps its default.  The platform is
    the 64-bit iOS ABI (LP64, little endian): [size_t] and pointers have
    eight bytes, [bool] has one. *)
From S2P Require Import Prelude.

(** ** Sizes of the C types *)
Definition sizeof_bool : Z := 1.
Definition sizeof_ptr : Z := 8.
Definition sizeof_pb_size_t : Z := 4.
Definition NULL : Z := 0.
Definition SIZE_T_MAX : Z := 2 ^ 64 - 1.

(** [PB_MAX_REQUIRED_FIELDS]. *)
Definition PB_MAX_REQUIRED_FIELDS : Z := 64.

(** ** Field data types *)
Definition PB_LTYPE_BOOL : Z := 0x00.
Definition PB_LTYPE_VARINT : Z := 0x01.
Definition PB_LTYPE_UVARINT : Z := 0x02.
Definition PB_LTYPE_SVARINT : Z := 0x03.
Definition PB_LTYPE_FIXED32 : Z := 0x04.
Definition PB_LTYPE_FIXED64 : Z := 0x05.
Definition PB_LTYPE_LAST_PACKABLE : Z := 0x05.
Definition PB_LTYPE_BYTES : Z := 0x06.
Definition PB_LTYPE_STRING : Z := 0x07.
Definition PB_LTYPE_SUBMESSAGE : Z := 0x08.
Definition PB_LTYPE_EXTENSION : Z := 0x09.
Definition PB_LTYPE_FIXED_LENGTH_BYTES : Z := 0x0A.
Definition PB_LTYPES_COUNT : Z := 0x0B.
Definition PB_LTYPE_MASK : Z := 0x0F.

(** Field repetition rules. *)
Definition PB_HTYPE_REQUIRED : Z := 0x00.
Definition PB_HTYPE_OPTIONAL : Z := 0x10.
Definition PB_HTYPE_REPEATED : Z := 0x20.
Definition PB_HTYPE_ONEOF : Z := 0x30.
Definition PB_HTYPE_MASK : Z := 0x30.

(** Field allocation types. *)
Definition PB_ATYPE_STATIC : Z := 0x00.
Definition PB_ATYPE_POINTER : Z := 0x80.
Definition PB_ATYPE_CALLBACK : Z := 0x40.
Definition PB_ATYPE_MASK : Z := 0xC0.

Definition PB_ATYPE (x : Z) : Z := Z.land x PB_ATYPE_MASK.
Definition PB_HTYPE (x : Z) : Z := Z.land x PB_HTYPE_MASK.
Definition PB_LTYPE (x : Z) : Z := Z.land x PB_LTYPE_MASK.

(** [(pb_size_t)-1] with a 32-bit [pb_size_t]. *)
Definition PB_SIZE_MAX : Z := wrap 32 (-1).

(** ** Wire types *)
Definition PB_WT_VARINT : Z := 0.
Definition PB_WT_64BIT : Z := 1.
Definition PB_WT_STRING : Z := 2.
Definition PB_WT_32BIT : Z := 5.

(** ** Descriptors *)

(** [ptr] is the address of the submessage's descriptor array, of a default
    value, or NULL. *)
Record pb_field_t : Type := mk_field {
  tag : Z;          (** pb_size_t *)
  type : Z;         (** pb_type_t *)
  data_offset : Z;  (** pb_size_t *)
  size_offset : Z;  (** pb_ssize_t *)
  data_size : Z;    (** pb_size_t *)
  array_size : Z;   (** pb_size_t *)
  ptr : Z           (** const void * *)
}.

#[global] Instance pb_field_t_eq_dec : EqDecision pb_field_t.
Proof. solve_decision. Defined.

(** The terminator of every descriptor array. *)
Definition PB_LAST_FIELD : pb_field_t := mk_field 0 0 0 0 0 0 0.

(** [pb_bytes_array_t]: a [pb_size_t] size and then the bytes. *)
Definition offsetof_bytes : Z := 4.
Definition PB_BYTES_ARRAY_T_ALLOCSIZE (n : Z) : Z := wrap 64 (wrap 64 n + offsetof_bytes).

(** [pb_callback_t]: the function pointer and then the user's argument. *)
Definition offsetof_funcs : Z := 0.
Definition offsetof_arg : Z := 8.

(** [pb_extension_type_t]. *)
Record pb_extension_type_t : Type := mk_ext_type {
  ext_decode : Z;  (** function pointer or NULL *)
  ext_encode : Z;  (** function pointer or NULL *)
  ext_arg : Z      (** address of the descriptor of the extension field *)
}.

(** [pb_extension_t] lives in memory; these are its member offsets. *)
Definition ext_off_type : Z := 0.
Definition ext_off_dest : Z := 8.
Definition ext_off_next : Z := 16.
Definition ext_off_found : Z := 24.

(** The constant data of the program image: descriptor arrays and extension
    types, by address. *)
Class Image := {
  fields_at : Z -> option (list pb_field_t);
  ext_type_at : Z -> option pb_extension_type_t
}.

(** ** Struct layout and the descriptor macros

    [offsetof] and [sizeof] are computed by the compiler from the struct
    declaration; this is the layout rule of the ABI (members in order, each
    at the next multiple of its alignment). *)
Inductive ctype : Type :=
| CInt (size : Z)            (** integers and enums: aligned to their size *)
| CPtr (pointee : Z)         (** pointer to an object of that size *)
| CArray (elem : Z) (align : Z) (n : Z)
| CStruct (size align : Z).

Definition csize (t : ctype) : Z :=
  match t with
  | CInt s => s
  | CPtr _ => sizeof_ptr
  | CArray e _ n => e * n
  | CStruct s _ => s
  end.
Definition calign (t : ctype) : Z :=
  match t with
  | CInt s => s
  | CPtr _ => sizeof_ptr
  | CArray _ a _ => a
  | CStruct _ a => a
  end.
(** [sizeof] of [m[0]]. *)
Definition celem (t : ctype) : Z :=
  match t with
  | CInt s => s
  | CPtr e => e
  | CArray e _ _ => e
  | CStruct s _ => s
  end.
Definition align_up (o a : Z) : Z := (o + a - 1) / a * a.

Definition struct_decl : Type := list (string * ctype).

Fixpoint offsetof_from (o : Z) (st : struct_decl) (m : string) : Z :=
  match st with
  | [] => 0
  | (n, t) :: st' =>
      let o' := align_up o (calign t) in
      if String.eqb n m then o' else offsetof_from (o' + csize t) st' m
  end.
Definition offsetof (st : struct_decl) (m : string) : Z := offsetof_from 0 st m.

Definition member (st : struct_decl) (m : string) : ctype :=
  match List.find (fun p => String.eqb (fst p) m) st with
  | Some (_, t) => t
  | None => CInt 0
  end.

Definition struct_align (st : struct_decl) : Z :=
  List.fold_left (fun a p => Z.max a (calign (snd p))) st 1.
Fixpoint struct_end (o : Z) (st : struct_decl) : Z :=
  match st with
  | [] => o
  | (_, t) :: st' => struct_end (align_up o (calign t) + csize t) st'
  end.
Definition struct_size (st : struct_decl) : Z :=
  align_up (struct_end 0 st) (struct_align st).
Definition struct_type (st : struct_decl) : ctype :=
  CStruct (struct_size st) (struct_align st).

Definition pb_membersize (st : struct_decl) (m : string) : Z := csize (member st m).
Definition pb_elemsize (st : struct_decl) (m : string) : Z := celem (member st m).
Definition pb_arraysize (st : struct_decl) (m : string) : Z :=
  pb_membersize st m / pb_elemsize st m.
(** [(int)offsetof(st, m1) - (int)offsetof(st, m2)]. *)
Definition pb_delta (st : struct_decl) (m1 m2 : string) : Z :=
  offsetof st m1 - offsetof st m2.

Inductive placement : Type := FIRST | OTHER | UNION.

Definition PB_DATAOFFSET_FIRST (st : struct_decl) (m1 m2 : string) : Z :=
  offsetof st m1.
Definition PB_DATAOFFSET_OTHER (st : struct_decl) (m1 m2 : string) : Z :=
  wrap 32 (offsetof st m1 - offsetof st m2 - pb_membersize st m2).
Definition PB_DATAOFFSET_UNION (st : struct_decl) (m1 m2 : string) : Z :=
  PB_SIZE_MAX.
Definition PB_DATAOFFSET (p : placement) : struct_decl -> string -> string -> Z :=
  match p with
  | FIRST => PB_DATAOFFSET_FIRST
  | OTHER => PB_DATAOFFSET_OTHER
  | UNION => PB_DATAOFFSET_UNION
  end.

(** [has_ ## m] and [m ## _count]. *)
Definition has_ (m : string) : string := ("has_" ++ m)%string.
Definition _count (m : string) : string := (m ++ "_count")%string.

Section FieldMacros.
Context (tg : Z) (st : struct_decl) (m : string) (fd ltype pt : Z).

Definition PB_REQUIRED_STATIC : pb_field_t :=
  mk_field tg (Z.lor PB_ATYPE_STATIC (Z.lor PB_HTYPE_REQUIRED ltype))
    fd 0 (pb_membersize st m) 0 pt.

Definition PB_OPTIONAL_STATIC : pb_field_t :=
  mk_field tg (Z.lor PB_ATYPE_STATIC (Z.lor PB_HTYPE_OPTIONAL ltype))
    fd (pb_delta st (has_ m) m) (pb_membersize st m) 0 pt.

Definition PB_SINGULAR_STATIC : pb_field_t :=
  mk_field tg (Z.lor PB_ATYPE_STATIC (Z.lor PB_HTYPE_OPTIONAL ltype))
    fd 0 (pb_membersize st m) 0 pt.

Definition PB_REPEATED_STATIC : pb_field_t :=
  mk_field tg (Z.lor PB_ATYPE_STATIC (Z.lor PB_HTYPE_REPEATED ltype))
    fd (pb_delta st (_count m) m) (pb_elemsize st m) (pb_arraysize st m) pt.

Definition PB_REQUIRED_POINTER : pb_field_t :=
  mk_field tg (Z.lor PB_ATYPE_POINTER (Z.lor PB_HTYPE_REQUIRED ltype))
    fd 0 (pb_elemsize st m) 0 pt.

Definition PB_OPTIONAL_POINTER : pb_field_t :=
  mk_field tg (Z.lor PB_ATYPE_POINTER (Z.lor PB_HTYPE_OPTIONAL ltype))
    fd 0 (pb_elemsize st m) 0 pt.

Definition PB_SINGULAR_POINTER : pb_field_t :=
  mk_field tg (Z.lor PB_ATYPE_POINTER (Z.lor PB_HTYPE_OPTIONAL ltype))
    fd 0 (pb_elemsize st m) 0 pt.

Definition PB_REPEATED_POINTER : pb_field_t :=
  mk_field tg (Z.lor PB_ATYPE_POINTER (Z.lor PB_HTYPE_REPEATED ltype))
    fd (pb_delta st (_count m) m) (pb_elemsize st m) 0 pt.

Definition PB_REQUIRED_CALLBACK : pb_field_t :=
  mk_field tg (Z.lor PB_ATYPE_CALLBACK (Z.lor PB_HTYPE_REQUIRED ltype))
    fd 0 (pb_membersize st m) 0 pt.

Definition PB_OPTIONAL_CALLBACK : pb_field_t :=
  mk_field tg (Z.lor PB_ATYPE_CALLBACK (Z.lor PB_HTYPE_OPTIONAL ltype))
    fd 0 (pb_membersize st m) 0 pt.

Definition PB_SINGULAR_CALLBACK : pb_field_t :=
  mk_field tg (Z.lor PB_ATYPE_CALLBACK (Z.lor PB_HTYPE_OPTIONAL ltype))
    fd 0 (pb_membersize st m) 0 pt.

Definition PB_REPEATED_CALLBACK : pb_field_t :=
  mk_field tg (Z.lor PB_ATYPE_CALLBACK (Z.lor PB_HTYPE_REPEATED ltype))
    fd 0 (pb_membersize st m) 0 pt.

Definition PB_OPTEXT_STATIC : pb_field_t :=
  mk_field tg (Z.lor PB_ATYPE_STATIC (Z.lor PB_HTYPE_REQUIRED ltype))
    0 0 (pb_membersize st m) 0 pt.

Definition PB_OPTEXT_POINTER : pb_field_t := PB_OPTIONAL_POINTER.
Definition PB_OPTEXT_CALLBACK : pb_field_t := PB_OPTIONAL_CALLBACK.
End FieldMacros.

(** Field types of the descriptor macros and their mapping to LTYPEs. *)
Inductive ftype : Type :=
| BOOL | BYTES | DOUBLE | ENUM | UENUM | FIXED32 | FIXED64 | FLOAT | INT32
| INT64 | MESSAGE | SFIXED32 | SFIXED64 | SINT32 | SINT64 | STRING | UINT32
| UINT64 | EXTENSION | FIXED_LENGTH_BYTES.

Definition PB_LTYPE_MAP (t : ftype) : Z :=
  match t with
  | BOOL => PB_LTYPE_BOOL
  | BYTES => PB_LTYPE_BYTES
  | DOUBLE => PB_LTYPE_FIXED64
  | ENUM => PB_LTYPE_VARINT
  | UENUM => PB_LTYPE_UVARINT
  | FIXED32 => PB_LTYPE_FIXED32
  | FIXED64 => PB_LTYPE_FIXED64
  | FLOAT => PB_LTYPE_FIXED32
  | INT32 => PB_LTYPE_VARINT
  | INT64 => PB_LTYPE_VARINT
  | MESSAGE => PB_LTYPE_SUBMESSAGE
  | SFIXED32 => PB_LTYPE_FIXED32
  | SFIXED64 => PB_LTYPE_FIXED64
  | SINT32 => PB_LTYPE_SVARINT
  | SINT64 => PB_LTYPE_SVARINT
  | STRING => PB_LTYPE_STRING
  | UINT32 => PB_LTYPE_UVARINT
  | UINT64 => PB_LTYPE_UVARINT
  | EXTENSION => PB_LTYPE_EXTENSION
  | FIXED_LENGTH_BYTES => PB_LTYPE_FIXED_LENGTH_BYTES
  end.

Inductive frules : Type := REQUIRED | OPTIONAL | SINGULAR | REPEATED | OPTEXT.
Inductive falloc : Type := STATIC | POINTER | CALLBACK.

(** [PB_ ## rules ## _ ## allocation]. *)
Definition PB_rules_allocation (r : frules) (a : falloc) :
    Z -> struct_decl -> string -> Z -> Z -> Z -> pb_field_t :=
  match r, a with
  | REQUIRED, STATIC => PB_REQUIRED_STATIC
  | OPTIONAL, STATIC => PB_OPTIONAL_STATIC
  | SINGULAR, STATIC => PB_SINGULAR_STATIC
  | REPEATED, STATIC => PB_REPEATED_STATIC
  | REQUIRED, POINTER => PB_REQUIRED_POINTER
  | OPTIONAL, POINTER => PB_OPTIONAL_POINTER
  | SINGULAR, POINTER => PB_SINGULAR_POINTER
  | REPEATED, POINTER => PB_REPEATED_POINTER
  | REQUIRED, CALLBACK => PB_REQUIRED_CALLBACK
  | OPTIONAL, CALLBACK => PB_OPTIONAL_CALLBACK
  | SINGULAR, CALLBACK => PB_SINGULAR_CALLBACK
  | REPEATED, CALLBACK => PB_REPEATED_CALLBACK
  | OPTEXT, STATIC => fun tg st m _ l p => PB_OPTEXT_STATIC tg st m l p
  | OPTEXT, POINTER => PB_OPTEXT_POINTER
  | OPTEXT, CALLBACK => PB_OPTEXT_CALLBACK
  end.

Definition PB_FIELD (tg : Z) (t : ftype) (r : frules) (a : falloc) (p : placement)
    (message : struct_decl) (field prevfield : string) (pt : Z) : pb_field_t :=
  PB_rules_allocation r a tg message field
    (PB_DATAOFFSET p message field prevfield) (PB_LTYPE_MAP t) pt.

Definition PB_REPEATED_FIXED_COUNT (tg : Z) (t : ftype) (p : placement)
    (message : struct_decl) (field prevfield : string) (pt : Z) : pb_field_t :=
  mk_field tg (Z.lor PB_ATYPE_STATIC (Z.lor PB_HTYPE_REPEATED (PB_LTYPE_MAP t)))
    (PB_DATAOFFSET p message field prevfield) 0 (pb_elemsize message field)
    (pb_arraysize message field) pt.

(** ** Error reporting

    [PB_SET_ERROR] keeps the first message. *)
Definition set_error (cur : option string) (msg : string) : option string :=
  match cur with
  | Some e => Some e
  | None => Some msg
  end.
Definition PB_GET_ERROR (e : option string) : string :=
  match e with
  | Some m => m
  | None => "(none)"
  end.
