(* ===== verification/Mem.v ===== *)
(** * Memory of the C program

    Messages are C structs reached through [void *], so the model keeps a flat
    byte memory: an address maps to an allocated byte, which may still be
    uninitialised.  [realloc] and [free] keep the table of live heap blocks.
    An access outside allocated memory, or the value of an uninitialised
    byte, is undefined behaviour. *)
From S2P Require Import Prelude Types.

(** ** Ranges of cells *)
Section Cells.
Implicit Types (c : gmap Z (option Z)) (a x : Z).

Fixpoint put_cells c a (vs : list (option Z)) : gmap Z (option Z) :=
  match vs with
  | [] => c
  | v :: vs' => <[a := v]> (put_cells c (a + 1) vs')
  end.

Fixpoint del_cells c a (n : nat) : gmap Z (option Z) :=
  match n with
  | O => c
  | S n' => delete a (del_cells c (a + 1) n')
  end.

(** The raw contents, uninitialised bytes included. *)
Fixpoint get_cells c a (n : nat) : list (option Z) :=
  match n with
  | O => []
  | S n' => default None (c !! a) :: get_cells c (a + 1) n'
  end.

Fixpoint range_ok c a (n : nat) : bool :=
  match n with
  | O => true
  | S n' => bool_decide (is_Some (c !! a)) && range_ok c (a + 1) n'
  end.

Fixpoint read_cells c a (n : nat) : option (list Z) :=
  match n with
  | O => Some []
  | S n' =>
      match c !! a, read_cells c (a + 1) n' with
      | Some (Some b), Some bs => Some (b :: bs)
      | _, _ => None
      end
  end.

Lemma lookup_put_cells c a vs x :
  put_cells c a vs !! x =
    if decide (a <= x < a + zlen vs) then vs !! Z.to_nat (x - a) else c !! x.
Proof.
  revert a. induction vs as [|v vs IH]; intros a; cbn [put_cells].
  - rewrite zlen_nil. by rewrite decide_False by lia.
  - rewrite lookup_insert, zlen_cons, IH. pose proof (zlen_nonneg vs).
    destruct (decide (a = x)) as [->|].
    + rewrite decide_True by lia. by rewrite Z.sub_diag.
    + destruct (decide (a + 1 <= x < a + 1 + zlen vs)).
      * rewrite decide_True by lia.
        replace (Z.to_nat (x - a)) with (S (Z.to_nat (x - (a + 1)))) by lia.
        done.
      * by rewrite decide_False by lia.
Qed.

Lemma lookup_put_cells_out c a vs x :
  x < a \/ a + zlen vs <= x -> put_cells c a vs !! x = c !! x.
Proof. intros. rewrite lookup_put_cells. by rewrite decide_False by lia. Qed.

Lemma lookup_del_cells c a n x :
  del_cells c a n !! x =
    if decide (a <= x < a + Z.of_nat n) then None else c !! x.
Proof.
  revert a. induction n as [|n IH]; intros a; cbn [del_cells].
  - by rewrite decide_False by lia.
  - rewrite lookup_delete, IH. repeat case_decide; try done; lia.
Qed.

Lemma lookup_get_cells c a n i :
  get_cells c a n !! i =
    if decide (i < n)%nat then Some (default None (c !! (a + Z.of_nat i))) else None.
Proof.
  revert a i. induction n as [|n IH]; intros a i; cbn [get_cells].
  - by rewrite decide_False by lia.
  - destruct i as [|i]; cbn [lookup list_lookup].
    + rewrite decide_True by lia. by rewrite Z.add_0_r.
    + rewrite IH. replace (a + 1 + Z.of_nat i) with (a + Z.of_nat (S i)) by lia.
      repeat case_decide; done || lia.
Qed.

Lemma length_get_cells c a n : length (get_cells c a n) = n.
Proof. revert a. induction n; intros; simpl; auto. Qed.

Lemma range_ok_spec c a n :
  range_ok c a n = true <-> forall x, a <= x < a + Z.of_nat n -> is_Some (c !! x).
Proof.
  revert a. induction n as [|n IH]; intros a; cbn [range_ok].
  - split; [intros _ x; lia|done].
  - rewrite andb_true_iff, bool_decide_eq_true, IH. split.
    + intros [Ha Hr] x Hx. destruct (decide (x = a)) as [->|]; [done|].
      apply Hr. lia.
    + intros H. split; [apply H; lia|]. intros x Hx. apply H. lia.
Qed.

Lemma read_cells_spec c a n bs :
  read_cells c a n = Some bs <->
    length bs = n /\
    forall i, (i < n)%nat -> exists b, bs !! i = Some b /\ c !! (a + Z.of_nat i) = Some (Some b).
Proof.
  revert a bs. induction n as [|n IH]; intros a bs; cbn [read_cells].
  - split.
    + intros [= <-]. split; [done|]. intros i Hi. lia.
    + intros [Hl _]. by destruct bs.
  - split.
    + intros H. destruct (c !! a) as [[b|]|] eqn:Ha; try discriminate.
      destruct (read_cells c (a + 1) n) as [r|] eqn:Hr; try discriminate.
      injection H as <-. apply IH in Hr as [Hl Hi]. split; [by rewrite <- Hl|].
      intros [|i] Hlt.
      * exists b. by rewrite Z.add_0_r.
      * replace (a + Z.of_nat (S i)) with (a + 1 + Z.of_nat i) by lia.
        cbn [lookup list_lookup]. apply Hi. lia.
    + intros [Hl Hi]. destruct bs as [|b bs]; [done|].
      destruct (Hi 0%nat ltac:(lia)) as (b' & [= ->] & Hb).
      rewrite Z.add_0_r in Hb. rewrite Hb.
      assert (Hr : read_cells c (a + 1) n = Some bs).
      { apply IH. split; [simpl in Hl; lia|]. intros i Hlt.
        destruct (Hi (S i) ltac:(lia)) as (x & Hx & Hc).
        exists x. split; [done|].
        by replace (a + 1 + Z.of_nat i) with (a + Z.of_nat (S i)) by lia. }
      by rewrite Hr.
Qed.
End Cells.

(** ** Memory *)
Record mem : Type := mk_mem {
  cells : gmap Z (option Z);
  heap : gmap Z Z;   (** live blocks: base address to size *)
  brk : Z            (** no allocation lies at or above this address *)
}.

Definition with_cells (f : gmap Z (option Z) -> gmap Z (option Z)) (m : mem) : mem :=
  mk_mem (f (cells m)) (heap m) (brk m).

Definition load_bytes (m : mem) (a n : Z) : option (list Z) :=
  read_cells (cells m) a (Z.to_nat n).

(** Little-endian loads of [n] bytes. *)
Definition load (m : mem) (a n : Z) : option Z := of_le <$> load_bytes m a n.
(** ... as a two's complement integer. *)
Definition load_signed (m : mem) (a n : Z) : option Z :=
  (fun z => swrap (8 * n) z) <$> load m a n.
Definition load_ptr (m : mem) (a : Z) : option Z := load m a sizeof_ptr.
Definition rd {A} (f : mem -> option A) (m : mem) : outcome A := or_ub BadAccess (f m).
Definition load_size (m : mem) (a : Z) : option Z := load m a sizeof_pb_size_t.

Definition store_bytes (m : mem) (a : Z) (bs : list Z) : option mem :=
  if range_ok (cells m) a (length bs)
  then Some (with_cells (fun c => put_cells c a (map Some bs)) m)
  else None.
Definition store (m : mem) (a n v : Z) : option mem :=
  store_bytes m a (le_bytes (Z.to_nat n) v).
Definition store_ptr (m : mem) (a v : Z) : option mem := store m a sizeof_ptr v.
Definition store_size (m : mem) (a v : Z) : option mem := store m a sizeof_pb_size_t v.
Definition store_bool (m : mem) (a : Z) (b : bool) : option mem :=
  store m a sizeof_bool (if b then 1 else 0).
(** [memset(a, 0, n)]. *)
Definition memset0 (m : mem) (a n : Z) : option mem :=
  store_bytes m a (replicate (Z.to_nat n) 0).
(** [memcpy(dst, src, n)]. *)
Definition memcpy (m : mem) (dst src n : Z) : option mem :=
  bs ← load_bytes m src n; store_bytes m dst bs.

(** ** Heap

    Whether an allocation succeeds is decided by the environment. *)
Class Allocator := alloc_ok : mem -> Z -> bool.

Definition align16 (a : Z) : Z := (a + 15) / 16 * 16.

(** A new block with the given raw contents, above every other one. *)
Definition new_block (m : mem) (vs : list (option Z)) : Z * mem :=
  let p := brk m in
  (p, mk_mem (put_cells (cells m) p vs) (<[p := zlen vs]> (heap m))
        (align16 (p + zlen vs))).

(** [free(p)]; [None] when [p] is not a live block. *)
Definition pb_free (m : mem) (p : Z) : option mem :=
  if bool_decide (p = NULL) then Some m
  else
    match heap m !! p with
    | Some n => Some (mk_mem (del_cells (cells m) p (Z.to_nat n)) (delete p (heap m)) (brk m))
    | None => None
    end.

(** [realloc(p, n)] for [n > 0]: the new block's address (NULL when the
    allocation failed, in which case the old block is untouched).  A
    successful [realloc] always moves the block, which C allows and which is
    the choice that exposes stale pointers. *)
Definition pb_realloc `{Allocator} (m : mem) (p n : Z) : option (Z * mem) :=
  if bool_decide (p = NULL) then
    if alloc_ok m n then Some (new_block m (replicate (Z.to_nat n) None))
    else Some (NULL, m)
  else
    match heap m !! p with
    | None => None
    | Some old =>
        if alloc_ok m n then
          let kept := get_cells (cells m) p (Z.to_nat (Z.min old n)) in
          let fresh := replicate (Z.to_nat (n - old)) None in
          let '(q, m1) := new_block m (kept ++ fresh) in
          m2 ← pb_free m1 p; Some (q, m2)
        else Some (NULL, m)
    end.

(** ** Well-formed memories *)
Record mem_wf (m : mem) : Prop := {
  wf_brk : 0 < brk m;
  wf_cells : forall a, is_Some (cells m !! a) -> 0 < a < brk m;
  wf_blocks : forall p n, heap m !! p = Some n ->
    0 < n /\ forall a, p <= a < p + n -> is_Some (cells m !! a);
  wf_disjoint : forall p n q k, heap m !! p = Some n -> heap m !! q = Some k ->
    p <> q -> p + n <= q \/ q + k <= p
}.

(** ** Loads and stores *)
Section LoadStore.
Context (m m' : mem).

Lemma store_bytes_inv a bs :
  store_bytes m a bs = Some m' ->
  m' = with_cells (fun c => put_cells c a (map Some bs)) m /\
  forall x, a <= x < a + zlen bs -> is_Some (cells m !! x).
Proof.
  unfold store_bytes. destruct range_ok eqn:E; [|done]. intros [= <-].
  split; [done|]. by apply range_ok_spec.
Qed.

Lemma store_bytes_dom a bs x :
  store_bytes m a bs = Some m' -> is_Some (cells m' !! x) <-> is_Some (cells m !! x).
Proof.
  intros [-> Hr]%store_bytes_inv. cbn [cells with_cells].
  rewrite lookup_put_cells. unfold zlen in *. rewrite length_map.
  case_decide as Hx; [|done]. split; [intros _; by apply Hr|intros _].
  apply lookup_lt_is_Some_2. rewrite length_map. lia.
Qed.

Lemma load_bytes_length a n bs :
  0 <= n -> load_bytes m a n = Some bs -> zlen bs = n.
Proof.
  unfold load_bytes. intros Hn [Hl _]%read_cells_spec. unfold zlen. lia.
Qed.

(** What was stored is what is loaded. *)
Lemma load_store_bytes_same a bs :
  store_bytes m a bs = Some m' -> load_bytes m' a (zlen bs) = Some bs.
Proof.
  intros [-> _]%store_bytes_inv. unfold load_bytes, zlen. rewrite Nat2Z.id.
  apply read_cells_spec. split; [done|]. intros i Hi.
  destruct (lookup_lt_is_Some_2 bs i Hi) as [b Hb]. exists b. split; [done|].
  cbn [cells with_cells]. rewrite lookup_put_cells. unfold zlen.
  rewrite length_map, decide_True by lia.
  replace (Z.to_nat (a + Z.of_nat i - a)) with i by lia.
  change (map Some bs) with (Some <$> bs). by rewrite list_lookup_fmap, Hb.
Qed.

(** A store leaves every disjoint load unchanged. *)
Lemma load_store_bytes_disjoint a bs a' n :
  store_bytes m a bs = Some m' -> a' + n <= a \/ a + zlen bs <= a' ->
  load_bytes m' a' n = load_bytes m a' n.
Proof.
  intros [-> _]%store_bytes_inv Hd. unfold load_bytes.
  destruct (decide (n < 0)) as [Hn|Hn].
  { by replace (Z.to_nat n) with 0%nat by lia. }
  cbn [cells with_cells].
  assert (H : a' + Z.of_nat (Z.to_nat n) <= a \/ a + zlen bs <= a') by lia.
  clear Hd Hn. revert a' H. induction (Z.to_nat n) as [|k IH]; intros a' H; [done|].
  cbn [read_cells]. rewrite IH by lia.
  rewrite lookup_put_cells_out; [done|]. unfold zlen in *. rewrite length_map. lia.
Qed.

Lemma load_store_same a n v :
  0 <= n -> store m a n v = Some m' -> load m' a n = Some (wrap (8 * n) v).
Proof.
  intros Hn Hs. unfold load. unfold store in Hs.
  apply load_store_bytes_same in Hs. unfold zlen in Hs.
  rewrite length_le_bytes, Z2Nat.id in Hs by lia. rewrite Hs. simpl.
  rewrite of_le_bytes, Z2Nat.id by lia. unfold wrap.
  by rewrite Z.pow_mul_r by lia.
Qed.

Lemma load_store_disjoint a n v a' n' :
  0 <= n -> store m a n v = Some m' -> a' + n' <= a \/ a + n <= a' ->
  load m' a' n' = load m a' n'.
Proof.
  intros Hn Hs Hd. unfold load. f_equal. eapply load_store_bytes_disjoint; [exact Hs|].
  unfold zlen. rewrite length_le_bytes. lia.
Qed.

Lemma store_bytes_wf a bs :
  mem_wf m -> store_bytes m a bs = Some m' -> mem_wf m'.
Proof.
  intros [Hb Hc Hk Hd] Hs. pose proof (fun x => store_bytes_dom a bs x Hs) as Hdom.
  apply store_bytes_inv in Hs as [-> _].
  split; cbn [heap brk with_cells]; [done| | |done].
  - intros x Hx. apply Hc, Hdom, Hx.
  - intros p n Hp. destruct (Hk p n Hp) as [H0 Hall]. split; [done|].
    intros x Hx. apply Hdom, Hall, Hx.
Qed.
End LoadStore.

Lemma load_signed_range m a n v :
  0 < n -> load_signed m a n = Some v -> - 2 ^ (8 * n - 1) <= v < 2 ^ (8 * n - 1).
Proof.
  unfold load_signed. intros Hn. destruct (load m a n) as [z|]; [|done].
  intros [= <-]. apply swrap_range. lia.
Qed.

(** Storing the same value again changes nothing. *)
Lemma put_cells_twice c a vs : put_cells (put_cells c a vs) a vs = put_cells c a vs.
Proof.
  apply map_eq. intros x. rewrite (lookup_put_cells (put_cells c a vs)).
  case_decide as Hx; [|done]. rewrite lookup_put_cells. by rewrite decide_True.
Qed.

Lemma store_again m m' a v : store_ptr m a v = Some m' -> store_ptr m' a v = Some m'.
Proof.
  unfold store_ptr, store. intros Hs.
  pose proof (fun x => store_bytes_dom m m' a _ x Hs) as Hdom.
  apply store_bytes_inv in Hs as [-> Hr]. unfold store_bytes.
  rewrite (proj2 (range_ok_spec _ _ _)).
  - f_equal. unfold with_cells. cbn. by rewrite put_cells_twice.
  - intros x Hx. apply Hdom, Hr. exact Hx.
Qed.

(** ** Pointers into the program image *)

(** The descriptor array a pointer designates. *)
Definition deref_fields `{Image} (p : Z) : outcome (list pb_field_t) := or_ub BadPointer (fields_at p).

(** [extension->type]. *)
Definition ext_type `{Image} (m : mem) (e : Z) : outcome pb_extension_type_t :=
  match load_ptr m (e + ext_off_type) with
  | Some t => or_ub BadPointer (ext_type_at t)
  | None => UB BadAccess
  end.

(** A memory with one allocated, initialised region; used in examples. *)
Definition mem_of (base : Z) (bs : list Z) : mem :=
  mk_mem (put_cells ∅ base (map Some bs)) ∅ (align16 (base + zlen bs)).

(** ** The heap operations

    [realloc] and [free] keep the memory well formed, keep the contents a C
    program may rely on, and touch no other block. *)
(** ** Deciding well-formedness, for concrete memories *)
Definition mem_wfb (m : mem) : bool :=
  (0 <? brk m) &&
  forallb (fun p : Z * option Z => (0 <? p.1) && (p.1 <? brk m)) (map_to_list (cells m)) &&
  forallb (fun p : Z * Z => (0 <? p.2) && range_ok (cells m) p.1 (Z.to_nat p.2))
    (map_to_list (heap m)) &&
  forallb (fun p : Z * Z =>
    forallb (fun q : Z * Z => (p.1 =? q.1) || (p.1 + p.2 <=? q.1) || (q.1 + q.2 <=? p.1))
      (map_to_list (heap m))) (map_to_list (heap m)).

Lemma forallb_map {V} (f : Z * V -> bool) (c : gmap Z V) k v :
  forallb f (map_to_list c) = true -> c !! k = Some v -> f (k, v) = true.
Proof.
  rewrite forallb_forall. intros Hall Hk. apply Hall, list_elem_of_In.
  by apply elem_of_map_to_list.
Qed.

Lemma mem_wfb_spec m : mem_wfb m = true -> mem_wf m.
Proof.
  unfold mem_wfb. rewrite !andb_true_iff. intros (((Hb & Hc) & Hk) & Hd).
  split; [lia| | |].
  - intros a [v Hv]. apply (forallb_map _ _ _ _ Hc) in Hv. cbn in Hv. lia.
  - intros p n Hp. apply (forallb_map _ _ _ _ Hk) in Hp. cbn in Hp.
    apply andb_true_iff in Hp as [Hn Hr]. split; [lia|]. intros a Ha.
    apply (proj1 (range_ok_spec _ _ _) Hr). lia.
  - intros p n q k Hp Hq Hne. apply (forallb_map _ _ _ _ Hd) in Hp. cbn in Hp.
    apply (forallb_map _ _ _ _ Hp) in Hq. cbn in Hq. lia.
Qed.

(** ** A new block *)
Section Heap.
Context (m : mem) (Hm : mem_wf m).

Lemma align16_ge a : a <= align16 a.
Proof.
  unfold align16. pose proof (Z.div_mod (a + 15) 16 ltac:(lia)).
  pose proof (Z.mod_pos_bound (a + 15) 16 ltac:(lia)). lia.
Qed.

(** Nothing lies at or above [brk]. *)
Lemma above_brk a : brk m <= a -> cells m !! a = None.
Proof.
  intros Ha. destruct (cells m !! a) as [v|] eqn:E; [|done].
  pose proof (wf_cells m Hm a (mk_is_Some _ _ E)). lia.
Qed.

Lemma block_below p n : heap m !! p = Some n -> 0 < p /\ p + n <= brk m.
Proof.
  intros Hp. destruct (wf_blocks m Hm p n Hp) as [Hn Hall].
  pose proof (wf_cells m Hm p (Hall p ltac:(lia))).
  pose proof (wf_cells m Hm (p + n - 1) (Hall (p + n - 1) ltac:(lia))). lia.
Qed.

Lemma new_block_cells vs a :
  cells (new_block m vs).2 !! a =
    if decide (brk m <= a < brk m + zlen vs) then vs !! Z.to_nat (a - brk m) else cells m !! a.
Proof. apply lookup_put_cells. Qed.

Lemma new_block_wf vs : vs <> [] -> mem_wf (new_block m vs).2.
Proof.
  intros Hne. pose proof (wf_brk m Hm). pose proof (align16_ge (brk m + zlen vs)).
  assert (Hv : 0 < zlen vs) by (destruct vs; [done|rewrite zlen_cons; pose proof (zlen_nonneg vs); lia]).
  split.
  - cbn. lia.
  - intros a Ha. rewrite new_block_cells in Ha. cbn [brk new_block snd].
    destruct (decide _); [lia|]. pose proof (wf_cells m Hm a Ha). lia.
  - intros p n Hp. cbn [heap new_block snd] in Hp.
    apply lookup_insert_Some in Hp as [[<- <-]|[Hne' Hp]].
    + split; [done|]. intros a Ha. rewrite new_block_cells, decide_True by done.
      apply lookup_lt_is_Some_2. unfold zlen in *. lia.
    + destruct (wf_blocks m Hm p n Hp) as [Hn Hall]. split; [done|]. intros a Ha.
      rewrite new_block_cells. case_decide; [|by apply Hall].
      apply lookup_lt_is_Some_2. unfold zlen in *. lia.
  - intros p n q k Hp Hq Hpq. cbn [heap new_block snd] in Hp, Hq.
    apply lookup_insert_Some in Hp as [[<- <-]|[? Hp]];
      apply lookup_insert_Some in Hq as [[<- <-]|[? Hq]]; try done.
    + pose proof (block_below q k Hq). lia.
    + pose proof (block_below p n Hp). lia.
    + by apply (wf_disjoint m Hm).
Qed.

(** ** Freeing *)
Lemma free_inv p m' :
  p <> NULL -> pb_free m p = Some m' ->
  exists n, heap m !! p = Some n /\ heap m' = delete p (heap m) /\ brk m' = brk m /\
    forall a, cells m' !! a = if decide (p <= a < p + n) then None else cells m !! a.
Proof.
  intros Hp. unfold pb_free. rewrite bool_decide_eq_false_2 by done.
  destruct (heap m !! p) as [n|] eqn:E; [|done]. intros [= <-]. exists n.
  split; [done|]. split; [done|]. split; [done|]. intros a. cbn [cells].
  rewrite lookup_del_cells. pose proof (wf_blocks m Hm p n E) as [? _].
  by rewrite Z2Nat.id by lia.
Qed.

Lemma free_wf p m' : pb_free m p = Some m' -> mem_wf m'.
Proof.
  destruct (decide (p = NULL)) as [->|Hp]; [by intros [= <-]|].
  intros (n & Hn & Hh & Hb & Hc)%free_inv; [|done].
  split.
  - rewrite Hb. by apply wf_brk.
  - intros a Ha. rewrite Hb. rewrite Hc in Ha. case_decide; [by destruct Ha|]. by apply wf_cells.
  - intros q k Hq. rewrite Hh in Hq. apply lookup_delete_Some in Hq as [Hne Hq].
    destruct (wf_blocks m Hm q k Hq) as [Hk Hall]. split; [done|]. intros a Ha. rewrite Hc.
    case_decide; [|by apply Hall]. pose proof (wf_disjoint m Hm p n q k Hn Hq Hne). lia.
  - intros q k r l Hq Hr. rewrite Hh in Hq, Hr.
    apply lookup_delete_Some in Hq as [_ Hq]. apply lookup_delete_Some in Hr as [_ Hr].
    by apply (wf_disjoint m Hm).
Qed.
End Heap.

(** ** Reallocating *)
Section Realloc.
Context `{Allocator} (m : mem) (Hm : mem_wf m).

Lemma realloc_null p n : alloc_ok m n = false -> p = NULL \/ is_Some (heap m !! p) ->
  pb_realloc m p n = Some (NULL, m).
Proof.
  intros Ha Hp. unfold pb_realloc. rewrite Ha. case_bool_decide; [done|].
  destruct Hp as [|[k Hk]]; [done|]. by rewrite Hk.
Qed.

Lemma realloc_new n :
  alloc_ok m n = true ->
  pb_realloc m NULL n = Some (new_block m (replicate (Z.to_nat n) None)).
Proof. intros Ha. unfold pb_realloc. by rewrite bool_decide_eq_true_2, Ha. Qed.

(** The raw contents of the new block: what the old one held, then
    uninitialised bytes. *)
Definition moved_contents (p old n : Z) : list (option Z) :=
  get_cells (cells m) p (Z.to_nat (Z.min old n)) ++ replicate (Z.to_nat (n - old)) None.

Lemma zlen_moved p old n : 0 < old -> 0 < n -> zlen (moved_contents p old n) = n.
Proof.
  intros. unfold moved_contents, zlen. rewrite length_app, length_get_cells, length_replicate.
  lia.
Qed.

Lemma realloc_move p old n :
  p <> NULL -> heap m !! p = Some old -> 0 < n -> alloc_ok m n = true ->
  exists m', pb_realloc m p n = Some (brk m, m') /\ mem_wf m' /\
    pb_free (new_block m (moved_contents p old n)).2 p = Some m'.
Proof.
  intros Hp Hold Hn Ha. destruct (wf_blocks m Hm p old Hold) as [Hpos _].
  pose proof (zlen_moved p old n Hpos Hn) as Hlen.
  assert (Hne : moved_contents p old n <> []).
  { intros E. rewrite E, zlen_nil in Hlen. lia. }
  pose proof (new_block_wf m Hm _ Hne) as Hwf.
  destruct (block_below m Hm p old Hold) as [_ Hbelow].
  assert (Hl : heap (new_block m (moved_contents p old n)).2 !! p = Some old).
  { cbn [heap new_block snd]. rewrite lookup_insert_ne by lia. done. }
  unfold pb_realloc. rewrite bool_decide_eq_false_2 by done. rewrite Hold, Ha.
  fold (moved_contents p old n). cbn [new_block].
  unfold pb_free at 1. cbn [new_block snd] in *. rewrite bool_decide_eq_false_2 by done.
  rewrite Hl. cbn. eexists. split; [done|].
  assert (Hfree : pb_free (new_block m (moved_contents p old n)).2 p = Some
    (mk_mem (del_cells (cells (new_block m (moved_contents p old n)).2) p (Z.to_nat old))
       (delete p (heap (new_block m (moved_contents p old n)).2))
       (brk (new_block m (moved_contents p old n)).2))).
  { unfold pb_free. rewrite bool_decide_eq_false_2 by done. cbn [new_block snd]. by rewrite Hl. }
  split; [|exact Hfree]. by eapply (free_wf _ Hwf).
Qed.

(** What a moved block looks like from outside. *)
Lemma realloc_cells p old n m' a :
  p <> NULL -> heap m !! p = Some old -> 0 < n ->
  pb_free (new_block m (moved_contents p old n)).2 p = Some m' ->
  cells m' !! a =
    if decide (p <= a < p + old) then None
    else if decide (brk m <= a < brk m + n)
         then moved_contents p old n !! Z.to_nat (a - brk m)
         else cells m !! a.
Proof.
  intros Hp Hold Hn Hfree. destruct (wf_blocks m Hm p old Hold) as [Hpos _].
  pose proof (zlen_moved p old n Hpos Hn) as Hlen.
  assert (Hne : moved_contents p old n <> []).
  { intros E. rewrite E, zlen_nil in Hlen. lia. }
  pose proof (new_block_wf m Hm _ Hne) as Hwf.
  destruct (block_below m Hm p old Hold) as [_ Hbelow].
  apply (free_inv _ Hwf) in Hfree as (k & Hk & _ & _ & Hc); [|done].
  cbn [heap new_block snd] in Hk. rewrite lookup_insert_ne in Hk by lia.
  rewrite Hold in Hk. injection Hk as <-. rewrite Hc. case_decide; [done|].
  by rewrite new_block_cells, Hlen.
Qed.
End Realloc.
