(* ===== verification/Iter.v ===== *)
(** * The field iterator ([pb_common.c], [pb_common.h])

    The iterator walks a descriptor array in step with the addresses of the
    fields in a struct.  [field_at] gives the iterator at each index in closed
    form; the theorems say that begin, next and find only ever produce those
    iterators, in cyclic order. *)
From S2P Require Import Prelude Types.

(** What [pSize] points to: memory (a member of the struct, or [found] of an
    extension), or the local variable [fixed_count_size] of the decoding
    function that owns the iterator. *)
Inductive loc : Type :=
| Mem (a : Z)
| Local.

#[global] Instance loc_eq_dec : EqDecision loc.
Proof. solve_decision. Defined.

(** [start] is the descriptor array and [pos] the index of the current entry. *)
Record pb_field_iter_t : Type := mk_iter {
  start : list pb_field_t;
  pos : nat;
  required_field_index : Z;
  dest_struct : Z;
  pData : Z;
  pSize : loc
}.

(** The descriptor [iter->pos] points to; reading outside the array is
    undefined. *)
Definition cur (it : pb_field_iter_t) : outcome pb_field_t :=
  or_ub BadPointer (start it !! pos it).

Definition pb_field_iter_begin (fields : list pb_field_t) (dest_struct : Z) :
    outcome (bool * pb_field_iter_t) :=
  match fields !! 0%nat with
  | None => UB BadPointer
  | Some f =>
      let pd := dest_struct + data_offset f in
      Ok (negb (tag f =? 0),
          mk_iter fields 0 0 dest_struct pd (Mem (pd + size_offset f)))
  end.

(** The size by which a field advances [pData]. *)
Definition prev_size (prev_field : pb_field_t) : Z :=
  if (PB_ATYPE (type prev_field) =? PB_ATYPE_STATIC)
     && (PB_HTYPE (type prev_field) =? PB_HTYPE_REPEATED)
  then wrap 64 (data_size prev_field * array_size prev_field)
  else if PB_ATYPE (type prev_field) =? PB_ATYPE_POINTER then sizeof_ptr
  else data_size prev_field.

(** The test for two consecutive members of one union. *)
Definition same_union (prev_field f : pb_field_t) : bool :=
  (PB_HTYPE (type prev_field) =? PB_HTYPE_ONEOF)
  && (PB_HTYPE (type f) =? PB_HTYPE_ONEOF)
  && (data_offset f =? PB_SIZE_MAX).

(** The new iterator when the next entry [f] is not the terminator. *)
Definition advance (it : pb_field_iter_t) (prev_field f : pb_field_t) : pb_field_iter_t :=
  if same_union prev_field f then
    mk_iter (start it) (S (pos it)) (required_field_index it) (dest_struct it)
      (pData it) (pSize it)
  else
    let req :=
      if PB_HTYPE (type prev_field) =? PB_HTYPE_REQUIRED
      then wrap 32 (required_field_index it + 1) else required_field_index it in
    let pd := pData it + prev_size prev_field + data_offset f in
    mk_iter (start it) (S (pos it)) req (dest_struct it) pd (Mem (pd + size_offset f)).

Definition pb_field_iter_next (it : pb_field_iter_t) : outcome (bool * pb_field_iter_t) :=
  match start it !! pos it with
  | None => UB BadPointer
  | Some prev_field =>
      if tag prev_field =? 0 then Ok (false, it)
      else
        match start it !! S (pos it) with
        | None => UB BadPointer
        | Some f =>
            if tag f =? 0 then
              match pb_field_iter_begin (start it) (dest_struct it) with
              | Ok (_, it') => Ok (false, it')
              | UB e => UB e
              | Timeout => Timeout
              end
            else Ok (true, advance it prev_field f)
        end
  end.

(** The do-while loop of [pb_field_iter_find] and [find_extension_field]:
    step until [p] holds of the current entry or the starting entry comes
    round again.  One round visits each entry once, so the length of the
    array is enough fuel. *)
Fixpoint iter_search (p : pb_field_t -> bool) (from fuel : nat) (it : pb_field_iter_t) :
    outcome (bool * pb_field_iter_t) :=
  match fuel with
  | O => Timeout
  | S fuel' =>
      match start it !! pos it with
      | None => UB BadPointer
      | Some f =>
          if p f then Ok (true, it)
          else
            match pb_field_iter_next it with
            | Ok (_, it') =>
                if bool_decide (pos it' = from) then Ok (false, it')
                else iter_search p from fuel' it'
            | UB e => UB e
            | Timeout => Timeout
            end
      end
  end.

Definition has_tag (t : Z) (f : pb_field_t) : bool :=
  (tag f =? t) && negb (PB_LTYPE (type f) =? PB_LTYPE_EXTENSION).
Definition is_extension (f : pb_field_t) : bool :=
  PB_LTYPE (type f) =? PB_LTYPE_EXTENSION.

Definition pb_field_iter_find (it : pb_field_iter_t) (t : Z) :
    outcome (bool * pb_field_iter_t) :=
  iter_search (has_tag t) (pos it) (length (start it)) it.

(** The loop [do { if (!f(&iter)) return false; } while (pb_field_iter_next(&iter))]
    of the functions that visit every field; one round of the array. *)
Fixpoint iter_each {S} (f : pb_field_iter_t -> M S bool) (fuel : nat)
    (it : pb_field_iter_t) : M S bool :=
  match fuel with
  | O => out_of_fuel
  | S fuel' =>
      try f it;
      do (more, it') <- lift (pb_field_iter_next it);
      if more then iter_each f fuel' it' else ret true
  end.

(** Visit the fields of a struct, starting with [pb_field_iter_begin]. *)
Definition for_fields {S} (fields : list pb_field_t) (dest : Z)
    (f : pb_field_iter_t -> M S bool) : M S bool :=
  do (nonempty, it) <- lift (pb_field_iter_begin fields dest);
  if nonempty then iter_each f (length fields) it else ret true.

(** ** The iterator in closed form *)

(** A descriptor array: entries with non-zero tags and then the terminator. *)
Definition terminated (fs : list pb_field_t) (n : nat) : Prop :=
  length fs = S n /\
  (exists z, fs !! n = Some z /\ tag z = 0) /\
  forall i f, (i < n)%nat -> fs !! i = Some f -> tag f <> 0.

Definition terminatedb (fs : list pb_field_t) : bool :=
  match rev fs with
  | [] => false
  | z :: body => (tag z =? 0) && forallb (fun f => negb (tag f =? 0)) body
  end.

(** The iterator at entry [k] (for [k] below the number of entries). *)
Fixpoint field_at (fs : list pb_field_t) (dest : Z) (k : nat) : pb_field_iter_t :=
  match k with
  | O =>
      match fs !! 0%nat with
      | Some f =>
          mk_iter fs 0 0 dest (dest + data_offset f)
            (Mem (dest + data_offset f + size_offset f))
      | None => mk_iter fs 0 0 dest dest Local
      end
  | S k' =>
      match fs !! k', fs !! k with
      | Some prev, Some f => advance (field_at fs dest k') prev f
      | _, _ => field_at fs dest k'
      end
  end.

Section Closed.
Context (fs : list pb_field_t) (dest : Z) (n : nat) (Hterm : terminated fs n).

Lemma terminated_lookup k : (k < n)%nat -> exists f, fs !! k = Some f /\ tag f <> 0.
Proof.
  destruct Hterm as (Hl & _ & Hb). intros Hk.
  destruct (lookup_lt_is_Some_2 fs k ltac:(lia)) as [f Hf]. eauto.
Qed.

Lemma field_at_start k :
  start (field_at fs dest k) = fs /\ dest_struct (field_at fs dest k) = dest.
Proof.
  induction k as [|k [IH1 IH2]]; cbn [field_at].
  - by destruct (fs !! 0%nat).
  - destruct (fs !! k), (fs !! S k); try done.
    unfold advance. by destruct same_union.
Qed.

Lemma field_at_pos k : (k < n)%nat -> pos (field_at fs dest k) = k.
Proof.
  induction k as [|k IH]; intros Hk; cbn [field_at].
  - by destruct (fs !! 0%nat).
  - destruct (terminated_lookup k ltac:(lia)) as (f & -> & _).
    destruct (terminated_lookup (S k) Hk) as (g & -> & _).
    unfold advance. rewrite IH by lia. by destruct same_union.
Qed.

Lemma iter_begin_spec :
  pb_field_iter_begin fs dest = Ok (negb (n =? 0)%nat, field_at fs dest 0).
Proof.
  unfold pb_field_iter_begin. cbn [field_at].
  destruct Hterm as (Hl & (z & Hz & Hz0) & Hb).
  destruct (fs !! 0%nat) as [f|] eqn:Hf; [|apply lookup_ge_None in Hf; lia].
  do 2 f_equal. destruct (Nat.eqb_spec n 0) as [->|Hn].
  - rewrite Hz in Hf. injection Hf as ->. by rewrite Hz0.
  - pose proof (Hb 0%nat f ltac:(lia) Hf). simpl. f_equal. lia.
Qed.

(** [pb_field_iter_next] moves to the next entry, or back to the first one
    with [false]. *)
Lemma iter_next_spec k :
  (k < n)%nat ->
  pb_field_iter_next (field_at fs dest k) =
    if (S k <? n)%nat then Ok (true, field_at fs dest (S k))
    else Ok (false, field_at fs dest 0).
Proof.
  intros Hk. unfold pb_field_iter_next.
  destruct (field_at_start k) as [-> ->]. rewrite field_at_pos by done.
  destruct (terminated_lookup k Hk) as (f & Hf & Hf0). rewrite Hf.
  destruct (Z.eqb_spec (tag f) 0); [done|].
  destruct (Nat.ltb_spec (S k) n) as [Hlt|Hge].
  - destruct (terminated_lookup (S k) Hlt) as (g & Hg & Hg0). rewrite Hg.
    destruct (Z.eqb_spec (tag g) 0); [done|].
    cbn [field_at]. by rewrite Hf, Hg.
  - destruct Hterm as (Hl & (z & Hz & Hz0) & _).
    replace (S k) with n by lia. rewrite Hz, Hz0. cbn [Z.eqb].
    by rewrite iter_begin_spec.
Qed.

(** The entry reached from [k] after [d] steps of the cycle. *)
Definition cyc (k d : nat) : nat := ((k + d) mod n)%nat.

Lemma cyc_lt k d : (0 < n)%nat -> (cyc k d < n)%nat.
Proof. intros. apply Nat.mod_upper_bound. lia. Qed.

Lemma cyc_next k d :
  (0 < n)%nat ->
  pb_field_iter_next (field_at fs dest (cyc k d)) =
    Ok (negb (cyc k (S d) =? 0)%nat, field_at fs dest (cyc k (S d))).
Proof.
  intros Hn. rewrite iter_next_spec by (by apply cyc_lt).
  unfold cyc. rewrite Nat.add_succ_r.
  pose proof (Nat.mod_upper_bound (k + d) n ltac:(lia)).
  destruct (Nat.ltb_spec (S ((k + d) mod n)) n) as [Hlt|Hge].
  - assert ((S (k + d)) mod n = S ((k + d) mod n))%nat as ->.
    { symmetry. apply (Nat.mod_unique _ _ ((k + d) / n)); [lia|].
      pose proof (Nat.div_mod_eq (k + d) n). lia. }
    done.
  - assert ((S (k + d)) mod n = 0)%nat as ->; [|done].
    symmetry. apply (Nat.mod_unique _ _ (S ((k + d) / n))); [lia|].
    pose proof (Nat.div_mod_eq (k + d) n). lia.
Qed.

Lemma cyc_n k : (k < n)%nat -> cyc k n = k.
Proof.
  intros. unfold cyc. replace (k + n)%nat with (k + 1 * n)%nat by lia.
  rewrite Nat.Div0.mod_add. by apply Nat.mod_small.
Qed.

Lemma cyc_ne k d : (k < n)%nat -> (0 < d < n)%nat -> cyc k d <> k.
Proof.
  intros Hk Hd. unfold cyc. destruct (Nat.ltb_spec (k + d) n).
  - rewrite Nat.mod_small by lia. lia.
  - rewrite <- (Nat.mod_unique (k + d) n 1 (k + d - n)); lia.
Qed.

Lemma cyc_surj k j : (k < n)%nat -> (j < n)%nat -> exists d, (d < n)%nat /\ cyc k d = j.
Proof.
  intros Hk Hj. destruct (Nat.leb_spec k j).
  - exists (j - k)%nat. split; [lia|]. unfold cyc.
    replace (k + (j - k))%nat with j by lia. by apply Nat.mod_small.
  - exists (j + n - k)%nat. split; [lia|]. unfold cyc.
    replace (k + (j + n - k))%nat with (j + 1 * n)%nat by lia.
    rewrite Nat.Div0.mod_add. by apply Nat.mod_small.
Qed.

Context (p : pb_field_t -> bool).

Definition entry_ok (j : nat) : bool :=
  match fs !! j with Some f => p f | None => false end.

(** The search stops at the first entry, in cyclic order from where it
    started, that satisfies [p]. *)
Lemma iter_search_from k d fuel :
  (k < n)%nat -> (d < n)%nat -> (n - d <= fuel)%nat ->
  (forall e, (e < d)%nat -> entry_ok (cyc k e) = false) ->
  (exists e, (e < n)%nat /\ entry_ok (cyc k e) = true /\
     (forall e', (e' < e)%nat -> entry_ok (cyc k e') = false) /\
     iter_search p k fuel (field_at fs dest (cyc k d)) =
       Ok (true, field_at fs dest (cyc k e)))
  \/ ((forall j, (j < n)%nat -> entry_ok j = false) /\
      iter_search p k fuel (field_at fs dest (cyc k d)) = Ok (false, field_at fs dest k)).
Proof.
  intros Hk. revert d. induction fuel as [|fuel IH]; intros d Hd Hf Hno; [lia|].
  cbn [iter_search]. destruct (field_at_start (cyc k d)) as [-> _].
  rewrite field_at_pos by (apply cyc_lt; lia).
  destruct (terminated_lookup (cyc k d) ltac:(apply cyc_lt; lia)) as (f & Hl & _).
  rewrite Hl. destruct (p f) eqn:Hp.
  { left. exists d. unfold entry_ok at 1. by rewrite Hl. }
  assert (Hno' : forall e, (e < S d)%nat -> entry_ok (cyc k e) = false).
  { intros e He. destruct (decide (e = d)) as [->|]; [|apply Hno; lia].
    unfold entry_ok. by rewrite Hl. }
  rewrite cyc_next by lia. rewrite field_at_pos by (apply cyc_lt; lia).
  destruct (decide (S d = n)) as [Hn|Hn].
  - rewrite Hn, cyc_n by done. rewrite bool_decide_eq_true_2 by done.
    right. split; [|done]. intros j Hj.
    destruct (cyc_surj k j Hk Hj) as (e & He & <-). apply Hno'. lia.
  - rewrite bool_decide_eq_false_2 by (apply cyc_ne; lia).
    apply IH; [lia|lia|done].
Qed.

Lemma iter_search_spec k :
  (k < n)%nat ->
  (exists e, (e < n)%nat /\ entry_ok (cyc k e) = true /\
     (forall e', (e' < e)%nat -> entry_ok (cyc k e') = false) /\
     iter_search p k (length fs) (field_at fs dest k) =
       Ok (true, field_at fs dest (cyc k e)))
  \/ ((forall j, (j < n)%nat -> entry_ok j = false) /\
      iter_search p k (length fs) (field_at fs dest k) = Ok (false, field_at fs dest k)).
Proof.
  intros Hk. destruct Hterm as (Hl & _ & _).
  assert (H0 : cyc k 0 = k) by (unfold cyc; rewrite Nat.add_0_r; by apply Nat.mod_small).
  pose proof (iter_search_from k 0 (length fs) Hk ltac:(lia) ltac:(lia)
    ltac:(intros; lia)) as H.
  by rewrite H0 in H.
Qed.
End Closed.

Lemma terminatedb_spec fs :
  terminatedb fs = true -> terminated fs (pred (length fs)).
Proof.
  unfold terminatedb. destruct (rev fs) as [|z body] eqn:E; [done|].
  intros [Hz Hb]%andb_true_iff. apply (f_equal (@rev _)) in E.
  rewrite rev_involutive in E. cbn [rev] in E. subst fs.
  rewrite length_app. cbn [length]. replace (pred (length (rev body) + 1)) with
    (length (rev body)) by lia.
  split; [rewrite length_app; simpl; lia|]. split.
  - exists z. rewrite lookup_app_r by lia. rewrite Nat.sub_diag. split; [done|lia].
  - intros i f Hi. rewrite lookup_app_l by lia. intros Hl.
    assert (Hin : In f body).
    { apply in_rev. apply list_elem_of_In. by eapply list_elem_of_lookup_2. }
    rewrite forallb_forall in Hb. specialize (Hb f Hin). lia.
Qed.
