(* ===== verification/OStream.v ===== *)
(** * Output streams and primitive encoders ([pb_encode.c])

    A stream writes to nothing (a sizing stream, [callback == NULL]), to a
    memory buffer ([buf_write]), or to a user callback.  The theorems are
    phrased with [emits]: what a computation does to every well-formed sizing
    or buffer stream is determined by the bytes it has to write. *)
From S2P Require Import Prelude Base128 Types Mem.

(** A user-supplied stream callback over a state of type [W] (what the
    stream's [state] pointer points to). *)
Class StreamCallback (W : Type) := usr_write : W -> list Z -> bool * W.

(** [callback] and [state] of a [pb_ostream_t]. *)
Inductive osink (W : Type) : Type :=
| ONull                             (** callback == NULL *)
| OBuf (buf : list Z) (dest : nat)  (** buf_write; state points into buf *)
| OUser (w : W).
Arguments ONull {W}.
Arguments OBuf {W} _ _.
Arguments OUser {W} _.

Record pb_ostream_t (W : Type) : Type := mk_ostream {
  sink : osink W;
  max_size : Z;
  bytes_written : Z;
  errmsg : option string
}.
Arguments mk_ostream {W} _ _ _ _.
Arguments sink {W} _.
Arguments max_size {W} _.
Arguments bytes_written {W} _.
Arguments errmsg {W} _.

(** Encoders: computations on the output stream that return a C [bool]. *)
Definition EM (W A : Type) : Type := M (pb_ostream_t W) A.

(** The [buf] argument of [pb_write]: a local array or a pointer into the
    message.  The bytes are only read by the stream callback. *)
Inductive cbuf : Type :=
| BArr (l : list Z)
| BPtr (m : mem) (a : Z).

Definition cbuf_read (b : cbuf) (count : Z) : option (list Z) :=
  match b with
  | BArr l => if zlen l <? count then None else Some (take (Z.to_nat count) l)
  | BPtr m a => load_bytes m a count
  end.

Definition is_null {W} (k : osink W) : bool :=
  match k with ONull => true | _ => false end.

(** [PB_OSTREAM_SIZING]. *)
Definition PB_OSTREAM_SIZING {W} : pb_ostream_t W := mk_ostream ONull 0 0 None.

Definition pb_ostream_from_buffer {W} (buf : list Z) (bufsize : Z) : pb_ostream_t W :=
  mk_ostream (OBuf buf 0) bufsize 0 None.

Section Stream.
Context {W : Type} `{StreamCallback W}.
Implicit Types (s : pb_ostream_t W).

Definition set_errmsg s (e : option string) : pb_ostream_t W :=
  mk_ostream (sink s) (max_size s) (bytes_written s) e.

(** [PB_RETURN_ERROR(stream, msg)]. *)
Definition return_error (msg : string) : EM W bool := fun s =>
  Ok (false, set_errmsg s (set_error (errmsg s) msg)).

Definition add_written (count : Z) : EM W bool := fun s =>
  Ok (true, mk_ostream (sink s) (max_size s) (wrap 64 (bytes_written s + count)) (errmsg s)).

(** [buf_write]: [dest] advances and [count] bytes are stored through it. *)
Definition buf_write (bs : list Z) : EM W bool := fun s =>
  match sink s with
  | OBuf buf dest =>
      if (length buf <? dest + length bs)%nat then UB OverWrite
      else
        Ok (true, mk_ostream (OBuf (overwrite buf dest bs) (dest + length bs))
                    (max_size s) (bytes_written s) (errmsg s))
  | _ => UB BadCall
  end.

(** [stream->callback(stream, buf, count)]. *)
Definition call_callback (buf : cbuf) (count : Z) : EM W bool := fun s =>
  match cbuf_read buf count with
  | None => UB BadAccess
  | Some bs =>
      match sink s with
      | ONull => UB BadCall
      | OBuf _ _ => buf_write bs s
      | OUser w =>
          let '(ok, w') := usr_write w bs in
          Ok (ok, mk_ostream (OUser w') (max_size s) (bytes_written s) (errmsg s))
      end
  end.

Definition pb_write (buf : cbuf) (count : Z) : EM W bool := fun s =>
  if (0 <? count) && negb (is_null (sink s)) then
    if (wrap 64 (bytes_written s + count) <? bytes_written s)
       || (max_size s <? wrap 64 (bytes_written s + count))
    then return_error "stream full" s
    else
      (do ok <- call_callback buf count;
       if ok then add_written count else return_error "io error") s
  else add_written count s.

(** ** Integers *)

(** The [while (value)] loop; [buffer] has ten entries, and a store past
    them is undefined. *)
Fixpoint varint_loop (room : nat) (value : Z) : outcome (list Z) :=
  if value =? 0 then Ok []
  else
    match room with
    | O => UB OverWrite
    | S room' =>
        match varint_loop room' (Z.shiftr value 7) with
        | Ok rest => Ok (Z.lor (Z.land value 0x7F) 0x80 :: rest)
        | o => o
        end
    end.

(** [buffer[i-1] &= 0x7F]. *)
Fixpoint clear_last (l : list Z) : list Z :=
  match l with
  | [] => []
  | [b] => [Z.land b 0x7F]
  | b :: l' => b :: clear_last l'
  end.

Definition pb_encode_varint (value : Z) : EM W bool :=
  if value <=? 0x7F then pb_write (BArr [value mod 256]) 1
  else
    do buffer <- lift (varint_loop 10 value);
    pb_write (BArr (clear_last buffer)) (zlen buffer).

Definition pb_encode_svarint (value : Z) : EM W bool :=
  let zigzagged :=
    if value <? 0 then wrap 64 (Z.lnot (wrap 64 (Z.shiftl (wrap 64 value) 1)))
    else wrap 64 (Z.shiftl (wrap 64 value) 1) in
  pb_encode_varint zigzagged.

(** [value] is a pointer to the integer. *)
Definition pb_encode_fixed32 (m : mem) (value : Z) : EM W bool :=
  do val <- lift (or_ub BadAccess (load m value 4));
  pb_write (BArr [Z.land val 0xFF; Z.land (Z.shiftr val 8) 0xFF;
                  Z.land (Z.shiftr val 16) 0xFF; Z.land (Z.shiftr val 24) 0xFF]) 4.

Definition pb_encode_fixed64 (m : mem) (value : Z) : EM W bool :=
  do val <- lift (or_ub BadAccess (load m value 8));
  pb_write (BArr [Z.land val 0xFF; Z.land (Z.shiftr val 8) 0xFF;
                  Z.land (Z.shiftr val 16) 0xFF; Z.land (Z.shiftr val 24) 0xFF;
                  Z.land (Z.shiftr val 32) 0xFF; Z.land (Z.shiftr val 40) 0xFF;
                  Z.land (Z.shiftr val 48) 0xFF; Z.land (Z.shiftr val 56) 0xFF]) 8.

Definition pb_encode_tag (wiretype field_number : Z) : EM W bool :=
  pb_encode_varint (Z.lor (wrap 64 (Z.shiftl field_number 3)) wiretype).

(** The switch of [pb_encode_tag_for_field]. *)
Definition wiretype_of (ltype : Z) : option Z :=
  if bool_decide (ltype ∈ [PB_LTYPE_BOOL; PB_LTYPE_VARINT; PB_LTYPE_UVARINT;
                           PB_LTYPE_SVARINT]) then Some PB_WT_VARINT
  else if ltype =? PB_LTYPE_FIXED32 then Some PB_WT_32BIT
  else if ltype =? PB_LTYPE_FIXED64 then Some PB_WT_64BIT
  else if bool_decide (ltype ∈ [PB_LTYPE_BYTES; PB_LTYPE_STRING; PB_LTYPE_SUBMESSAGE;
                                PB_LTYPE_FIXED_LENGTH_BYTES]) then Some PB_WT_STRING
  else None.

Definition pb_encode_tag_for_field (field : pb_field_t) : EM W bool :=
  match wiretype_of (PB_LTYPE (type field)) with
  | None => return_error "invalid field type"
  | Some wiretype => pb_encode_tag wiretype (tag field)
  end.

Definition pb_encode_string (buffer : cbuf) (size : Z) : EM W bool :=
  try pb_encode_varint size; pb_write buffer size.
End Stream.

(** ** Well-formed streams and what they accept *)
Section Emits.
Context {W : Type} `{StreamCallback W}.
Implicit Types (s : pb_ostream_t W) (c : EM W bool) (w : list Z).

Definition ostream_wf s : Prop :=
  0 <= bytes_written s < 2 ^ 64 /\ 0 <= max_size s < 2 ^ 64 /\
  match sink s with
  | ONull => True
  | OBuf buf dest =>
      bytes_written s <= max_size s /\
      Z.of_nat dest + (max_size s - bytes_written s) <= zlen buf
  | OUser _ => False
  end.

(** Bytes the stream still accepts. *)
Definition room s : Z :=
  match sink s with
  | ONull => 2 ^ 64 - 1 - bytes_written s
  | _ => max_size s - bytes_written s
  end.

Definition append s w : pb_ostream_t W :=
  mk_ostream
    match sink s with
    | OBuf buf dest => OBuf (overwrite buf dest w) (dest + length w)
    | k => k
    end
    (max_size s) (bytes_written s + zlen w) (errmsg s).

(** What a failed write may leave behind: the stream is still well formed
    and bytes of the buffer outside its window are untouched. *)
Definition keeps s s' : Prop :=
  ostream_wf s' /\ max_size s' = max_size s /\ bytes_written s <= bytes_written s' /\
  match sink s, sink s' with
  | ONull, ONull => True
  | OBuf buf dest, OBuf buf' dest' =>
      length buf' = length buf /\ (dest <= dest')%nat /\
      Z.of_nat dest' - Z.of_nat dest = bytes_written s' - bytes_written s /\
      take dest buf' = take dest buf /\
      drop (dest + Z.to_nat (room s)) buf' = drop (dest + Z.to_nat (room s)) buf
  | _, _ => False
  end.

(** A trace: the bytes written, and whether the computation then succeeds. *)
Definition trace : Type := (list Z * bool)%type.

(** [emits c (w, true)]: on every stream with room for [w], [c] appends
    [w] and returns true; without room it returns false.  The stream has
    seen no error, and its byte count stays below the range of [size_t].
    [emits c (w, false)]: [c] returns false on every stream. *)
Definition emits c (t : trace) : Prop :=
  forall s, ostream_wf s -> errmsg s = None ->
  bytes_written s + zlen t.1 < 2 ^ 64 ->
  if t.2 && (zlen t.1 <=? room s) then c s = Ok (true, append s t.1)
  else exists s', c s = Ok (false, s') /\ keeps s s'.

Lemma keeps_refl s : ostream_wf s -> keeps s s.
Proof.
  intros Hs. split; [done|]. split; [done|]. split; [lia|].
  destruct Hs as (_ & _ & Hk). destruct (sink s); try done.
  repeat split; lia.
Qed.

Lemma append_wf s w : ostream_wf s -> zlen w <= room s -> ostream_wf (append s w).
Proof.
  unfold ostream_wf, room, append. pose proof (zlen_nonneg w).
  destruct s as [[|buf dest|u] mx bw e]; cbn; intros (? & ? & Hk) ?; repeat split; try lia.
  unfold zlen in *. rewrite length_overwrite; lia.
Qed.

Lemma append_keeps s w : ostream_wf s -> zlen w <= room s -> keeps s (append s w).
Proof.
  intros Hs Hw. split; [by apply append_wf|]. pose proof (zlen_nonneg w).
  destruct Hs as (? & ? & Hk). split; [done|]. split; [cbn; lia|].
  unfold room in *. unfold append. destruct s as [[|buf dest|u] mx bw e]; cbn in *; try done.
  unfold zlen in *. rewrite length_overwrite, take_overwrite, drop_overwrite by lia.
  repeat split; lia.
Qed.

Lemma keeps_set_errmsg s s' e : keeps s s' -> keeps s (set_errmsg s' e).
Proof. unfold keeps, ostream_wf. by destruct s'. Qed.

Lemma room_append s w : room (append s w) = room s - zlen w.
Proof. unfold room, append. destruct (sink s); cbn; lia. Qed.

Lemma append_append s w w' :
  ostream_wf s -> zlen w + zlen w' <= room s ->
  append (append s w) w' = append s (w ++ w').
Proof.
  unfold append, room. intros (? & ? & Hk) ?.
  destruct s as [[|buf dest|u] mx bw e]; cbn in *; rewrite zlen_app; f_equal; try lia.
  unfold zlen in *. rewrite overwrite_app by lia. rewrite length_app. f_equal. lia.
Qed.

Lemma append_nil s : append s [] = s.
Proof.
  destruct s as [[|buf dest|u] mx bw e]; unfold append; cbn; rewrite zlen_nil, Z.add_0_r;
    rewrite ?overwrite_nil, ?Nat.add_0_r; done.
Qed.

Lemma keeps_trans s1 s2 s3 : keeps s1 s2 -> keeps s2 s3 -> keeps s1 s3.
Proof.
  unfold keeps, ostream_wf, room.
  destruct s1 as [[|b1 d1|] mx1 bw1 e1], s2 as [[|b2 d2|] mx2 bw2 e2],
    s3 as [[|b3 d3|] mx3 bw3 e3]; cbn; try tauto.
  - intros (? & ? & ? & ?) (? & ? & ? & ?). repeat split; lia || tauto.
  - intros (? & -> & ? & Hl & ? & ? & Ht & Hd) (? & -> & ? & Hl' & ? & ? & Ht' & Hd').
    repeat split; try lia.
    + rewrite <- Ht. apply (f_equal (take d1)) in Ht'.
      rewrite !take_take in Ht'. by rewrite !Nat.min_l in Ht' by lia.
    + rewrite <- Hd. replace (d2 + Z.to_nat (mx1 - bw2))%nat with
        (d1 + Z.to_nat (mx1 - bw1))%nat in Hd' by lia. done.
Qed.

Lemma is_null_append s w : is_null (sink (append s w)) = is_null (sink s).
Proof. by destruct s as [[]]. Qed.

(** ** Rules of [emits] *)

Lemma emits_return_error msg : emits (return_error msg) ([], false).
Proof.
  intros s Hs _ _. cbn. eexists. split; [done|]. by apply keeps_set_errmsg, keeps_refl.
Qed.

Lemma room_nonneg s : ostream_wf s -> 0 <= room s.
Proof. unfold ostream_wf, room. intros (? & ? & Hk). destruct (sink s); lia || tauto. Qed.

Lemma ostream_wf_bw s : ostream_wf s -> 0 <= bytes_written s < 2 ^ 64.
Proof. by intros [? _]. Qed.

(** A sizing stream takes whatever its counter can count. *)
Lemma null_room s w :
  is_null (sink s) = true -> bytes_written s + zlen w < 2 ^ 64 -> zlen w <= room s.
Proof. unfold room. destruct (sink s); done || lia. Qed.

Lemma emits_ret_true : emits (ret true) ([], true).
Proof.
  intros s Hs _ _. cbn [fst snd]. rewrite zlen_nil.
  pose proof (room_nonneg s Hs). destruct (Z.leb_spec 0 (room s)); [|lia].
  cbn. by rewrite append_nil.
Qed.

(** A failed computation stays failed whatever it is charged for. *)
Lemma emits_fail_weaken c w w' :
  zlen w <= zlen w' -> emits c (w, false) -> emits c (w', false).
Proof.
  intros Hl Hc s Hs He Hn. cbn [fst snd andb] in *. apply Hc; cbn; done || lia.
Qed.

Definition seq_trace (t1 t2 : trace) : trace :=
  if t1.2 then (t1.1 ++ t2.1, t2.2) else t1.

(** What [emits] says, as a case distinction. *)
Lemma emits_cases c w ok s :
  emits c (w, ok) -> ostream_wf s -> errmsg s = None -> bytes_written s + zlen w < 2 ^ 64 ->
  (ok = true /\ zlen w <= room s /\ c s = Ok (true, append s w)) \/
  ((ok = false \/ room s < zlen w) /\ exists s', c s = Ok (false, s') /\ keeps s s').
Proof.
  intros Hc Hs He Hn. specialize (Hc s Hs He Hn). cbn [fst snd] in Hc.
  destruct ok, (Z.leb_spec (zlen w) (room s)); cbn in Hc; auto.
Qed.

Lemma emits_intro c w ok :
  (forall s, ostream_wf s -> errmsg s = None -> bytes_written s + zlen w < 2 ^ 64 ->
   (ok = true /\ zlen w <= room s -> c s = Ok (true, append s w)) /\
   (ok = false \/ room s < zlen w -> exists s', c s = Ok (false, s') /\ keeps s s')) ->
  emits c (w, ok).
Proof.
  intros Hc s Hs He Hn. destruct (Hc s Hs He Hn) as [H1 H2]. cbn [fst snd] in *.
  destruct ok, (Z.leb_spec (zlen w) (room s)); cbn; auto.
Qed.

Lemma emits_seq c c' t t' :
  emits c t -> emits c' t' -> emits (try c; c') (seq_trace t t').
Proof.
  destruct t as [w ok], t' as [w' ok']. unfold seq_trace. cbn [fst snd].
  intros Hc Hc'. pose proof (zlen_nonneg w). pose proof (zlen_nonneg w').
  destruct ok.
  - apply emits_intro. intros s Hs He Hn. rewrite zlen_app in *.
    destruct (emits_cases _ _ _ s Hc Hs He ltac:(lia)) as
      [(_ & Hfit & E)|([|] & s1 & E & Hk)]; [|done|].
    + rewrite (bind_Ok _ _ _ _ _ E).
      destruct (emits_cases _ _ _ (append s w) Hc' (append_wf s w Hs Hfit) He
                  ltac:(cbn; lia)) as [(-> & Hfit' & E')|(Hno & s2 & E' & Hk)];
        rewrite room_append in *; rewrite E'.
      * split; [|intros [|]; done || lia]. intros _. by rewrite append_append by (done || lia).
      * split; [intros [-> ?]; destruct Hno; done || lia|]. intros _.
        exists s2. split; [done|]. eapply keeps_trans; [|exact Hk]. by apply append_keeps.
    + rewrite (bind_Ok _ _ _ _ _ E). split; [lia|]. intros _. by exists s1.
  - intros s Hs He Hn. destruct (Hc s Hs He Hn) as (s' & Hc1 & Hk). exists s'.
    split; [|done]. by rewrite (bind_Ok _ _ _ _ _ Hc1).
Qed.

(** [c; return true], with any failing continuation for a failed [c]. *)
Lemma emits_or_fail c d t :
  emits c t -> (forall s, ostream_wf s -> exists s', d s = Ok (false, s') /\ keeps s s') ->
  emits (bind c (fun ok => if ok then ret true else d)) t.
Proof.
  destruct t as [w ok]. intros Hc Hd. apply emits_intro. intros s Hs He Hn.
  destruct (emits_cases _ _ _ s Hc Hs He Hn) as [(-> & Hfit & E)|(Hno & s1 & E & Hk)];
    rewrite (bind_Ok _ _ _ _ _ E).
  - split; [done|]. intros [|]; done || lia.
  - split; [intros [-> ?]; destruct Hno; done || lia|]. intros _.
    destruct (Hd s1 (proj1 Hk)) as (s2 & -> & Hk2). exists s2. split; [done|].
    by eapply keeps_trans.
Qed.

Lemma emits_last c t : emits c t -> emits (try c; ret true) t.
Proof.
  intros Hc. apply emits_or_fail; [done|]. intros s Hs. exists s.
  split; [done|]. by apply keeps_refl.
Qed.

Lemma emits_ext_wf c c' t :
  (forall s, ostream_wf s -> bytes_written s + zlen t.1 < 2 ^ 64 -> c s = c' s) ->
  emits c t -> emits c' t.
Proof. intros Hx Hc s Hs He Hn. rewrite <- Hx by done. by apply Hc. Qed.

Lemma emits_ext c c' t : (forall s, c s = c' s) -> emits c t -> emits c' t.
Proof.
  intros Hx. apply emits_ext_wf. auto.
Qed.

Lemma emits_lift {A} (o : outcome A) (a : A) (k : A -> EM W bool) t :
  o = Ok a -> emits (k a) t -> emits (bind (lift o) k) t.
Proof. intros ->. apply emits_ext. done. Qed.

(** On a sizing stream nothing is read or stored. *)
Lemma pb_write_null buf count s :
  is_null (sink s) = true -> pb_write buf count s = add_written count s.
Proof. intros Hn. unfold pb_write. rewrite Hn. by rewrite andb_false_r. Qed.

Lemma add_written_append s w :
  is_null (sink s) = true -> 0 <= bytes_written s -> bytes_written s + zlen w < 2 ^ 64 ->
  add_written (zlen w) s = Ok (true, append s w).
Proof.
  intros Hn Hb Hw. pose proof (zlen_nonneg w). unfold add_written, append.
  destruct s as [[|?|?] mx bw e]; cbn in *; try done. by rewrite wrap_small by lia.
Qed.

(** [pb_write] emits the bytes of its buffer. *)
Lemma pb_write_emits buf count bs :
  cbuf_read buf count = Some bs -> zlen bs = count ->
  emits (pb_write buf count) (bs, true).
Proof.
  intros Hb Hlen. apply emits_intro. intros s Hs He Hn.
  pose proof (zlen_nonneg bs). pose proof (room_nonneg s Hs).
  destruct (is_null (sink s)) eqn:Hnull.
  { pose proof (null_room _ _ Hnull Hn). destruct Hs as (? & _). split; [|intros [|]; done || lia].
    intros _. rewrite pb_write_null by done. rewrite <- Hlen. apply add_written_append; done || lia. }
  unfold pb_write. rewrite Hnull.
  destruct (Z.ltb_spec 0 count) as [Hpos|Hzero]; cbn [andb negb].
  2:{ assert (bs = []) as -> by (destruct bs; [done|rewrite zlen_cons in *;
        pose proof (zlen_nonneg bs); lia]).
      rewrite append_nil, zlen_nil in *. subst count. split; [|intros [|]; done || lia].
      intros _. unfold add_written. destruct Hs as (? & _).
      rewrite Z.add_0_r, wrap_small by lia. by destruct s. }
  destruct s as [[|b d|u] mx bw e]; unfold ostream_wf, room in *; cbn in *;
    destruct Hs as (Hbw & Hmx & Hk); try done.
  rewrite wrap_small by lia. destruct (Z.ltb_spec (bw + count) bw); [lia|]. cbn [orb].
  destruct (Z.ltb_spec mx (bw + count)); (split; [intros [_ ?]|intros [|]]); try done; try lia.
  - eexists. split; [done|]. eapply (keeps_set_errmsg (mk_ostream _ _ _ _) (mk_ostream _ _ _ _)).
    by apply keeps_refl.
  - unfold bind, call_callback. cbn. rewrite Hb. unfold buf_write. cbn.
    destruct (Nat.ltb_spec (length b) (d + length bs)); [unfold zlen in *; lia|].
    unfold add_written, append. cbn. rewrite wrap_small by lia. by rewrite Hlen.
Qed.
End Emits.
