(* ===== verification/Encode.v ===== *)
(** * The encoder ([pb_encode.c])

    Every function of the file above the stream primitives of OStream.  The
    message is read from the constant memory [m].  The recursion through
    submessages is explicit: the bodies are written against [rec_encode] and
    the knot is tied by [pb_encode], one unit of fuel per level of message
    nesting. *)
From S2P Require Import Prelude Base128 Types Mem Iter OStream.

(** User functions reached through pointers: the [encode] callback of a
    callback field (function pointer, descriptor, address of [arg]) and of an
    extension type (function pointer, extension). *)
Class EncodeCallbacks (W : Type) `{StreamCallback W} := {
  usr_encode : mem -> Z -> pb_field_t -> Z -> EM W bool;
  usr_ext_encode : mem -> Z -> Z -> EM W bool
}.

(** ** Reading the message *)
Section Reading.
Context (m : mem).

(** [for (i = 0; i < n; i++) if (p[i] != 0) ...]: whether the loop finds a
    non-zero byte. *)
Fixpoint any_nonzero (n : nat) (p : Z) : outcome bool :=
  match n with
  | O => Ok false
  | S n' =>
      let! b := rd (fun m => load m p 1) m in
      if negb (b =? 0) then Ok true else any_nonzero n' (p + 1)
  end.

Definition safe_read_bool (pSize : Z) : outcome bool :=
  any_nonzero (Z.to_nat sizeof_bool) pSize.

(** The strnlen loop of [pb_enc_string].  Each iteration reads a new
    address, so the loop leaves allocated memory within the fuel. *)
Fixpoint strlen_loop (fuel : nat) (size max_size p : Z) : outcome Z :=
  match fuel with
  | O => Timeout
  | S fuel' =>
      if size <? max_size then
        let! c := rd (fun m => load m p 1) m in
        if negb (c =? 0) then strlen_loop fuel' (size + 1) max_size (p + 1) else Ok size
      else Ok size
  end.
Definition strlen_upto (max_size p : Z) : outcome Z :=
  strlen_loop (S (size (cells m))) 0 max_size p.

(** The integer that [pb_enc_varint] and [pb_enc_svarint] read ([sgn] is
    [load_signed]) or [pb_enc_uvarint] ([load]); [None] for a width that is
    not one of the four. *)
Definition read_int (ld : mem -> Z -> Z -> option Z) (data_size src : Z) :
    outcome (option Z) :=
  if (data_size =? 1) || (data_size =? 2) || (data_size =? 4) || (data_size =? 8)
  then let! v := rd (fun m => ld m src data_size) m in Ok (Some v)
  else Ok None.
End Reading.

(** ** The zero test of proto3 fields *)
Section Proto3.
Context `{Image} (m : mem).

(** The tests before the one on the value; [None] means that the code
    falls through to "Rest is proto3 singular fields". *)
Definition proto3_presence (field : pb_field_t) (pData : Z) : outcome (option bool) :=
  let ty := type field in
  let pSize := pData + size_offset field in
  let empty_count :=
    let! n := rd (fun m => load_size m pSize) m in Ok (Some (n =? 0)) in
  if PB_HTYPE ty =? PB_HTYPE_REQUIRED then Ok (Some false)
  else if PB_HTYPE ty =? PB_HTYPE_REPEATED then
    if negb (size_offset field =? 0) then empty_count
    else if PB_ATYPE ty =? PB_ATYPE_STATIC then Ok (Some false)
    else Ok None
  else if PB_HTYPE ty =? PB_HTYPE_ONEOF then empty_count
  else if (PB_HTYPE ty =? PB_HTYPE_OPTIONAL) && negb (size_offset field =? 0) then
    let! has := safe_read_bool m pSize in Ok (Some (negb has))
  else Ok None.

Fixpoint pb_check_proto3_default_value (fuel : nat) (field : pb_field_t) (pData : Z) :
    M unit bool :=
  match fuel with
  | O => out_of_fuel
  | S fuel' =>
      do decided <- lift (proto3_presence field pData);
      let ty := type field in
      let zero_bytes :=
        do nz <- lift (any_nonzero m (Z.to_nat (data_size field)) pData); ret (negb nz) in
      let tail :=
        if (PB_ATYPE ty =? PB_ATYPE_POINTER) && (PB_LTYPE_LAST_PACKABLE <? PB_LTYPE ty) then
          do p <- lift (rd (fun m => load_ptr m pData) m); ret (p =? NULL)
        else zero_bytes in
      match decided with
      | Some b => ret b
      | None =>
          if PB_ATYPE ty =? PB_ATYPE_STATIC then
            if PB_LTYPE ty =? PB_LTYPE_BYTES then
              do n <- lift (rd (fun m => load_size m pData) m); ret (n =? 0)
            else if PB_LTYPE ty =? PB_LTYPE_STRING then
              do c <- lift (rd (fun m => load m pData 1) m); ret (c =? 0)
            else if PB_LTYPE ty =? PB_LTYPE_FIXED_LENGTH_BYTES then
              ret (data_size field =? 0)
            else if PB_LTYPE ty =? PB_LTYPE_SUBMESSAGE then
              do fields <- lift (deref_fields (ptr field));
              for_fields fields pData (fun it =>
                do f <- lift (cur it);
                pb_check_proto3_default_value fuel' f (Iter.pData it))
            else tail
          else tail
      end
  end.
End Proto3.

Definition encoder (W : Type) : Type := pb_field_t -> Z -> EM W bool.

(** ** Scalar encoders *)
Section Scalars.
Context {W : Type} `{StreamCallback W} (m : mem).

Definition pb_enc_bool : encoder W := fun _ src =>
  do b <- lift (safe_read_bool m src);
  pb_encode_varint (if b : bool then 1 else 0).

(** Conversion to [pb_uint64_t]. *)
Definition pb_enc_varint : encoder W := fun field src =>
  do value <- lift (read_int m load_signed (data_size field) src);
  match value with
  | None => return_error "invalid data_size"
  | Some v => pb_encode_varint (wrap 64 v)
  end.

Definition pb_enc_uvarint : encoder W := fun field src =>
  do value <- lift (read_int m load (data_size field) src);
  match value with
  | None => return_error "invalid data_size"
  | Some v => pb_encode_varint v
  end.

Definition pb_enc_svarint : encoder W := fun field src =>
  do value <- lift (read_int m load_signed (data_size field) src);
  match value with
  | None => return_error "invalid data_size"
  | Some v => pb_encode_svarint v
  end.

Definition pb_enc_fixed32 : encoder W := fun _ src => pb_encode_fixed32 m src.
Definition pb_enc_fixed64 : encoder W := fun _ src => pb_encode_fixed64 m src.

Definition pb_enc_bytes : encoder W := fun field src =>
  if src =? NULL then pb_encode_string (BPtr m NULL) 0
  else
    do size <- lift (rd (fun m => load_size m src) m);
    let allocsize := PB_BYTES_ARRAY_T_ALLOCSIZE size in
    if (allocsize <? size)
       || ((PB_ATYPE (type field) =? PB_ATYPE_STATIC) && (data_size field <? allocsize))
    then return_error "bytes size exceeded"
    else pb_encode_string (BPtr m (src + offsetof_bytes)) size.

Definition string_max (field : pb_field_t) : Z :=
  if PB_ATYPE (type field) =? PB_ATYPE_POINTER then SIZE_T_MAX else data_size field.

Definition pb_enc_string : encoder W := fun field src =>
  do size <- (if src =? NULL then ret 0
              else lift (strlen_upto m (string_max field) src));
  pb_encode_string (BPtr m src) size.

Definition pb_enc_fixed_length_bytes : encoder W := fun field src =>
  pb_encode_string (BPtr m src) (data_size field).
End Scalars.

(** ** Fields and messages *)
Section Messages.
Context {W : Type} `{StreamCallback W} `{!EncodeCallbacks W} `{Image} (m : mem).

(** [pb_encode], the zero test, and the fuel for extension lists. *)
Context (rec_encode : list pb_field_t -> Z -> EM W bool).
Context (check_proto3 : pb_field_t -> Z -> M unit bool).
Context (fuel : nat).

(** Run [c] on another stream than the current one. *)
Definition on_ostream {A} (sub : pb_ostream_t W) (c : EM W A) :
    EM W (A * pb_ostream_t W) := fun s =>
  match c sub with
  | Ok (a, sub') => Ok ((a, sub'), s)
  | UB f => UB f
  | Timeout => Timeout
  end.

(** Only [state] is copied back from the substream; its callback is the
    stream's, which user code does not replace. *)
Definition pb_encode_submessage (fields : list pb_field_t) (src_struct : Z) : EM W bool :=
  do (ok, substream) <- on_ostream PB_OSTREAM_SIZING (rec_encode fields src_struct);
  if negb ok then
    run modify (fun s => set_errmsg s (errmsg substream));
    ret false
  else
    let size := bytes_written substream in
    try pb_encode_varint size;
    do s <- get;
    if is_null (sink s) then pb_write (BArr []) size
    else if max_size s <? wrap 64 (bytes_written s + size) then return_error "stream full"
    else
      do (status, substream) <-
        on_ostream (mk_ostream (sink s) size 0 None) (rec_encode fields src_struct);
      run modify (fun s =>
        mk_ostream (sink substream) (max_size s)
          (wrap 64 (bytes_written s + bytes_written substream)) (errmsg substream));
      if negb (bytes_written substream =? size) then return_error "submsg size changed"
      else ret status.

Definition pb_enc_submessage : encoder W := fun field src =>
  if ptr field =? NULL then return_error "invalid field descriptor"
  else
    do fields <- lift (deref_fields (ptr field));
    pb_encode_submessage fields src.

(** The table [PB_ENCODERS]; the extension entry is NULL. *)
Definition PB_ENCODERS : list (option (encoder W)) :=
  [Some (pb_enc_bool m); Some (pb_enc_varint m); Some (pb_enc_uvarint m);
   Some (pb_enc_svarint m); Some (pb_enc_fixed32 m); Some (pb_enc_fixed64 m);
   Some (pb_enc_bytes m); Some (pb_enc_string m); Some pb_enc_submessage;
   None; Some (pb_enc_fixed_length_bytes m)].

Definition encoder_for (ltype : Z) : outcome (option (encoder W)) :=
  or_ub BadAccess (PB_ENCODERS !! Z.to_nat ltype).
Definition call_encoder (func : option (encoder W)) : encoder W := fun f p =>
  match func with
  | Some e => e f p
  | None => fails BadCall
  end.

(** [for (i = 0; i < count; i++) { if (!body(p)) return false; p += data_size; }] *)
Fixpoint each_item (body : Z -> EM W bool) (count : nat) (p data_size : Z) : EM W bool :=
  match count with
  | O => ret true
  | S count' =>
      try body p;
      each_item body count' (p + data_size) data_size
  end.

(** The size of the packed data; [None] is [return false]. *)
Definition packed_size (field : pb_field_t) (pData count : Z)
    (func : option (encoder W)) : EM W (option Z) :=
  if PB_LTYPE (type field) =? PB_LTYPE_FIXED32 then ret (Some (wrap 64 (4 * count)))
  else if PB_LTYPE (type field) =? PB_LTYPE_FIXED64 then ret (Some (wrap 64 (8 * count)))
  else
    do (ok, sizestream) <-
      on_ostream PB_OSTREAM_SIZING
        (each_item (call_encoder func field) (Z.to_nat count) pData (data_size field));
    ret (if ok : bool then Some (bytes_written sizestream) else None).

(** Pointer-type strings and bytes are arrays of pointers. *)
Definition deref_item (field : pb_field_t) (p : Z) : outcome Z :=
  if (PB_ATYPE (type field) =? PB_ATYPE_POINTER)
     && ((PB_LTYPE (type field) =? PB_LTYPE_STRING)
         || (PB_LTYPE (type field) =? PB_LTYPE_BYTES))
  then rd (fun m => load_ptr m p) m else Ok p.

Definition encode_array (field : pb_field_t) (pData count : Z)
    (func : option (encoder W)) : EM W bool :=
  if count =? 0 then ret true
  else if negb (PB_ATYPE (type field) =? PB_ATYPE_POINTER) && (array_size field <? count)
  then return_error "array max size exceeded"
  else if PB_LTYPE (type field) <=? PB_LTYPE_LAST_PACKABLE then
    try pb_encode_tag PB_WT_STRING (tag field);
    let? size := packed_size field pData count func else false in
    try pb_encode_varint size;
    do s <- get;
    if is_null (sink s) then pb_write (BArr []) size
    else each_item (call_encoder func field) (Z.to_nat count) pData (data_size field)
  else
    each_item (fun p =>
        try pb_encode_tag_for_field field;
        do p' <- lift (deref_item field p);
        call_encoder func field p')
      (Z.to_nat count) pData (data_size field).

(** [pSize] is a member of the message or the local [implicit_has]
    ([None]). *)
Definition encode_basic_field (field : pb_field_t) (pData : Z) : EM W bool :=
  let ty := type field in
  do func <- lift (encoder_for (PB_LTYPE ty));
  let pSize := if size_offset field =? 0 then None else Some (pData + size_offset field) in
  do implicit_has <-
    (if negb (size_offset field =? 0) then ret false
     else if PB_HTYPE ty =? PB_HTYPE_OPTIONAL then
       do zero <- lift (result (check_proto3 field pData)); ret (negb zero)
     else ret true);
  do (pData, implicit_has) <-
    (if PB_ATYPE ty =? PB_ATYPE_POINTER then
       do p <- lift (rd (fun m => load_ptr m pData) m); ret (p, negb (p =? NULL))
     else ret (pData, implicit_has));
  let present : EM W bool :=
    try pb_encode_tag_for_field field;
    try call_encoder func field pData;
    ret true in
  if PB_HTYPE ty =? PB_HTYPE_REQUIRED then
    if pData =? NULL then return_error "missing required field" else present
  else if PB_HTYPE ty =? PB_HTYPE_OPTIONAL then
    do has <- (match pSize with
               | Some a => lift (safe_read_bool m a)
               | None => ret implicit_has
               end);
    if has : bool then present else ret true
  else if PB_HTYPE ty =? PB_HTYPE_REPEATED then
    do count <- (match pSize with
                 | Some a => lift (rd (fun m => load_size m a) m)
                 | None => ret (array_size field)
                 end);
    try encode_array field pData count func;
    ret true
  else if PB_HTYPE ty =? PB_HTYPE_ONEOF then
    do which <- (match pSize with
                 | Some a => lift (rd (fun m => load_size m a) m)
                 | None => fails BadAccess
                 end);
    if which =? tag field then present else ret true
  else return_error "invalid field type".

Definition encode_callback_field (field : pb_field_t) (pData : Z) : EM W bool :=
  do fn <- lift (rd (fun m => load_ptr m (pData + offsetof_funcs)) m);
  if fn =? NULL then ret true
  else
    do ok <- usr_encode m fn field (pData + offsetof_arg);
    if ok : bool then ret true else return_error "callback error".

Definition encode_field (field : pb_field_t) (pData : Z) : EM W bool :=
  let at_ := PB_ATYPE (type field) in
  if (at_ =? PB_ATYPE_STATIC) || (at_ =? PB_ATYPE_POINTER)
  then encode_basic_field field pData
  else if at_ =? PB_ATYPE_CALLBACK then encode_callback_field field pData
  else return_error "invalid field type".

Definition default_extension_encoder (extension : Z) : EM W bool :=
  do t <- lift (ext_type m extension);
  do fields <- lift (deref_fields (ext_arg t));
  do field <- lift (or_ub BadPointer (fields !! 0%nat));
  if PB_ATYPE (type field) =? PB_ATYPE_POINTER
  then encode_field field (extension + ext_off_dest)
  else
    do dest <- lift (rd (fun m => load_ptr m (extension + ext_off_dest)) m);
    encode_field field dest.

Fixpoint extension_list (n : nat) (extension : Z) : EM W bool :=
  match n with
  | O => out_of_fuel
  | S n' =>
      if extension =? NULL then ret true
      else
        do t <- lift (ext_type m extension);
        try (if negb (ext_encode t =? NULL)
             then usr_ext_encode m (ext_encode t) extension
             else default_extension_encoder extension);
        do next <- lift (rd (fun m => load_ptr m (extension + ext_off_next)) m);
        extension_list n' next
  end.

Definition encode_extension_field (pData : Z) : EM W bool :=
  do extension <- lift (rd (fun m => load_ptr m pData) m);
  extension_list fuel extension.

(** The body of the loop of [pb_encode]. *)
Definition encode_entry (it : pb_field_iter_t) : EM W bool :=
  do f <- lift (cur it);
  if PB_LTYPE (type f) =? PB_LTYPE_EXTENSION
  then encode_extension_field (Iter.pData it)
  else encode_field f (Iter.pData it).

Definition encode_body (fields : list pb_field_t) (src_struct : Z) : EM W bool :=
  for_fields fields src_struct encode_entry.
End Messages.

(** ** The entry points *)
Section Encoder.
Context {W : Type} `{StreamCallback W} `{!EncodeCallbacks W} `{Image} (m : mem).

Fixpoint pb_encode (fuel : nat) (fields : list pb_field_t) (src_struct : Z) : EM W bool :=
  match fuel with
  | O => out_of_fuel
  | S n => encode_body m (pb_encode n) (pb_check_proto3_default_value m n) n fields src_struct
  end.

Definition pb_encode_delimited (fuel : nat) (fields : list pb_field_t) (src_struct : Z) :
    EM W bool :=
  pb_encode_submessage (pb_encode fuel) fields src_struct.

Definition pb_encode_nullterminated (fuel : nat) (fields : list pb_field_t)
    (src_struct : Z) : EM W bool :=
  try pb_encode fuel fields src_struct;
  pb_write (BArr [0]) 1.

(** [Some size] is true with [*size] set. *)
Definition pb_get_encoded_size (fuel : nat) (fields : list pb_field_t) (src_struct : Z) :
    outcome (option Z) :=
  let! (ok, stream) := pb_encode fuel fields src_struct (PB_OSTREAM_SIZING (W := W)) in
  Ok (if ok : bool then Some (bytes_written stream) else None).
End Encoder.
