(* ===== verification/Wire.v ===== *)
(** * The wire format, as a specification of the encoder

    What the encoder promises, without streams: [wire_message] maps a message
    in memory to the trace of its encoding, the bytes and whether encoding
    then succeeds.  [refines c o] says that the stream computation [c]
    performs the trace [o] on every stream; EncodeProof shows it for
    [pb_encode]. *)
From S2P Require Import Prelude Base128 Types Mem Iter OStream Encode.

(** The signed integers in the order 0, -1, 1, -2, ... *)
Definition zigzag (v : Z) : Z := if v <? 0 then - 2 * v - 1 else 2 * v.

Definition wire_key (wt tg : Z) : list Z := varint (8 * tg + wt).
Definition framed (w : list Z) : list Z := varint (zlen w) ++ w.

(** ** Traces in sequence *)
Definition wseq (a b : outcome trace) : outcome trace :=
  let! t := a in
  if t.2 then let! u := b in Ok (t.1 ++ u.1, u.2) else Ok t.

Definition wire_fail : outcome trace := Ok ([], false).
Definition wire_nothing : outcome trace := Ok ([], true).
Definition wire_bytes (w : list Z) : outcome trace := Ok (w, true).
Definition wire_framed (o : outcome trace) : outcome trace :=
  let! t := o in if t.2 then wire_bytes (framed t.1) else Ok t.

Fixpoint wire_all {X} (item : X -> outcome trace) (l : list X) : outcome trace :=
  match l with
  | [] => wire_nothing
  | x :: l' => wseq (item x) (wire_all item l')
  end.

(** User callbacks with a fixed trace. *)
Class EncodeTraces := {
  enc_trace : mem -> Z -> pb_field_t -> Z -> outcome trace;
  ext_trace : mem -> Z -> Z -> outcome trace
}.

Section Wire.
Context `{Image} `{EncodeTraces} (m : mem).

Section Message.
Context (wire_sub : list pb_field_t -> Z -> outcome trace).
Context (check_proto3 : pb_field_t -> Z -> M unit bool).
Context (fuel : nat).

Definition wire_int (ld : mem -> Z -> Z -> option Z) (conv : Z -> Z) (f : pb_field_t)
    (p : Z) : outcome trace :=
  let! v := read_int m ld (data_size f) p in
  match v with
  | Some v => wire_bytes (varint (conv v))
  | None => wire_fail
  end.

Definition wire_mem (p n : Z) : outcome trace :=
  let! bs := rd (fun m => load_bytes m p n) m in wire_bytes bs.

Definition wire_bytes_array (f : pb_field_t) (p : Z) : outcome trace :=
  if p =? NULL then wire_bytes (framed [])
  else
    let! n := rd (fun m => load_size m p) m in
    if (PB_ATYPE (type f) =? PB_ATYPE_STATIC) && (data_size f <? n + offsetof_bytes)
    then wire_fail
    else wire_framed (wire_mem (p + offsetof_bytes) n).

Definition wire_string (f : pb_field_t) (p : Z) : outcome trace :=
  if p =? NULL then wire_bytes (framed [])
  else
    let! n := strlen_upto m (string_max f) p in
    wire_framed (wire_mem p n).

Definition wire_submessage (f : pb_field_t) (p : Z) : outcome trace :=
  if ptr f =? NULL then wire_fail
  else
    let! fields := deref_fields (ptr f) in
    wire_framed (wire_sub fields p).

(** The value of a field, without its key. *)
Definition wire_value (f : pb_field_t) (p : Z) : outcome trace :=
  let lt := PB_LTYPE (type f) in
  if lt =? PB_LTYPE_BOOL then
    let! b := safe_read_bool m p in wire_bytes [if b : bool then 1 else 0]
  else if lt =? PB_LTYPE_VARINT then wire_int load_signed (wrap 64) f p
  else if lt =? PB_LTYPE_UVARINT then wire_int load id f p
  else if lt =? PB_LTYPE_SVARINT then wire_int load_signed zigzag f p
  else if lt =? PB_LTYPE_FIXED32 then wire_mem p 4
  else if lt =? PB_LTYPE_FIXED64 then wire_mem p 8
  else if lt =? PB_LTYPE_BYTES then wire_bytes_array f p
  else if lt =? PB_LTYPE_STRING then wire_string f p
  else if lt =? PB_LTYPE_SUBMESSAGE then wire_submessage f p
  else if lt =? PB_LTYPE_FIXED_LENGTH_BYTES then wire_framed (wire_mem p (data_size f))
  else UB BadCall.

Definition wire_field_key (f : pb_field_t) : outcome trace :=
  match wiretype_of (PB_LTYPE (type f)) with
  | Some wt => wire_bytes (wire_key wt (tag f))
  | None => wire_fail
  end.

(** The addresses of [count] array entries. *)
Definition item_addresses (p count data_size : Z) : list Z :=
  map (fun i => p + Z.of_nat i * data_size) (seq 0 (Z.to_nat count)).

Definition wire_array (f : pb_field_t) (p count : Z) : outcome trace :=
  let items := item_addresses p count (data_size f) in
  if count =? 0 then wire_nothing
  else if negb (PB_ATYPE (type f) =? PB_ATYPE_POINTER) && (array_size f <? count)
  then wire_fail
  else if PB_LTYPE (type f) <=? PB_LTYPE_LAST_PACKABLE then
    wseq (wire_bytes (wire_key PB_WT_STRING (tag f)))
      (wire_framed (wire_all (wire_value f) items))
  else
    wire_all (fun p =>
      wseq (wire_field_key f) (let! p' := deref_item m f p in wire_value f p')) items.

Definition wire_basic (f : pb_field_t) (pData : Z) : outcome trace :=
  let ty := type f in
  let has_size := negb (size_offset f =? 0) in
  let pSize := pData + size_offset f in
  let! implicit :=
    (if has_size then Ok false
     else if PB_HTYPE ty =? PB_HTYPE_OPTIONAL then
       let! zero := result (check_proto3 f pData) in Ok (negb zero)
     else Ok true) in
  let! (p, implicit) :=
    (if PB_ATYPE ty =? PB_ATYPE_POINTER then
       let! p := rd (fun m => load_ptr m pData) m in Ok (p, negb (p =? NULL))
     else Ok (pData, implicit)) in
  let present := wseq (wire_field_key f) (wire_value f p) in
  if PB_HTYPE ty =? PB_HTYPE_REQUIRED then
    if p =? NULL then wire_fail else present
  else if PB_HTYPE ty =? PB_HTYPE_OPTIONAL then
    let! has := (if has_size then safe_read_bool m pSize else Ok implicit) in
    if has : bool then present else wire_nothing
  else if PB_HTYPE ty =? PB_HTYPE_REPEATED then
    let! count := (if has_size then rd (fun m => load_size m pSize) m
                   else Ok (array_size f)) in
    wire_array f p count
  else
    let! which := (if has_size then rd (fun m => load_size m pSize) m
                   else UB BadAccess) in
    if which =? tag f then present else wire_nothing.

Definition wire_callback (f : pb_field_t) (pData : Z) : outcome trace :=
  let! fn := rd (fun m => load_ptr m (pData + offsetof_funcs)) m in
  if fn =? NULL then wire_nothing else enc_trace m fn f (pData + offsetof_arg).

Definition wire_field (f : pb_field_t) (pData : Z) : outcome trace :=
  let at_ := PB_ATYPE (type f) in
  if (at_ =? PB_ATYPE_STATIC) || (at_ =? PB_ATYPE_POINTER) then wire_basic f pData
  else if at_ =? PB_ATYPE_CALLBACK then wire_callback f pData
  else wire_fail.

Definition wire_default_extension (e : Z) : outcome trace :=
  let! t := ext_type m e in
  let! fields := deref_fields (ext_arg t) in
  let! f := or_ub BadPointer (fields !! 0%nat) in
  if PB_ATYPE (type f) =? PB_ATYPE_POINTER then wire_field f (e + ext_off_dest)
  else
    let! dest := rd (fun m => load_ptr m (e + ext_off_dest)) m in
    wire_field f dest.

Fixpoint wire_extensions (n : nat) (e : Z) : outcome trace :=
  match n with
  | O => Timeout
  | S n' =>
      if e =? NULL then wire_nothing
      else
        let! t := ext_type m e in
        wseq (if negb (ext_encode t =? NULL) then ext_trace m (ext_encode t) e
              else wire_default_extension e)
          (let! next := rd (fun m => load_ptr m (e + ext_off_next)) m in
           wire_extensions n' next)
  end.

Definition wire_entry (it : pb_field_iter_t) : outcome trace :=
  let! f := cur it in
  if PB_LTYPE (type f) =? PB_LTYPE_EXTENSION then
    let! e := rd (fun m => load_ptr m (pData it)) m in
    wire_extensions fuel e
  else wire_field f (pData it).
End Message.

(** The fields of a struct, in order. *)
Definition struct_fields (fields : list pb_field_t) (src : Z) : list pb_field_iter_t :=
  map (field_at fields src) (seq 0 (pred (length fields))).

Fixpoint wire_message (fuel : nat) (fields : list pb_field_t) (src : Z) : outcome trace :=
  match fuel with
  | O => Timeout
  | S n =>
      wire_all (wire_entry (wire_message n) (pb_check_proto3_default_value m n) n)
        (struct_fields fields src)
  end.
End Wire.

(** ** Well-formed descriptors *)

(** The members have the range of their C types and the data type is one of
    the defined ones. *)
Definition u32 (z : Z) : bool := (0 <=? z) && (z <? 2 ^ 32).
Definition field_okb (f : pb_field_t) : bool :=
  u32 (tag f) && u32 (data_size f) && u32 (array_size f)
  && (PB_LTYPE (type f) <? PB_LTYPES_COUNT).
Definition descriptor_okb (fields : list pb_field_t) : bool :=
  terminatedb fields && forallb field_okb fields.

Record field_ok (f : pb_field_t) : Prop := {
  ok_tag : 0 <= tag f < 2 ^ 32;
  ok_data_size : 0 <= data_size f < 2 ^ 32;
  ok_array_size : 0 <= array_size f < 2 ^ 32;
  ok_ltype : 0 <= PB_LTYPE (type f) < PB_LTYPES_COUNT
}.
Definition descriptor_ok (fields : list pb_field_t) : Prop :=
  terminated fields (pred (length fields)) /\ Forall field_ok fields.

(** Every descriptor array of the program image is well formed. *)
Definition image_ok `{Image} : Prop :=
  forall p fields, fields_at p = Some fields -> descriptor_ok fields.

Lemma field_okb_spec f : field_okb f = true -> field_ok f.
Proof.
  unfold field_okb, u32. rewrite !andb_true_iff, !Z.leb_le, !Z.ltb_lt.
  intros (((? & ?) & ?) & ?). split; try done. split; [|done].
  apply Z.land_nonneg. right. done.
Qed.

Lemma descriptor_okb_spec fields : descriptor_okb fields = true -> descriptor_ok fields.
Proof.
  unfold descriptor_okb. intros [Ht Hf]%andb_true_iff. split; [by apply terminatedb_spec|].
  apply Forall_forall. intros f Hin. apply field_okb_spec.
  rewrite forallb_forall in Hf. apply Hf. by apply list_elem_of_In.
Qed.

(** Cells hold bytes. *)
Definition mem_bytes (m : mem) : Prop :=
  forall a b, cells m !! a = Some (Some b) -> is_byte b.
