(* ===== verification/EncodeProof.v ===== *)
(** * The encoder implements the wire format

    [refines c o]: the stream computation [c] performs the trace [o] on every
    well-formed stream.  The rules follow the monad, and [encode_refines] is
    the refinement theorem of [pb_encode]. *)
From S2P Require Import Prelude Base128 Types Mem Iter OStream Encode Wire.

Section Refines.
Context {W : Type} `{StreamCallback W}.

Definition refines (c : EM W bool) (o : outcome trace) : Prop :=
  forall t, o = Ok t -> emits c t.

Lemma refines_seq c c' o o' :
  refines c o -> refines c' o' -> refines (try c; c') (wseq o o').
Proof.
  intros Hc Hc' t (t1 & -> & Ht)%obind_Ok. specialize (Hc t1 eq_refl).
  destruct t1 as [w []]; cbn [fst snd] in Ht.
  - apply obind_Ok in Ht as ([w' ok'] & -> & [= <-]). cbn [fst snd].
    exact (emits_seq _ _ _ _ Hc (Hc' _ eq_refl)).
  - injection Ht as <-. intros s Hs He Hn.
    destruct (emits_cases _ _ _ s Hc Hs He Hn) as [(? & _)|(_ & s1 & E & Hk)]; [done|].
    exists s1. by rewrite (bind_Ok _ _ _ _ _ E).
Qed.

Lemma refines_lift {A} (o : outcome A) (k : A -> EM W bool) (g : A -> outcome trace) :
  (forall a, o = Ok a -> refines (k a) (g a)) ->
  refines (do x <- lift o; k x) (let! x := o in g x).
Proof.
  intros Hk t (a & E & Ht)%obind_Ok. apply (emits_lift _ a); [done|]. by apply (Hk a E).
Qed.

Lemma refines_known {A} (x : outcome A) (a : A) (k : A -> EM W bool) o :
  x = Ok a -> refines (k a) o -> refines (bind (lift x) k) o.
Proof. intros Hx Hk t Ht. apply (emits_lift _ a); [done|]. by apply Hk. Qed.

Lemma refines_ext c c' o : (forall s, c s = c' s) -> refines c o -> refines c' o.
Proof. intros He Hc t Ht. exact (emits_ext _ _ _ He (Hc t Ht)). Qed.

Lemma refines_last c o : refines c o -> refines (try c; ret true) o.
Proof. intros Hc t Ht. by apply emits_last, Hc. Qed.

Lemma refines_nothing : refines (ret true) wire_nothing.
Proof. intros t [= <-]. apply emits_ret_true. Qed.

Lemma refines_fail msg : refines (return_error msg) wire_fail.
Proof. intros t [= <-]. apply emits_return_error. Qed.

Lemma refines_bytes c w : emits c (w, true) -> refines c (wire_bytes w).
Proof. by intros Hc t [= <-]. Qed.

Lemma refines_UB c f : refines c (UB f).
Proof. done. Qed.

(** A computation in front that only chooses what to do next. *)
Lemma refines_pure {A} (c : EM W A) (o : outcome A) (k : A -> EM W bool)
    (g : A -> outcome trace) :
  (forall a s, o = Ok a -> c s = Ok (a, s)) -> (forall a, o = Ok a -> refines (k a) (g a)) ->
  refines (bind c k) (let! x := o in g x).
Proof.
  intros Hc Hk t (a & E & Ht)%obind_Ok. apply (emits_ext (k a)).
  - intros s. symmetry. apply bind_Ok. by apply Hc.
  - by apply (Hk a).
Qed.
End Refines.

(** ** Varints *)
Lemma clear_last_cons b l : l <> [] -> clear_last (b :: l) = b :: clear_last l.
Proof. by destruct l. Qed.

Lemma continuation_byte v : Z.lor (Z.land v 0x7F) 0x80 = 128 + v mod 128.
Proof.
  rewrite land_127. pose proof (lor_shiftl_add (v mod 128) 1 7) as Hl.
  pose proof (Z.mod_pos_bound v 128 ltac:(lia)).
  change (Z.shiftl 1 7) with 0x80 in Hl. rewrite Hl; lia.
Qed.

Lemma varint_loop_spec n v :
  0 < v < 2 ^ (7 * Z.of_nat n) ->
  exists l, varint_loop n v = Ok l /\ l <> [] /\ clear_last l = varint_n n v.
Proof.
  revert v. induction n as [|n IH]; intros v Hv; [simpl in Hv; lia|].
  cbn [varint_loop varint_n]. destruct (Z.eqb_spec v 0); [lia|].
  rewrite shiftr_div, continuation_byte by lia. change (2 ^ 7) with 128.
  pose proof (Z.mod_pos_bound v 128 ltac:(lia)).
  destruct (Z.ltb_spec v 128).
  - exists [128 + v]. rewrite Z.div_small, (Z.mod_small v) by lia.
    split; [by destruct n|]. split; [done|]. cbn [clear_last].
    rewrite land_127. replace (128 + v) with (v + 1 * 128) by lia.
    by rewrite Z.mod_add, Z.mod_small by lia.
  - destruct (IH (v / 128)) as (l & -> & Hl & Hc).
    { split; [apply Z.div_str_pos; lia|]. apply Z.div_lt_upper_bound; [lia|].
      rewrite <- (Z.pow_add_r 2 7) by lia.
      replace (7 + 7 * Z.of_nat n) with (7 * Z.of_nat (S n)) by lia. apply Hv. }
    eexists. split; [done|]. split; [done|]. by rewrite clear_last_cons, Hc.
Qed.

Lemma length_clear_last l : length (clear_last l) = length l.
Proof.
  induction l as [|b l IH]; [done|]. destruct l; [done|].
  rewrite clear_last_cons by done. cbn [length]. by rewrite IH.
Qed.

Lemma varint_small v : 0 <= v < 128 -> varint v = [v].
Proof. intros. unfold varint. cbn. by destruct (Z.ltb_spec v 128); [|lia]. Qed.

(** A varint is continuation bytes and then a byte below 128. *)

Section Emitters.
Context {W : Type} `{StreamCallback W}.

(** A local array written whole. *)
Lemma write_arr_emits l n : zlen l = n -> emits (pb_write (W := W) (BArr l) n) (l, true).
Proof.
  intros <-. apply pb_write_emits; [|done]. cbn. destruct (Z.ltb_spec (zlen l) (zlen l)); [lia|].
  unfold zlen. rewrite Nat2Z.id. by rewrite take_ge by lia.
Qed.

Lemma varint_emits v :
  0 <= v < 2 ^ 64 -> emits (pb_encode_varint (W := W) v) (varint v, true).
Proof.
  intros Hv. unfold pb_encode_varint. destruct (Z.leb_spec v 0x7F).
  - rewrite varint_small, Z.mod_small by lia. by apply write_arr_emits.
  - destruct (varint_loop_spec 10 v) as (l & Hl & _ & Hc); [split; [lia|]|].
    { eapply Z.lt_trans; [apply Hv|]. apply Z.pow_lt_mono_r; lia. }
    eapply emits_lift; [exact Hl|]. unfold varint. rewrite <- Hc.
    apply write_arr_emits. unfold zlen. by rewrite length_clear_last.
Qed.

Lemma lnot_wrap v n : 0 <= n -> wrap n (Z.lnot v) = 2 ^ n - 1 - wrap n v.
Proof.
  intros Hn. unfold wrap, Z.lnot. pose proof (Z.mod_pos_bound v (2 ^ n) ltac:(lia)).
  symmetry. apply (Z.mod_unique _ _ (- (v / 2 ^ n) - 1)); [lia|].
  pose proof (Z.div_mod v (2 ^ n) ltac:(lia)). lia.
Qed.

Lemma svarint_emits v :
  - 2 ^ 63 <= v < 2 ^ 63 ->
  emits (pb_encode_svarint (W := W) v) (varint (zigzag v), true).
Proof.
  intros Hv. unfold pb_encode_svarint, zigzag.
  assert (Hshift : wrap 64 (Z.shiftl (wrap 64 v) 1) = wrap 64 (2 * v)).
  { rewrite Z.shiftl_mul_pow2 by lia. unfold wrap. rewrite Zmult_mod_idemp_l. f_equal. lia. }
  rewrite Hshift. destruct (Z.ltb_spec v 0).
  - rewrite lnot_wrap, wrap_wrap by lia.
    assert (wrap 64 (2 * v) = 2 ^ 64 + 2 * v) as ->.
    { symmetry. apply (Z.mod_unique _ _ (-1)); lia. }
    replace (2 ^ 64 - 1 - (2 ^ 64 + 2 * v)) with (-2 * v - 1) by lia.
    apply varint_emits. lia.
  - rewrite wrap_small by lia. apply varint_emits. lia.
Qed.

Lemma tag_emits wt tg :
  0 <= tg < 2 ^ 32 -> 0 <= wt < 8 ->
  emits (pb_encode_tag (W := W) wt tg) (wire_key wt tg, true).
Proof.
  intros Ht Hw. unfold pb_encode_tag, wire_key.
  rewrite wrap_small by (rewrite Z.shiftl_mul_pow2; lia).
  rewrite Z.lor_comm, (lor_shiftl_add wt tg 3) by lia.
  replace (wt + tg * 2 ^ 3) with (8 * tg + wt) by lia. apply varint_emits. lia.
Qed.

Lemma wiretype_of_range lt wt : wiretype_of lt = Some wt -> 0 <= wt < 8.
Proof. unfold wiretype_of. by repeat (case_match; try (intros [= <-]; done)). Qed.

Lemma field_key_refines f :
  field_ok f -> refines (pb_encode_tag_for_field (W := W) f) (wire_field_key f).
Proof.
  intros [Ht _ _ _]. unfold pb_encode_tag_for_field, wire_field_key.
  destruct (wiretype_of _) as [wt|] eqn:E; [|apply refines_fail].
  apply refines_bytes, tag_emits; [done|]. by eapply wiretype_of_range.
Qed.

(** A length followed by that many bytes. *)
Lemma string_emits buf n bs :
  cbuf_read buf n = Some bs -> zlen bs = n -> n < 2 ^ 64 ->
  emits (pb_encode_string (W := W) buf n) (framed bs, true).
Proof.
  intros Hb Hn Hlt. unfold pb_encode_string, framed. pose proof (zlen_nonneg bs).
  apply (emits_seq _ _ (varint (zlen bs), true) (bs, true)).
  - rewrite Hn. apply varint_emits. lia.
  - by apply pb_write_emits.
Qed.

Lemma mem_string_refines m p n :
  0 <= n < 2 ^ 64 -> refines (pb_encode_string (W := W) (BPtr m p) n) (wire_framed (wire_mem m p n)).
Proof.
  intros Hn t. unfold wire_framed, wire_mem, rd.
  destruct (load_bytes m p n) as [bs|] eqn:E; [|done]. intros [= <-].
  eapply string_emits; [done| |lia]. eapply load_bytes_length; [|done]. lia.
Qed.

Lemma empty_string_refines m p :
  refines (pb_encode_string (W := W) (BPtr m p) 0) (wire_bytes (framed [])).
Proof. apply refines_bytes. by eapply string_emits. Qed.
End Emitters.

(** ** Values in memory *)
Lemma load_bytes_bytes m p n bs : mem_bytes m -> load_bytes m p n = Some bs -> bytes bs.
Proof.
  intros Hm [Hl Hc]%read_cells_spec. apply Forall_lookup. intros i b Hb.
  destruct (Hc i) as (b' & Hb' & Hcell); [rewrite <- Hl; by eapply lookup_lt_Some|].
  rewrite Hb in Hb'. injection Hb' as <-. by eapply Hm.
Qed.

Lemma load_range m p n v : mem_bytes m -> 0 <= n -> load m p n = Some v -> 0 <= v < 2 ^ (8 * n).
Proof.
  unfold load. intros Hm Hn. destruct (load_bytes m p n) as [bs|] eqn:E; [|done]. intros [= <-].
  rewrite Z.pow_mul_r by lia. change (2 ^ 8) with 256.
  rewrite <- (load_bytes_length m p n bs) by done.
  apply of_le_range. by eapply load_bytes_bytes.
Qed.

Lemma rd_Ok {A} (f : mem -> option A) m a : rd f m = Ok a -> f m = Some a.
Proof. unfold rd. destruct (f m); [|done]. by intros [= ->]. Qed.

Lemma le_bytes_4 v :
  [Z.land v 0xFF; Z.land (Z.shiftr v 8) 0xFF; Z.land (Z.shiftr v 16) 0xFF;
   Z.land (Z.shiftr v 24) 0xFF] = le_bytes 4 v.
Proof. cbn [le_bytes]. rewrite !land_255, !shiftr_div, !Z.div_div by lia. done. Qed.

Lemma le_bytes_8 v :
  [Z.land v 0xFF; Z.land (Z.shiftr v 8) 0xFF; Z.land (Z.shiftr v 16) 0xFF;
   Z.land (Z.shiftr v 24) 0xFF; Z.land (Z.shiftr v 32) 0xFF; Z.land (Z.shiftr v 40) 0xFF;
   Z.land (Z.shiftr v 48) 0xFF; Z.land (Z.shiftr v 56) 0xFF] = le_bytes 8 v.
Proof. cbn [le_bytes]. rewrite !land_255, !shiftr_div, !Z.div_div by lia. done. Qed.

Lemma strlen_loop_range m fuel size max_size p n :
  0 <= size <= max_size -> strlen_loop m fuel size max_size p = Ok n -> 0 <= n <= max_size.
Proof.
  revert size p. induction fuel as [|fuel IH]; intros size p Hs; [done|]. cbn [strlen_loop].
  destruct (Z.ltb_spec size max_size); [|intros [= <-]; lia].
  intros (c & _ & Hk)%obind_Ok. destruct (negb (c =? 0)); [|injection Hk as <-; lia].
  eapply IH; [|exact Hk]. lia.
Qed.

Section Values.
Context {W : Type} `{StreamCallback W} (m : mem) (Hm : mem_bytes m).

Lemma fixed32_refines p : refines (pb_encode_fixed32 (W := W) m p) (wire_mem m p 4).
Proof.
  unfold pb_encode_fixed32, wire_mem, rd. unfold load.
  destruct (load_bytes m p 4) as [bs|] eqn:E; [|done]. cbn [or_ub fmap option_fmap option_map].
  apply refines_bytes. eapply emits_lift; [done|]. rewrite le_bytes_4.
  pose proof (load_bytes_length m p 4 bs ltac:(lia) E) as Hl. unfold zlen in Hl.
  replace 4%nat with (length bs) by lia.
  rewrite le_bytes_of_le by (by eapply load_bytes_bytes). by apply write_arr_emits.
Qed.

Lemma fixed64_refines p : refines (pb_encode_fixed64 (W := W) m p) (wire_mem m p 8).
Proof.
  unfold pb_encode_fixed64, wire_mem, rd. unfold load.
  destruct (load_bytes m p 8) as [bs|] eqn:E; [|done]. cbn [or_ub fmap option_fmap option_map].
  apply refines_bytes. eapply emits_lift; [done|]. rewrite le_bytes_8.
  pose proof (load_bytes_length m p 8 bs ltac:(lia) E) as Hl. unfold zlen in Hl.
  replace 8%nat with (length bs) by lia.
  rewrite le_bytes_of_le by (by eapply load_bytes_bytes). by apply write_arr_emits.
Qed.

Lemma bool_refines f p :
  refines (pb_enc_bool (W := W) m f p)
    (let! b := safe_read_bool m p in wire_bytes [if b : bool then 1 else 0]).
Proof.
  apply refines_lift. intros b _. apply refines_bytes.
  rewrite <- (varint_small (if b then 1 else 0)) by (destruct b; lia).
  apply varint_emits. destruct b; lia.
Qed.

Lemma read_int_width ld n p v :
  read_int m ld n p = Ok (Some v) -> ld m p n = Some v /\ 1 <= n <= 8.
Proof.
  unfold read_int. destruct (_ || _) eqn:E; [|done].
  intros (a & Ha%rd_Ok & [= <-])%obind_Ok. split; [done|]. lia.
Qed.

Lemma load_signed_64 p n v :
  load_signed m p n = Some v -> 1 <= n <= 8 -> - 2 ^ 63 <= v < 2 ^ 63.
Proof.
  intros Hv Hn. apply load_signed_range in Hv; [|lia].
  assert (2 ^ (8 * n - 1) <= 2 ^ 63) by (apply Z.pow_le_mono_r; lia). lia.
Qed.

(** The three integer encoders share their shape. *)
Lemma int_refines ld conv (enc : Z -> EM W bool) f p :
  (forall n v, ld m p n = Some v -> 1 <= n <= 8 -> emits (enc v) (varint (conv v), true)) ->
  refines
    (do value <- lift (read_int m ld (data_size f) p);
     match value with
     | None => return_error "invalid data_size"
     | Some v => enc v
     end)
    (wire_int m ld conv f p).
Proof.
  intros He. apply refines_lift. intros [v|] Hv; [|apply refines_fail].
  apply read_int_width in Hv as [Hv Hn]. apply refines_bytes. by eapply He.
Qed.

Lemma varint_refines f p :
  refines (pb_enc_varint (W := W) m f p) (wire_int m load_signed (wrap 64) f p).
Proof.
  apply int_refines. intros n v _ _. apply varint_emits. apply wrap_range. lia.
Qed.

Lemma uvarint_refines f p :
  refines (pb_enc_uvarint (W := W) m f p) (wire_int m load id f p).
Proof.
  apply int_refines. intros n v Hv Hn. apply varint_emits.
  apply load_range in Hv; [|done|lia].
  assert (2 ^ (8 * n) <= 2 ^ 64) by (apply Z.pow_le_mono_r; lia). unfold id. lia.
Qed.

Lemma svarint_refines f p :
  refines (pb_enc_svarint (W := W) m f p) (wire_int m load_signed zigzag f p).
Proof.
  apply int_refines. intros n v Hv Hn. apply svarint_emits. by eapply load_signed_64.
Qed.

Lemma bytes_refines f p :
  refines (pb_enc_bytes (W := W) m f p) (wire_bytes_array m f p).
Proof.
  unfold pb_enc_bytes, wire_bytes_array. destruct (p =? NULL); [apply empty_string_refines|].
  apply refines_lift. intros n Hn%rd_Ok. apply load_range in Hn; [|done|done].
  unfold sizeof_pb_size_t in Hn.
  unfold PB_BYTES_ARRAY_T_ALLOCSIZE, offsetof_bytes.
  rewrite (wrap_small 64 n), (wrap_small 64) by lia.
  destruct (Z.ltb_spec (n + 4) n); [lia|]. cbn [orb].
  destruct (_ && _); [apply refines_fail|]. apply mem_string_refines. lia.
Qed.

Lemma string_refines f p :
  field_ok f -> refines (pb_enc_string (W := W) m f p) (wire_string m f p).
Proof.
  intros [_ Hd _ _]. unfold pb_enc_string, wire_string.
  destruct (p =? NULL); [apply empty_string_refines|].
  apply refines_lift. intros n Hn%strlen_loop_range.
  - apply mem_string_refines. unfold string_max, SIZE_T_MAX in Hn. case_match; lia.
  - unfold string_max, SIZE_T_MAX. case_match; lia.
Qed.
End Values.

(** ** Framing *)
Section Framing.
Context {W : Type} `{StreamCallback W}.

(** A fresh sizing stream counts exactly the bytes of the trace. *)
Lemma sizing_pass (c : EM W bool) w ok :
  emits c (w, ok) -> zlen w < 2 ^ 64 ->
  if ok then c PB_OSTREAM_SIZING = Ok (true, append PB_OSTREAM_SIZING w)
  else exists s', c PB_OSTREAM_SIZING = Ok (false, s').
Proof.
  intros Hc Hw. pose proof (zlen_nonneg w).
  assert (Hs : ostream_wf (W := W) PB_OSTREAM_SIZING) by (unfold ostream_wf; cbn; lia).
  destruct (emits_cases _ _ _ _ Hc Hs eq_refl) as [(-> & _ & E)|([->|Hr] & s' & E & _)];
    [cbn; lia|done|by exists s'|]. unfold room in Hr. cbn in Hr. lia.
Qed.

(** The second pass of [pb_encode_submessage], after the size. *)
Definition second_pass (c : EM W bool) (size : Z) : EM W bool :=
  do s <- get;
  if is_null (sink s) then pb_write (BArr []) size
  else if max_size s <? wrap 64 (bytes_written s + size) then return_error "stream full"
  else
    do (status, substream) <- on_ostream (mk_ostream (sink s) size 0 None) c;
    run modify (fun s =>
      mk_ostream (sink substream) (max_size s)
        (wrap 64 (bytes_written s + bytes_written substream)) (errmsg substream));
    if negb (bytes_written substream =? size) then return_error "submsg size changed"
    else ret status.

Lemma second_pass_emits c w : emits c (w, true) -> emits (second_pass c (zlen w)) (w, true).
Proof.
  intros Hc. apply emits_intro. intros s Hs He Hn. pose proof (zlen_nonneg w).
  unfold second_pass, bind at 1. cbn [get].
  destruct (is_null (sink s)) eqn:Hnull.
  { pose proof (null_room _ _ Hnull Hn). destruct Hs as (? & _).
    split; [|intros [|]; done || lia]. intros _.
    rewrite pb_write_null by done. apply add_written_append; done || lia. }
  destruct s as [[|b d|u] mx bw e]; [done| |by destruct Hs as (_ & _ & [])].
  unfold ostream_wf, room in *. cbn in Hs, He, Hn |- *. destruct Hs as (Hbw & Hmx & Hk1 & Hk2).
  subst e. rewrite wrap_small by lia.
  destruct (Z.ltb_spec mx (bw + zlen w)); (split; [intros [_ ?]|intros [|]]); try done; try lia.
  - eexists. split; [done|]. eapply (keeps_set_errmsg (mk_ostream _ _ _ _) (mk_ostream _ _ _ _)).
    apply keeps_refl. unfold ostream_wf. cbn. lia.
  - set (sub := mk_ostream (OBuf b d) (zlen w) 0 None : pb_ostream_t W).
    assert (Hsub : ostream_wf sub) by (unfold ostream_wf, sub; cbn; lia).
    destruct (emits_cases _ _ _ _ Hc Hsub eq_refl ltac:(cbn; lia))
      as [(_ & _ & E)|([|Hr] & _)]; [|done|unfold room, sub in Hr; cbn in Hr; lia].
    unfold bind, on_ostream. rewrite E. cbn. rewrite Z.add_0_l, Z.eqb_refl. cbn.
    unfold append. cbn. by rewrite wrap_small by lia.
Qed.

Lemma submessage_refines (encode : list pb_field_t -> Z -> EM W bool) fields src o :
  refines (encode fields src) o ->
  refines (pb_encode_submessage encode fields src) (wire_framed o).
Proof.
  intros Hc t ([w ok] & Ho & Ht)%obind_Ok. specialize (Hc _ Ho). cbn [fst snd] in Ht.
  apply (emits_ext (
    do (ok, substream) <- on_ostream PB_OSTREAM_SIZING (encode fields src);
    if negb ok then
      run modify (fun s => set_errmsg s (errmsg substream)); ret false
    else
      try pb_encode_varint (bytes_written substream);
      second_pass (encode fields src) (bytes_written substream))); [done|].
  pose proof (zlen_nonneg w).
  destruct ok; injection Ht as <-.
  - apply (emits_ext_wf
      (try pb_encode_varint (zlen w); second_pass (encode fields src) (zlen w))).
    + cbn [fst]. unfold framed. intros s Hs Hn. rewrite zlen_app in Hn.
      pose proof (zlen_nonneg (varint (zlen w))). destruct (ostream_wf_bw s Hs).
      pose proof (sizing_pass _ _ _ Hc ltac:(lia)) as E. cbn in E.
      unfold bind at 3, on_ostream at 1. by rewrite E.
    + intros s Hs He Hn. cbn [fst snd] in *. unfold framed in *. rewrite zlen_app in Hn.
      pose proof (zlen_nonneg (varint (zlen w))). destruct (ostream_wf_bw s Hs).
      assert (Hv : 0 <= zlen w < 2 ^ 64) by lia. rewrite <- zlen_app in Hn.
      exact (emits_seq _ _ _ _ (varint_emits (zlen w) Hv) (second_pass_emits _ _ Hc) s Hs He Hn).
  - intros s Hs He Hn. cbn [fst snd andb] in *. destruct (ostream_wf_bw s Hs).
    destruct (sizing_pass _ _ _ Hc ltac:(lia)) as [s' E].
    unfold bind, on_ostream. rewrite E. cbn. eexists. split; [done|].
    by apply keeps_set_errmsg, keeps_refl.
Qed.
End Framing.

(** ** Fields and messages *)
Lemma PB_HTYPE_cases ty :
  PB_HTYPE ty = PB_HTYPE_REQUIRED \/ PB_HTYPE ty = PB_HTYPE_OPTIONAL \/
  PB_HTYPE ty = PB_HTYPE_REPEATED \/ PB_HTYPE ty = PB_HTYPE_ONEOF.
Proof.
  unfold PB_HTYPE. replace PB_HTYPE_MASK with (Z.shiftl (Z.ones 2) 4) by done.
  assert (Z.land ty (Z.shiftl (Z.ones 2) 4) = Z.shiftl (Z.land (Z.shiftr ty 4) (Z.ones 2)) 4) as ->.
  { rewrite Z.shiftl_land. apply Z.bits_inj'. intros n Hn. rewrite !Z.land_spec.
    destruct (Z.ltb_spec n 4).
    - rewrite (Z.shiftl_spec_low (Z.ones 2)) by lia. by rewrite !andb_false_r.
    - rewrite (Z.shiftl_spec (Z.shiftr ty 4)), Z.shiftr_spec by lia. do 3 f_equal. lia. }
  rewrite Z.land_ones by lia. pose proof (Z.mod_pos_bound (Z.shiftr ty 4) (2 ^ 2) ltac:(lia)) as Hb.
  set (x := Z.shiftr ty 4 mod 2 ^ 2) in *. change (2 ^ 2) with 4 in Hb.
  assert (x = 0 \/ x = 1 \/ x = 2 \/ x = 3) as [-> | [-> | [-> | ->]]] by lia; auto.
Qed.

Lemma item_addresses_cons p n ds :
  0 <= n ->
  item_addresses p (Z.succ n) ds = p :: item_addresses (p + ds) n ds.
Proof.
  intros Hn. unfold item_addresses. rewrite Z2Nat.inj_succ by done. cbn [seq map].
  f_equal; [lia|]. rewrite <- (seq_shift _ 0), map_map. apply map_ext. intros i. lia.
Qed.

Section Fields.
Context {W : Type} `{StreamCallback W} `{!EncodeCallbacks W} `{EncodeTraces} `{Image}.
Context (m : mem) (Hm : mem_bytes m) (Himg : image_ok).

(** Callbacks that perform their traces. *)
Definition callbacks_refine : Prop :=
  (forall fn f p, refines (usr_encode (W := W) m fn f p) (enc_trace m fn f p)) /\
  (forall fn e, refines (usr_ext_encode (W := W) m fn e) (ext_trace m fn e)).
Context (Hcb : callbacks_refine).

Context (rec_encode : list pb_field_t -> Z -> EM W bool).
Context (wire_sub : list pb_field_t -> Z -> outcome trace).
Context (Hrec : forall fields src, descriptor_ok fields ->
           refines (rec_encode fields src) (wire_sub fields src)).
Context (check_proto3 : pb_field_t -> Z -> M unit bool) (fuel : nat).

Lemma enc_submessage_refines f p :
  refines (pb_enc_submessage rec_encode f p) (wire_submessage wire_sub f p).
Proof.
  unfold pb_enc_submessage, wire_submessage. destruct (ptr f =? NULL); [apply refines_fail|].
  apply refines_lift. intros fields Hf. apply submessage_refines, Hrec.
  unfold deref_fields, or_ub in Hf. destruct (fields_at (ptr f)) as [fs|] eqn:E; [|done].
  injection Hf as <-. by eapply Himg.
Qed.

(** Every entry of [PB_ENCODERS] implements its data type. *)
Lemma encoder_refines f p func :
  field_ok f -> encoder_for m rec_encode (PB_LTYPE (type f)) = Ok func ->
  refines (call_encoder func f p) (wire_value m wire_sub f p).
Proof.
  intros Hf Hfunc. pose proof (ok_ltype f Hf) as Hlt. unfold wire_value.
  set (lt := PB_LTYPE (type f)) in *. clearbody lt. change PB_LTYPES_COUNT with 11 in Hlt.
  assert (Hcases : lt = 0 \/ lt = 1 \/ lt = 2 \/ lt = 3 \/ lt = 4 \/ lt = 5 \/ lt = 6 \/
    lt = 7 \/ lt = 8 \/ lt = 9 \/ lt = 10) by lia.
  repeat (destruct Hcases as [->|Hcases]); try subst lt; cbn in Hfunc |- *;
    injection Hfunc as <-; cbn [call_encoder].
  - by apply bool_refines.
  - by apply varint_refines.
  - by apply uvarint_refines.
  - by apply svarint_refines.
  - by apply fixed32_refines.
  - by apply fixed64_refines.
  - by apply bytes_refines.
  - by apply string_refines.
  - apply enc_submessage_refines.
  - apply refines_UB.
  - apply mem_string_refines. destruct Hf as [_ ? _ _]. lia.
Qed.

Lemma encoder_for_ok f :
  field_ok f -> exists func, encoder_for m rec_encode (PB_LTYPE (type f)) = Ok func.
Proof.
  intros [_ _ _ Hl]. unfold encoder_for. change PB_LTYPES_COUNT with 11 in Hl.
  destruct (lookup_lt_is_Some_2 (PB_ENCODERS m rec_encode) (Z.to_nat (PB_LTYPE (type f))))
    as [func Hfunc]; [cbn [length PB_ENCODERS]; lia|]. exists func. by rewrite Hfunc.
Qed.

Lemma items_refine (body : Z -> EM W bool) item p n ds :
  (forall p, refines (body p) (item p)) -> 0 <= n ->
  refines (each_item body (Z.to_nat n) p ds) (wire_all item (item_addresses p n ds)).
Proof.
  intros Hb Hn. revert p. pattern n. apply natlike_ind; [| |done].
  - intros p. apply refines_nothing.
  - clear n Hn. intros n Hn IH p. rewrite item_addresses_cons, Z2Nat.inj_succ by done.
    cbn [each_item wire_all]. by apply refines_seq.
Qed.

(** Fixed-width items never fail and have a known size. *)
Lemma fixed_items f k l t :
  PB_LTYPE (type f) = PB_LTYPE_FIXED32 /\ k = 4 \/ PB_LTYPE (type f) = PB_LTYPE_FIXED64 /\ k = 8 ->
  wire_all (wire_value m wire_sub f) l = Ok t ->
  t.2 = true /\ zlen t.1 = k * zlen l.
Proof.
  intros Hlt. revert t. induction l as [|p l IH]; intros t; cbn [wire_all].
  { intros [= <-]. cbn [fst snd]. unfold zlen. simpl length. split; [done|lia]. }
  intros (t1 & Hv & Ht)%obind_Ok.
  assert (Hone : t1.2 = true /\ zlen t1.1 = k).
  { unfold wire_value in Hv. destruct Hlt as [[E ->]|[E ->]]; rewrite E in Hv; cbn in Hv;
      apply obind_Ok in Hv as (bs & Hbs%rd_Ok & [= <-]); (split; [done|]);
      by eapply load_bytes_length. }
  destruct Hone as [Hok Hlen]. rewrite Hok in Ht.
  apply obind_Ok in Ht as (u & Hu & [= <-]). destruct (IH u Hu) as [Hu1 Hu2].
  split; [done|]. cbn [fst snd]. rewrite zlen_app, zlen_cons. lia.
Qed.

Lemma packed_size_spec f p count func w ok s :
  encoder_for m rec_encode (PB_LTYPE (type f)) = Ok func -> field_ok f ->
  0 <= count < 2 ^ 32 -> zlen w < 2 ^ 64 ->
  wire_all (wire_value m wire_sub f) (item_addresses p count (data_size f)) = Ok (w, ok) ->
  packed_size f p count func s = Ok (if ok then Some (zlen w) else None, s).
Proof.
  intros Hfunc Hf Hc Hw Ht. unfold packed_size.
  assert (Hl : zlen (item_addresses p count (data_size f)) = count).
  { unfold zlen, item_addresses. rewrite length_map, length_seq. lia. }
  destruct (Z.eqb_spec (PB_LTYPE (type f)) PB_LTYPE_FIXED32) as [E|_].
  { destruct (fixed_items f 4 _ _ (or_introl (conj E eq_refl)) Ht) as [Hok Hz]. cbn [fst snd] in *.
    rewrite Hl in Hz. subst ok. rewrite wrap_small by lia. by rewrite Hz. }
  destruct (Z.eqb_spec (PB_LTYPE (type f)) PB_LTYPE_FIXED64) as [E|_].
  { destruct (fixed_items f 8 _ _ (or_intror (conj E eq_refl)) Ht) as [Hok Hz]. cbn [fst snd] in *.
    rewrite Hl in Hz. subst ok. rewrite wrap_small by lia. by rewrite Hz. }
  pose proof (items_refine _ _ p count (data_size f)
    (fun p => encoder_refines f p func Hf Hfunc) ltac:(lia) _ Ht) as Hi.
  pose proof (sizing_pass _ _ _ Hi Hw) as E. unfold bind, on_ostream. destruct ok.
  - by rewrite E.
  - destruct E as [s' E]. by rewrite E.
Qed.

(** Writing the packed data once its size is known. *)
Lemma packed_data_emits (c : EM W bool) w :
  emits c (w, true) ->
  emits (do s <- get; if is_null (sink s) then pb_write (BArr []) (zlen w) else c) (w, true).
Proof.
  intros Hc s Hs He Hn. unfold bind. cbn [get]. destruct (is_null (sink s)) eqn:Hnull.
  - pose proof (null_room _ _ Hnull Hn). cbn [fst snd andb] in *.
    destruct (Z.leb_spec (zlen w) (room s)); [|lia]. rewrite pb_write_null by done.
    apply add_written_append; [done| |lia]. by apply ostream_wf_bw.
  - by apply Hc.
Qed.

Lemma array_refines f p count func :
  encoder_for m rec_encode (PB_LTYPE (type f)) = Ok func -> field_ok f ->
  0 <= count < 2 ^ 32 ->
  refines (encode_array m f p count func) (wire_array m wire_sub f p count).
Proof.
  intros Hfunc Hf Hc. unfold encode_array, wire_array.
  destruct (count =? 0); [apply refines_nothing|].
  destruct (_ && _); [apply refines_fail|].
  destruct (PB_LTYPE (type f) <=? PB_LTYPE_LAST_PACKABLE).
  - apply refines_seq.
    { apply refines_bytes, tag_emits; [by apply ok_tag|done]. }
    intros t ([w ok] & Ho & Ht)%obind_Ok. cbn [fst snd] in Ht.
    pose proof (items_refine _ _ p count (data_size f)
      (fun p => encoder_refines f p func Hf Hfunc) ltac:(lia) _ Ho) as Hi.
    destruct ok; injection Ht as <-.
    + apply (emits_ext_wf (try pb_encode_varint (zlen w);
        do s <- get; if is_null (sink s) then pb_write (BArr []) (zlen w)
        else each_item (call_encoder func f) (Z.to_nat count) p (data_size f))).
      * cbn [fst]. unfold framed. intros s Hs Hn. rewrite zlen_app in Hn.
        pose proof (zlen_nonneg (varint (zlen w))). destruct (ostream_wf_bw s Hs).
        assert (Hw : zlen w < 2 ^ 64) by lia.
        pose proof (packed_size_spec _ _ _ _ _ true s Hfunc Hf Hc Hw Ho) as E.
        by rewrite (bind_Ok (packed_size f p count func) _ s _ _ E).
      * intros s Hs He Hn. cbn [fst snd] in *. unfold framed in *. rewrite zlen_app in Hn.
        pose proof (zlen_nonneg (varint (zlen w))). destruct (ostream_wf_bw s Hs).
        assert (Hv : 0 <= zlen w < 2 ^ 64) by (pose proof (zlen_nonneg w); lia).
        rewrite <- zlen_app in Hn.
        exact (emits_seq _ _ _ _ (varint_emits (zlen w) Hv) (packed_data_emits _ _ Hi) s Hs He Hn).
    + intros s Hs He Hn. cbn [fst snd andb] in *. destruct (ostream_wf_bw s Hs).
      exists s. split; [|by apply keeps_refl].
      assert (Hw : zlen w < 2 ^ 64) by lia.
      pose proof (packed_size_spec _ _ _ _ _ false s Hfunc Hf Hc Hw Ho) as E.
      by rewrite (bind_Ok _ _ s _ _ E).
  - apply items_refine; [|lia]. intros q. apply refines_seq; [by apply field_key_refines|].
    apply refines_lift. intros q' _. by apply encoder_refines.
Qed.

Lemma present_refines f p func :
  encoder_for m rec_encode (PB_LTYPE (type f)) = Ok func -> field_ok f ->
  refines
    (try pb_encode_tag_for_field f; try call_encoder func f p; ret true)
    (wseq (wire_field_key f) (wire_value m wire_sub f p)).
Proof.
  intros Hfunc Hf. apply refines_seq; [by apply field_key_refines|].
  by apply refines_last, encoder_refines.
Qed.

Lemma basic_refines f pData :
  field_ok f ->
  refines (encode_basic_field m rec_encode check_proto3 f pData)
    (wire_basic m wire_sub check_proto3 f pData).
Proof.
  intros Hf. destruct (encoder_for_ok f Hf) as [func Hfunc].
  unfold encode_basic_field, wire_basic. apply (refines_known _ func); [done|].
  apply refines_pure.
  { intros b s. destruct (negb _); [by intros [= <-]|].
    destruct (_ =? PB_HTYPE_OPTIONAL); [|by intros [= <-]].
    intros (z & Hz & [= <-])%obind_Ok. unfold bind, lift. by rewrite Hz. }
  intros implicit _. apply (refines_pure _ (if PB_ATYPE (type f) =? PB_ATYPE_POINTER
    then let! p := rd (fun m => load_ptr m pData) m in Ok (p, negb (p =? NULL))
    else Ok (pData, implicit))).
  { intros [p b] s. destruct (_ =? PB_ATYPE_POINTER); [|by intros [= <- <-]].
    intros (z & Hz & [= <- <-])%obind_Ok. unfold bind, lift. by rewrite Hz. }
  intros [p imp] _.
  pose proof (present_refines f p func Hfunc Hf) as Hpresent.
  destruct (PB_HTYPE_cases (type f)) as [E|[E|[E|E]]]; rewrite E; cbn [Z.eqb Pos.eqb].
  - destruct (p =? NULL); [apply refines_fail|done].
  - apply refines_pure.
    { intros b s. destruct (size_offset f =? 0); cbn; [by intros [= <-]|].
      intros Hb. unfold lift. by rewrite Hb. }
    intros [] _; [done|apply refines_nothing].
  - apply refines_pure.
    { intros b s. destruct (size_offset f =? 0); cbn; [by intros [= <-]|].
      intros Hb. unfold lift. by rewrite Hb. }
    intros count Hcount. apply refines_last, array_refines; [done|done|].
    destruct (size_offset f =? 0); [injection Hcount as <-; by apply ok_array_size|].
    apply rd_Ok, load_range in Hcount; done.
  - apply refines_pure.
    { intros b s. destruct (size_offset f =? 0); cbn; [done|].
      intros Hb. unfold lift. by rewrite Hb. }
    intros which _. destruct (which =? tag f); [done|apply refines_nothing].
Qed.

Lemma callback_refines f pData :
  refines (encode_callback_field m f pData) (wire_callback m f pData).
Proof.
  apply refines_lift. intros fn _. destruct (fn =? NULL); [apply refines_nothing|].
  intros t Ht. apply emits_or_fail; [by apply (proj1 Hcb)|].
  intros s Hs. eexists. split; [done|]. by apply keeps_set_errmsg, keeps_refl.
Qed.

Lemma field_refines f pData :
  field_ok f ->
  refines (encode_field m rec_encode check_proto3 f pData)
    (wire_field m wire_sub check_proto3 f pData).
Proof.
  intros Hf. unfold encode_field, wire_field.
  destruct (_ || _); [by apply basic_refines|].
  destruct (_ =? PB_ATYPE_CALLBACK); [apply callback_refines|apply refines_fail].
Qed.

Lemma deref_fields_ok p fields i f :
  deref_fields p = Ok fields -> fields !! i = Some f -> field_ok f.
Proof.
  unfold deref_fields. destruct (fields_at p) as [fs|] eqn:E; [|done]. intros [= <-] Hi.
  destruct (Himg _ _ E) as [_ Hall]. by eapply Forall_lookup in Hall.
Qed.

Lemma default_extension_refines e :
  refines (default_extension_encoder m rec_encode check_proto3 e)
    (wire_default_extension m wire_sub check_proto3 e).
Proof.
  apply refines_lift. intros t _. apply refines_lift. intros fields Hfields.
  apply refines_lift. intros f Hf.
  assert (Hok : field_ok f).
  { eapply (deref_fields_ok _ _ 0); [done|].
    destruct (fields !! 0%nat); [|done]. by injection Hf as <-. }
  destruct (_ =? PB_ATYPE_POINTER); [by apply field_refines|].
  apply refines_lift. intros dest _. by apply field_refines.
Qed.

Lemma extensions_refine n e :
  refines (extension_list m rec_encode check_proto3 n e)
    (wire_extensions m wire_sub check_proto3 n e).
Proof.
  revert e. induction n as [|n IH]; intros e; [done|]. cbn [extension_list wire_extensions].
  destruct (e =? NULL); [apply refines_nothing|].
  apply refines_lift. intros t _. apply refines_seq.
  - destruct (negb _); [apply (proj2 Hcb)|apply default_extension_refines].
  - apply refines_lift. intros next _. apply IH.
Qed.

Lemma entry_refines it :
  (forall f, cur it = Ok f -> field_ok f) ->
  refines (encode_entry m rec_encode check_proto3 fuel it)
    (wire_entry m wire_sub check_proto3 fuel it).
Proof.
  intros Hf. apply refines_lift. intros f E.
  destruct (_ =? PB_LTYPE_EXTENSION); [|by apply field_refines, Hf].
  apply refines_lift. intros e _. apply extensions_refine.
Qed.
End Fields.

(** Visiting the fields of a struct is doing one trace after the other. *)
Section ForFields.
Context {W : Type} `{StreamCallback W}.
Context (fs : list pb_field_t) (dest : Z) (n : nat) (Hterm : terminated fs n).
Context (body : pb_field_iter_t -> EM W bool) (item : pb_field_iter_t -> outcome trace).
Context (Hbody : forall k, (k < n)%nat ->
           refines (body (field_at fs dest k)) (item (field_at fs dest k))).

Lemma iter_each_refines d k fuel :
  (k + S d = n)%nat -> (S d <= fuel)%nat ->
  refines (iter_each body fuel (field_at fs dest k))
    (wire_all item (map (field_at fs dest) (seq k (S d)))).
Proof.
  revert k fuel. induction d as [|d IH]; intros k [|fuel] Hk Hf; try lia.
  - cbn [iter_each seq map wire_all]. apply refines_seq; [apply Hbody; lia|].
    apply (refines_ext (ret true)); [|apply refines_nothing].
    intros s. unfold bind, lift. rewrite (iter_next_spec fs dest n) by (done || lia).
    by destruct (Nat.ltb_spec (S k) n); [lia|].
  - cbn [iter_each]. rewrite <- cons_seq. cbn [map wire_all].
    apply refines_seq; [apply Hbody; lia|].
    apply (refines_ext (iter_each body fuel (field_at fs dest (S k)))); [|apply IH; lia].
    intros s. unfold bind at 1, lift. rewrite (iter_next_spec fs dest n) by (done || lia).
    by destruct (Nat.ltb_spec (S k) n); [|lia].
Qed.

Lemma for_fields_refines :
  refines (for_fields fs dest body) (wire_all item (map (field_at fs dest) (seq 0 n))).
Proof.
  pose proof (iter_begin_spec fs dest n Hterm) as Hb.
  destruct (Nat.eqb_spec n 0) as [Hz|Hz]; cbn [negb] in Hb.
  - rewrite Hz. apply (refines_ext (ret true)); [|apply refines_nothing].
    intros s. unfold for_fields, bind, lift. by rewrite Hb.
  - apply (refines_ext (iter_each body (length fs) (field_at fs dest 0)));
      [intros s; unfold for_fields, bind at 1, lift; by rewrite Hb|].
    pose proof (iter_each_refines (pred n) 0 (length fs) ltac:(lia)) as Hi.
    rewrite Nat.succ_pred in Hi by done. apply Hi. destruct Hterm as [-> _]. lia.
Qed.
End ForFields.

Section Encode.
Context {W : Type} `{StreamCallback W} `{!EncodeCallbacks W} `{EncodeTraces} `{Image}.
Context (m : mem) (Hm : mem_bytes m) (Himg : image_ok) (Hcb : callbacks_refine (W := W) m).

Lemma pb_encode_refines fuel fields src :
  descriptor_ok fields ->
  refines (pb_encode (W := W) m fuel fields src) (wire_message m fuel fields src).
Proof.
  revert fields src. induction fuel as [|fuel IH]; intros fields src Hd; [done|].
  cbn [pb_encode wire_message]. destruct Hd as [Hterm Hall].
  apply (for_fields_refines fields src _ Hterm). intros k Hk.
  apply entry_refines; [done|done|done|exact IH|].
  intros f Hf. unfold cur in Hf. destruct (field_at_start fields src k) as [Hst _].
  rewrite Hst in Hf. destruct (fields !! _) as [g|] eqn:E; [|done]. injection Hf as <-.
  by eapply Forall_lookup in Hall.
Qed.
End Encode.
