(* ===== verification/IStream.v ===== *)
(** * Input streams and primitive decoders ([pb_decode.c])

    A stream reads from a constant buffer ([buf_read]) or through a user
    callback.  Reading past the end of the buffer object is undefined
    behaviour in the model; the theorems say it cannot happen while
    [bytes_left] never exceeds what the buffer holds. *)
From S2P Require Import Prelude Base128 Types Mem.

(** [callback] and [state] of a [pb_istream_t]: the bytes of the constant
    buffer from [state] on, or the opaque [state] pointer of a user
    callback. *)
Inductive isource : Type :=
| IBuf (rest : list Z)
| IUser (p : Z).

Record pb_istream_t : Type := mk_istream {
  source : isource;
  bytes_left : Z;
  i_errmsg : option string
}.

(** A user's stream callback may change memory (whatever its [state] points
    to); it returns its verdict, the bytes it stored in the caller's buffer
    and the new [state]. *)
Class ReadCallback := usr_read : mem -> Z -> Z -> bool * list Z * mem * Z.

(** The state of a decoding function: memory, its stream, and its local
    [fixed_count_size]. *)
Record dstate : Type := mk_dstate {
  dmem : mem;
  istream : pb_istream_t;
  fixed_count_size : Z
}.
Definition DM (A : Type) : Type := M dstate A.

Definition with_mem (m : mem) (s : dstate) : dstate :=
  mk_dstate m (istream s) (fixed_count_size s).
Definition with_istream (i : pb_istream_t) (s : dstate) : dstate :=
  mk_dstate (dmem s) i (fixed_count_size s).
Definition with_local (n : Z) (s : dstate) : dstate :=
  mk_dstate (dmem s) (istream s) n.

(** Memory accesses of decoding code. *)
Definition on_mem {A} (f : mem -> option A) : DM A := fun s =>
  match f (dmem s) with Some a => Ok (a, s) | None => UB BadAccess end.
Definition upd_mem (f : mem -> option mem) : DM unit := fun s =>
  match f (dmem s) with Some m => Ok (tt, with_mem m s) | None => UB BadAccess end.

(** [PB_SET_ERROR], and [PB_RETURN_ERROR] for either kind of result. *)
Definition set_err (msg : string) : DM unit := modify (fun s =>
  with_istream (mk_istream (source (istream s)) (bytes_left (istream s))
                  (set_error (i_errmsg (istream s)) msg)) s).
Definition ret_error (msg : string) : DM bool := run set_err msg; ret false.
Definition no_value {A} (msg : string) : DM (option A) := run set_err msg; ret None.

Definition left : DM Z := do s <- get; ret (bytes_left (istream s)).

Definition pb_istream_from_buffer (buf : list Z) (bufsize : Z) : pb_istream_t :=
  mk_istream (IBuf buf) bufsize None.

Section Stream.
Context `{ReadCallback}.

Definition set_source (src : isource) : DM unit := modify (fun s =>
  with_istream (mk_istream src (bytes_left (istream s)) (i_errmsg (istream s))) s).
Definition take_left (count : Z) : DM unit := modify (fun s =>
  with_istream (mk_istream (source (istream s)) (wrap 64 (bytes_left (istream s) - count))
                  (i_errmsg (istream s))) s).

(** [buf_read]: the state pointer advances; the bytes are copied unless
    [buf] is NULL. *)
Definition buf_read (buf_null : bool) (count : Z) : DM (bool * list Z) := fun s =>
  match source (istream s) with
  | IBuf rest =>
      if zlen rest <? count then UB OverRead
      else
        (run set_source (IBuf (drop (Z.to_nat count) rest));
         ret (true, if buf_null then [] else take (Z.to_nat count) rest)) s
  | IUser _ => UB BadCall
  end.

(** [stream->callback(stream, buf, count)]; a user callback that reports
    success must have filled [buf], an array of [pb_byte_t]. *)
Definition call_read (buf_null : bool) (count : Z) : DM (bool * list Z) := fun s =>
  match source (istream s) with
  | IBuf _ => buf_read buf_null count s
  | IUser p =>
      let '(ok, bs, m, p') := usr_read (dmem s) p count in
      if ok && negb (zlen bs =? count) then UB BadAccess
      else (run set_source (IUser p'); ret (ok, map (wrap 8) bs)) (with_mem m s)
  end.

(** The part of [pb_read] after the skipping branch. *)
Definition read_now (buf_null : bool) (count : Z) : DM (option (list Z)) :=
  do n <- left;
  if n <? count then no_value "end-of-stream"
  else
    do (ok, bs) <- call_read buf_null count;
    if ok then (run take_left count; ret (Some bs)) else no_value "io error".

(** Skipping on a stream whose callback is not [buf_read]: chunks of at
    most 16 bytes are read into [tmp]. *)
Fixpoint skip_chunks (fuel : nat) (count : Z) : DM (option (list Z)) :=
  match fuel with
  | O => out_of_fuel
  | S fuel' =>
      if 16 <? count then
        let? _ := read_now false 16 else None in
        skip_chunks fuel' (count - 16)
      else if count =? 0 then ret (Some [])
      else
        let? _ := read_now false count else None in ret (Some [])
  end.

Definition is_buf (src : isource) : bool :=
  match src with IBuf _ => true | IUser _ => false end.

(** [pb_read]: [None] is false; [Some bs] is true with the bytes stored in
    the caller's buffer ([] when it is NULL). *)
Definition pb_read (buf_null : bool) (count : Z) : DM (option (list Z)) :=
  if count =? 0 then ret (Some [])
  else
    do s <- get;
    if buf_null && negb (is_buf (source (istream s)))
    then skip_chunks (S (Z.to_nat (count / 16))) count
    else read_now buf_null count.

Definition pb_readbyte : DM (option Z) :=
  do n <- left;
  if n =? 0 then no_value "end-of-stream"
  else
    do (ok, bs) <- call_read false 1;
    if ok then (run take_left 1; ret (Some (hd 0 bs))) else no_value "io error".

(** [pb_read] into memory at [dest]. *)
Definition pb_read_to (dest count : Z) : DM bool :=
  let? bs := pb_read false count else false in
  run upd_mem (fun m => store_bytes m dest bs);
  ret true.

(** ** Varints *)

(** The do-while loop of the multibyte case.  [bitpos] is a
    [uint_fast8_t], eight bits wide on the platform. *)
Fixpoint varint32_loop (fuel : nat) (result bitpos : Z) : DM (option Z) :=
  match fuel with
  | O => out_of_fuel
  | S fuel' =>
      let? byte := pb_readbyte else None in
      let sign_extension := if bitpos <? 63 then 0xFF else 0x01 in
      if (32 <=? bitpos) && negb (Z.land byte 0x7F =? 0x00)
         && ((Z.shiftr result 31 =? 0) || negb (byte =? sign_extension))
      then no_value "varint overflow"
      else
        let result' :=
          if 32 <=? bitpos then result
          else Z.lor result (wrap 32 (Z.shiftl (Z.land byte 0x7F) bitpos)) in
        let bitpos' := wrap 8 (bitpos + 7) in
        if negb (Z.land byte 0x80 =? 0) then varint32_loop fuel' result' bitpos'
        else if (bitpos' =? 35) && negb (Z.land byte 0x70 =? 0)
        then no_value "varint overflow"
        else ret (Some result')
  end.

(** The flag is whether [*eof] was set.  Every iteration takes a byte off
    [bytes_left], so [bytes_left] bounds the loop. *)
Definition pb_decode_varint32_eof : DM (option Z * bool) :=
  do b <- pb_readbyte;
  match b with
  | None => do n <- left; ret (None, n =? 0)
  | Some byte =>
      if Z.land byte 0x80 =? 0 then ret (Some byte, false)
      else
        do n <- left;
        do r <- varint32_loop (S (Z.to_nat n)) (Z.land byte 0x7F) 7;
        ret (r, false)
  end.

Definition pb_decode_varint32 : DM (option Z) :=
  do (r, _) <- pb_decode_varint32_eof; ret r.

(** At most ten bytes are read before [bitpos] reaches 64. *)
Fixpoint varint_loop64 (fuel : nat) (result bitpos : Z) : DM (option Z) :=
  match fuel with
  | O => out_of_fuel
  | S fuel' =>
      if 64 <=? bitpos then no_value "varint overflow"
      else
        let? byte := pb_readbyte else None in
        let result' := Z.lor result (wrap 64 (Z.shiftl (Z.land byte 0x7F) bitpos)) in
        let bitpos' := wrap 8 (bitpos + 7) in
        if negb (Z.land byte 0x80 =? 0) then varint_loop64 fuel' result' bitpos'
        else ret (Some result')
  end.

Definition pb_decode_varint : DM (option Z) := varint_loop64 11 0 0.

(** ** Skipping *)
Fixpoint skip_varint_loop (fuel : nat) : DM bool :=
  match fuel with
  | O => out_of_fuel
  | S fuel' =>
      let? bs := pb_read false 1 else false in
      match bs with
      | byte :: _ =>
          if negb (Z.land byte 0x80 =? 0) then skip_varint_loop fuel' else ret true
      | [] => fails BadAccess
      end
  end.

Definition pb_skip_varint : DM bool :=
  do n <- left; skip_varint_loop (S (Z.to_nat n)).

Definition pb_skip_string : DM bool :=
  let? length := pb_decode_varint32 else false in
  let? _ := pb_read true length else false in
  ret true.

Definition pb_skip_bytes (count : Z) : DM bool :=
  let? _ := pb_read true count else false in ret true.

Definition pb_skip_field (wire_type : Z) : DM bool :=
  if wire_type =? PB_WT_VARINT then pb_skip_varint
  else if wire_type =? PB_WT_64BIT then pb_skip_bytes 8
  else if wire_type =? PB_WT_STRING then pb_skip_string
  else if wire_type =? PB_WT_32BIT then pb_skip_bytes 4
  else ret_error "invalid wire_type".

(** The results of [pb_decode_tag]: its verdict and its three outputs. *)
Record tag_result : Type := mk_tag {
  tag_ok : bool; tag_wire_type : Z; tag_tag : Z; tag_eof : bool
}.

Definition pb_decode_tag : DM tag_result :=
  do (r, eof) <- pb_decode_varint32_eof;
  match r with
  | None => ret (mk_tag false 0 0 eof)
  | Some temp =>
      if temp =? 0 then ret (mk_tag false 0 0 true)
      else ret (mk_tag true (Z.land temp 7) (Z.shiftr temp 3) false)
  end.

(** The varint case of [read_raw_value]. *)
Fixpoint raw_varint (fuel : nat) (size max_size : Z) : DM (option (list Z)) :=
  match fuel with
  | O => out_of_fuel
  | S fuel' =>
      if max_size <? size + 1 then ret None
      else
        let? bs := pb_read false 1 else None in
        match bs with
        | byte :: _ =>
            if negb (Z.land byte 0x80 =? 0) then
              let? rest := raw_varint fuel' (size + 1) max_size else None in
              ret (Some (byte :: rest))
            else ret (Some [byte])
        | [] => fails BadAccess
        end
  end.

(** The bytes stored in [buf]; their number is the final [*size]. *)
Definition read_raw_value (wire_type max_size : Z) : DM (option (list Z)) :=
  if wire_type =? PB_WT_VARINT then raw_varint (S (Z.to_nat max_size)) 0 max_size
  else if wire_type =? PB_WT_64BIT then pb_read false 8
  else if wire_type =? PB_WT_32BIT then pb_read false 4
  else no_value "invalid wire_type".

(** ** Substreams *)

(** [Some sub] is true with the new substream. *)
Definition pb_make_string_substream : DM (option pb_istream_t) :=
  let? size := pb_decode_varint32 else None in
  do s <- get;
  let substream := istream s in
  if bytes_left substream <? size then no_value "parent stream too short"
  else
    run take_left size;
    ret (Some (mk_istream (source substream) size (i_errmsg substream))).

(** Run [c] on another stream than the current one. *)
Definition on_stream {A} (sub : pb_istream_t) (c : DM A) : DM (A * pb_istream_t) := fun s =>
  match c (with_istream sub s) with
  | Ok (a, s') => Ok ((a, istream s'), with_istream (istream s) s')
  | UB f => UB f
  | Timeout => Timeout
  end.

Definition pb_close_string_substream (substream : pb_istream_t) : DM bool :=
  let finish (sub : pb_istream_t) : DM bool :=
    run modify (fun s =>
      with_istream (mk_istream (source sub) (bytes_left (istream s)) (i_errmsg sub)) s);
    ret true in
  if negb (bytes_left substream =? 0) then
    do (r, sub) <- on_stream substream (pb_read true (bytes_left substream));
    match r with
    | None => ret false
    | Some _ => finish sub
    end
  else finish substream.

(** ** Values read into local variables *)

(** [Some v] is true with [*dest = v] (signed). *)
Definition pb_decode_svarint : DM (option Z) :=
  let? value := pb_decode_varint else None in
  ret (Some (if negb (Z.land value 1 =? 0)
             then swrap 64 (wrap 64 (Z.lnot (Z.shiftr value 1)))
             else swrap 64 (Z.shiftr value 1))).

(** The or of the shifted bytes. *)
Fixpoint or_bytes (w shift : Z) (bs : list Z) : Z :=
  match bs with
  | [] => 0
  | b :: bs' => Z.lor (wrap w (Z.shiftl b shift)) (or_bytes w (shift + 8) bs')
  end.

(** [dest] points to the variable. *)
Definition pb_decode_fixed32 (dest : Z) : DM bool :=
  let? bs := pb_read false 4 else false in
  run upd_mem (fun m => store m dest 4 (or_bytes 32 0 bs));
  ret true.

Definition pb_decode_fixed64 (dest : Z) : DM bool :=
  let? bs := pb_read false 8 else false in
  run upd_mem (fun m => store m dest 8 (or_bytes 64 0 bs));
  ret true.
End Stream.
