(* ===== verification/Discipline.v ===== *)
(** * Reading discipline of decoders

    [disc e T c] says of a computation [c] on the input stream: it never
    reads past the buffer, keeps the stream well formed, only moves it
    forward, and, when it succeeds, has moved the state pointer exactly as far
    as it lowered [bytes_left].  With [e = false] the computation never
    succeeds.  [T] is [False] when [c] always returns within its fuel.  The
    rules compose, so the discipline of every decoder is derived from its
    code. *)
From S2P Require Import Prelude Base128 Types Mem IStream.

Definition istream_wf (i : pb_istream_t) : Prop :=
  0 <= bytes_left i < 2 ^ 64 /\
  match source i with
  | IBuf rest => bytes_left i <= zlen rest /\ bytes rest
  | IUser _ => True
  end.

(** Bytes of the buffer beyond those the stream may read. *)
Definition slack (i : pb_istream_t) : Z :=
  match source i with
  | IBuf rest => zlen rest - bytes_left i
  | IUser _ => 0
  end.

(** [i'] is [i] after some bytes were taken: the position never moves further
    than [bytes_left] is lowered. *)
Definition advances (i i' : pb_istream_t) : Prop :=
  bytes_left i' <= bytes_left i /\ slack i <= slack i' /\
  match source i, source i' with
  | IBuf r, IBuf r' => exists k, r' = drop k r
  | IUser _, IUser _ => True
  | _, _ => False
  end.

(** When a result counts as success. *)
Class Verdict (A : Type) := good : A -> bool.
#[export] Instance verdict_bool : Verdict bool := fun b => b.
#[export] Instance verdict_option {A} : Verdict (option A) :=
  fun o => match o with Some _ => true | None => false end.
#[export] Instance verdict_eof : Verdict (option Z * bool) | 1 :=
  fun p => match p.1 with Some _ => true | None => p.2 end.
#[export] Instance verdict_tag : Verdict tag_result := fun t => tag_ok t || tag_eof t.
#[export] Instance verdict_pair {A B} `{Verdict A} : Verdict (A * B) | 5 := fun p => good p.1.
#[export] Instance verdict_any {A} : Verdict A | 100 := fun _ => true.

(** The outcome [o] of a computation started on the stream [i]. *)
Definition disc_at {A} `{Verdict A} (e : bool) (T : Prop) (i : pb_istream_t)
    (o : outcome (A * dstate)) : Prop :=
  match o with
  | Ok (a, s') =>
      istream_wf (istream s') /\ advances i (istream s') /\
      (good a = true -> e = true /\ slack (istream s') = slack i)
  | UB OverRead => False
  | UB _ => True
  | Timeout => T
  end.

Definition disc {A} `{Verdict A} (e : bool) (T : Prop) (c : DM A) : Prop :=
  forall s, istream_wf (istream s) -> disc_at e T (istream s) (c s).

Lemma advances_refl i : advances i i.
Proof.
  split; [lia|]. split; [lia|]. destruct (source i); [|done]. by exists 0%nat.
Qed.

Lemma advances_trans i1 i2 i3 : advances i1 i2 -> advances i2 i3 -> advances i1 i3.
Proof.
  intros (? & ? & H1) (? & ? & H2). split; [lia|]. split; [lia|].
  destruct (source i1), (source i2), (source i3); try done.
  destruct H1 as [k ->], H2 as [k' ->]. exists (k + k')%nat. by rewrite drop_drop.
Qed.

#[export] Instance advances_preorder : PreOrder advances.
Proof. split; [exact advances_refl|exact advances_trans]. Qed.

Section Rules.
Context (T : Prop).

Lemma disc_weaken {A} `{Verdict A} e (c : DM A) : disc e T c -> disc true T c.
Proof.
  intros Hc s Hs. specialize (Hc s Hs). unfold disc_at in *.
  destruct (c s) as [[a s']| |]; try done.
  destruct Hc as (? & ? & Hg). split; [done|]. split; [done|].
  intros Ha. split; [done|]. by apply Hg.
Qed.

Lemma disc_at_weaken {A} `{Verdict A} e e' i (o : outcome (A * dstate)) :
  (e' = true -> e = true) -> disc_at e' T i o -> disc_at e T i o.
Proof.
  intros He Ho. unfold disc_at in *. destruct o as [[a s']| |]; try done.
  destruct Ho as (? & ? & Hg). split; [done|]. split; [done|]. intros Ha.
  destruct (Hg Ha). auto.
Qed.

(** What is known after the stream moved from [i] to [i']. *)
Lemma disc_at_advance {A} `{Verdict A} e i i' (o : outcome (A * dstate)) :
  advances i i' -> (e = true -> slack i' = slack i) ->
  disc_at e T i' o -> disc_at e T i o.
Proof.
  intros Ha Hsl Ho. unfold disc_at in *. destruct o as [[a s']| |]; try done.
  destruct Ho as (? & ? & Hg). split; [done|]. split; [by etrans|]. intros Hgood.
  destruct (Hg Hgood) as [-> ->]. auto.
Qed.

Lemma disc_timeout {A} `{Verdict A} e (c : DM A) : disc e False c -> disc e T c.
Proof.
  intros Hc s Hs. specialize (Hc s Hs). by destruct (c s) as [[a s']|[]|].
Qed.

Lemma disc_at_bind {A B} `{Verdict A} `{Verdict B} e (c : DM A) (k : A -> DM B) s :
  disc_at true T (istream s) (c s) ->
  (forall a s1, c s = Ok (a, s1) -> istream_wf (istream s1) ->
     advances (istream s) (istream s1) ->
     disc_at (e && good a) T (istream s1) (k a s1)) ->
  disc_at e T (istream s) (bind c k s).
Proof.
  unfold bind. intros Hc Hk.
  destruct (c s) as [[a s1]| |]; try done.
  destruct Hc as (Hs1 & Ha1 & Hg1). specialize (Hk a s1 eq_refl Hs1 Ha1).
  unfold disc_at in *. destruct (k a s1) as [[b s2]| |]; try done.
  destruct Hk as (Hs2 & Ha2 & Hg2). split; [done|]. split; [by etrans|].
  intros Hb. destruct (Hg2 Hb) as [He Hsl]. apply andb_true_iff in He as [-> Ha].
  split; [done|]. rewrite Hsl. by apply Hg1.
Qed.

Lemma disc_bind {A B} `{Verdict A} `{Verdict B} e (c : DM A) (k : A -> DM B) :
  disc true T c -> (forall a, disc (e && good a) T (k a)) -> disc e T (bind c k).
Proof.
  intros Hc Hk s Hs. eapply disc_at_bind; [by apply Hc|].
  intros a s1 _ Hs1 _. by apply Hk.
Qed.

Lemma disc_ret {A} `{Verdict A} e (a : A) :
  (good a = true -> e = true) -> disc e T (ret a).
Proof. intros He s Hs. cbn. split; [done|]. split; [reflexivity|]. auto. Qed.

Lemma disc_get e : e = true -> disc e T (get (S := dstate)).
Proof. intros -> s Hs. cbn. split; [done|]. split; [reflexivity|]. auto. Qed.

(** A computation that leaves the stream alone. *)
Lemma disc_pure {A} `{Verdict A} e (c : DM A) :
  e = true ->
  (forall s, match c s with
             | Ok (_, s') => istream s' = istream s
             | UB OverRead => False | UB _ => True | Timeout => T end) ->
  disc e T c.
Proof.
  intros -> Hc s Hs. specialize (Hc s). unfold disc_at.
  destruct (c s) as [[a s']| |]; try done.
  rewrite Hc. split; [done|]. split; [reflexivity|]. auto.
Qed.

Lemma disc_on_mem {A} (f : mem -> option A) : disc (A := A) (H := verdict_any) true T (on_mem f).
Proof. apply disc_pure; [done|]. intros s. unfold on_mem. by destruct (f (dmem s)). Qed.

Lemma disc_upd_mem f : disc true T (upd_mem f).
Proof. apply disc_pure; [done|]. intros s. unfold upd_mem. by destruct (f (dmem s)). Qed.

Lemma disc_left : disc true T left.
Proof. apply disc_pure; done. Qed.

Lemma disc_lift {A} (o : outcome A) :
  o <> UB OverRead -> (o = Timeout -> T) ->
  disc (A := A) (H := verdict_any) true T (lift o).
Proof.
  intros Ho Ht. apply disc_pure; [done|]. intros s. unfold lift.
  destruct o as [|[]|]; done || auto.
Qed.

(** A pure step, whose result is known afterwards. *)
Lemma disc_bind_lift {A B} `{Verdict B} e (o : outcome A) (k : A -> DM B) :
  o <> UB OverRead -> (o = Timeout -> T) -> (forall a, o = Ok a -> disc e T (k a)) ->
  disc e T (bind (lift o) k).
Proof.
  intros Ho Ht Hk s Hs. unfold bind, lift. destruct o as [a|[]|]; try done; [|by apply Ht].
  by apply Hk.
Qed.

Lemma disc_fails {A} `{Verdict A} e f : f <> OverRead -> disc e T (fails (A := A) f).
Proof. intros Hf s Hs. by destruct f. Qed.

Lemma disc_set_err msg : disc true T (set_err msg).
Proof.
  intros s Hs. cbn. split; [done|]. split; [|done].
  split; [reflexivity|]. split; [reflexivity|]. cbn.
  destruct (source (istream s)); [|done]. by exists 0%nat.
Qed.

Lemma disc_ret_error e msg : disc e T (ret_error msg).
Proof. eapply disc_bind; [apply disc_set_err|]. intros []. by apply disc_ret. Qed.

Lemma disc_no_value {A} e msg : disc e T (no_value (A := A) msg).
Proof. eapply disc_bind; [apply disc_set_err|]. intros []. by apply disc_ret. Qed.

Lemma disc_with_local {A} `{Verdict A} e (f : dstate -> Z) (c : DM A) :
  disc e T c -> disc e T (fun s => c (with_local (f s) s)).
Proof. intros Hc s Hs. exact (Hc (with_local (f s) s) Hs). Qed.

(** The C idioms. *)
Lemma disc_try {B} `{Verdict B} e (c : DM bool) (k d : DM B) :
  disc true T c -> disc e T k -> disc false T d ->
  disc e T (bind c (fun b => if b then k else d)).
Proof.
  intros Hc Hk Hd. eapply disc_bind; [done|]. intros []; cbn.
  - by rewrite andb_true_r.
  - by rewrite andb_false_r.
Qed.

Lemma disc_let {A B} `{Verdict B} e (c : DM (option A)) (k : A -> DM B) (d : B) :
  disc true T c -> (forall a, disc e T (k a)) -> good d = false ->
  disc e T (bind c (fun o => match o with Some x => k x | None => ret d end)).
Proof.
  intros Hc Hk Hd. eapply disc_bind; [done|]. intros [a|]; cbn.
  - rewrite andb_true_r. apply Hk.
  - apply disc_ret. by rewrite Hd.
Qed.
End Rules.

(** Rules are applied by the shape of the program; leaves come from the hint
    database. *)
Create HintDb disc.
#[export] Hint Resolve disc_on_mem disc_upd_mem disc_left disc_set_err disc_ret_error
  disc_no_value : disc.

Ltac disc_step :=
  match goal with
  | |- disc _ _ (if ?b then _ else _) => destruct b
  | |- disc _ _ (let _ := _ in _) => cbv zeta
  | |- disc _ _ (match ?x with _ => _ end) => destruct x
  | |- disc _ _ (ret _) => apply disc_ret; (done || by cbn)
  | |- disc _ _ (fails _) => apply disc_fails; done
  | |- disc _ _ (bind _ (fun b : bool => if b then _ else _)) =>
      eapply disc_try
  | |- disc _ _ (bind _ (fun o => match o with Some x => _ | None => ret _ end)) =>
      eapply disc_let; [|intros ?|done]
  | |- disc _ _ (bind get _) => eapply disc_bind; [by apply disc_get|intros ?; cbn [good]]
  | |- disc _ _ (bind _ _) => eapply disc_bind; [|intros ?]
  | |- disc true _ _ => solve [eauto 2 with disc]
  | |- disc _ _ _ => solve [eauto 2 with disc]
  end.
Ltac disc_auto := repeat disc_step.

(** ** Streams *)
Section Primitives.
Context `{ReadCallback} (T : Prop).

Lemma advances_drop rest n e count e' :
  0 <= count ->
  advances (mk_istream (IBuf rest) n e)
    (mk_istream (IBuf (drop (Z.to_nat count) rest)) (n - count) e').
Proof.
  intros. split; [cbn; lia|]. split; [|by exists (Z.to_nat count)].
  unfold slack, zlen. cbn. rewrite length_drop. lia.
Qed.

Lemma istream_wf_drop rest n e count e' :
  0 <= count <= n -> istream_wf (mk_istream (IBuf rest) n e) ->
  istream_wf (mk_istream (IBuf (drop (Z.to_nat count) rest)) (n - count) e').
Proof.
  intros Hc (Hn & Hl & Hb). cbn in *. split; [cbn; lia|]. cbn. split.
  - unfold zlen in *. rewrite length_drop. lia.
  - by apply Forall_drop.
Qed.

Lemma slack_drop rest n e count e' :
  0 <= count <= zlen rest ->
  slack (mk_istream (IBuf (drop (Z.to_nat count) rest)) (n - count) e') =
  slack (mk_istream (IBuf rest) n e).
Proof. intros. unfold slack, zlen in *. cbn. rewrite length_drop. lia. Qed.

(** A successful callback moves the state pointer by [count], and
    [bytes_left] is lowered by as much. *)
Lemma call_take_disc {A} buf_null count (f : list Z -> A) msg s :
  0 <= count <= bytes_left (istream s) -> istream_wf (istream s) ->
  let o := (do (ok, bs) <- call_read buf_null count;
            if ok then (run take_left count; ret (Some (f bs))) else no_value msg) s in
  disc_at true T (istream s) o /\
  forall a s', o = Ok (Some a, s') ->
    bytes_left (istream s') = bytes_left (istream s) - count.
Proof.
  destruct s as [m [src n e] l]. cbn [istream bytes_left]. intros Hc Hs.
  unfold bind, call_read, buf_read. cbn [istream source dmem].
  destruct src as [rest|p].
  - pose proof Hs as (Hnn & Hl & Hb). cbn in Hnn, Hl.
    destruct (Z.ltb_spec (zlen rest) count) as [|Hcl]; [lia|]. cbn.
    rewrite wrap_small by lia. split; [|by intros ?? [= _ <-]].
    split; [by eapply istream_wf_drop; [lia|exact Hs]|].
    split; [apply advances_drop; lia|]. intros _. split; [done|].
    apply (slack_drop rest n e count e). lia.
  - destruct Hs as [Hnn _]. cbn in Hnn.
    destruct (usr_read m p count) as [[[ok bs] m'] p'].
    destruct (ok && negb (zlen bs =? count)); [done|]. cbn. destruct ok; cbn.
    + rewrite wrap_small by lia. split; [|by intros ?? [= _ <-]].
      split; [split; cbn; [lia|done]|]. split; [split; cbn; [lia|done]|]. done.
    + split; [|done]. split; [split; cbn; [lia|done]|].
      split; [split; cbn; [lia|done]|]. done.
Qed.

Lemma read_now_disc_at buf_null count s :
  0 <= count -> istream_wf (istream s) ->
  disc_at true T (istream s) (read_now buf_null count s) /\
  forall a s', read_now buf_null count s = Ok (Some a, s') ->
    bytes_left (istream s') = bytes_left (istream s) - count.
Proof.
  intros Hc Hs. unfold read_now. rewrite (bind_Ok _ _ s (bytes_left (istream s)) s) by done.
  destruct (Z.ltb_spec (bytes_left (istream s)) count).
  - split; [by apply disc_no_value|]. done.
  - by apply (call_take_disc buf_null count id).
Qed.

Lemma readbyte_disc_at s :
  istream_wf (istream s) ->
  disc_at true T (istream s) (pb_readbyte s) /\
  forall a s', pb_readbyte s = Ok (Some a, s') ->
    bytes_left (istream s') = bytes_left (istream s) - 1.
Proof.
  intros Hs. unfold pb_readbyte. rewrite (bind_Ok _ _ s (bytes_left (istream s)) s) by done.
  destruct (Z.eqb_spec (bytes_left (istream s)) 0).
  - split; [by apply disc_no_value|]. done.
  - apply (call_take_disc false 1 (hd 0)); [|done]. destruct Hs; lia.
Qed.

Lemma read_now_disc buf_null count : 0 <= count -> disc true T (read_now buf_null count).
Proof. intros Hc s Hs. by apply read_now_disc_at. Qed.

Lemma readbyte_disc : disc true T pb_readbyte.
Proof. intros s Hs. by apply readbyte_disc_at. Qed.

Lemma skip_chunks_disc fuel count :
  (0 < fuel)%nat -> 0 <= count <= 16 * Z.of_nat fuel -> disc true T (skip_chunks fuel count).
Proof.
  revert count. induction fuel as [|fuel IH]; intros count Hf Hc; [lia|]. cbn [skip_chunks].
  destruct (Z.ltb_spec 16 count).
  - eapply disc_let; [by apply read_now_disc| |done]. intros _. apply IH; lia.
  - destruct (Z.eqb_spec count 0); [by apply disc_ret|].
    eapply disc_let; [apply read_now_disc; lia| |done]. intros _. by apply disc_ret.
Qed.

Lemma pb_read_disc buf_null count : 0 <= count -> disc true T (pb_read buf_null count).
Proof.
  intros Hc. unfold pb_read. destruct (Z.eqb_spec count 0); [by apply disc_ret|].
  eapply disc_bind; [by apply disc_get|]. intros s. cbn [andb good verdict_any]. destruct (_ && _).
  - apply skip_chunks_disc; [lia|]. pose proof (Z.div_mod count 16 ltac:(lia)).
    pose proof (Z.mod_pos_bound count 16 ltac:(lia)).
    pose proof (Z.div_pos count 16). lia.
  - by apply read_now_disc.
Qed.

Lemma readbyte_byte s b s' :
  istream_wf (istream s) -> pb_readbyte s = Ok (Some b, s') -> is_byte b.
Proof.
  destruct s as [m [src n e] l]. unfold pb_readbyte, left, bind, call_read, buf_read.
  cbn [get ret istream source dmem bytes_left]. intros Hs. destruct (n =? 0); [done|]. destruct src as [rest|p].
  - destruct Hs as (_ & Hl & Hb). cbn in *.
    destruct (zlen rest <? 1); [done|]. cbn. intros [= <- _].
    destruct rest as [|b rest]; [done|]. cbn. by inversion Hb.
  - cbn. destruct (usr_read m p 1) as [[[ok bs] m'] p'].
    destruct (ok && negb (zlen bs =? 1)); cbn; [done|]. destruct ok; [|done].
    cbn. intros [= <- _]. destruct bs as [|b bs]; [done|]. apply Z.mod_pos_bound. lia.
Qed.

(** A byte that could not be read leaves [bytes_left] alone, and the
    position too when the stream was at its end. *)
Lemma readbyte_none s s' :
  istream_wf (istream s) -> pb_readbyte s = Ok (None, s') ->
  bytes_left (istream s') = bytes_left (istream s) /\
  (bytes_left (istream s) = 0 -> source (istream s') = source (istream s)).
Proof.
  destruct s as [m [src n e] l]. unfold pb_readbyte, left, bind, call_read, buf_read.
  cbn [get ret istream source dmem bytes_left]. intros Hs. destruct (Z.eqb_spec n 0); [by intros [= <-]|]. destruct src as [rest|p].
  - cbn. destruct (zlen rest <? 1); cbn; done.
  - cbn. destruct (usr_read m p 1) as [[[ok bs] m'] p'].
    destruct (ok && negb (zlen bs =? 1)); cbn; [done|]. destruct ok; [done|].
    cbn. intros [= <-]. done.
Qed.

Lemma varint32_loop_disc fuel result bitpos s :
  istream_wf (istream s) -> bytes_left (istream s) < Z.of_nat fuel ->
  disc_at true T (istream s) (varint32_loop fuel result bitpos s).
Proof.
  revert result bitpos s. induction fuel as [|fuel IH]; intros result bitpos s Hs Hf.
  { destruct Hs. lia. }
  cbn [varint32_loop]. eapply disc_at_bind; [by apply readbyte_disc_at|].
  intros [b|] s1 Hr Hs1 _; [|by apply disc_ret]. cbn [andb good verdict_option].
  destruct (_ && _ && _); [by apply disc_no_value|].
  destruct (negb _).
  - apply IH; [done|]. apply readbyte_disc_at in Hr; [|done]. lia.
  - destruct (_ && _); [by apply disc_no_value|by apply disc_ret].
Qed.

Lemma varint32_eof_disc : disc true T pb_decode_varint32_eof.
Proof.
  intros s Hs. destruct (pb_readbyte s) as [[[b|] s1]| |] eqn:Hr.
  - eapply disc_at_bind; [by apply readbyte_disc_at|]. rewrite Hr.
    intros ?? [= <- <-] Hs1 _. cbn [andb good verdict_option].
    destruct (Z.land b 128 =? 0); [by apply disc_ret|].
    eapply disc_at_bind; [by apply disc_left|]. intros n s2 [= <- <-] _ _.
    eapply disc_at_bind.
    + apply varint32_loop_disc; [done|]. destruct Hs1. lia.
    + intros r s2 _ Hs2 _. apply disc_ret; [|done]. cbn. by destruct r.
  - pose proof (proj1 (readbyte_disc_at s Hs)) as Hd. rewrite Hr in Hd.
    destruct Hd as (Hs1 & Ha & _). unfold pb_decode_varint32_eof.
    rewrite (bind_Ok _ _ _ _ _ Hr). cbn. split; [done|]. split; [done|].
    intros He. split; [done|]. destruct (readbyte_none s s1 Hs Hr) as [Hb Hsrc].
    unfold slack. rewrite Hsrc, Hb; lia.
  - pose proof (proj1 (readbyte_disc_at s Hs)) as Hd.
    unfold pb_decode_varint32_eof, bind. rewrite Hr in *. done.
  - pose proof (proj1 (readbyte_disc_at s Hs)) as Hd.
    unfold pb_decode_varint32_eof, bind. rewrite Hr in *. done.
Qed.

Lemma varint32_disc : disc true T pb_decode_varint32.
Proof.
  eapply disc_bind; [apply varint32_eof_disc|]. intros [r eof]. apply disc_ret.
  unfold good, verdict_eof, verdict_option. cbn. by destruct r.
Qed.

Lemma varint32_loop_range fuel result bitpos s v s' :
  istream_wf (istream s) -> 0 <= result < 2 ^ 32 ->
  varint32_loop fuel result bitpos s = Ok (Some v, s') -> 0 <= v < 2 ^ 32.
Proof.
  revert result bitpos s. induction fuel as [|fuel IH]; intros result bitpos s Hs Hr; [done|].
  cbn [varint32_loop]. intros (o & s1 & Hb & Hk)%bind_inv.
  destruct o as [b|]; [|done]. cbv zeta in Hk.
  pose proof (proj1 (readbyte_disc_at s Hs)) as Hd. rewrite Hb in Hd. destruct Hd as [Hs1 _].
  destruct (_ && _ && _); [done|].
  assert (Hr' : 0 <= (if 32 <=? bitpos then result
      else Z.lor result (wrap 32 (Z.shiftl (Z.land b 127) bitpos))) < 2 ^ 32).
  { destruct (32 <=? bitpos); [done|]. apply lor_range; [done|]. apply wrap_range. lia. }
  destruct (negb _); [by eapply IH|].
  destruct (_ && _); [done|]. by injection Hk as <- _.
Qed.

Lemma varint32_range s v s' :
  istream_wf (istream s) -> pb_decode_varint32 s = Ok (Some v, s') -> 0 <= v < 2 ^ 32.
Proof.
  intros Hs ([r eof] & s1 & H1 & H2)%bind_inv. injection H2 as -> ->. revert H1.
  intros (o & s2 & Hb & Hk)%bind_inv.
  pose proof (proj1 (readbyte_disc_at s Hs)) as Hd. rewrite Hb in Hd. destruct Hd as [Hs2 _].
  destruct o as [b|]; [|done]. apply readbyte_byte in Hb; [|done]. unfold is_byte in Hb.
  destruct (Z.land b 128 =? 0); [injection Hk as <- _ _; lia|].
  apply bind_inv in Hk as (n & s3 & [= <- <-] & (r & s4 & Hl & Hr)%bind_inv).
  injection Hr as -> _ _. eapply varint32_loop_range; [exact Hs2| |exact Hl].
  rewrite land_127. pose proof (Z.mod_pos_bound b 128). lia.
Qed.

Lemma varint_loop64_disc fuel result bitpos :
  0 <= bitpos <= 70 -> 64 <= bitpos + 7 * (Z.of_nat fuel - 1) ->
  disc true T (varint_loop64 fuel result bitpos).
Proof.
  revert result bitpos. induction fuel as [|fuel IH]; intros result bitpos Hb Hf; [lia|].
  cbn [varint_loop64]. destruct (Z.leb_spec 64 bitpos); [apply disc_no_value|].
  eapply disc_let; [apply readbyte_disc| |done]. intros b. cbv zeta.
  destruct (negb _); [|by apply disc_ret].
  rewrite (wrap_small 8) by lia. apply IH; lia.
Qed.

Lemma varint_disc : disc true T pb_decode_varint.
Proof. apply varint_loop64_disc; lia. Qed.

Lemma svarint_disc : disc true T pb_decode_svarint.
Proof. eapply disc_let; [apply varint_disc| |done]. intros v. by apply disc_ret. Qed.

(** A read that consumed a byte lowered [bytes_left]. *)
Lemma pb_read_one s bs s' :
  istream_wf (istream s) -> pb_read false 1 s = Ok (Some bs, s') ->
  istream_wf (istream s') /\ bytes_left (istream s') = bytes_left (istream s) - 1.
Proof.
  intros Hs. change (pb_read false 1) with (do s <- get; read_now false 1).
  rewrite (bind_Ok get _ s s s) by done. intros Hr.
  destruct (read_now_disc_at false 1 s ltac:(lia) Hs) as [Hd Hl].
  rewrite Hr in Hd. split; [apply Hd|by eapply Hl].
Qed.

Lemma skip_varint_loop_disc fuel s :
  istream_wf (istream s) -> bytes_left (istream s) < Z.of_nat fuel ->
  disc_at true T (istream s) (skip_varint_loop fuel s).
Proof.
  revert s. induction fuel as [|fuel IH]; intros s Hs Hf; [destruct Hs; lia|].
  cbn [skip_varint_loop]. eapply disc_at_bind; [by apply pb_read_disc|].
  intros [bs|] s1 Hr Hs1 _; [|by apply disc_ret].
  cbn [andb good verdict_option]. destruct bs as [|b bs]; [done|].
  destruct (negb _); [|by apply disc_ret].
  apply IH; [done|]. apply pb_read_one in Hr as [_ Hl]; [|done]. lia.
Qed.

Lemma skip_varint_disc : disc true T pb_skip_varint.
Proof.
  intros s Hs. eapply disc_at_bind; [by apply disc_left|]. intros n s1 [= <- <-] _ _.
  apply skip_varint_loop_disc; [done|]. destruct Hs. lia.
Qed.

Lemma skip_bytes_disc count : 0 <= count -> disc true T (pb_skip_bytes count).
Proof.
  intros. eapply disc_let; [by apply pb_read_disc| |done]. intros ?. by apply disc_ret.
Qed.

Lemma skip_string_disc : disc true T pb_skip_string.
Proof.
  intros s Hs. eapply disc_at_bind; [by apply varint32_disc|].
  intros [n|] s1 Hn Hs1 _; [|by apply disc_ret]. cbn [andb good verdict_option].
  apply varint32_range in Hn; [|done].
  apply (skip_bytes_disc n); [lia|done].
Qed.

Lemma skip_field_disc wt : disc true T (pb_skip_field wt).
Proof.
  unfold pb_skip_field.
  destruct (wt =? PB_WT_VARINT); [apply skip_varint_disc|].
  destruct (wt =? PB_WT_64BIT); [apply skip_bytes_disc; lia|].
  destruct (wt =? PB_WT_STRING); [apply skip_string_disc|].
  destruct (wt =? PB_WT_32BIT); [apply skip_bytes_disc; lia|]. apply disc_ret_error.
Qed.

Lemma decode_tag_disc : disc true T pb_decode_tag.
Proof.
  eapply disc_bind; [apply varint32_eof_disc|]. intros [[v|] eof]; cbn.
  - destruct (v =? 0); by apply disc_ret.
  - apply disc_ret. cbn. by destruct eof.
Qed.

(** A decoded tag took at least one byte off the stream. *)
Lemma decode_tag_progress s t s' :
  istream_wf (istream s) -> pb_decode_tag s = Ok (t, s') -> tag_ok t = true ->
  bytes_left (istream s') < bytes_left (istream s).
Proof.
  intros Hs ([r eof] & s1 & H1 & H2)%bind_inv Ht. destruct r as [v|]; [|injection H2 as <- _; done].
  assert (bytes_left (istream s1) < bytes_left (istream s)).
  { apply bind_inv in H1 as (o & s2 & Hb & Hk). destruct o as [b|]; [|done].
    pose proof (proj1 (readbyte_disc_at s Hs)) as Hd.
    pose proof (proj2 (readbyte_disc_at s Hs) _ _ Hb). rewrite Hb in Hd. destruct Hd as [Hs2 _].
    destruct (Z.land b 128 =? 0); [injection Hk as _ _ <-; lia|].
    apply bind_inv in Hk as (n & s3 & [= <- <-] & (r & s4 & Hl & Hr)%bind_inv).
    injection Hr as -> _ <-.
    pose proof (varint32_loop_disc (S (Z.to_nat (bytes_left (istream s2)))) (Z.land b 127) 7 s2
      Hs2 ltac:(destruct Hs2; lia)) as Hd.
    rewrite Hl in Hd. destruct Hd as (_ & [? _] & _). lia. }
  destruct (v =? 0); by injection H2 as _ <-.
Qed.

Lemma raw_varint_disc fuel size mx :
  0 <= size <= mx -> mx - size < Z.of_nat fuel -> disc true T (raw_varint fuel size mx).
Proof.
  revert size. induction fuel as [|fuel IH]; intros size Hz Hf; [lia|]. cbn [raw_varint].
  destruct (Z.ltb_spec mx (size + 1)); [by apply disc_ret|].
  eapply disc_let; [by apply pb_read_disc| |done]. intros [|b bs]; [by apply disc_fails|].
  destruct (negb _); [|by apply disc_ret].
  eapply disc_let; [apply IH; lia| |done]. intros rest. by apply disc_ret.
Qed.

Lemma read_raw_value_disc wt mx : 0 <= mx -> disc true T (read_raw_value wt mx).
Proof.
  intros. unfold read_raw_value.
  destruct (wt =? PB_WT_VARINT); [apply raw_varint_disc; lia|].
  destruct (wt =? PB_WT_64BIT); [by apply pb_read_disc|].
  destruct (wt =? PB_WT_32BIT); [by apply pb_read_disc|]. apply disc_no_value.
Qed.

Lemma read_to_disc dest count : 0 <= count -> disc true T (pb_read_to dest count).
Proof.
  intros. eapply disc_let; [by apply pb_read_disc| |done]. intros bs.
  eapply disc_bind; [apply disc_upd_mem|]. intros []. by apply disc_ret.
Qed.

Lemma decode_fixed32_disc dest : disc true T (pb_decode_fixed32 dest).
Proof.
  eapply disc_let; [by apply pb_read_disc| |done]. intros bs.
  eapply disc_bind; [apply disc_upd_mem|]. intros []. by apply disc_ret.
Qed.

Lemma decode_fixed64_disc dest : disc true T (pb_decode_fixed64 dest).
Proof.
  eapply disc_let; [by apply pb_read_disc| |done]. intros bs.
  eapply disc_bind; [apply disc_upd_mem|]. intros []. by apply disc_ret.
Qed.

(** ** Substreams

    Between [pb_make_string_substream] and [pb_close_string_substream] the
    parent stream still points before the substream's bytes while its
    [bytes_left] excludes them.  [pending i sub i0] relates the two to the
    stream [i0] the substream was cut from; [e] records that the substream
    was read exactly. *)
Definition pending (e : bool) (i0 i sub : pb_istream_t) : Prop :=
  istream_wf i /\ istream_wf sub /\ advances i0 i /\
  match source i, source sub with
  | IBuf r, IBuf r' =>
      (exists k, r' = drop k r) /\
      bytes_left i <= zlen r' - bytes_left sub /\
      slack i0 <= zlen r' - bytes_left sub - bytes_left i /\
      (e = true -> zlen r' - bytes_left sub - bytes_left i = slack i0)
  | IUser _, IUser _ => True
  | _, _ => False
  end.

(** A computation that finishes the substream [sub] of the current stream,
    cut from [i0]. *)
Definition disc_sub {A} `{Verdict A} (e : bool) (i0 sub : pb_istream_t) (c : DM A) : Prop :=
  forall s, pending e i0 (istream s) sub -> disc_at e T i0 (c s).

Lemma disc_sub_early {A} `{Verdict A} e i0 sub (c : DM A) :
  disc false T c -> disc_sub e i0 sub c.
Proof.
  intros Hc s (Hi & _ & Ha & _). specialize (Hc s Hi). unfold disc_at in *.
  destruct (c s) as [[a s']| |]; try done. destruct Hc as (Hs' & Ha' & Hg).
  split; [done|]. split; [by etrans|]. intros Hgood. by destruct (Hg Hgood).
Qed.

Lemma disc_make {B} `{Verdict B} e (k : pb_istream_t -> DM B) (d : B) :
  (forall i0 sub, disc_sub e i0 sub (k sub)) -> good d = false ->
  disc e T (bind pb_make_string_substream
              (fun o => match o with Some x => k x | None => ret d end)).
Proof.
  intros Hk Hd s Hs. unfold pb_make_string_substream.
  destruct (pb_decode_varint32 s) as [[[n|] s1]| |] eqn:Hn;
    pose proof (varint32_disc s Hs) as Hv; rewrite Hn in Hv; unfold bind at 1 2; rewrite Hn.
  - pose proof (varint32_range _ _ _ Hs Hn) as Hr. destruct Hv as (Hs1 & Ha & Hg).
    destruct (Hg eq_refl) as [_ Hsl].
    rewrite (bind_Ok get _ s1 s1 s1) by done.
    destruct (Z.ltb_spec (bytes_left (istream s1)) n) as [Hlt|Hge].
    + cbn. split; [done|]. split.
      * etrans; [exact Ha|]. split; [cbn; lia|]. split; [reflexivity|]. cbn.
        destruct (source (istream s1)); [by exists 0%nat|done].
      * by rewrite Hd.
    + destruct s1 as [m [src b er] l]. cbn in *.
      apply Hk. cbn. destruct Hs1 as [Hb Hsrc]. cbn in Hb, Hsrc.
      rewrite wrap_small by lia. unfold pending. cbn. destruct src as [r|p].
      * destruct Hsrc. split; [split; [cbn; lia|cbn; split; [lia|done]]|].
        split; [split; [cbn; lia|cbn; split; [lia|done]]|].
        split; [etrans; [exact Ha|]; split; [cbn; lia|];
          split; [unfold slack; cbn; lia|by exists 0%nat]|].
        split; [by exists 0%nat|]. split; [lia|].
        split; [unfold slack in *; cbn in *; lia|].
        intros _. unfold slack in *. cbn in *. lia.
      * split; [split; [cbn; lia|done]|]. split; [split; [cbn; lia|done]|].
        split; [etrans; [exact Ha|]; split; [cbn; lia|]; split; [done|done]|]. done.
  - cbn. destruct Hv as (? & ? & _). split; [done|]. split; [done|]. by rewrite Hd.
  - done.
  - done.
Qed.

(** Work on the substream itself. *)
Lemma pending_body {A} `{Verdict A} e i0 i sub (a : A) s1 :
  pending e i0 i sub -> disc_at true T sub (Ok (a, s1)) ->
  pending (e && good a) i0 i (istream s1).
Proof.
  intros (Hi & Hsub & Ha & Hp) (Hs1 & (Hb & Hsl & Hadv) & Hg).
  split; [done|]. split; [done|]. split; [done|].
  destruct (source i) as [r|]; [|by destruct (source sub), (source (istream s1))].
  unfold slack in *. destruct (source sub) as [r'|]; [|done].
  destruct (source (istream s1)) as [r1|]; [|done].
  destruct Hadv as [k' ->]. destruct Hp as ([k0 ->] & Hle & Hlo & He).
  split; [exists (k0 + k')%nat; by rewrite drop_drop|].
  split; [lia|]. split; [lia|]. intros [-> Hgood]%andb_true_iff.
  destruct (Hg Hgood) as [_ Heq]. specialize (He eq_refl). lia.
Qed.

Lemma disc_sub_body_at {A B} `{Verdict A} `{Verdict B} e i0 sub (c : DM A)
    (k : A * pb_istream_t -> DM B) :
  (forall s, istream s = sub -> istream_wf sub -> disc_at true T sub (c s)) ->
  (forall a sub', disc_sub (e && good a) i0 sub' (k (a, sub'))) ->
  disc_sub e i0 sub (bind (on_stream sub c) k).
Proof.
  intros Hc Hk s Hp. unfold bind, on_stream.
  specialize (Hc (with_istream sub s) eq_refl ltac:(apply Hp)).
  destruct (c (with_istream sub s)) as [[a s1]| |]; try done.
  pose proof (pending_body e i0 _ sub a s1 Hp Hc) as Hp'.
  eapply disc_at_weaken; [|exact (Hk a (istream s1) (with_istream (istream s) s1) Hp')].
  by intros [-> _]%andb_true_iff.
Qed.

Lemma disc_sub_body {A B} `{Verdict A} `{Verdict B} e i0 sub (c : DM A)
    (k : A * pb_istream_t -> DM B) :
  disc true T c ->
  (forall a sub', disc_sub (e && good a) i0 sub' (k (a, sub'))) ->
  disc_sub e i0 sub (bind (on_stream sub c) k).
Proof. intros Hc. apply disc_sub_body_at. intros s <- Hs. by apply Hc. Qed.

(** Closing an exhausted substream brings the parent to its end. *)
Lemma disc_finish {B} `{Verdict B} e i0 i sub er (k : DM B) s :
  pending e i0 i sub -> (is_buf (source sub) = true -> bytes_left sub = 0) ->
  disc e T k ->
  disc_at e T i0 (k (with_istream (mk_istream (source sub) (bytes_left i) er) s)).
Proof.
  intros (Hi & Hsub & Ha & Hp) Hz Hk.
  destruct Hi as [Hb Hsi], Hsub as [_ Hss], Ha as (Hab & Hasl & Hasrc).
  unfold slack in *. destruct i as [[r|] b ei], sub as [[r'|] b' e'], i0 as [[r0|] b0 e0];
    cbn in *; try done.
  - specialize (Hz eq_refl). subst b'. destruct Hp as ([k' ->] & Hle & Hlo & He), Hasrc as [k0 ->], Hss.
    apply (disc_at_advance T e _ (mk_istream (IBuf (drop k' (drop k0 r0))) b er)).
    + split; cbn; [lia|]. split; [unfold slack; cbn; lia|]. exists (k0 + k')%nat.
      by rewrite drop_drop.
    + intros He'. unfold slack. cbn. specialize (He He'). lia.
    + apply Hk. split; cbn; [lia|]. split; [lia|done].
  - apply (disc_at_advance T e _ (mk_istream (IUser p0) b er)); [|done|].
    + split; cbn; [lia|]. done.
    + by apply Hk.
Qed.

(** Reading all of [bytes_left] empties a buffer stream. *)
Lemma pb_read_all s a s' :
  istream_wf (istream s) -> pb_read true (bytes_left (istream s)) s = Ok (Some a, s') ->
  is_buf (source (istream s')) = true -> bytes_left (istream s') = 0.
Proof.
  intros Hs Hr Hb.
  destruct (is_buf (source (istream s))) eqn:Hsrc.
  - unfold pb_read in Hr.
    destruct (Z.eqb_spec (bytes_left (istream s)) 0) as [H0|Hn]; [by injection Hr as _ <-|].
    rewrite (bind_Ok get _ s s s), Hsrc in Hr by done. cbn [negb andb] in Hr.
    apply read_now_disc_at in Hr; [lia|destruct Hs; lia|done].
  - pose proof (pb_read_disc true (bytes_left (istream s)) ltac:(destruct Hs; lia) s Hs) as Hd.
    rewrite Hr in Hd. destruct Hd as (_ & (_ & _ & Ha) & _).
    by destruct (source (istream s)), (source (istream s')).
Qed.

Lemma disc_close {B} `{Verdict B} e i0 sub (k d : DM B) :
  disc e T k -> disc false T d ->
  disc_sub e i0 sub (bind (pb_close_string_substream sub) (fun b => if b then k else d)).
Proof.
  intros Hk Hd s Hp. unfold pb_close_string_substream.
  destruct (Z.eqb_spec (bytes_left sub) 0) as [Hz|Hz]; cbn [negb].
  { exact (disc_finish e i0 (istream s) sub _ k s Hp (fun _ => Hz) Hk). }
  assert (Hn : 0 <= bytes_left sub) by (destruct Hp as (_ & [? _] & _); lia).
  pose proof Hp as (Hi & Hsub & Ha & _). unfold bind, on_stream.
  pose proof (pb_read_disc true _ Hn (with_istream sub s) Hsub) as Hrd.
  destruct (pb_read true (bytes_left sub) (with_istream sub s)) as [[[bs|] s1]| |] eqn:Hr;
    [| |done|done].
  - pose proof (pending_body e i0 _ sub _ s1 Hp Hrd) as Hp'. rewrite andb_true_r in Hp'.
    apply (disc_finish e i0 (istream s) (istream s1) _ k (with_istream (istream s) s1));
      [done|by eapply (pb_read_all (with_istream sub s))|done].
  - apply (disc_at_weaken T e false); [done|].
    apply (disc_at_advance T false _ (istream s)); [done|done|].
    exact (Hd (with_istream (istream s) s1) Hi).
Qed.

(** Reading from an unrelated stream does not touch the current one. *)
Lemma disc_other_stream {A} `{Verdict A} (i : pb_istream_t) (c : DM A) :
  istream_wf i -> disc true T c -> disc true T (on_stream i c).
Proof.
  intros Hi Hc s Hs. unfold on_stream. specialize (Hc (with_istream i s) Hi).
  by destruct (c (with_istream i s)) as [[a s1]| |].
Qed.
End Primitives.

#[export] Hint Resolve readbyte_disc varint32_eof_disc varint32_disc varint_disc
  svarint_disc skip_varint_disc skip_string_disc skip_field_disc decode_tag_disc
  decode_fixed32_disc decode_fixed64_disc : disc.
#[export] Hint Extern 1 (disc _ _ (pb_read _ _)) => apply pb_read_disc; lia : disc.
#[export] Hint Extern 1 (disc _ _ (pb_read_to _ _)) => apply read_to_disc; lia : disc.
#[export] Hint Extern 1 (disc _ _ (read_raw_value _ _)) => apply read_raw_value_disc; lia : disc.
