(* ===== verification/Decode.v ===== *)
(** * The decoder ([pb_decode.c])

    Every function of the file, with the recursion through submessages made
    explicit: the bodies are written against the recursive calls and the
    knot is tied by [pb_decode_noinit], with one unit of fuel per level of
    message nesting. *)
From S2P Require Import Prelude Base128 Types Mem Iter IStream.

(** User functions reached through pointers: the [decode] callback of a
    callback field (function pointer, descriptor, address of [arg]) and of an
    extension type (function pointer, extension, tag, wire type). *)
Class DecodeCallbacks := {
  usr_decode : Z -> pb_field_t -> Z -> DM bool;
  usr_ext_decode : Z -> Z -> Z -> Z -> DM bool
}.

(** ** Memory-only computations *)
Definition MM (A : Type) : Type := M mem A.

Definition ld {A} (f : mem -> option A) : MM A := fun m =>
  match f m with Some a => Ok (a, m) | None => UB BadAccess end.
Definition st (f : mem -> option mem) : MM unit := fun m =>
  match f m with Some m' => Ok (tt, m') | None => UB BadAccess end.
Definition release_block (p : Z) : MM unit := fun m =>
  match pb_free m p with Some m' => Ok (tt, m') | None => UB BadFree end.

Definition in_mem {A} (c : MM A) : DM A := fun s =>
  match c (dmem s) with
  | Ok (a, m) => Ok (a, with_mem m s)
  | UB f => UB f
  | Timeout => Timeout
  end.

(** A [pb_size_t] read and written through [pSize]. *)
Definition ld_size (l : loc) : MM Z :=
  match l with Mem a => ld (fun m => load_size m a) | Local => fails BadAccess end.
Definition st_size (l : loc) (v : Z) : MM unit :=
  match l with Mem a => st (fun m => store_size m a v) | Local => fails BadAccess end.
(** The same where [pSize] may be [&fixed_count_size]. *)
Definition get_size (l : loc) : DM Z :=
  match l with
  | Mem a => on_mem (fun m => load_size m a)
  | Local => do s <- get; ret (fixed_count_size s)
  end.
Definition set_size (l : loc) (v : Z) : DM unit :=
  match l with
  | Mem a => upd_mem (fun m => store_size m a v)
  | Local => modify (with_local v)
  end.

(** [iter->pSize == iter->pData]. *)
Definition size_is_data (it : pb_field_iter_t) : bool := bool_decide (pSize it = Mem (pData it)).

Section Fields.
Context `{Image}.

Definition iter_from_extension (e : Z) : MM pb_field_iter_t :=
  do m <- get;
  do t <- lift (ext_type m e);
  do fields <- lift (deref_fields (ext_arg t));
  do dest <- ld (fun m => load_ptr m (e + ext_off_dest));
  do (_, it) <- lift (pb_field_iter_begin fields dest);
  do f <- lift (cur it);
  let pd := if PB_ATYPE (type f) =? PB_ATYPE_POINTER then e + ext_off_dest else dest in
  ret (mk_iter (start it) (pos it) (required_field_index it) (dest_struct it)
         pd (Mem (e + ext_off_found))).

(** [while (ext != NULL) { f(ext); ext = ext->next; }] *)
Fixpoint ext_each (f : Z -> MM unit) (fuel : nat) (e : Z) : MM unit :=
  match fuel with
  | O => out_of_fuel
  | S fuel' =>
      if e =? NULL then ret tt
      else
        run f e;
        do next <- ld (fun m => load_ptr m (e + ext_off_next));
        ext_each f fuel' next
  end.

(** ** Default values *)

(** [pb_message_set_to_defaults], given [pb_field_set_to_default]. *)
Definition message_defaults (field_default : pb_field_iter_t -> MM unit)
    (fields : list pb_field_t) (dest : Z) : MM unit :=
  run for_fields fields dest (fun it => run field_default it; ret true);
  ret tt.

Definition field_default_body (fuel : nat) (rec : pb_field_iter_t -> MM unit)
    (it : pb_field_iter_t) : MM unit :=
  do f <- lift (cur it);
  let ty := type f in
  if PB_LTYPE ty =? PB_LTYPE_EXTENSION then
    do ext <- ld (fun m => load_ptr m (pData it));
    ext_each (fun e =>
      run st (fun m => store_bool m (e + ext_off_found) false);
      do ext_iter <- iter_from_extension e;
      rec ext_iter) fuel ext
  else if PB_ATYPE ty =? PB_ATYPE_STATIC then
    let optional := (PB_HTYPE ty =? PB_HTYPE_OPTIONAL) && negb (size_is_data it) in
    let counted := (PB_HTYPE ty =? PB_HTYPE_REPEATED) || (PB_HTYPE ty =? PB_HTYPE_ONEOF) in
    run (if optional then
           match pSize it with
           | Mem a => st (fun m => store_bool m a false)
           | Local => fails BadAccess
           end
         else if counted then st_size (pSize it) 0
         else ret tt);
    if negb optional && counted then ret tt
    else if PB_LTYPE ty =? PB_LTYPE_SUBMESSAGE then
      do fields <- lift (deref_fields (ptr f));
      message_defaults rec fields (pData it)
    else if negb (ptr f =? NULL) then st (fun m => memcpy m (pData it) (ptr f) (data_size f))
    else st (fun m => memset0 m (pData it) (data_size f))
  else if PB_ATYPE ty =? PB_ATYPE_POINTER then
    run st (fun m => store_ptr m (pData it) NULL);
    if (PB_HTYPE ty =? PB_HTYPE_REPEATED) || (PB_HTYPE ty =? PB_HTYPE_ONEOF)
    then st_size (pSize it) 0 else ret tt
  else ret tt.

Fixpoint pb_field_set_to_default (fuel : nat) (it : pb_field_iter_t) : MM unit :=
  match fuel with
  | O => out_of_fuel
  | S fuel' => field_default_body fuel (pb_field_set_to_default fuel') it
  end.

Definition pb_message_set_to_defaults (fuel : nat) (fields : list pb_field_t) (dest : Z) :
    MM unit :=
  message_defaults (pb_field_set_to_default fuel) fields dest.

(** ** Releasing *)

(** [pb_release], given [pb_release_single_field]. *)
Definition release_message (release_field : pb_field_iter_t -> MM unit)
    (fields : list pb_field_t) (dest : Z) : MM unit :=
  if dest =? NULL then ret tt
  else
    run for_fields fields dest (fun it => run release_field it; ret true);
    ret tt.

(** [while (count--) { pb_release(fields, pItem); pItem += data_size; }] *)
Fixpoint release_items (release : Z -> MM unit) (count : nat) (pItem data_size : Z) :
    MM unit :=
  match count with
  | O => ret tt
  | S count' =>
      run release pItem;
      release_items release count' (pItem + data_size) data_size
  end.

(** [while (count--) { pb_free( *pItem); *pItem++ = NULL; }] *)
Fixpoint free_entries (count : nat) (pItem : Z) : MM unit :=
  match count with
  | O => ret tt
  | S count' =>
      do p <- ld (fun m => load_ptr m pItem);
      run release_block p;
      run st (fun m => store_ptr m pItem NULL);
      free_entries count' (pItem + sizeof_ptr)
  end.

(** The number of submessages in the field. *)
Definition release_count (it : pb_field_iter_t) (f : pb_field_t) : MM Z :=
  if PB_HTYPE (type f) =? PB_HTYPE_REPEATED then
    do count <-
      (if (PB_ATYPE (type f) =? PB_ATYPE_STATIC) && size_is_data it
       then ret (array_size f) else ld_size (pSize it));
    if (PB_ATYPE (type f) =? PB_ATYPE_STATIC) && (array_size f <? count)
    then ret (array_size f) else ret count
  else ret 1.

(** What a pointer field owns. *)
Definition release_pointer (it : pb_field_iter_t) (f : pb_field_t) : MM unit :=
  let repeated := PB_HTYPE (type f) =? PB_HTYPE_REPEATED in
  let entries := (PB_LTYPE (type f) =? PB_LTYPE_STRING)
                 || (PB_LTYPE (type f) =? PB_LTYPE_BYTES) in
  run (if repeated && entries then
         do pItem <- ld (fun m => load_ptr m (pData it));
         do count <- ld_size (pSize it);
         free_entries (Z.to_nat count) pItem
       else ret tt);
  run (if repeated then st_size (pSize it) 0 else ret tt);
  do p <- ld (fun m => load_ptr m (pData it));
  run release_block p;
  st (fun m => store_ptr m (pData it) NULL).

Definition release_field_body (fuel : nat) (rec : pb_field_iter_t -> MM unit)
    (it : pb_field_iter_t) : MM unit :=
  do f <- lift (cur it);
  let ty := type f in
  do current <-
    (if PB_HTYPE ty =? PB_HTYPE_ONEOF then
       do which <- ld_size (pSize it); ret (which =? tag f)
     else ret true);
  if negb current then ret tt
  else
    run (if PB_LTYPE ty =? PB_LTYPE_EXTENSION then
           do ext <- ld (fun m => load_ptr m (pData it));
           ext_each (fun e => do ext_iter <- iter_from_extension e; rec ext_iter) fuel ext
         else if (PB_LTYPE ty =? PB_LTYPE_SUBMESSAGE)
                 && negb (PB_ATYPE ty =? PB_ATYPE_CALLBACK) then
           do pItem <- (if PB_ATYPE ty =? PB_ATYPE_POINTER
                        then ld (fun m => load_ptr m (pData it)) else ret (pData it));
           do count <- release_count it f;
           if pItem =? NULL then ret tt
           else
             release_items (fun p =>
                 do fields <- lift (deref_fields (ptr f));
                 release_message rec fields p)
               (Z.to_nat count) pItem (data_size f)
         else ret tt);
    if PB_ATYPE ty =? PB_ATYPE_POINTER then release_pointer it f else ret tt.

Fixpoint pb_release_single_field (fuel : nat) (it : pb_field_iter_t) : MM unit :=
  match fuel with
  | O => out_of_fuel
  | S fuel' => release_field_body fuel (pb_release_single_field fuel') it
  end.

Definition pb_release (fuel : nat) (fields : list pb_field_t) (dest : Z) : MM unit :=
  release_message (pb_release_single_field fuel) fields dest.
End Fields.

(** ** Scalar decoders *)
Definition decoder : Type := pb_field_t -> Z -> DM bool.

Section Scalars.
Context `{ReadCallback} `{Allocator}.

Definition pb_dec_bool : decoder := fun _ dest =>
  let? value := pb_decode_varint32 else false in
  run upd_mem (fun m => store_bool m dest (negb (value =? 0)));
  ret true.

(** [pb_decode_bool]. *)
Definition pb_decode_bool (dest : Z) : DM bool := pb_dec_bool PB_LAST_FIELD dest.

(** The cascade that stores an integer in the field's width: the value
    that was stored, or [None] for an unknown width.  [cast] is [swrap] or
    [wrap]. *)
Definition store_int (cast : Z -> Z -> Z) (data_size dest v : Z) : DM (option Z) :=
  let put (n : Z) :=
    let clamped := cast (8 * n) v in
    run upd_mem (fun m => store m dest n clamped);
    ret (Some clamped) in
  if data_size =? 8 then put 8
  else if data_size =? 4 then put 4
  else if data_size =? 2 then put 2
  else if data_size =? 1 then put 1
  else ret None.

Definition store_checked (cast : Z -> Z -> Z) (data_size dest v : Z) : DM bool :=
  do r <- store_int cast data_size dest v;
  match r with
  | None => ret_error "invalid data_size"
  | Some clamped =>
      if negb (clamped =? v) then ret_error "integer too large" else ret true
  end.

Definition pb_dec_varint : decoder := fun field dest =>
  let? value := pb_decode_varint else false in
  let svalue := if data_size field =? 8 then swrap 64 value else swrap 32 value in
  store_checked swrap (data_size field) dest svalue.

Definition pb_dec_uvarint : decoder := fun field dest =>
  let? value := pb_decode_varint else false in
  store_checked wrap (data_size field) dest value.

Definition pb_dec_svarint : decoder := fun field dest =>
  let? value := pb_decode_svarint else false in
  store_checked swrap (data_size field) dest value.

Definition pb_dec_fixed32 : decoder := fun _ dest => pb_decode_fixed32 dest.
Definition pb_dec_fixed64 : decoder := fun _ dest => pb_decode_fixed64 dest.

(** Allocate storage for the field and store the pointer at [pData]. *)
Definition allocate_field (pData data_size array_size : Z) : DM bool :=
  do p <- on_mem (fun m => load_ptr m pData);
  if (data_size =? 0) || (array_size =? 0) then ret_error "invalid size"
  else
    let check_limit := 2 ^ 32 in
    if ((check_limit <=? data_size) || (check_limit <=? array_size))
       && (SIZE_T_MAX / array_size <? data_size)
    then ret_error "size too large"
    else
      do s <- get;
      match pb_realloc (dmem s) p (wrap 64 (array_size * data_size)) with
      | None => fails BadFree
      | Some (q, m) =>
          run modify (with_mem m);
          if q =? NULL then ret_error "realloc failed"
          else
            run upd_mem (fun m => store_ptr m pData q);
            ret true
      end.

Definition pb_dec_bytes : decoder := fun field dest =>
  let? size := pb_decode_varint32 else false in
  if PB_SIZE_MAX <? size then ret_error "bytes overflow"
  else
    let alloc_size := PB_BYTES_ARRAY_T_ALLOCSIZE size in
    if alloc_size <? size then ret_error "size too large"
    else
      let fill (bdest : Z) : DM bool :=
        run upd_mem (fun m => store_size m bdest size);
        pb_read_to (bdest + offsetof_bytes) size in
      if PB_ATYPE (type field) =? PB_ATYPE_POINTER then
        do n <- left;
        if n <? size then ret_error "end-of-stream"
        else
          try allocate_field dest alloc_size 1;
          do bdest <- on_mem (fun m => load_ptr m dest);
          fill bdest
      else if data_size field <? alloc_size then ret_error "bytes overflow"
      else fill dest.

(** [size + 1] is computed in 32 bits. *)
Definition pb_dec_string : decoder := fun field dest =>
  let? size := pb_decode_varint32 else false in
  let alloc_size := wrap 32 (size + 1) in
  if alloc_size <? size then ret_error "size too large"
  else
    let fill (dest : Z) : DM bool :=
      do status <- pb_read_to dest size;
      run upd_mem (fun m => store_bytes m (dest + size) [0]);
      ret status in
    if PB_ATYPE (type field) =? PB_ATYPE_POINTER then
      do n <- left;
      if n <? size then ret_error "end-of-stream"
      else
        try allocate_field dest alloc_size 1;
        do dest' <- on_mem (fun m => load_ptr m dest);
        fill dest'
    else if data_size field <? alloc_size then ret_error "string overflow"
    else fill dest.

Definition pb_dec_fixed_length_bytes : decoder := fun field dest =>
  let? size := pb_decode_varint32 else false in
  if PB_SIZE_MAX <? size then ret_error "bytes overflow"
  else if size =? 0 then
    run upd_mem (fun m => memset0 m dest (data_size field));
    ret true
  else if negb (size =? data_size field)
  then ret_error "incorrect fixed length bytes size"
  else pb_read_to dest (data_size field).
End Scalars.

(** ** Fields and messages *)
Section Messages.
Context `{Image} `{ReadCallback} `{Allocator} `{DecodeCallbacks}.

(** The functions the bodies below call back, and the fuel for walking
    extension lists. *)
Context (rec_decode_noinit : list pb_field_t -> Z -> DM bool).
Context (set_to_defaults release : list pb_field_t -> Z -> MM unit).
Context (release_single_field : pb_field_iter_t -> MM unit).
Context (fuel : nat).

(** [pb_decode], given [pb_decode_noinit]. *)
Definition decode_message (fields : list pb_field_t) (dest_struct : Z) : DM bool :=
  run in_mem (set_to_defaults fields dest_struct);
  do status <- rec_decode_noinit fields dest_struct;
  run (if negb status then in_mem (release fields dest_struct) else ret tt);
  ret status.

Definition pb_dec_submessage : decoder := fun field dest =>
  let? substream := pb_make_string_substream else false in
  if ptr field =? NULL then ret_error "invalid field descriptor"
  else
    do submsg_fields <- lift (deref_fields (ptr field));
    do (status, substream) <-
      on_stream substream
        (if PB_HTYPE (type field) =? PB_HTYPE_REPEATED
         then decode_message submsg_fields dest
         else rec_decode_noinit submsg_fields dest);
    try pb_close_string_substream substream;
    ret status.

(** The table [PB_DECODERS]; the extension entry is NULL. *)
Definition PB_DECODERS : list (option decoder) :=
  [Some pb_dec_bool; Some pb_dec_varint; Some pb_dec_uvarint; Some pb_dec_svarint;
   Some pb_dec_fixed32; Some pb_dec_fixed64;
   Some pb_dec_bytes; Some pb_dec_string; Some pb_dec_submessage;
   None; Some pb_dec_fixed_length_bytes].

(** Reading the table, and calling what was read. *)
Definition decoder_for (ltype : Z) : outcome (option decoder) :=
  or_ub BadAccess (PB_DECODERS !! Z.to_nat ltype).
Definition call (func : option decoder) : decoder := fun f dest =>
  match func with
  | Some d => d f dest
  | None => fails BadCall
  end.

(** [(char* )base + data_size * ( *size)]: the product is a [pb_size_t]. *)
Definition item_at (base : Z) (f : pb_field_t) (size : Z) : Z :=
  base + wrap 32 (data_size f * size).

(** The loop over a packed array in a static field.  Every element takes at
    least one byte, so [bytes_left] bounds the iterations. *)
Fixpoint packed_static (n : nat) (func : option decoder) (it : pb_field_iter_t)
    (f : pb_field_t) : DM bool :=
  match n with
  | O => out_of_fuel
  | S n' =>
      do bl <- left;
      do size <- get_size (pSize it);
      if (0 <? bl) && (size <? array_size f) then
        try call func f (item_at (pData it) f size);
        do size' <- get_size (pSize it);
        run set_size (pSize it) (wrap 32 (size' + 1));
        packed_static n' func it f
      else ret true
  end.

Definition is_packed (wire_type ltype : Z) : bool :=
  (wire_type =? PB_WT_STRING) && (ltype <=? PB_LTYPE_LAST_PACKABLE).

Definition decode_static_field (wire_type : Z) (it : pb_field_iter_t) : DM bool :=
  do f <- lift (cur it);
  let ty := type f in
  do func <- lift (decoder_for (PB_LTYPE ty));
  if PB_HTYPE ty =? PB_HTYPE_REQUIRED then call func f (pData it)
  else if PB_HTYPE ty =? PB_HTYPE_OPTIONAL then
    run (if size_is_data it then ret tt
         else match pSize it with
              | Mem a => upd_mem (fun m => store_bool m a true)
              | Local => fails BadAccess
              end);
    call func f (pData it)
  else if PB_HTYPE ty =? PB_HTYPE_REPEATED then
    if is_packed wire_type (PB_LTYPE ty) then
      let? substream := pb_make_string_substream else false in
      do (status, substream) <-
        on_stream substream
          (packed_static (S (Z.to_nat (bytes_left substream))) func it f);
      if negb (bytes_left substream =? 0) then ret_error "array overflow"
      else
        try pb_close_string_substream substream;
        ret status
    else
      do size <- get_size (pSize it);
      let pItem := item_at (pData it) f size in
      run set_size (pSize it) (wrap 32 (size + 1));
      if array_size f <=? size then ret_error "array overflow"
      else call func f pItem
  else if PB_HTYPE ty =? PB_HTYPE_ONEOF then
    do which <- get_size (pSize it);
    run (if (PB_LTYPE ty =? PB_LTYPE_SUBMESSAGE) && negb (which =? tag f) then
           run upd_mem (fun m => memset0 m (pData it) (data_size f));
           do fields <- lift (deref_fields (ptr f));
           in_mem (set_to_defaults fields (pData it))
         else ret tt);
    run set_size (pSize it) (tag f);
    call func f (pData it)
  else ret_error "invalid field type".

Definition initialize_pointer_field (pItem : Z) (f : pb_field_t) : DM unit :=
  let lt := PB_LTYPE (type f) in
  if (lt =? PB_LTYPE_STRING) || (lt =? PB_LTYPE_BYTES) then
    upd_mem (fun m => store_ptr m pItem NULL)
  else if lt =? PB_LTYPE_SUBMESSAGE then
    run upd_mem (fun m => memset0 m pItem (data_size f));
    do fields <- lift (deref_fields (ptr f));
    in_mem (set_to_defaults fields pItem)
  else ret tt.

(** How the loop over a packed array in a pointer field ends. *)
Inductive packed_end : Type := PackedOk | PackedFail | PackedTooMany.

(** One round of growing the allocation. *)
Definition grow (it : pb_field_iter_t) (f : pb_field_t) (size allocated_size : Z) :
    DM (bool * Z) :=
  if allocated_size <? size + 1 then
    do bl <- left;
    if data_size f =? 0 then fails BadAccess   (* division by zero *)
    else
      let remain := (bl - 1) / data_size f + 1 in
      let allocated_size' :=
        if remain <? wrap 64 (PB_SIZE_MAX - allocated_size)
        then wrap 64 (allocated_size + remain) else wrap 64 (allocated_size + 1) in
      do ok <- allocate_field (pData it) (data_size f) allocated_size';
      ret (ok, allocated_size')
  else ret (true, allocated_size).

Fixpoint packed_pointer (n : nat) (func : option decoder) (it : pb_field_iter_t)
    (f : pb_field_t) (allocated_size : Z) : DM packed_end :=
  match n with
  | O => out_of_fuel
  | S n' =>
      do bl <- left;
      if bl =? 0 then ret PackedOk
      else
        do size <- get_size (pSize it);
        if size =? PB_SIZE_MAX then ret PackedTooMany
        else
          do (ok, allocated_size') <- grow it f size allocated_size;
          if negb ok then ret PackedFail
          else
            do size <- get_size (pSize it);
            do base <- on_mem (fun m => load_ptr m (pData it));
            let pItem := item_at base f size in
            run initialize_pointer_field pItem f;
            do ok <- call func f pItem;
            if negb ok then ret PackedFail
            else
              do size' <- get_size (pSize it);
              run set_size (pSize it) (wrap 32 (size' + 1));
              packed_pointer n' func it f allocated_size'
  end.

Definition decode_pointer_field (wire_type : Z) (it : pb_field_iter_t) : DM bool :=
  do f <- lift (cur it);
  let ty := type f in
  let lt := PB_LTYPE ty in
  do func <- lift (decoder_for lt);
  if PB_HTYPE ty =? PB_HTYPE_REPEATED then
    if is_packed wire_type lt then
      do allocated_size <- get_size (pSize it);
      let? substream := pb_make_string_substream else false in
      do (r, substream) <-
        on_stream substream
          (packed_pointer (S (Z.to_nat (bytes_left substream))) func it f allocated_size);
      run (match r with
           | PackedTooMany => modify (fun s =>
               with_istream (mk_istream (source (istream s)) (bytes_left (istream s))
                               (Some "too many array entries"%string)) s)
           | _ => ret tt
           end);
      try pb_close_string_substream substream;
      ret (match r with PackedOk => true | _ => false end)
    else
      do size <- get_size (pSize it);
      if size =? PB_SIZE_MAX then ret_error "too many array entries"
      else
        try allocate_field (pData it) (data_size f) (wrap 32 (size + 1));
        do base <- on_mem (fun m => load_ptr m (pData it));
        do size <- get_size (pSize it);
        let pItem := item_at base f size in
        run set_size (pSize it) (wrap 32 (size + 1));
        run initialize_pointer_field pItem f;
        call func f pItem
  else
    (* REQUIRED, OPTIONAL and ONEOF; PB_HTYPE has no other value *)
    run (if lt =? PB_LTYPE_SUBMESSAGE then
           do p <- on_mem (fun m => load_ptr m (pData it));
           if negb (p =? NULL) then in_mem (release_single_field it) else ret tt
         else ret tt);
    run (if PB_HTYPE ty =? PB_HTYPE_ONEOF then set_size (pSize it) (tag f) else ret tt);
    if (lt =? PB_LTYPE_STRING) || (lt =? PB_LTYPE_BYTES) then call func f (pData it)
    else
      try allocate_field (pData it) (data_size f) 1;
      do p <- on_mem (fun m => load_ptr m (pData it));
      run initialize_pointer_field p f;
      do p <- on_mem (fun m => load_ptr m (pData it));
      call func f p.

(** [do { if (!decode(&substream, ...)) fail; } while (substream.bytes_left)].
    The fuel allows one call per byte; a callback that keeps returning true
    without reading makes the C loop run for ever. *)
Fixpoint callback_loop (n : nat) (pCallback : Z) (f : pb_field_t) : DM bool :=
  match n with
  | O => out_of_fuel
  | S n' =>
      do fn <- on_mem (fun m => load_ptr m (pCallback + offsetof_funcs));
      try usr_decode fn f (pCallback + offsetof_arg);
      do bl <- left;
      if negb (bl =? 0) then callback_loop n' pCallback f else ret true
  end.

Definition decode_callback_field (wire_type : Z) (it : pb_field_iter_t) : DM bool :=
  do f <- lift (cur it);
  let pCallback := pData it in
  do fn <- (if pCallback =? NULL then ret NULL
            else on_mem (fun m => load_ptr m (pCallback + offsetof_funcs)));
  if fn =? NULL then pb_skip_field wire_type
  else if wire_type =? PB_WT_STRING then
    let? substream := pb_make_string_substream else false in
    do (ok, substream) <-
      on_stream substream
        (callback_loop (S (Z.to_nat (bytes_left substream))) pCallback f);
    if negb ok then ret_error "callback failed"
    else
      try pb_close_string_substream substream;
      ret true
  else
    let? buffer := read_raw_value wire_type 10 else false in
    do fn <- on_mem (fun m => load_ptr m (pCallback + offsetof_funcs));
    do (ok, _) <-
      on_stream (pb_istream_from_buffer buffer (zlen buffer))
        (usr_decode fn f (pCallback + offsetof_arg));
    ret ok.

(** [None] is false; [Some it'] is true with the iterator restored. *)
Definition pb_release_union_field (it : pb_field_iter_t) : DM (option pb_field_iter_t) :=
  do f <- lift (cur it);
  do old_tag <- get_size (pSize it);
  let new_tag := tag f in
  if old_tag =? 0 then ret (Some it)
  else if old_tag =? new_tag then ret (Some it)
  else
    do (found, it1) <- lift (pb_field_iter_find it old_tag);
    if negb found then no_value "invalid union tag"
    else
      run in_mem (release_single_field it1);
      do (found, it2) <- lift (pb_field_iter_find it1 new_tag);
      if negb found then no_value "iterator error"
      else
        do g <- lift (cur it2);
        run (if PB_ATYPE (type g) =? PB_ATYPE_POINTER
             then upd_mem (fun m => store_ptr m (pData it2) NULL) else ret tt);
        ret (Some it2).

(** The iterator as [decode_field] leaves it on success. *)
Definition decode_field (wire_type : Z) (it : pb_field_iter_t) :
    DM (option pb_field_iter_t) :=
  do f <- lift (cur it);
  let? it := (if PB_HTYPE (type f) =? PB_HTYPE_ONEOF
              then pb_release_union_field it else ret (Some it)) else None in
  do f <- lift (cur it);
  let at_ := PB_ATYPE (type f) in
  do ok <-
    (if at_ =? PB_ATYPE_STATIC then decode_static_field wire_type it
     else if at_ =? PB_ATYPE_POINTER then decode_pointer_field wire_type it
     else if at_ =? PB_ATYPE_CALLBACK then decode_callback_field wire_type it
     else ret_error "invalid field type");
  ret (if ok : bool then Some it else None).

(** ** Extensions *)
Definition default_extension_decoder (extension tg wire_type : Z) : DM bool :=
  do s <- get;
  do t <- lift (ext_type (dmem s) extension);
  do fields <- lift (deref_fields (ext_arg t));
  do field <- lift (or_ub BadPointer (fields !! 0%nat));
  if negb (tag field =? tg) then ret true
  else
    do it <- in_mem (iter_from_extension extension);
    run upd_mem (fun m => store_bool m (extension + ext_off_found) true);
    let? _ := decode_field wire_type it else false in
    ret true.

Fixpoint extension_loop (n : nat) (pos_ extension tg wire_type : Z) : DM bool :=
  match n with
  | O => out_of_fuel
  | S n' =>
      do bl <- left;
      if (extension =? NULL) || negb (pos_ =? bl) then ret true
      else
        do s <- get;
        do t <- lift (ext_type (dmem s) extension);
        try (if negb (ext_decode t =? NULL)
             then usr_ext_decode (ext_decode t) extension tg wire_type
             else default_extension_decoder extension tg wire_type);
        do next <- on_mem (fun m => load_ptr m (extension + ext_off_next));
        extension_loop n' pos_ next tg wire_type
  end.

Definition decode_extension (tg wire_type : Z) (it : pb_field_iter_t) : DM bool :=
  do extension <- on_mem (fun m => load_ptr m (pData it));
  do pos_ <- left;
  extension_loop fuel pos_ extension tg wire_type.

Definition find_extension_field (it : pb_field_iter_t) : outcome (bool * pb_field_iter_t) :=
  iter_search is_extension (pos it) (length (start it)) it.

(** ** Messages *)

(** Locals of [pb_decode_noinit] across iterations of its main loop;
    [fixed_count_field] is an index into the descriptor array. *)
Record loop_state : Type := mk_loop {
  l_iter : pb_field_iter_t;
  fields_seen : list Z;
  extension_range_start : Z;
  fixed_count_field : option nat
}.

(** The check that the current fixed count field, if any, is complete. *)
Definition fixed_count_done (fields : list pb_field_t) (ff : option nat) : DM bool :=
  match ff with
  | None => ret true
  | Some i =>
      do f <- lift (or_ub BadPointer (fields !! i));
      do s <- get;
      if negb (fixed_count_size s =? array_size f)
      then ret_error "wrong size for fixed count field" else ret true
  end.

(** [fields_seen[i >> 5] |= 1 << (i & 31)]. *)
Definition mark_seen (i : Z) (seen : list Z) : list Z :=
  let w := Z.to_nat (Z.shiftr i 5) in
  <[ w := Z.lor (default 0 (seen !! w)) (wrap 32 (Z.shiftl 1 (Z.land i 31))) ]> seen.

(** The branch for a tag without a field: [true] when an extension took it. *)
Definition unknown_field (t : tag_result) (it : pb_field_iter_t) (ext_start : Z) :
    DM (option (pb_field_iter_t * Z * bool)) :=
  if ext_start <=? tag_tag t then
    do (found, it') <- lift (find_extension_field it);
    do g <- lift (cur it');
    let ext_start' := if found : bool then tag g else wrap 32 (-1) in
    if ext_start' <=? tag_tag t then
      do pos_ <- left;
      do ok <- decode_extension (tag_tag t) (tag_wire_type t) it';
      if negb ok then ret None
      else
        do bl <- left;
        ret (Some (it', ext_start', negb (pos_ =? bl)))
    else ret (Some (it', ext_start', false))
  else ret (Some (it, ext_start, false)).

(** Decoding a known field: the iterator's [pSize] is redirected for a
    fixed count field, the required-field bit is set, and the value is
    decoded. *)
Definition known_field (fields : list pb_field_t) (t : tag_result)
    (it : pb_field_iter_t) (l : loop_state) : DM (option loop_state) :=
  do f <- lift (cur it);
  let fixed := (PB_HTYPE (type f) =? PB_HTYPE_REPEATED) && size_is_data it in
  do ok <-
    (if fixed && negb (bool_decide (fixed_count_field l = Some (pos it))) then
       try fixed_count_done fields (fixed_count_field l);
       run modify (with_local 0);
       ret true
     else ret true);
  if negb ok then ret None
  else
    let ff := if fixed then Some (pos it) else fixed_count_field l in
    let it := if fixed
              then mk_iter (start it) (pos it) (required_field_index it)
                     (dest_struct it) (pData it) Local
              else it in
    let seen :=
      if (PB_HTYPE (type f) =? PB_HTYPE_REQUIRED)
         && (required_field_index it <? PB_MAX_REQUIRED_FIELDS)
      then mark_seen (required_field_index it) (fields_seen l) else fields_seen l in
    let? it' := decode_field (tag_wire_type t) it else None in
    ret (Some (mk_loop it' seen (extension_range_start l) ff)).

(** One iteration, after the tag was read. *)
Definition decode_one (fields : list pb_field_t) (t : tag_result) (l : loop_state) :
    DM (option loop_state) :=
  do (found, it) <- lift (pb_field_iter_find (l_iter l) (tag_tag t));
  if found : bool then known_field fields t it l
  else
    let? (it', ext_start', handled) :=
      unknown_field t it (extension_range_start l) else None in
    let l' := mk_loop it' (fields_seen l) ext_start' (fixed_count_field l) in
    if handled : bool then ret (Some l')
    else
      do ok <- pb_skip_field (tag_wire_type t);
      ret (if ok : bool then Some l' else None).

(** [while (stream->bytes_left)]: every iteration reads a tag, so
    [bytes_left] bounds the loop. *)
Fixpoint noinit_loop (n : nat) (fields : list pb_field_t) (l : loop_state) :
    DM (option loop_state) :=
  match n with
  | O => out_of_fuel
  | S n' =>
      do bl <- left;
      if bl =? 0 then ret (Some l)
      else
        do t <- pb_decode_tag;
        if tag_ok t then
          let? l' := decode_one fields t l else None in
          noinit_loop n' fields l'
        else if tag_eof t then ret (Some l)
        else ret None
  end.

(** The final do-while loop: the required-field index and type of the last
    field, and the iterator. *)
Fixpoint seek_end (n : nat) (it : pb_field_iter_t) : outcome (Z * Z * pb_field_iter_t) :=
  match n with
  | O => Timeout
  | S n' =>
      match cur it with
      | Ok f =>
          match pb_field_iter_next it with
          | Ok (true, it') => seek_end n' it'
          | Ok (false, it') => Ok (required_field_index it, type f, it')
          | UB e => UB e
          | Timeout => Timeout
          end
      | UB e => UB e
      | Timeout => Timeout
      end
  end.

(** The number of required fields of the message, at most
    [PB_MAX_REQUIRED_FIELDS]. *)
Definition count_required (it : pb_field_iter_t) : outcome Z :=
  match seek_end (length (start it)) it with
  | Ok (req, last_type, it') =>
      match cur it' with
      | Ok g =>
          let req' :=
            if (PB_HTYPE last_type =? PB_HTYPE_REQUIRED) && negb (tag g =? 0)
            then wrap 32 (req + 1) else req in
          Ok (if PB_MAX_REQUIRED_FIELDS <? req' then PB_MAX_REQUIRED_FIELDS else req')
      | UB e => UB e
      | Timeout => Timeout
      end
  | UB e => UB e
  | Timeout => Timeout
  end.

Definition allbits : Z := wrap 32 (Z.lnot 0).

(** All bits of the required fields are set in [fields_seen]. *)
Definition all_seen (req_field_count : Z) (seen : list Z) : bool :=
  forallb (fun w => default 0 (seen !! w) =? allbits)
    (seq 0 (Z.to_nat (Z.shiftr req_field_count 5))) &&
  ((Z.land req_field_count 31 =? 0) ||
   (default 0 (seen !! Z.to_nat (Z.shiftr req_field_count 5)) =?
    Z.shiftr allbits (32 - Z.land req_field_count 31))).

Definition check_required (l : loop_state) : DM bool :=
  do req_field_count <- lift (count_required (l_iter l));
  if 0 <? req_field_count then
    if all_seen req_field_count (fields_seen l) then ret true
    else ret_error "missing required field"
  else ret true.

(** [fixed_count_size] is a local variable of each call. *)
Definition with_frame {A} (c : DM A) : DM A := fun s =>
  match c (with_local 0 s) with
  | Ok (a, s') => Ok (a, with_local (fixed_count_size s) s')
  | UB f => UB f
  | Timeout => Timeout
  end.

Definition noinit_body (fields : list pb_field_t) (dest_struct : Z) : DM bool :=
  with_frame
    (do (_, it) <- lift (pb_field_iter_begin fields dest_struct);
     do n <- left;
     let? l := noinit_loop (S (Z.to_nat n)) fields (mk_loop it [0; 0] 0 None) else false in
     try fixed_count_done fields (fixed_count_field l);
     check_required l).
End Messages.

(** ** The entry points *)
Section Decoder.
Context `{Image} `{ReadCallback} `{Allocator} `{DecodeCallbacks}.

Fixpoint pb_decode_noinit (fuel : nat) (fields : list pb_field_t) (dest_struct : Z) :
    DM bool :=
  match fuel with
  | O => out_of_fuel
  | S n =>
      noinit_body (pb_decode_noinit n) (pb_message_set_to_defaults n) (pb_release n)
        (pb_release_single_field n) n fields dest_struct
  end.

Definition pb_decode (fuel : nat) (fields : list pb_field_t) (dest_struct : Z) : DM bool :=
  decode_message (pb_decode_noinit fuel) (pb_message_set_to_defaults fuel)
    (pb_release fuel) fields dest_struct.

(** A message preceded by its length. *)
Definition delimited (c : DM bool) : DM bool :=
  let? substream := pb_make_string_substream else false in
  do (status, substream) <- on_stream substream c;
  try pb_close_string_substream substream;
  ret status.

Definition pb_decode_delimited_noinit (fuel : nat) (fields : list pb_field_t)
    (dest_struct : Z) : DM bool :=
  delimited (pb_decode_noinit fuel fields dest_struct).

Definition pb_decode_delimited (fuel : nat) (fields : list pb_field_t)
    (dest_struct : Z) : DM bool :=
  delimited (pb_decode fuel fields dest_struct).

Definition pb_decode_nullterminated (fuel : nat) (fields : list pb_field_t)
    (dest_struct : Z) : DM bool :=
  pb_decode fuel fields dest_struct.
End Decoder.
