(* ===== verification/MemSafe.v ===== *)
(** * Memory-only parts of the decoder return

    Setting defaults and releasing a message walk descriptors and memory.
    [mem_safe T c]: the computation [c] never reads an input stream and, when
    [T] is [False], returns within its fuel.  The nesting depth of the
    descriptors bounds the fuel. *)
From S2P Require Import Prelude Types Mem Iter IStream Decode.

(** ** Nesting depth *)
Section Depth.
Context `{Image}.

(** No field of the message is an extension range, and submessages nest
    less than [n] deep. *)
Fixpoint depth_ok (n : nat) (fields : list pb_field_t) : bool :=
  match n with
  | O => false
  | S n' =>
      forallb (fun f =>
        negb (PB_LTYPE (type f) =? PB_LTYPE_EXTENSION) &&
        (if PB_LTYPE (type f) =? PB_LTYPE_SUBMESSAGE
         then match fields_at (ptr f) with
              | Some sub => depth_ok n' sub
              | None => true
              end
         else true)) fields
  end.

(** The same for one field. *)
Definition field_depth (n : nat) (f : pb_field_t) : Prop :=
  (0 < n)%nat /\ PB_LTYPE (type f) <> PB_LTYPE_EXTENSION /\
  (PB_LTYPE (type f) = PB_LTYPE_SUBMESSAGE ->
   forall sub, fields_at (ptr f) = Some sub -> depth_ok (pred n) sub = true).

Lemma depth_ok_field n fields i f :
  depth_ok n fields = true -> fields !! i = Some f -> field_depth n f.
Proof.
  destruct n as [|n]; [done|]. cbn [depth_ok]. rewrite forallb_forall. intros Hall Hi.
  assert (Hin : In f fields) by (apply list_elem_of_In; by eapply list_elem_of_lookup_2).
  specialize (Hall f Hin). apply andb_true_iff in Hall as [He Hs].
  split; [lia|]. split; [lia|]. intros E sub Hsub. rewrite E, Z.eqb_refl, Hsub in Hs. done.
Qed.
End Depth.

(** ** The predicate and its rules *)
Section MemSafe.
Context (T : Prop).

Definition mem_safe {A} (c : MM A) : Prop :=
  forall m, match c m with UB OverRead => False | Timeout => T | _ => True end.

Lemma ms_bind {A B} (c : MM A) (k : A -> MM B) :
  mem_safe c -> (forall a, mem_safe (k a)) -> mem_safe (bind c k).
Proof.
  intros Hc Hk m. specialize (Hc m). unfold bind. destruct (c m) as [[a m']|[]|]; try done.
  apply Hk.
Qed.

Lemma ms_ret {A} (a : A) : mem_safe (ret a).
Proof. done. Qed.

Lemma ms_get : mem_safe get.
Proof. done. Qed.

Lemma ms_ld {A} (f : mem -> option A) : mem_safe (ld f).
Proof. intros m. unfold ld. by destruct (f m). Qed.

Lemma ms_st f : mem_safe (st f).
Proof. intros m. unfold st. by destruct (f m). Qed.

Lemma ms_release p : mem_safe (release_block p).
Proof. intros m. unfold release_block. by destruct (pb_free m p). Qed.

Lemma ms_fails {A} : mem_safe (fails (A := A) BadAccess).
Proof. done. Qed.

Lemma ms_timeout {A} : T -> mem_safe (out_of_fuel (A := A)).
Proof. by intros HT m. Qed.

Lemma ms_ld_size l : mem_safe (ld_size l).
Proof. destruct l; [apply ms_ld|done]. Qed.

Lemma ms_st_size l v : mem_safe (st_size l v).
Proof. destruct l; [apply ms_st|done]. Qed.

(** Pure steps: never OverRead, never Timeout. *)
Definition plain {A} (o : outcome A) : Prop := o <> UB OverRead /\ o <> Timeout.

Lemma ms_lift {A B} (o : outcome A) (k : A -> MM B) :
  plain o -> (forall a, o = Ok a -> mem_safe (k a)) -> mem_safe (bind (lift o) k).
Proof.
  intros [H1 H2] Hk m. unfold bind, lift. destruct o as [a|[]|]; try done. by apply Hk.
Qed.
End MemSafe.

Lemma plain_or_ub {A} (o : option A) : plain (or_ub BadPointer o).
Proof. by destruct o. Qed.

Lemma plain_cur it : plain (cur it).
Proof. apply plain_or_ub. Qed.

Lemma plain_begin fields dest : plain (pb_field_iter_begin fields dest).
Proof. unfold pb_field_iter_begin. by destruct (fields !! 0%nat). Qed.

Lemma plain_next it : plain (pb_field_iter_next it).
Proof.
  unfold pb_field_iter_next. destruct (start it !! pos it) as [f|]; [|done].
  destruct (tag f =? 0); [done|]. destruct (start it !! S (pos it)) as [g|]; [|done].
  destruct (tag g =? 0); [|done]. unfold pb_field_iter_begin. by destruct (start it !! 0%nat).
Qed.

Lemma plain_deref `{Image} p : plain (deref_fields p).
Proof. apply plain_or_ub. Qed.

Lemma plain_ext_type `{Image} m e : plain (ext_type m e).
Proof. unfold ext_type. destruct (load_ptr m _); [apply plain_or_ub|done]. Qed.

Lemma next_true it it' :
  pb_field_iter_next it = Ok (true, it') ->
  start it' = start it /\ pos it' = S (pos it) /\ (S (pos it) < length (start it))%nat.
Proof.
  unfold pb_field_iter_next. destruct (start it !! pos it) as [f|]; [|done].
  destruct (tag f =? 0); [done|]. destruct (start it !! S (pos it)) as [g|] eqn:E; [|done].
  destruct (tag g =? 0).
  - unfold pb_field_iter_begin. by destruct (start it !! 0%nat).
  - intros [= <-]. apply lookup_lt_Some in E. unfold advance. by destruct same_union.
Qed.

Create HintDb msafe.
#[export] Hint Resolve ms_ret ms_get ms_ld ms_st ms_release ms_fails ms_ld_size ms_st_size
  plain_cur plain_begin plain_next plain_deref plain_ext_type : msafe.

Ltac ms_step :=
  match goal with
  | |- mem_safe _ (if ?b then _ else _) => destruct b eqn:?
  | |- mem_safe _ (let _ := _ in _) => cbv zeta
  | |- mem_safe _ (match ?x with _ => _ end) => destruct x eqn:?
  | |- mem_safe _ (bind (lift _) _) => apply ms_lift; [solve [auto with msafe]|intros ? ?]
  | |- mem_safe _ (bind _ _) => apply ms_bind; [|intros ?]
  | |- mem_safe _ _ => solve [eauto 2 with msafe]
  end.
Ltac ms_auto := repeat ms_step.

(** ** Loops over the fields *)
Section Loops.
Context (T : Prop).

Lemma ms_iter_each (body : pb_field_iter_t -> MM bool) fields fuel it :
  start it = fields -> (length fields - pos it <= fuel)%nat -> (pos it < length fields)%nat ->
  (forall it, start it = fields -> mem_safe T (body it)) ->
  mem_safe T (iter_each body fuel it).
Proof.
  intros Hst Hf Hp Hb. revert it Hst Hf Hp.
  induction fuel as [|fuel IH]; intros it Hst Hf Hp; [lia|]. cbn [iter_each].
  apply ms_bind; [by apply Hb|]. intros []; [|apply ms_ret].
  apply ms_lift; [apply plain_next|]. intros [[] it'] Hn; [|apply ms_ret].
  apply next_true in Hn as (H1 & H2 & H3). rewrite Hst in *. apply IH; [done|lia|lia].
Qed.

Lemma ms_for_fields fields dest (body : pb_field_iter_t -> MM bool) :
  (forall it, start it = fields -> mem_safe T (body it)) ->
  mem_safe T (for_fields fields dest body).
Proof.
  intros Hb. apply ms_lift; [apply plain_begin|]. intros [[] it] Hit; [|apply ms_ret].
  unfold pb_field_iter_begin in Hit. destruct (fields !! 0%nat) as [f|] eqn:E; [|done].
  apply lookup_lt_Some in E. injection Hit as _ <-.
  eapply (ms_iter_each _ fields); cbn; [done|lia|lia|done].
Qed.

Lemma ms_ext_each (f : Z -> MM unit) fuel e :
  T -> (forall e, mem_safe T (f e)) -> mem_safe T (ext_each f fuel e).
Proof.
  intros HT Hf. revert e. induction fuel as [|fuel IH]; intros e; cbn [ext_each]; [by apply ms_timeout|].
  destruct (e =? NULL); [apply ms_ret|]. apply ms_bind; [apply Hf|]. intros [].
  apply ms_bind; [apply ms_ld|]. intros next. apply IH.
Qed.

Lemma ms_release_items (release : Z -> MM unit) n p ds :
  (forall p, mem_safe T (release p)) -> mem_safe T (release_items release n p ds).
Proof.
  intros Hr. revert p. induction n as [|n IH]; intros p; cbn; [done|].
  apply ms_bind; [apply Hr|]. intros []. apply IH.
Qed.

Lemma ms_free_entries n p : mem_safe T (free_entries n p).
Proof. revert p. induction n as [|n IH]; intros p; cbn [free_entries]; ms_auto. Qed.
End Loops.
#[export] Hint Resolve ms_free_entries : msafe.

(** ** Defaults and release *)
Section Walks.
Context `{Image} (T : Prop).

(** The current field of [it] nests less than [n] deep, unless [T]. *)
Definition shallow (n : nat) (it : pb_field_iter_t) : Prop :=
  forall f, cur it = Ok f -> T \/ field_depth n f.

Lemma shallow_start n it fields :
  T \/ depth_ok n fields = true -> start it = fields -> shallow n it.
Proof.
  intros [HT|Hd] <- f Hf; [by left|]. right. unfold cur in Hf.
  destruct (start it !! pos it) as [g|] eqn:E; [|done]. injection Hf as <-.
  by eapply depth_ok_field.
Qed.

Lemma ms_iter_from_extension e : mem_safe T (iter_from_extension e).
Proof. unfold iter_from_extension. ms_auto. Qed.
#[local] Hint Resolve ms_iter_from_extension : msafe.

(** Work on the extensions of a field; only there when [T]. *)
Lemma ms_extensions n it f (body : Z -> MM unit) fuel p :
  cur it = Ok f -> shallow n it -> (PB_LTYPE (type f) =? PB_LTYPE_EXTENSION) = true ->
  (T -> forall e, mem_safe T (body e)) -> mem_safe T (ext_each body fuel p).
Proof.
  intros Hf Hs He Hb. destruct (Hs f Hf) as [HT|(_ & Hn & _)]; [|lia].
  apply ms_ext_each; auto.
Qed.

Lemma sub_depth n it f fields :
  cur it = Ok f -> shallow (S n) it -> (PB_LTYPE (type f) =? PB_LTYPE_SUBMESSAGE) = true ->
  deref_fields (ptr f) = Ok fields -> T \/ depth_ok n fields = true.
Proof.
  intros Hf Hs He Hd. destruct (Hs f Hf) as [HT|(_ & _ & Hsub)]; [by left|]. right.
  apply Hsub; [lia|]. unfold deref_fields in Hd. by destruct (fields_at (ptr f)) as [?|];
    [injection Hd as ->|].
Qed.

Lemma ms_field_default n it : shallow n it -> (T \/ 0 < n)%nat -> mem_safe T (pb_field_set_to_default n it).
Proof.
  revert it. induction n as [|n IH]; intros it Hs H0; cbn [pb_field_set_to_default].
  { destruct H0 as [HT|]; [by apply ms_timeout|lia]. }
  unfold field_default_body. apply ms_lift; [apply plain_cur|]. intros f Hf.
  destruct (PB_LTYPE (type f) =? PB_LTYPE_EXTENSION) eqn:He.
  - apply ms_bind; [apply ms_ld|]. intros ext. eapply ms_extensions; [done|done|done|].
    intros HT e. apply ms_bind; [apply ms_st|]. intros [].
    apply ms_bind; [apply ms_iter_from_extension|]. intros it'. apply IH; [|by left].
    intros ? _. by left.
  - destruct (PB_ATYPE (type f) =? PB_ATYPE_STATIC); [|ms_auto].
    cbv zeta. apply ms_bind; [ms_auto|]. intros [].
    destruct (_ && _); [apply ms_ret|].
    destruct (PB_LTYPE (type f) =? PB_LTYPE_SUBMESSAGE) eqn:Hl; [|ms_auto].
    apply ms_lift; [apply plain_deref|]. intros fields Hd.
    pose proof (sub_depth n it f fields Hf Hs Hl Hd) as Hdepth.
    apply ms_bind; [|intros ?; apply ms_ret]. apply ms_for_fields. intros it' Hst.
    apply ms_bind; [|intros ?; apply ms_ret].
    apply IH; [by eapply shallow_start|].
    destruct Hdepth as [|Hd']; [by left|right]. destruct n; [done|lia].
Qed.

Lemma ms_set_to_defaults n fields dest :
  T \/ depth_ok n fields = true -> mem_safe T (pb_message_set_to_defaults n fields dest).
Proof.
  intros Hd. apply ms_bind; [|intros ?; apply ms_ret]. apply ms_for_fields. intros it Hst.
  apply ms_bind; [|intros ?; apply ms_ret].
  apply ms_field_default; [by eapply shallow_start|].
  destruct Hd as [|Hd]; [by left|right]. destruct n; [done|lia].
Qed.

Lemma ms_release_count it f : mem_safe T (release_count it f).
Proof. unfold release_count. ms_auto. Qed.

Lemma ms_release_pointer it f : mem_safe T (release_pointer it f).
Proof. unfold release_pointer. ms_auto. Qed.
#[local] Hint Resolve ms_release_count ms_release_pointer : msafe.

Lemma ms_release_single n it :
  shallow n it -> (T \/ 0 < n)%nat -> mem_safe T (pb_release_single_field n it).
Proof.
  revert it. induction n as [|n IH]; intros it Hs H0; cbn [pb_release_single_field].
  { destruct H0 as [HT|]; [by apply ms_timeout|lia]. }
  unfold release_field_body. apply ms_lift; [apply plain_cur|]. intros f Hf.
  apply ms_bind; [ms_auto|]. intros current. destruct (negb current); [apply ms_ret|].
  apply ms_bind; [|intros []; ms_auto].
  destruct (PB_LTYPE (type f) =? PB_LTYPE_EXTENSION) eqn:He.
  - apply ms_bind; [apply ms_ld|]. intros ext. eapply ms_extensions; [done|done|done|].
    intros HT e. apply ms_bind; [apply ms_iter_from_extension|]. intros it'.
    apply IH; [|by left]. intros ? _. by left.
  - destruct (_ && _) eqn:Hl; [|apply ms_ret]. apply andb_true_iff in Hl as [Hl _].
    apply ms_bind; [ms_auto|]. intros pItem. apply ms_bind; [ms_auto|]. intros count.
    destruct (pItem =? NULL); [apply ms_ret|]. apply ms_release_items. intros p.
    apply ms_lift; [apply plain_deref|]. intros fields Hd.
    pose proof (sub_depth n it f fields Hf Hs Hl Hd) as Hdepth.
    unfold release_message. destruct (p =? NULL); [apply ms_ret|].
    apply ms_bind; [|intros ?; apply ms_ret]. apply ms_for_fields. intros it' Hst.
    apply ms_bind; [|intros ?; apply ms_ret].
    apply IH; [by eapply shallow_start|].
    destruct Hdepth as [|Hd']; [by left|right]. destruct n; [done|lia].
Qed.

Lemma ms_pb_release n fields dest :
  T \/ depth_ok n fields = true -> mem_safe T (pb_release n fields dest).
Proof.
  intros Hd. unfold pb_release, release_message. destruct (dest =? NULL); [apply ms_ret|].
  apply ms_bind; [|intros ?; apply ms_ret]. apply ms_for_fields. intros it Hst.
  apply ms_bind; [|intros ?; apply ms_ret].
  apply ms_release_single; [by eapply shallow_start|].
  destruct Hd as [|Hd]; [by left|right]. destruct n; [done|lia].
Qed.
End Walks.
