(* ===== verification/DecodeSafe.v ===== *)
(** * The decoder reads only its input, and returns

    The reading discipline of every function of Decode, and with it two facts
    about [pb_decode]: on any input, whatever the message, the stream is never
    read past its end; and for descriptors of bounded nesting the decoder
    returns within a fuel that depends on the descriptors only. *)
From S2P Require Import Prelude Base128 Types Mem Iter IStream Discipline Decode MemSafe Wire.

(** ** The iterator's place in its array *)
Definition same_place (it it' : pb_field_iter_t) : Prop :=
  start it = start it' /\ pos it = pos it'.

(** [next] and [search] depend on the place only. *)
Definition same_result (o o' : outcome (bool * pb_field_iter_t)) : Prop :=
  match o, o' with
  | Ok (b, it), Ok (b', it') => b = b' /\ same_place it it'
  | UB f, UB f' => f = f'
  | Timeout, Timeout => True
  | _, _ => False
  end.

Lemma next_same it it' :
  same_place it it' -> same_result (pb_field_iter_next it) (pb_field_iter_next it').
Proof.
  intros [Hs Hp]. unfold pb_field_iter_next, same_result. rewrite <- Hs, <- Hp.
  destruct (start it !! pos it) as [f|]; [|done].
  destruct (tag f =? 0); [done|]. destruct (start it !! S (pos it)) as [g|]; [|done].
  destruct (tag g =? 0).
  - unfold pb_field_iter_begin. by destruct (start it !! 0%nat).
  - unfold advance, same_place. rewrite <- Hs, <- Hp. by destruct same_union.
Qed.

Lemma search_same p from fuel it it' :
  same_place it it' ->
  same_result (iter_search p from fuel it) (iter_search p from fuel it').
Proof.
  revert it it'. induction fuel as [|fuel IH]; intros it it' Hp; [done|]. cbn [iter_search].
  pose proof (next_same it it' Hp) as Hn. destruct Hp as [Hs Hpos]. rewrite <- Hs, <- Hpos.
  destruct (start it !! pos it) as [f|]; [|done]. destruct (p f); [done|].
  unfold same_result in Hn.
  destruct (pb_field_iter_next it) as [[b i]| |], (pb_field_iter_next it') as [[b' i']| |]; try done.
  destruct Hn as (-> & Hs' & Hp'). rewrite <- Hp'. case_bool_decide; [done|]. by apply IH.
Qed.

(** [it] stands on an entry of a terminated array. *)
Definition placed (it : pb_field_iter_t) : Prop :=
  let n := pred (length (start it)) in
  terminated (start it) n /\ (pos it < Nat.max 1 n)%nat.

Lemma placed_same it it' : same_place it it' -> placed it -> placed it'.
Proof. unfold placed. by intros [<- <-]. Qed.

(** A search within a terminated array returns, in that array. *)
Lemma search_placed p it :
  placed it ->
  exists b it', iter_search p (pos it) (length (start it)) it = Ok (b, it') /\
    placed it' /\ start it' = start it.
Proof.
  intros [Ht Hp]. set (n := pred (length (start it))) in *.
  destruct (decide (n = 0%nat)) as [Hn|Hn].
  - destruct Ht as (Hl & (z & Hz & Hz0) & Hb).
    assert (Hpos : pos it = 0%nat) by lia. rewrite Hl, Hn. cbn [iter_search].
    rewrite Hpos, <- Hn, Hz. destruct (p z).
    + exists true, it. split; [done|]. split; [|done]. unfold placed. fold n. split; [|lia].
      split; [done|]. split; [by exists z|done].
    + unfold pb_field_iter_next. rewrite Hpos, <- Hn, Hz, Hz0. cbn.
      rewrite Hpos, Hn. rewrite bool_decide_eq_true_2 by done.
      exists false, it. split; [done|]. split; [|done]. unfold placed. fold n. split; [|lia].
      split; [done|]. split; [by exists z|done].
  - assert (Hk : (pos it < n)%nat) by lia.
    assert (Hsame : same_place (field_at (start it) 0 (pos it)) it).
    { split; [apply field_at_start|]. by apply (field_at_pos _ _ n Ht). }
    pose proof (search_same p (pos it) (length (start it)) _ _ Hsame) as Hs.
    destruct (iter_search_spec (start it) 0 n Ht p (pos it) Hk)
      as [(e & He & _ & _ & E)|[_ E]]; rewrite E in Hs; unfold same_result in Hs;
      destruct (iter_search p (pos it) (length (start it)) it) as [[b it']| |]; try done;
      destruct Hs as [_ Hs]; exists b, it'; (split; [done|]).
    + pose proof (cyc_lt n (pos it) e ltac:(lia)) as Hc. destruct Hs as [Hs1 Hs2].
      rewrite (field_at_pos _ _ n Ht) in Hs2 by done.
      rewrite (proj1 (field_at_start (start it) 0 _)) in Hs1.
      split; [|done]. unfold placed. rewrite <- Hs1. fold n. split; [done|lia].
    + destruct Hs as [Hs1 Hs2]. rewrite (field_at_pos _ _ n Ht) in Hs2 by done.
      rewrite (proj1 (field_at_start (start it) 0 _)) in Hs1.
      split; [|done]. unfold placed. rewrite <- Hs1. fold n. split; [done|lia].
Qed.

Lemma search_found p from fuel it it' :
  iter_search p from fuel it = Ok (true, it') -> exists f, cur it' = Ok f /\ p f = true.
Proof.
  revert it. induction fuel as [|fuel IH]; intros it; [done|]. cbn [iter_search].
  destruct (start it !! pos it) as [f|] eqn:E; [|done]. destruct (p f) eqn:Hp.
  - intros [= <-]. exists f. unfold cur. by rewrite E.
  - destruct (pb_field_iter_next it) as [[b i]| |]; try done.
    case_bool_decide; [done|]. apply IH.
Qed.

Lemma search_not_overread p from fuel it : iter_search p from fuel it <> UB OverRead.
Proof.
  revert it. induction fuel as [|fuel IH]; intros it; [done|]. cbn [iter_search].
  destruct (start it !! pos it); [|done]. destruct (p p0); [done|].
  pose proof (plain_next it) as [Hn _]. destruct (pb_field_iter_next it) as [[b i]|[]|]; try done.
  case_bool_decide; [done|]. apply IH.
Qed.

Lemma seek_end_plain fuel it :
  (length (start it) - pos it <= fuel)%nat -> (pos it < length (start it))%nat ->
  seek_end fuel it <> Timeout.
Proof.
  revert it. induction fuel as [|fuel IH]; intros it Hf Hp; [lia|]. cbn [seek_end].
  destruct (cur it) as [f| |] eqn:Hc; [|done|by apply plain_cur in Hc].
  pose proof (plain_next it) as [_ Hn].
  destruct (pb_field_iter_next it) as [[[] it']| |] eqn:E; try done.
  apply next_true in E as (H1 & H2 & H3). apply IH; lia || (rewrite H1; lia).
Qed.

Lemma seek_end_not_overread fuel it : seek_end fuel it <> UB OverRead.
Proof.
  revert it. induction fuel as [|fuel IH]; intros it; [done|]. cbn [seek_end].
  pose proof (plain_cur it) as [Hc _]. destruct (cur it) as [f|[]|]; try done.
  pose proof (plain_next it) as [Hn _].
  destruct (pb_field_iter_next it) as [[[] it']|[]|]; try done.
Qed.

Lemma count_required_plain it :
  count_required it <> UB OverRead /\ (placed it -> count_required it <> Timeout).
Proof.
  unfold count_required. pose proof (seek_end_not_overread (length (start it)) it) as Ho.
  split.
  - destruct (seek_end _ _) as [[[req ty] it']|[]|]; try done.
    pose proof (plain_cur it') as [Hc _]. by destruct (cur it') as [f|[]|].
  - intros [(Hl & _) Hp]. pose proof (seek_end_plain (length (start it)) it ltac:(lia) ltac:(lia)) as Ht.
    destruct (seek_end _ _) as [[[req ty] it']|[]|]; try done.
    pose proof (plain_cur it') as [_ Hc]. by destruct (cur it') as [f|[]|].
Qed.

(** ** Memory work and the stream *)
Lemma disc_in_mem T {A} (c : MM A) :
  mem_safe T c -> disc (A := A) (H := verdict_any) true T (in_mem c).
Proof.
  intros Hc. apply disc_pure; [done|]. intros s. specialize (Hc (dmem s)). unfold in_mem.
  by destruct (c (dmem s)) as [[a m]|[]|].
Qed.

Lemma disc_get_size T l : disc (A := Z) (H := verdict_any) true T (get_size l).
Proof. destruct l; [apply disc_on_mem|]. apply disc_pure; [done|]. by intros s. Qed.

Lemma disc_set_size T l v : disc true T (set_size l v).
Proof. destruct l; [apply disc_upd_mem|]. apply disc_pure; [done|]. by intros s. Qed.

Lemma disc_modify_mem T m : disc true T (modify (with_mem m)).
Proof. apply disc_pure; [done|]. by intros s. Qed.

Lemma disc_modify_local T n : disc true T (modify (with_local n)).
Proof. apply disc_pure; [done|]. by intros s. Qed.

#[export] Hint Resolve disc_get_size disc_set_size disc_modify_mem disc_modify_local : disc.
#[export] Hint Extern 2 (disc _ _ (in_mem _)) => apply disc_in_mem : disc.

(** ** Scalars *)
Section Scalars.
Context `{ReadCallback} `{Allocator} (T : Prop).

Lemma allocate_disc p ds n : disc true T (allocate_field p ds n).
Proof. unfold allocate_field. disc_auto. Qed.

Lemma store_checked_disc cast ds dest v : disc true T (store_checked cast ds dest v).
Proof. unfold store_checked, store_int. disc_auto. Qed.
#[local] Hint Resolve allocate_disc store_checked_disc : disc.

Lemma dec_bool_disc f dest : disc true T (pb_dec_bool f dest).
Proof. unfold pb_dec_bool. disc_auto. Qed.
Lemma dec_varint_disc f dest : disc true T (pb_dec_varint f dest).
Proof. unfold pb_dec_varint. disc_auto. Qed.
Lemma dec_uvarint_disc f dest : disc true T (pb_dec_uvarint f dest).
Proof. unfold pb_dec_uvarint. disc_auto. Qed.
Lemma dec_svarint_disc f dest : disc true T (pb_dec_svarint f dest).
Proof. unfold pb_dec_svarint. disc_auto. Qed.
Lemma dec_fixed32_disc f dest : disc true T (pb_dec_fixed32 f dest).
Proof. apply decode_fixed32_disc. Qed.
Lemma dec_fixed64_disc f dest : disc true T (pb_dec_fixed64 f dest).
Proof. apply decode_fixed64_disc. Qed.

(** The length-delimited scalars read a length first, which is not negative. *)
Lemma with_length_disc (k : Z -> DM bool) :
  (forall n, 0 <= n < 2 ^ 32 -> disc true T (k n)) ->
  disc true T (let? n := pb_decode_varint32 else false in k n).
Proof.
  intros Hk s Hs. eapply disc_at_bind; [by apply varint32_disc|].
  intros [n|] s1 Hn Hs1 _; [|by apply disc_ret]. cbn [andb good verdict_option].
  apply Hk; [|done]. exact (varint32_range T _ _ _ Hs Hn).
Qed.

Lemma dec_bytes_disc f dest : disc true T (pb_dec_bytes f dest).
Proof. apply with_length_disc. intros n Hn. disc_auto. Qed.
Lemma dec_fixed_length_disc f dest : disc true T (pb_dec_fixed_length_bytes f dest).
Proof.
  apply with_length_disc. intros n Hn. disc_step; [disc_auto|].
  destruct (Z.eqb_spec n 0); [disc_auto|]. destruct (Z.eqb_spec n (data_size f)); cbn [negb]; disc_auto.
Qed.
Lemma dec_string_disc f dest : disc true T (pb_dec_string f dest).
Proof.
  apply with_length_disc. intros n Hn. cbv zeta.
  assert (Hfill : forall dest, disc true T
    (do status <- pb_read_to dest n;
     run upd_mem (fun m => store_bytes m (dest + n) [0]); ret status)).
  { intros d. eapply disc_bind; [apply read_to_disc; lia|]. intros status.
    eapply disc_bind; [apply disc_upd_mem|]. intros []. apply disc_ret. cbn.
    by destruct status. }
  repeat first [apply Hfill | disc_step].
Qed.
End Scalars.

(** ** Progress

    A successful packable decoder, and a lawful callback, takes bytes off the
    stream. *)
Definition eats (c : DM bool) : Prop :=
  forall s s', istream_wf (istream s) -> c s = Ok (true, s') ->
    bytes_left (istream s') < bytes_left (istream s).

Section Eats.
Context `{ReadCallback}.

Lemma disc_left_le {A} `{Verdict A} T (c : DM A) s a s' :
  disc true T c -> istream_wf (istream s) -> c s = Ok (a, s') ->
  istream_wf (istream s') /\ bytes_left (istream s') <= bytes_left (istream s).
Proof. intros Hc Hs E. specialize (Hc s Hs). rewrite E in Hc. destruct Hc as (? & (? & _) & _). done. Qed.

(** The value decoder in front takes a byte. *)
Lemma eats_let {A} (c : DM (option A)) (k : A -> DM bool) :
  (forall s a s', istream_wf (istream s) -> c s = Ok (Some a, s') ->
     istream_wf (istream s') /\ bytes_left (istream s') < bytes_left (istream s)) ->
  (forall a, disc true True (k a)) ->
  eats (let? x := c else false in k x).
Proof.
  intros Hc Hk s s' Hs (o & s1 & E & E')%bind_inv. destruct o as [a|]; [|done].
  destruct (Hc s a s1 Hs E) as [Hs1 Hlt].
  pose proof (disc_left_le _ _ _ _ _ (Hk a) Hs1 E'). lia.
Qed.

Lemma varint32_eats s v s' :
  istream_wf (istream s) -> pb_decode_varint32 s = Ok (Some v, s') ->
  istream_wf (istream s') /\ bytes_left (istream s') < bytes_left (istream s).
Proof.
  intros Hs E. split; [by apply (disc_left_le True _ _ _ _ (varint32_disc True) Hs E)|].
  revert E. intros ([r eof] & s1 & E1 & E2)%bind_inv. injection E2 as -> ->. revert E1.
  intros (o & s2 & Hb & Hk)%bind_inv.
  pose proof (disc_left_le True _ _ _ _ (readbyte_disc True) Hs Hb) as [Hs2 _].
  destruct o as [b|]; [|done]. pose proof (proj2 (readbyte_disc_at True s Hs) _ _ Hb).
  destruct (Z.land b 128 =? 0); [injection Hk as _ _ <-; lia|].
  apply bind_inv in Hk as (n & s3 & [= <- <-] & (r & s4 & Hl & Hr)%bind_inv).
  injection Hr as -> _ <-.
  pose proof (varint32_loop_disc True (S (Z.to_nat (bytes_left (istream s2)))) (Z.land b 127) 7 s2
    Hs2 ltac:(destruct Hs2; lia)) as Hd.
  rewrite Hl in Hd. destruct Hd as (_ & [? _] & _). lia.
Qed.

Lemma varint_loop64_eats fuel result bitpos s v s' :
  istream_wf (istream s) -> 0 <= bitpos <= 63 -> 64 <= bitpos + 7 * Z.of_nat fuel ->
  varint_loop64 (S fuel) result bitpos s = Ok (Some v, s') ->
  bytes_left (istream s') < bytes_left (istream s).
Proof.
  intros Hs Hp Hf E. cbn [varint_loop64] in E. destruct (64 <=? bitpos); [done|].
  apply bind_inv in E as (o & s1 & Hb & Hk). destruct o as [b|]; [|done].
  pose proof (disc_left_le True _ _ _ _ (readbyte_disc True) Hs Hb) as [Hs1 _].
  pose proof (proj2 (readbyte_disc_at True s Hs) _ _ Hb). cbv zeta in Hk.
  destruct (negb _); [|injection Hk as _ <-; lia].
  rewrite (wrap_small 8) in Hk by lia.
  apply (disc_left_le True) in Hk as [_ ?]; [lia| |done]. apply varint_loop64_disc; lia.
Qed.

Lemma varint_eats s v s' :
  istream_wf (istream s) -> pb_decode_varint s = Ok (Some v, s') ->
  istream_wf (istream s') /\ bytes_left (istream s') < bytes_left (istream s).
Proof.
  intros Hs E. split; [by apply (disc_left_le True _ _ _ _ (varint_disc True) Hs E)|].
  eapply (varint_loop64_eats 10); [done| | |exact E]; lia.
Qed.

Lemma svarint_eats s v s' :
  istream_wf (istream s) -> pb_decode_svarint s = Ok (Some v, s') ->
  istream_wf (istream s') /\ bytes_left (istream s') < bytes_left (istream s).
Proof.
  intros Hs (o & s1 & E & E')%bind_inv. destruct o as [a|]; [|done].
  injection E' as _ <-. by eapply varint_eats.
Qed.

Lemma read_eats n s bs s' :
  0 < n -> istream_wf (istream s) -> pb_read false n s = Ok (Some bs, s') ->
  istream_wf (istream s') /\ bytes_left (istream s') < bytes_left (istream s).
Proof.
  intros Hn Hs E. pose proof (disc_left_le True _ _ _ _ (pb_read_disc True false n ltac:(lia)) Hs E) as [Hs' _].
  split; [done|]. unfold pb_read in E. destruct (Z.eqb_spec n 0); [lia|].
  rewrite (bind_Ok get _ s s s) in E by done. cbn [andb] in E.
  pose proof (proj2 (read_now_disc_at True false n s ltac:(lia) Hs) _ _ E). lia.
Qed.

Context `{Allocator}.

(** The decoders of the packable types. *)
Lemma packable_eats f dest d :
  PB_LTYPE (type f) <= PB_LTYPE_LAST_PACKABLE -> 0 <= PB_LTYPE (type f) ->
  [pb_dec_bool; pb_dec_varint; pb_dec_uvarint; pb_dec_svarint; pb_dec_fixed32; pb_dec_fixed64]
    !! Z.to_nat (PB_LTYPE (type f)) = Some d ->
  eats (d f dest).
Proof.
  unfold PB_LTYPE_LAST_PACKABLE. generalize (PB_LTYPE (type f)). intros lt H1 H2 Hd.
  assert (Hcases : lt = 0 \/ lt = 1 \/ lt = 2 \/ lt = 3 \/ lt = 4 \/ lt = 5) by lia.
  repeat (destruct Hcases as [->|Hcases]); try subst lt; cbn in Hd; injection Hd as <-.
  - apply eats_let; [exact varint32_eats|]. intros v. disc_auto.
  - apply eats_let; [exact varint_eats|]. intros v. apply store_checked_disc.
  - apply eats_let; [exact varint_eats|]. intros v. apply store_checked_disc.
  - apply eats_let; [exact svarint_eats|]. intros v. apply store_checked_disc.
  - apply eats_let; [intros; by eapply (read_eats 4)|]. intros v. disc_auto.
  - apply eats_let; [intros; by eapply (read_eats 8)|]. intros v. disc_auto.
Qed.
End Eats.

(** Raw values are bytes, at most [mx] of them. *)
Section Raw.
Context `{ReadCallback}.

Lemma pb_read_bytes n s bs s' :
  0 <= n -> istream_wf (istream s) -> pb_read false n s = Ok (Some bs, s') ->
  bytes bs /\ zlen bs = n.
Proof.
  intros Hn Hs. unfold pb_read. destruct (Z.eqb_spec n 0) as [->|]; [intros [= <- _]; split; [constructor|done]|].
  rewrite (bind_Ok get _ s s s) by done. cbn [andb]. unfold read_now.
  rewrite (bind_Ok _ _ s (bytes_left (istream s)) s) by done.
  destruct (_ <? n); [done|]. destruct s as [m [src bl e] l]. unfold bind, call_read, buf_read.
  cbn [istream source dmem]. destruct src as [rest|p].
  - destruct Hs as (_ & _ & Hb). cbn in Hb. destruct (Z.ltb_spec (zlen rest) n); [done|]. cbn.
    intros [= <- _]. split; [by apply Forall_take|]. unfold zlen in *. rewrite length_take. lia.
  - destruct (usr_read m p n) as [[[ok bs'] m'] p']. destruct ok; cbn.
    + destruct (Z.eqb_spec (zlen bs') n); cbn; [|done]. intros [= <- _].
      split; [|unfold zlen in *; by rewrite length_map].
      apply Forall_forall. intros b (x & -> & _)%list_elem_of_fmap. apply Z.mod_pos_bound. lia.
    + done.
Qed.

Lemma raw_varint_bytes fuel size mx s bs s' :
  istream_wf (istream s) -> 0 <= size <= mx -> raw_varint fuel size mx s = Ok (Some bs, s') ->
  bytes bs /\ zlen bs <= mx - size.
Proof.
  revert size s bs s'. induction fuel as [|fuel IH]; intros size s bs s' Hs Hz; [done|].
  cbn [raw_varint]. destruct (Z.ltb_spec mx (size + 1)); [done|].
  intros (o & s1 & E & Hk)%bind_inv. destruct o as [l|]; [|done].
  pose proof (pb_read_bytes 1 s l s1 ltac:(lia) Hs E) as [Hb Hl].
  pose proof (pb_read_one True s l s1 Hs E) as [Hs1 _].
  destruct l as [|b l]; [done|]. inversion Hb as [|?? Hb0 _]. subst.
  destruct (negb _).
  - apply bind_inv in Hk as (o & s2 & E2 & Hk). destruct o as [rest|]; [|done].
    injection Hk as <- _. destruct (IH (size + 1) s1 rest s2 Hs1 ltac:(lia) E2) as [Hr Hlr].
    split; [by constructor|]. rewrite zlen_cons. lia.
  - injection Hk as <- _. split; [by apply Forall_singleton|]. rewrite zlen_cons, zlen_nil. lia.
Qed.

Lemma raw_value_bytes wt mx s bs s' :
  istream_wf (istream s) -> 8 <= mx -> read_raw_value wt mx s = Ok (Some bs, s') ->
  bytes bs /\ zlen bs <= mx.
Proof.
  intros Hs Hm. unfold read_raw_value.
  destruct (wt =? PB_WT_VARINT).
  { intros E%raw_varint_bytes; [|done|lia]. by rewrite Z.sub_0_r in E. }
  destruct (wt =? PB_WT_64BIT); [intros [? ->]%pb_read_bytes; [done|lia|done]|].
  destruct (wt =? PB_WT_32BIT); [intros [? ->]%pb_read_bytes; [split; [done|lia]|lia|done]|].
  done.
Qed.
End Raw.

(** ** Fields and messages *)

(** What the decoder relies on from user callbacks: the reading discipline,
    and (unless [T]) that a successful [decode] callback has taken bytes or
    reached the end, since the decoder calls it again otherwise. *)
Class LawfulDecode `{DecodeCallbacks} (T : Prop) : Prop := {
  usr_decode_disc fn f arg : disc true T (usr_decode fn f arg);
  usr_decode_progress : T \/ forall fn f arg s s',
    istream_wf (istream s) -> usr_decode fn f arg s = Ok (true, s') ->
    bytes_left (istream s') < bytes_left (istream s) \/ bytes_left (istream s') = 0;
  usr_ext_disc fn e tg wt : disc true T (usr_ext_decode fn e tg wt)
}.

Lemma disc_sub_lift T {A B} `{Verdict B} e i0 sub (o : outcome A) (k : A -> DM B) :
  plain o -> (forall a, o = Ok a -> disc_sub T e i0 sub (k a)) ->
  disc_sub T e i0 sub (bind (lift o) k).
Proof.
  intros [H1 H2] Hk s Hp. unfold bind, lift. destruct o as [a|[]|]; try done. by apply Hk.
Qed.

Lemma disc_bind_plain T {A B} `{Verdict B} e (o : outcome A) (k : A -> DM B) :
  plain o -> (forall a, o = Ok a -> disc e T (k a)) -> disc e T (bind (lift o) k).
Proof. intros [H1 H2] Hk. by apply disc_bind_lift. Qed.

#[export] Instance verdict_packed : Verdict packed_end := fun r =>
  match r with PackedOk => true | _ => false end.

Section Messages.
Context `{Image} `{ReadCallback} `{Allocator} `{DecodeCallbacks} (T : Prop).
Context `{!LawfulDecode T} (Himg : T \/ image_ok).
Context (rec_decode_noinit : list pb_field_t -> Z -> DM bool).
Context (set_to_defaults release : list pb_field_t -> Z -> MM unit).
Context (release_single_field : pb_field_iter_t -> MM unit).
Context (n : nat).

(** The fuel [n] suffices for a message with these fields. *)
Definition deep (n : nat) (fields : list pb_field_t) : Prop :=
  T \/ (terminated fields (pred (length fields)) /\ depth_ok (pred n) fields = true).

Context (Hrec : forall fields dest, deep n fields -> disc true T (rec_decode_noinit fields dest)).
Context (Hdef : forall fields dest, T \/ depth_ok (pred n) fields = true ->
           mem_safe T (set_to_defaults fields dest)).
Context (Hrel : forall fields dest, T \/ depth_ok (pred n) fields = true ->
           mem_safe T (release fields dest)).
Context (Hsingle : forall it, shallow T n it -> mem_safe T (release_single_field it)).

(** A field whose submessage, if it has one, is covered by the fuel. *)
Definition covered (f : pb_field_t) : Prop := T \/ field_depth n f.

Lemma covered_sub f fields :
  covered f -> PB_LTYPE (type f) = PB_LTYPE_SUBMESSAGE ->
  deref_fields (ptr f) = Ok fields ->
  deep n fields /\ (T \/ depth_ok (pred n) fields = true).
Proof.
  unfold deref_fields. destruct (fields_at (ptr f)) as [fs|] eqn:E; [|done].
  intros Hc Hl [= <-]. destruct Hc as [HT|(_ & _ & Hd)]; [split; by left|].
  specialize (Hd Hl fs E). split; [|by right]. destruct Himg as [|Hi]; [by left|right].
  split; [|done]. by apply (Hi _ _ E).
Qed.

Lemma decode_message_disc fields dest :
  deep n fields -> T \/ depth_ok (pred n) fields = true ->
  disc true T (decode_message rec_decode_noinit set_to_defaults release fields dest).
Proof.
  intros Hd Hd'. eapply disc_bind; [by apply disc_in_mem, Hdef|intros []].
  eapply disc_bind; [by apply Hrec|]. intros status.
  eapply disc_bind; [destruct (negb status); [by apply disc_in_mem, Hrel|by apply disc_ret]|].
  intros []. apply disc_ret. cbn. by destruct status.
Qed.

Lemma submessage_disc f dest :
  covered f -> PB_LTYPE (type f) = PB_LTYPE_SUBMESSAGE ->
  disc true T (pb_dec_submessage rec_decode_noinit set_to_defaults release f dest).
Proof.
  intros Hc Hl. eapply disc_make; [|done]. intros i0 sub.
  destruct (ptr f =? NULL); [apply disc_sub_early, disc_ret_error|].
  apply disc_sub_lift; [apply plain_deref|]. intros fields Hf.
  destruct (covered_sub f fields Hc Hl Hf) as [Hd Hd'].
  eapply disc_sub_body.
  - destruct (_ =? PB_HTYPE_REPEATED); [by apply decode_message_disc|by apply Hrec].
  - intros status sub'. apply disc_close; [|by apply disc_ret]. apply disc_ret. by destruct status.
Qed.

Definition DECODERS := PB_DECODERS rec_decode_noinit set_to_defaults release.

(** What a field's entry of [PB_DECODERS] does. *)
Lemma call_disc f func dest :
  covered f ->
  decoder_for rec_decode_noinit set_to_defaults release (PB_LTYPE (type f)) = Ok func ->
  disc true T (call func f dest).
Proof.
  intros Hc Hf. unfold decoder_for in Hf.
  destruct (PB_DECODERS _ _ _ !! _) as [d|] eqn:Hd; [|done]. injection Hf as ->.
  assert (Hnn : 0 <= PB_LTYPE (type f)) by (apply Z.land_nonneg; right; done).
  pose proof (lookup_lt_Some _ _ _ Hd) as Hlt. cbn [length PB_DECODERS] in Hlt.
  pose proof (submessage_disc f dest Hc) as Hsub.
  set (lt := PB_LTYPE (type f)) in *. clearbody lt.
  assert (Hcases : lt = 0 \/ lt = 1 \/ lt = 2 \/ lt = 3 \/ lt = 4 \/ lt = 5 \/ lt = 6 \/
    lt = 7 \/ lt = 8 \/ lt = 9 \/ lt = 10) by lia.
  repeat (destruct Hcases as [->|Hcases]); try subst lt; cbn in Hd; injection Hd as <-; cbn [call].
  - apply dec_bool_disc.
  - apply dec_varint_disc.
  - apply dec_uvarint_disc.
  - apply dec_svarint_disc.
  - apply dec_fixed32_disc.
  - apply dec_fixed64_disc.
  - apply dec_bytes_disc.
  - apply dec_string_disc.
  - by apply Hsub.
  - by apply disc_fails.
  - apply dec_fixed_length_disc.
Qed.

Lemma call_eats f func dest :
  PB_LTYPE (type f) <= PB_LTYPE_LAST_PACKABLE ->
  decoder_for rec_decode_noinit set_to_defaults release (PB_LTYPE (type f)) = Ok func ->
  eats (call func f dest).
Proof.
  intros Hl Hf. assert (Hnn : 0 <= PB_LTYPE (type f)) by (apply Z.land_nonneg; right; done).
  pose proof (packable_eats f dest) as Hp. unfold decoder_for in Hf.
  revert Hf Hp. unfold PB_LTYPE_LAST_PACKABLE in *. generalize dependent (PB_LTYPE (type f)).
  intros lt Hl Hnn Hf Hp.
  assert (Hcases : lt = 0 \/ lt = 1 \/ lt = 2 \/ lt = 3 \/ lt = 4 \/ lt = 5) by lia.
  repeat (destruct Hcases as [->|Hcases]); try subst lt; cbn in Hf; injection Hf as <-;
    apply Hp; done.
Qed.

(** *** Arrays *)
Lemma packed_static_disc k func it f s :
  (forall dest, disc true T (call func f dest)) -> (T \/ forall dest, eats (call func f dest)) ->
  istream_wf (istream s) -> bytes_left (istream s) < Z.of_nat k ->
  disc_at true T (istream s) (packed_static k func it f s).
Proof.
  intros Hc He. revert s. induction k as [|k IH]; intros s Hs Hk; [destruct Hs; lia|].
  cbn [packed_static]. eapply disc_at_bind; [by apply disc_left|]. intros bl s1 [= <- <-] _ _.
  eapply disc_at_bind; [by apply disc_get_size|]. intros size s1 Hsz Hs1 Ha1.
  cbn [andb good verdict_any]. destruct (_ && _); [|by apply disc_ret].
  eapply disc_at_bind; [by apply Hc|]. intros [] s2 E Hs2 Ha2; [|by apply disc_ret].
  cbn [andb good verdict_bool]. eapply disc_at_bind; [by apply disc_get_size|].
  intros size' s3 E3 Hs3 Ha3. eapply disc_at_bind; [by apply disc_set_size|].
  intros [] s4 E4 Hs4 Ha4. cbn [andb good verdict_any].
  destruct He as [HT|He].
  - assert (Hd : forall k, disc true T (packed_static k func it f)).
    { clear - HT Hc. induction k as [|k IH]; [by intros s Hs|]. cbn [packed_static].
      eapply disc_bind; [apply disc_left|intros ?]. eapply disc_bind; [apply disc_get_size|intros ?].
      cbn [andb good verdict_any]. destruct (_ && _); [|by apply disc_ret].
      eapply disc_try; [apply Hc| |by apply disc_ret].
      eapply disc_bind; [apply disc_get_size|intros ?]. eapply disc_bind; [apply disc_set_size|intros ?].
      apply IH. }
    by apply Hd.
  - apply IH; [done|]. pose proof (He _ _ _ Hs1 E).
    destruct Ha1 as (? & _), Ha3 as (? & _), Ha4 as (? & _). lia.
Qed.

#[local] Hint Resolve allocate_disc : disc.

Lemma initialize_disc pItem f :
  covered f -> disc true T (initialize_pointer_field set_to_defaults pItem f).
Proof.
  intros Hc. unfold initialize_pointer_field. cbv zeta. destruct (_ || _); [apply disc_upd_mem|].
  destruct (Z.eqb_spec (PB_LTYPE (type f)) PB_LTYPE_SUBMESSAGE) as [Hl|]; [|by apply disc_ret].
  eapply disc_bind; [apply disc_upd_mem|intros ?].
  apply disc_bind_plain; [apply plain_deref|]. intros fields Hf.
  apply disc_in_mem, Hdef. by apply (covered_sub f fields Hc Hl Hf).
Qed.

Lemma grow_disc it f size al : disc (A := bool * Z) true T (grow it f size al).
Proof.
  unfold grow. destruct (al <? size + 1); [|by apply disc_ret].
  eapply disc_bind; [apply disc_left|intros bl]. destruct (data_size f =? 0); [by apply disc_fails|].
  cbv zeta. eapply disc_bind; [apply allocate_disc|]. intros ok. apply disc_ret. done.
Qed.

Lemma packed_pointer_disc k func it f al s :
  (forall dest, disc true T (call func f dest)) -> (T \/ forall dest, eats (call func f dest)) ->
  covered f -> istream_wf (istream s) -> bytes_left (istream s) < Z.of_nat k ->
  disc_at true T (istream s) (packed_pointer set_to_defaults k func it f al s).
Proof.
  intros Hc He Hcov. revert al s. induction k as [|k IH]; intros al s Hs Hk; [destruct Hs; lia|].
  cbn [packed_pointer]. eapply disc_at_bind; [by apply disc_left|]. intros bl s1 [= <- <-] _ _.
  destruct (bytes_left (istream s) =? 0); [by apply disc_ret|].
  eapply disc_at_bind; [by apply disc_get_size|]. intros size s1 Hsz Hs1 Ha1.
  cbn [andb good verdict_any]. destruct (size =? PB_SIZE_MAX); [by apply disc_ret|].
  eapply disc_at_bind; [by apply grow_disc|]. intros [ok al'] s2 Hg Hs2 Ha2.
  cbn [andb good verdict_pair fst]. destruct ok; cbn [negb]; [|by apply disc_ret].
  eapply disc_at_bind; [by apply disc_get_size|]. intros size2 s3 E3 Hs3 Ha3.
  eapply disc_at_bind; [by apply disc_on_mem|]. intros base s4 E4 Hs4 Ha4. cbv zeta.
  eapply disc_at_bind; [by apply initialize_disc|]. intros [] s5 E5 Hs5 Ha5.
  eapply disc_at_bind; [by apply Hc|]. intros [] s6 E6 Hs6 Ha6; cbn [negb]; [|by apply disc_ret].
  eapply disc_at_bind; [by apply disc_get_size|]. intros size7 s7 E7 Hs7 Ha7.
  eapply disc_at_bind; [by apply disc_set_size|]. intros [] s8 E8 Hs8 Ha8.
  cbn [andb good verdict_any verdict_bool].
  destruct He as [HT|He].
  - assert (Hd : forall k al, disc true T (packed_pointer set_to_defaults k func it f al)).
    { clear - HT Hc Hcov Hdef Himg. induction k as [|k IH]; intros al; [by intros s Hs|].
      cbn [packed_pointer].
      eapply disc_bind; [apply disc_left|intros ?]. destruct (_ =? 0); [by apply disc_ret|].
      eapply disc_bind; [apply disc_get_size|intros ?].
      cbn [andb good verdict_any]. destruct (_ =? PB_SIZE_MAX); [by apply disc_ret|].
      eapply disc_bind; [apply grow_disc|intros [[] al']]; cbn [negb andb good verdict_pair fst];
        [|by apply disc_ret].
      eapply disc_bind; [apply disc_get_size|intros ?]. eapply disc_bind; [apply disc_on_mem|intros ?].
      cbv zeta. eapply disc_bind; [by apply initialize_disc|intros ?].
      eapply disc_bind; [apply Hc|intros []]; cbn [negb]; [|by apply disc_ret].
      eapply disc_bind; [apply disc_get_size|intros ?]. eapply disc_bind; [apply disc_set_size|intros ?].
      apply IH. }
    by apply Hd.
  - apply IH; [done|]. pose proof (He _ _ _ Hs5 E6).
    destruct Ha1 as (? & _), Ha2 as (? & _), Ha3 as (? & _), Ha4 as (? & _), Ha5 as (? & _),
      Ha7 as (? & _), Ha8 as (? & _). lia.
Qed.

(** [it] may be used: its field is covered. *)
Definition usable (it : pb_field_iter_t) : Prop := forall f, cur it = Ok f -> covered f.

Definition decoder_of (f : pb_field_t) : outcome (option decoder) :=
  decoder_for rec_decode_noinit set_to_defaults release (PB_LTYPE (type f)).

Lemma plain_decoder_for lt : plain (decoder_for rec_decode_noinit set_to_defaults release lt).
Proof. unfold decoder_for. by destruct (_ !! _). Qed.

Lemma packable lt wt : is_packed wt lt = true -> lt <= PB_LTYPE_LAST_PACKABLE.
Proof. unfold is_packed. rewrite andb_true_iff. lia. Qed.

Lemma static_disc wt it :
  usable it ->
  disc true T (decode_static_field rec_decode_noinit set_to_defaults release wt it).
Proof.
  intros Hu. unfold decode_static_field. apply disc_bind_plain; [apply plain_cur|].
  intros f Hf. specialize (Hu f Hf). cbv zeta.
  apply disc_bind_plain; [apply plain_decoder_for|]. intros func Hfunc.
  pose proof (fun dest => call_disc f func dest Hu Hfunc) as Hcall.
  destruct (_ =? PB_HTYPE_REQUIRED); [apply Hcall|].
  destruct (_ =? PB_HTYPE_OPTIONAL).
  { eapply disc_bind; [|intros ?; apply Hcall].
    destruct (size_is_data it); [by apply disc_ret|].
    destruct (pSize it); [apply disc_upd_mem|by apply disc_fails]. }
  destruct (_ =? PB_HTYPE_REPEATED).
  { destruct (is_packed wt _) eqn:Hp.
    - eapply disc_make; [|done]. intros i0 sub. eapply disc_sub_body_at.
      + intros s <- Hs. apply packed_static_disc; [done| |done|destruct Hs; lia].
        right. intros dest. apply call_eats; [by eapply packable|done].
      + intros status sub'. destruct (negb _); [apply disc_sub_early, disc_ret_error|].
        apply disc_close; [|by apply disc_ret]. apply disc_ret. by destruct status.
    - eapply disc_bind; [apply disc_get_size|intros size]. cbv zeta.
      eapply disc_bind; [apply disc_set_size|intros ?].
      destruct (_ <=? size); [apply disc_ret_error|apply Hcall]. }
  destruct (_ =? PB_HTYPE_ONEOF); [|apply disc_ret_error].
  eapply disc_bind; [apply disc_get_size|intros which].
  eapply disc_bind; [|intros ?; eapply disc_bind; [apply disc_set_size|intros ?; apply Hcall]].
  destruct (Z.eqb_spec (PB_LTYPE (type f)) PB_LTYPE_SUBMESSAGE) as [Hl|];
    cbn [andb]; [|by apply disc_ret].
  destruct (negb _); [|by apply disc_ret].
  eapply disc_bind; [apply disc_upd_mem|intros ?].
  apply disc_bind_plain; [apply plain_deref|]. intros fields Hfs.
  apply disc_in_mem, Hdef. by apply (covered_sub f fields Hu Hl Hfs).
Qed.

Lemma shallow_usable it : usable it -> shallow T n it.
Proof. done. Qed.

Lemma pointer_disc wt it :
  usable it ->
  disc true T (decode_pointer_field rec_decode_noinit set_to_defaults release
                 release_single_field wt it).
Proof.
  intros Hu. unfold decode_pointer_field. apply disc_bind_plain; [apply plain_cur|].
  intros f Hf. pose proof (Hu f Hf) as Hcov. cbv zeta.
  apply disc_bind_plain; [apply plain_decoder_for|]. intros func Hfunc.
  pose proof (fun dest => call_disc f func dest Hcov Hfunc) as Hcall.
  destruct (_ =? PB_HTYPE_REPEATED).
  - destruct (is_packed wt _) eqn:Hp.
    + eapply disc_bind; [apply disc_get_size|intros al].
      eapply disc_make; [|done]. intros i0 sub. eapply disc_sub_body_at.
      * intros s <- Hs. apply packed_pointer_disc; [done| |done|done|destruct Hs; lia].
        right. intros dest. apply call_eats; [by eapply packable|done].
      * intros r sub'.
        assert (Hend : forall i0 sub', disc_sub T (true && good r) i0 sub'
          (try pb_close_string_substream sub';
           ret (match r with PackedOk => true | _ => false end))).
        { intros. apply disc_close; [|by apply disc_ret]. apply disc_ret.
          by destruct r. }
        intros s Hpend. destruct r; [by apply Hend..|].
        specialize (Hend i0 sub'). destruct s as [m [src bl er] l].
        apply (Hend (mk_dstate m (mk_istream src bl (Some "too many array entries"%string)) l)).
        exact Hpend.
    + eapply disc_bind; [apply disc_get_size|intros size]. cbn [andb good verdict_any].
      destruct (_ =? PB_SIZE_MAX); [apply disc_ret_error|].
      eapply disc_try; [apply allocate_disc| |by apply disc_ret].
      eapply disc_bind; [apply disc_on_mem|intros base]. eapply disc_bind; [apply disc_get_size|intros ?].
      cbv zeta. eapply disc_bind; [apply disc_set_size|intros ?].
      eapply disc_bind; [by apply initialize_disc|intros ?]. apply Hcall.
  - eapply disc_bind; [|intros ?].
    { destruct (_ =? PB_LTYPE_SUBMESSAGE); [|by apply disc_ret].
      eapply disc_bind; [apply disc_on_mem|intros p]. cbn [andb good verdict_any].
      destruct (negb _); [by apply disc_in_mem, Hsingle|by apply disc_ret]. }
    eapply disc_bind; [|intros ?].
    { destruct (_ =? PB_HTYPE_ONEOF); [apply disc_set_size|by apply disc_ret]. }
    destruct (_ || _); [apply Hcall|].
    eapply disc_try; [apply allocate_disc| |by apply disc_ret].
    eapply disc_bind; [apply disc_on_mem|intros p].
    eapply disc_bind; [by apply initialize_disc|intros ?].
    eapply disc_bind; [apply disc_on_mem|intros p']. apply Hcall.
Qed.

(** *** Callback fields *)
Lemma callback_loop_any k p f : T -> disc true T (callback_loop k p f).
Proof.
  intros HT. induction k as [|k IH]; [by intros s Hs|]. cbn [callback_loop].
  eapply disc_bind; [apply disc_on_mem|intros fn].
  eapply disc_try; [apply usr_decode_disc| |by apply disc_ret].
  eapply disc_bind; [apply disc_left|intros bl]. destruct (negb _); [apply IH|by apply disc_ret].
Qed.

Lemma callback_loop_disc k p f s :
  istream_wf (istream s) -> bytes_left (istream s) < Z.of_nat k ->
  disc_at true T (istream s) (callback_loop k p f s).
Proof.
  destruct (usr_decode_progress (T := T)) as [HT|Hprog]; [by intros; apply callback_loop_any|].
  revert s. induction k as [|k IH]; intros s Hs Hk; [destruct Hs; lia|]. cbn [callback_loop].
  eapply disc_at_bind; [by apply disc_on_mem|]. intros fn s1 E1 Hs1 Ha1.
  eapply disc_at_bind; [by apply usr_decode_disc|]. intros [] s2 E2 Hs2 Ha2; [|by apply disc_ret].
  eapply disc_at_bind; [by apply disc_left|]. intros bl s3 [= <- <-] _ _.
  cbn [andb good verdict_any verdict_bool].
  destruct (Z.eqb_spec (bytes_left (istream s2)) 0); cbn [negb]; [by apply disc_ret|].
  apply IH; [done|]. destruct (Hprog _ _ _ _ _ Hs1 E2); [|lia]. destruct Ha1 as (? & _). lia.
Qed.

Lemma callback_disc wt it : disc true T (decode_callback_field wt it).
Proof.
  unfold decode_callback_field. apply disc_bind_plain; [apply plain_cur|]. intros f _. cbv zeta.
  eapply disc_bind; [destruct (_ =? NULL); [by apply disc_ret|apply disc_on_mem]|intros fn].
  cbn [andb good verdict_any]. destruct (fn =? NULL); [apply skip_field_disc|].
  destruct (wt =? PB_WT_STRING).
  - eapply disc_make; [|done]. intros i0 sub. eapply disc_sub_body_at.
    + intros s <- Hs. apply callback_loop_disc; [done|]. destruct Hs. lia.
    + intros [] sub'; cbn [negb]; [|apply disc_sub_early, disc_ret_error].
      apply disc_close; by apply disc_ret.
  - intros s Hs. eapply disc_at_bind; [by apply read_raw_value_disc|].
    intros [buffer|] s1 E Hs1 _; [|by apply disc_ret]. cbn [andb good verdict_option].
    apply raw_value_bytes in E as [Hb Hl]; [|done|lia].
    assert (Hd : disc true T
      (do fn <- on_mem (fun m => load_ptr m (pData it + offsetof_funcs));
       do (ok, _) <- on_stream (pb_istream_from_buffer buffer (zlen buffer))
         (usr_decode fn f (pData it + offsetof_arg)); ret ok)); [|by apply Hd].
    eapply disc_bind; [apply disc_on_mem|intros fn'].
    eapply disc_bind.
    + apply disc_other_stream; [|apply usr_decode_disc].
      pose proof (zlen_nonneg buffer). split; cbn; [lia|]. split; [lia|done].
    + intros [ok i]. apply disc_ret. by destruct ok.
Qed.

(** *** One field *)

(** The iterator stands in the array of a message the fuel covers. *)
Definition sound (it : pb_field_iter_t) : Prop :=
  T \/ (placed it /\ depth_ok n (start it) = true).

Lemma sound_usable it : sound it -> usable it.
Proof.
  intros [HT|[_ Hd]] f Hf; [by left|right]. unfold cur in Hf.
  destruct (start it !! pos it) as [g|] eqn:E; [|done]. injection Hf as <-.
  by eapply depth_ok_field.
Qed.

(** [it'] is in the same array. *)
Definition moved (it it' : pb_field_iter_t) : Prop :=
  sound it' /\ (T \/ start it' = start it).

Lemma moved_refl it : sound it -> moved it it.
Proof. split; [done|by right]. Qed.

Lemma moved_trans it1 it2 it3 : moved it1 it2 -> moved it2 it3 -> moved it1 it3.
Proof.
  intros [_ Ha] [Hb Hc]. split; [done|]. destruct Ha as [|Ha]; [by left|].
  destruct Hc as [|Hc]; [by left|]. right. congruence.
Qed.

Lemma search_sound p it :
  sound it ->
  let o := iter_search p (pos it) (length (start it)) it in
  o <> UB OverRead /\ (o = Timeout -> T) /\ forall b it', o = Ok (b, it') -> moved it it'.
Proof.
  intros Hs. cbv zeta. split; [apply search_not_overread|].
  destruct Hs as [HT|[Hp Hd]]; [split; [done|]; intros ???; split; by left|].
  destruct (search_placed p it Hp) as (b & it1 & E & Hp1 & Hst). rewrite E.
  split; [done|]. intros ?? [= <- <-]. split; [right|by right]. by rewrite Hst.
Qed.

Lemma union_disc it :
  sound it ->
  disc (A := option pb_field_iter_t) true T (pb_release_union_field release_single_field it).
Proof.
  intros Hs. unfold pb_release_union_field. apply disc_bind_plain; [apply plain_cur|].
  intros f _. eapply disc_bind; [apply disc_get_size|intros old]. cbv zeta.
  cbn [andb good verdict_any].
  destruct (old =? 0); [by apply disc_ret|]. destruct (_ =? tag f); [by apply disc_ret|].
  destruct (search_sound (has_tag old) it Hs) as (Ho & Ht & Hmv).
  apply disc_bind_lift; [done|done|]. intros [[] it1] E1; cbn [negb]; [|apply disc_no_value].
  destruct (Hmv _ _ E1) as [Hs1 _].
  eapply disc_bind; [apply disc_in_mem, Hsingle, shallow_usable; by apply sound_usable|intros ?].
  destruct (search_sound (has_tag (tag f)) it1 Hs1) as (Ho' & Ht' & _).
  apply disc_bind_lift; [done|done|]. intros [[] it2] E2; cbn [negb]; [|apply disc_no_value].
  apply disc_bind_plain; [apply plain_cur|]. intros g _.
  eapply disc_bind; [|intros ?; by apply disc_ret].
  destruct (_ =? PB_ATYPE_POINTER); [apply disc_upd_mem|by apply disc_ret].
Qed.

Lemma union_moved it s it' s' :
  sound it -> pb_release_union_field release_single_field it s = Ok (Some it', s') ->
  moved it it'.
Proof.
  intros Hs (f & s1 & _ & Hk)%bind_inv. apply bind_inv in Hk as (old & s2 & _ & Hk).
  cbv zeta in Hk.
  destruct (old =? 0); [injection Hk as <- _; by apply moved_refl|].
  destruct (_ =? tag f); [injection Hk as <- _; by apply moved_refl|].
  apply bind_inv in Hk as ([b it1] & s3 & E1 & Hk).
  destruct (search_sound (has_tag old) it Hs) as (_ & _ & Hmv).
  unfold lift in E1. unfold pb_field_iter_find in E1.
  destruct (iter_search (has_tag old) (pos it) _ it) as [r| |]; try done. injection E1 as -> <-.
  specialize (Hmv _ _ eq_refl). destruct b; [|done]. cbn [negb] in Hk.
  apply bind_inv in Hk as (u & s4 & _ & Hk). apply bind_inv in Hk as ([b it2] & s5 & E2 & Hk).
  destruct (search_sound (has_tag (tag f)) it1 (proj1 Hmv)) as (_ & _ & Hmv').
  unfold lift, pb_field_iter_find in E2.
  destruct (iter_search (has_tag (tag f)) (pos it1) _ it1) as [r| |]; try done.
  injection E2 as -> <-. specialize (Hmv' _ _ eq_refl). destruct b; [|done]. cbn [negb] in Hk.
  apply bind_inv in Hk as (g & s6 & _ & Hk). apply bind_inv in Hk as (v & s7 & _ & Hk).
  injection Hk as <- _. by eapply moved_trans.
Qed.

Definition decode_field_ := decode_field rec_decode_noinit set_to_defaults release
                              release_single_field.

Lemma decode_field_disc wt it :
  sound it -> disc (A := option pb_field_iter_t) true T (decode_field_ wt it).
Proof.
  intros Hs. unfold decode_field_, decode_field. apply disc_bind_plain; [apply plain_cur|].
  intros f0 _ s Hwf.
  assert (Hfirst : disc (A := option pb_field_iter_t) true T
    (if PB_HTYPE (type f0) =? PB_HTYPE_ONEOF
     then pb_release_union_field release_single_field it else ret (Some it))).
  { destruct (_ =? PB_HTYPE_ONEOF); [by apply union_disc|by apply disc_ret]. }
  eapply disc_at_bind; [by apply Hfirst|]. intros [it1|] s1 E Hs1 _; [|by apply disc_ret].
  assert (Hm : moved it it1).
  { destruct (_ =? PB_HTYPE_ONEOF); [by eapply union_moved|]. injection E as <- _. by apply moved_refl. }
  destruct Hm as [Hsd _]. pose proof (sound_usable _ Hsd) as Hu. cbn [andb good verdict_option].
  match goal with |- disc_at _ _ _ (?c s1) => assert (Hd : disc true T c); [|by apply Hd] end.
  apply disc_bind_plain; [apply plain_cur|]. intros f _. cbv zeta.
  eapply disc_bind.
  - destruct (_ =? PB_ATYPE_STATIC); [by apply static_disc|].
    destruct (_ =? PB_ATYPE_POINTER); [by apply pointer_disc|].
    destruct (_ =? PB_ATYPE_CALLBACK); [apply callback_disc|apply disc_ret_error].
  - intros ok. apply disc_ret. by destruct ok.
Qed.

Lemma decode_field_moved wt it s it' s' :
  sound it -> decode_field_ wt it s = Ok (Some it', s') -> moved it it'.
Proof.
  intros Hs (f0 & s1 & _ & Hk)%bind_inv. apply bind_inv in Hk as (o & s2 & E & Hk).
  destruct o as [it1|]; [|done].
  assert (Hm : moved it it1).
  { destruct (_ =? PB_HTYPE_ONEOF); [by eapply union_moved|]. injection E as <- _. by apply moved_refl. }
  apply bind_inv in Hk as (f & s3 & _ & Hk). cbv zeta in Hk.
  apply bind_inv in Hk as (ok & s4 & _ & Hk). destruct ok; [|done]. by injection Hk as <- _.
Qed.

(** *** Extensions: reached only with [T] *)
Lemma default_extension_disc e tg wt :
  T -> disc true T
    (default_extension_decoder rec_decode_noinit set_to_defaults release release_single_field
       e tg wt).
Proof.
  intros HT. unfold default_extension_decoder. eapply disc_bind; [by apply disc_get|intros s].
  apply disc_bind_plain; [apply plain_ext_type|intros t _].
  apply disc_bind_plain; [apply plain_deref|intros fields _].
  apply disc_bind_plain; [apply plain_or_ub|intros f _].
  destruct (negb _); [by apply disc_ret|].
  eapply disc_bind; [by apply disc_in_mem, ms_iter_from_extension|intros it].
  eapply disc_bind; [apply disc_upd_mem|intros ?].
  eapply disc_let; [apply decode_field_disc; by left|intros ?; by apply disc_ret|done].
Qed.

Lemma extension_loop_disc k p e tg wt :
  T -> disc true T
    (extension_loop rec_decode_noinit set_to_defaults release release_single_field k p e tg wt).
Proof.
  intros HT. revert e. induction k as [|k IH]; intros e; [by intros s Hs|]. cbn [extension_loop].
  eapply disc_bind; [apply disc_left|intros bl]. cbn [andb good verdict_any].
  destruct (_ || _); [by apply disc_ret|]. eapply disc_bind; [by apply disc_get|intros s].
  apply disc_bind_plain; [apply plain_ext_type|intros t _].
  eapply disc_try; [|eapply disc_bind; [apply disc_on_mem|intros next; apply IH]|by apply disc_ret].
  destruct (negb _); [apply usr_ext_disc|by apply default_extension_disc].
Qed.

Context (fuel : nat).

Definition unknown_field_ := unknown_field rec_decode_noinit set_to_defaults release
                               release_single_field fuel.

Lemma find_extension_none it it' :
  sound it -> find_extension_field it = Ok (true, it') -> T.
Proof.
  intros Hs E. destruct (search_sound is_extension it Hs) as (_ & _ & Hmv).
  destruct (Hmv _ _ E) as [Hs' _].
  apply search_found in E as (f & Hf & He). unfold is_extension in He.
  destruct (sound_usable it' Hs' f Hf) as [|(_ & Hn & _)]; [done|]. lia.
Qed.

Lemma unknown_disc t it ext_start :
  sound it -> tag_tag t < 2 ^ 29 ->
  disc (A := option (pb_field_iter_t * Z * bool)) true T (unknown_field_ t it ext_start).
Proof.
  intros Hs Ht. unfold unknown_field_, unknown_field.
  destruct (ext_start <=? tag_tag t); [|by apply disc_ret].
  destruct (search_sound is_extension it Hs) as (Ho & Hto & Hmv).
  apply disc_bind_lift; [done|done|]. intros [found it'] E.
  apply disc_bind_plain; [apply plain_cur|intros g Hg].
  destruct found.
  - pose proof (find_extension_none _ _ Hs E) as HT.
    destruct (tag g <=? tag_tag t); [|by apply disc_ret].
    eapply disc_bind; [apply disc_left|intros p].
    eapply disc_bind.
    { unfold decode_extension. eapply disc_bind; [apply disc_on_mem|intros e].
      eapply disc_bind; [apply disc_left|intros p']. by apply extension_loop_disc. }
    intros []; cbn [negb]; [|by apply disc_ret].
    eapply disc_bind; [apply disc_left|intros bl]. by apply disc_ret.
  - change (wrap 32 (-1)) with (2 ^ 32 - 1).
    destruct (Z.leb_spec (2 ^ 32 - 1) (tag_tag t)); [lia|by apply disc_ret].
Qed.

Lemma unknown_moved t it ext_start s it' x h s' :
  sound it -> unknown_field_ t it ext_start s = Ok (Some (it', x, h), s') -> moved it it'.
Proof.
  intros Hs. unfold unknown_field_, unknown_field.
  destruct (ext_start <=? tag_tag t); [|intros [= <- _ _ _]; by apply moved_refl].
  destruct (search_sound is_extension it Hs) as (_ & _ & Hmv).
  intros ([found it1] & s1 & E & Hk)%bind_inv. unfold lift, find_extension_field in E.
  destruct (iter_search is_extension _ _ it) as [r| |]; try done. injection E as -> <-.
  specialize (Hmv _ _ eq_refl). apply bind_inv in Hk as (g & s2 & _ & Hk).
  cbv zeta in Hk. destruct (_ <=? tag_tag t); [|by injection Hk as <- _ _ _].
  apply bind_inv in Hk as (p & s3 & _ & Hk). apply bind_inv in Hk as (ok & s4 & _ & Hk).
  destruct ok; [|done]. apply bind_inv in Hk as (bl & s5 & _ & Hk). by injection Hk as <- _ _ _.
Qed.

(** *** The main loop *)
Lemma fixed_count_disc fields ff : disc true T (fixed_count_done fields ff).
Proof.
  destruct ff as [i|]; [|by apply disc_ret]. cbn [fixed_count_done].
  apply disc_bind_plain; [apply plain_or_ub|intros f _].
  eapply disc_bind; [by apply disc_get|intros s]. cbn [andb good verdict_any].
  destruct (negb _); [apply disc_ret_error|by apply disc_ret].
Qed.

Definition known_field_ := known_field rec_decode_noinit set_to_defaults release
                             release_single_field.

Definition redirect (it : pb_field_iter_t) : pb_field_iter_t :=
  mk_iter (start it) (pos it) (required_field_index it) (dest_struct it) (pData it) Local.

Lemma sound_redirect it : sound it -> sound (redirect it).
Proof. intros [|[Hp Hd]]; [by left|right]. by split; [apply (placed_same it)|]. Qed.

Lemma known_disc fields t it l :
  sound it -> disc (A := option loop_state) true T (known_field_ fields t it l).
Proof.
  intros Hs. unfold known_field_, known_field. apply disc_bind_plain; [apply plain_cur|].
  intros f _. cbv zeta. eapply disc_bind.
  { destruct (_ && negb (bool_decide _)); [|by apply disc_ret].
    eapply disc_try; [apply fixed_count_disc| |by apply disc_ret].
    eapply disc_bind; [apply disc_modify_local|intros ?]. by apply disc_ret. }
  intros []; cbn [negb]; [|by apply disc_ret].
  eapply disc_let; [|intros it'; by apply disc_ret|done].
  apply decode_field_disc. destruct (_ && _); [by apply sound_redirect|done].
Qed.

Lemma known_sound fields t it l s l' s' :
  sound it -> known_field_ fields t it l s = Ok (Some l', s') -> sound (l_iter l').
Proof.
  intros Hs (f & s1 & _ & Hk)%bind_inv. cbv zeta in Hk.
  apply bind_inv in Hk as (ok & s2 & _ & Hk). destruct ok; [|done]. cbn [negb] in Hk.
  apply bind_inv in Hk as (o & s3 & E & Hk). destruct o as [it'|]; [|done].
  injection Hk as <- _. cbn [l_iter]. apply decode_field_moved in E; [by apply E|].
  destruct (_ && _); [by apply sound_redirect|done].
Qed.

Definition decode_one_ := decode_one rec_decode_noinit set_to_defaults release
                            release_single_field fuel.

Lemma decode_one_disc fields t l :
  sound (l_iter l) -> tag_tag t < 2 ^ 29 ->
  disc (A := option loop_state) true T (decode_one_ fields t l).
Proof.
  intros Hs Ht. unfold decode_one_, decode_one.
  destruct (search_sound (has_tag (tag_tag t)) (l_iter l) Hs) as (Ho & Hto & Hmv).
  apply disc_bind_lift; [done|done|]. intros [found it] E.
  destruct (Hmv _ _ E) as [Hs' _]. destruct found; [by apply known_disc|].
  eapply disc_let; [by apply unknown_disc|intros [[it' x] h]|done].
  destruct h; [by apply disc_ret|]. eapply disc_bind; [apply skip_field_disc|].
  intros ok. apply disc_ret. by destruct ok.
Qed.

Lemma decode_one_sound fields t l s l' s' :
  sound (l_iter l) -> decode_one_ fields t l s = Ok (Some l', s') -> sound (l_iter l').
Proof.
  intros Hs. unfold decode_one_, decode_one.
  destruct (search_sound (has_tag (tag_tag t)) (l_iter l) Hs) as (_ & _ & Hmv).
  intros ([found it] & s1 & E & Hk)%bind_inv. unfold lift, pb_field_iter_find in E.
  destruct (iter_search _ _ _ (l_iter l)) as [r| |]; try done. injection E as -> <-.
  destruct (Hmv _ _ eq_refl) as [Hs' _].
  destruct found; [by eapply known_sound|].
  apply bind_inv in Hk as (o & s2 & E2 & Hk). destruct o as [[[it' x] h]|]; [|done].
  apply unknown_moved in E2 as [Hs2 _]; [|done].
  destruct h; [by injection Hk as <- _|].
  apply bind_inv in Hk as (ok & s3 & _ & Hk). destruct ok; [|done]. by injection Hk as <- _.
Qed.

Lemma decode_tag_range s t s' :
  istream_wf (istream s) -> pb_decode_tag s = Ok (t, s') -> tag_tag t < 2 ^ 29.
Proof.
  intros Hs ([r eof] & s1 & E & Hk)%bind_inv. destruct r as [v|]; [|by injection Hk as <- _].
  assert (Hv : pb_decode_varint32 s = Ok (Some v, s1)).
  { unfold pb_decode_varint32. by rewrite (bind_Ok _ _ _ _ _ E). }
  apply (varint32_range True) in Hv; [|done].
  destruct (v =? 0); injection Hk as <- _; cbn [tag_tag]; [lia|].
  rewrite shiftr_div by lia. apply Z.div_lt_upper_bound; lia.
Qed.

Definition noinit_loop_ := noinit_loop rec_decode_noinit set_to_defaults release
                             release_single_field fuel.

Lemma noinit_loop_disc k fields l s :
  sound (l_iter l) -> istream_wf (istream s) -> bytes_left (istream s) < Z.of_nat k ->
  disc_at (A := option loop_state) true T (istream s) (noinit_loop_ k fields l s).
Proof.
  revert l s. induction k as [|k IH]; intros l s Hl Hs Hk; [destruct Hs; lia|].
  unfold noinit_loop_. cbn [noinit_loop].
  eapply disc_at_bind; [by apply disc_left|]. intros bl s1 [= <- <-] _ _.
  destruct (bytes_left (istream s) =? 0); [by apply disc_ret|].
  eapply disc_at_bind; [by apply decode_tag_disc|]. intros t s1 Et Hs1 Ha1.
  unfold good, verdict_tag. destruct (tag_ok t) eqn:Hok.
  - cbn [orb]. rewrite andb_true_r. pose proof (decode_tag_range _ _ _ Hs Et) as Hr.
    pose proof (decode_tag_progress True _ _ _ Hs Et Hok).
    eapply disc_at_bind; [by apply decode_one_disc|]. intros [l'|] s2 E Hs2 Ha2; [|by apply disc_ret].
    cbn [andb good verdict_option]. apply IH; [by eapply decode_one_sound|done|].
    destruct Ha2 as (? & _). lia.
  - cbn [orb]. destruct (tag_eof t); [by apply disc_ret|by apply disc_ret].
Qed.

Lemma noinit_loop_sound k fields l s l' s' :
  sound (l_iter l) -> noinit_loop_ k fields l s = Ok (Some l', s') -> sound (l_iter l').
Proof.
  revert l s. induction k as [|k IH]; intros l s Hl; [done|]. unfold noinit_loop_.
  cbn [noinit_loop]. intros (bl & s1 & _ & Hk)%bind_inv.
  destruct (bl =? 0); [by injection Hk as <- _|].
  apply bind_inv in Hk as (t & s2 & _ & Hk). destruct (tag_ok t).
  - apply bind_inv in Hk as (o & s3 & E & Hk). destruct o as [l1|]; [|done].
    eapply IH; [|exact Hk]. by eapply decode_one_sound.
  - destruct (tag_eof t); [by injection Hk as <- _|done].
Qed.

Lemma check_required_disc l : sound (l_iter l) -> disc true T (check_required l).
Proof.
  intros Hs. destruct (count_required_plain (l_iter l)) as [Ho Ht].
  apply disc_bind_lift; [done| |].
  { intros E. destruct Hs as [|[Hp _]]; [done|by apply Ht in E]. }
  intros k _. destruct (0 <? k); [|by apply disc_ret].
  destruct (all_seen _ _); [by apply disc_ret|apply disc_ret_error].
Qed.

Lemma begin_sound fields dest b it :
  T \/ (terminated fields (pred (length fields)) /\ depth_ok n fields = true) ->
  pb_field_iter_begin fields dest = Ok (b, it) -> sound it.
Proof.
  intros [HT|[Ht Hd]] E; [by left|right]. unfold pb_field_iter_begin in E.
  destruct (fields !! 0%nat); [|done]. injection E as _ <-. split; [|done].
  unfold placed. cbn. split; [done|lia].
Qed.

Lemma with_frame_disc {A} `{Verdict A} e (c : DM A) : disc e T c -> disc e T (with_frame c).
Proof.
  intros Hc s Hs. specialize (Hc (with_local 0 s) Hs). unfold with_frame, disc_at in *.
  by destruct (c (with_local 0 s)) as [[a s']| |].
Qed.

Lemma noinit_body_disc fields dest :
  T \/ (terminated fields (pred (length fields)) /\ depth_ok n fields = true) ->
  disc true T (noinit_body rec_decode_noinit set_to_defaults release release_single_field fuel
                 fields dest).
Proof.
  intros Hf. apply with_frame_disc. apply disc_bind_plain; [apply plain_begin|].
  intros [b it] Hit s Hs. pose proof (begin_sound _ _ _ _ Hf Hit) as Hsd.
  eapply disc_at_bind; [by apply disc_left|]. intros bl s1 [= <- <-] _ _.
  eapply disc_at_bind; [apply noinit_loop_disc; [done|done|destruct Hs; lia]|].
  intros [l|] s1 E Hs1 _; [|by apply disc_ret].
  apply noinit_loop_sound in E; [|done]. cbn [andb good verdict_option].
  assert (Hd : disc true T (try fixed_count_done fields (fixed_count_field l); check_required l));
    [|by apply Hd].
  eapply disc_try; [apply fixed_count_disc|by apply check_required_disc|by apply disc_ret].
Qed.
End Messages.

(** ** The entry points *)
Section Decoder.
Context `{Image} `{ReadCallback} `{Allocator} `{DecodeCallbacks} (T : Prop).
Context `{!LawfulDecode T} (Himg : T \/ image_ok).

Lemma depth_ok_mono n fields : depth_ok n fields = true -> depth_ok (S n) fields = true.
Proof.
  revert fields. induction n as [|n IH]; intros fields; [done|].
  cbn [depth_ok]. rewrite !forallb_forall. intros Hall f Hin. specialize (Hall f Hin).
  apply andb_true_iff in Hall as [He Hs]. apply andb_true_iff. split; [done|].
  destruct (_ =? PB_LTYPE_SUBMESSAGE); [|done]. destruct (fields_at (ptr f)) as [sub|]; [|done].
  by apply IH.
Qed.

Lemma depth_ok_pred n fields : depth_ok (pred n) fields = true -> depth_ok n fields = true.
Proof. destruct n; [done|]. apply depth_ok_mono. Qed.

Lemma decode_noinit_disc fuel fields dest :
  deep T fuel fields -> disc true T (pb_decode_noinit fuel fields dest).
Proof.
  revert fields dest. induction fuel as [|n IH]; intros fields dest Hd.
  { destruct Hd as [HT|[_ ?]]; [by intros s Hs|done]. }
  cbn [pb_decode_noinit]. apply (noinit_body_disc T Himg _ _ _ _ n IH).
  - intros sub p [HT|Hs]; apply ms_set_to_defaults; [by left|right; by apply depth_ok_pred].
  - intros sub p [HT|Hs]; apply ms_pb_release; [by left|right; by apply depth_ok_pred].
  - intros it Hit. destruct Hd as [HT|[_ Hd]]; (apply ms_release_single; [done|]); [by left|right].
    cbn [pred] in Hd. destruct n; [done|lia].
  - destruct Hd as [HT|[Ht Hd]]; [by left|by right].
Qed.

Lemma decode_disc fuel fields dest :
  deep T fuel fields -> disc true T (pb_decode fuel fields dest).
Proof.
  intros Hd. apply (decode_message_disc T _ _ _ fuel).
  - intros. by apply decode_noinit_disc.
  - intros sub p [HT|Hs]; apply ms_set_to_defaults; [by left|right; by apply depth_ok_pred].
  - intros sub p [HT|Hs]; apply ms_pb_release; [by left|right; by apply depth_ok_pred].
  - done.
  - destruct Hd as [HT|[_ Hd]]; [by left|by right].
Qed.

Lemma delimited_disc c : disc true T c -> disc true T (delimited c).
Proof.
  intros Hc. eapply disc_make; [|done]. intros i0 sub. eapply disc_sub_body; [done|].
  intros status sub'. apply disc_close; [|by apply disc_ret]. apply disc_ret. by destruct status.
Qed.
End Decoder.
