(* ===== verification/Total.v ===== *)
(** * The encoder returns

    For descriptors nested less than [n] deep, [n + 1] units of fuel are
    enough for [pb_encode] on every stream, and for the specification
    [wire_message] on every memory. *)
From S2P Require Import Prelude Base128 Types Mem Iter OStream Encode Wire Decode MemSafe.

Definition returns {A} (o : outcome A) : Prop := o <> Timeout.

Lemma returns_obind {A B} (o : outcome A) (k : A -> outcome B) :
  returns o -> (forall a, o = Ok a -> returns (k a)) -> returns (obind o k).
Proof. unfold returns. intros Ho Hk. destruct o; [by apply Hk|done|done]. Qed.

Lemma returns_rd {A} (f : mem -> option A) m : returns (rd f m).
Proof. unfold rd, returns. by destruct (f m). Qed.

Lemma returns_Ok {A} (a : A) : returns (Ok a).
Proof. done. Qed.

Lemma returns_plain {A} (o : outcome A) : plain o -> returns o.
Proof. by intros [_ ?]. Qed.

(** A computation that returns from every state. *)
Definition live {S A} (c : M S A) : Prop := forall s, returns (c s).

Section Live.
Context {S : Type}.

Lemma live_bind {A B} (c : M S A) (k : A -> M S B) :
  live c -> (forall a, live (k a)) -> live (bind c k).
Proof.
  unfold live, returns. intros Hc Hk s. specialize (Hc s). unfold bind.
  destruct (c s) as [[a s']| |]; [apply Hk|done|done].
Qed.

Lemma live_ret {A} (a : A) : live (ret (S := S) a).
Proof. done. Qed.

Lemma live_lift {A B} (o : outcome A) (k : A -> M S B) :
  returns o -> (forall a, o = Ok a -> live (k a)) -> live (bind (lift o) k).
Proof.
  unfold live, returns. intros Ho Hk s. unfold bind, lift. destruct o; [by apply Hk|done|done].
Qed.

Lemma live_of {A} (o : outcome A) : returns o -> live (lift (S := S) o).
Proof. unfold live, returns, lift. intros Ho s. by destruct o. Qed.

(** One round over the fields of a struct. *)
Lemma live_iter_each fields fuel it (body : pb_field_iter_t -> M S bool) :
  (forall it, start it = fields -> live (body it)) ->
  start it = fields -> (pos it < length fields)%nat -> (length fields - pos it <= fuel)%nat ->
  live (iter_each body fuel it).
Proof.
  intros Hb. revert it. induction fuel as [|fuel IH]; intros it Hst Hp Hf; [lia|].
  cbn [iter_each]. apply live_bind; [by apply Hb|]. intros []; [|apply live_ret].
  apply live_lift; [apply returns_plain, plain_next|]. intros [[] it'] Hn; [|apply live_ret].
  apply next_true in Hn as (H1 & H2 & H3). rewrite Hst in *. apply IH; [done|lia|lia].
Qed.

Lemma live_for_fields fields dest (body : pb_field_iter_t -> M S bool) :
  (forall it, start it = fields -> live (body it)) -> live (for_fields fields dest body).
Proof.
  intros Hb. apply live_lift; [apply returns_plain, plain_begin|].
  intros [[] it] Hit; [|apply live_ret].
  unfold pb_field_iter_begin in Hit. destruct (fields !! 0%nat) as [f|] eqn:E; [|done].
  apply lookup_lt_Some in E. injection Hit as _ <-.
  by apply (live_iter_each fields); cbn; [|done|lia|lia].
Qed.
End Live.

(** ** Reading the message *)
Section Reading.
Context (m : mem).

Lemma returns_any_nonzero n p : returns (any_nonzero m n p).
Proof.
  revert p. induction n as [|n IH]; intros p; [done|]. cbn [any_nonzero].
  apply returns_obind; [apply returns_rd|]. intros b _. by destruct (negb _).
Qed.

Lemma returns_bool p : returns (safe_read_bool m p).
Proof. apply returns_any_nonzero. Qed.

Lemma strlen_timeout fuel size mx p :
  strlen_loop m fuel size mx p = Timeout ->
  forall i, (i < fuel)%nat -> is_Some (cells m !! (p + Z.of_nat i)).
Proof.
  revert size p. induction fuel as [|fuel IH]; intros size p E i Hi; [lia|].
  cbn [strlen_loop] in E. destruct (size <? mx); [|done].
  unfold rd in E. destruct (load m p 1) as [c|] eqn:Hl; [|done]. cbn in E.
  destruct (negb (c =? 0)); [|done]. destruct i as [|i].
  - unfold load, load_bytes in Hl. change (Z.to_nat 1) with 1%nat in Hl.
    cbn [read_cells] in Hl. rewrite Z.add_0_r.
    by destruct (cells m !! p) as [[b|]|].
  - replace (p + Z.of_nat (S i)) with (p + 1 + Z.of_nat i) by lia.
    eapply IH; [exact E|lia].
Qed.

Lemma returns_strlen mx p : returns (strlen_upto m mx p).
Proof.
  intros E. unfold strlen_upto in E.
  pose proof (strlen_timeout _ _ _ _ E) as Hall. clear E.
  set (n := size (cells m)) in *.
  set (l := map (fun i => p + Z.of_nat i) (seq 0 (S n))).
  assert (Hnd : base.NoDup l).
  { apply NoDup_fmap_2; [intros x y; lia|]. apply NoDup_seq. }
  assert (Hsub : list_to_set l ⊆ dom (cells m)).
  { intros x Hx. apply elem_of_list_to_set in Hx.
    apply list_elem_of_fmap in Hx as (i & -> & Hi). apply elem_of_seq in Hi.
    apply elem_of_dom, Hall. lia. }
  apply subseteq_size in Hsub. rewrite size_dom, size_list_to_set in Hsub by done.
  unfold l in Hsub. rewrite length_map, length_seq in Hsub. unfold n in Hsub. lia.
Qed.

Lemma returns_read_int ld n p : returns (read_int m ld n p).
Proof.
  unfold read_int. destruct (_ || _); [|done]. apply returns_obind; [apply returns_rd|done].
Qed.
End Reading.

Section Proto3.
Context `{Image} (m : mem).

Lemma returns_presence f p : returns (proto3_presence m f p).
Proof.
  unfold proto3_presence. cbv zeta.
  assert (Hc : returns (let! n := rd (fun m => load_size m (p + size_offset f)) m in
                        Ok (Some (n =? 0)))) by (apply returns_obind; [apply returns_rd|done]).
  destruct (_ =? PB_HTYPE_REQUIRED); [done|].
  destruct (_ =? PB_HTYPE_REPEATED); [destruct (negb _); [done|by destruct (_ =? PB_ATYPE_STATIC)]|].
  destruct (_ =? PB_HTYPE_ONEOF); [done|]. destruct (_ && _); [|done].
  apply returns_obind; [apply returns_any_nonzero|done].
Qed.

Lemma live_check n f p :
  field_depth n f -> live (pb_check_proto3_default_value m n f p).
Proof.
  revert f p. induction n as [|n IH]; intros f p Hd; [destruct Hd; lia|].
  cbn [pb_check_proto3_default_value].
  apply live_lift; [apply returns_presence|]. intros decided _. cbv zeta.
  assert (Hz : live (S := unit) (do nz <- lift (any_nonzero m (Z.to_nat (data_size f)) p); ret (negb nz)))
    by (apply live_lift; [apply returns_any_nonzero|done]).
  assert (Htail : live (S := unit)
    (if (PB_ATYPE (type f) =? PB_ATYPE_POINTER) && (PB_LTYPE_LAST_PACKABLE <? PB_LTYPE (type f)) then
       do q <- lift (rd (fun m => load_ptr m p) m); ret (q =? NULL)
     else do nz <- lift (any_nonzero m (Z.to_nat (data_size f)) p); ret (negb nz))).
  { destruct (_ && _); [|done]. apply live_lift; [apply returns_rd|done]. }
  destruct decided as [b|]; [done|].
  destruct (_ =? PB_ATYPE_STATIC); [|exact Htail].
  destruct (_ =? PB_LTYPE_BYTES); [apply live_lift; [apply returns_rd|done]|].
  destruct (_ =? PB_LTYPE_STRING); [apply live_lift; [apply returns_rd|done]|].
  destruct (_ =? PB_LTYPE_FIXED_LENGTH_BYTES); [done|].
  destruct (Z.eqb_spec (PB_LTYPE (type f)) PB_LTYPE_SUBMESSAGE) as [El|]; [|exact Htail].
  apply live_lift; [apply returns_plain, plain_deref|]. intros fields Hf.
  apply live_for_fields. intros it Hst.
  apply live_lift; [apply returns_plain, plain_cur|]. intros g Hg. apply IH.
  destruct Hd as (_ & _ & Hsub). unfold deref_fields in Hf.
  destruct (fields_at (ptr f)) as [fs|] eqn:E; [|done]. injection Hf as ->.
  specialize (Hsub El _ eq_refl). cbn [pred] in Hsub. unfold cur in Hg.
  destruct (start it !! pos it) as [g'|] eqn:Eg; [|done]. injection Hg as ->.
  rewrite Hst in Eg. by eapply depth_ok_field.
Qed.

Lemma returns_check n f p :
  field_depth n f -> returns (result (pb_check_proto3_default_value m n f p)).
Proof. intros Hd. apply returns_obind; [by apply live_check|done]. Qed.
End Proto3.

(** ** The specification *)
Section Wire.
Context `{Image} `{EncodeTraces} (m : mem).
Context (Hcb : forall fn f p, returns (enc_trace m fn f p)).

Lemma returns_wseq a b : returns a -> returns b -> returns (wseq a b).
Proof.
  intros Ha Hb. apply returns_obind; [done|]. intros t _. destruct t.2; [|done].
  by apply returns_obind.
Qed.

Lemma returns_framed o : returns o -> returns (wire_framed o).
Proof. intros Ho. apply returns_obind; [done|]. intros t _. by destruct t.2. Qed.

Lemma returns_all {X} (item : X -> outcome trace) l :
  (forall x, x ∈ l -> returns (item x)) -> returns (wire_all item l).
Proof.
  induction l as [|x l IH]; intros Hi; [done|]. cbn [wire_all].
  apply returns_wseq; [apply Hi; by left|]. apply IH. intros y Hy. apply Hi. by right.
Qed.

Context (n : nat) (wire_sub : list pb_field_t -> Z -> outcome trace).
Context (Hsub : forall fields src, depth_ok (pred n) fields = true -> returns (wire_sub fields src)).

Lemma returns_value f p : field_depth n f -> returns (wire_value m wire_sub f p).
Proof.
  intros (_ & _ & Hd). unfold wire_value. cbv zeta.
  assert (Hint : forall ld conv, returns (wire_int m ld conv f p)).
  { intros. apply returns_obind; [apply returns_read_int|]. intros [v|] _; done. }
  assert (Hmem : forall p k, returns (wire_mem m p k)).
  { intros. apply returns_obind; [apply returns_rd|done]. }
  destruct (_ =? PB_LTYPE_BOOL); [apply returns_obind; [apply returns_any_nonzero|done]|].
  destruct (_ =? PB_LTYPE_VARINT); [apply Hint|]. destruct (_ =? PB_LTYPE_UVARINT); [apply Hint|].
  destruct (_ =? PB_LTYPE_SVARINT); [apply Hint|]. destruct (_ =? PB_LTYPE_FIXED32); [apply Hmem|].
  destruct (_ =? PB_LTYPE_FIXED64); [apply Hmem|].
  destruct (_ =? PB_LTYPE_BYTES).
  { unfold wire_bytes_array. destruct (p =? NULL); [done|].
    apply returns_obind; [apply returns_rd|]. intros k _. destruct (_ && _); [done|].
    by apply returns_framed. }
  destruct (_ =? PB_LTYPE_STRING).
  { unfold wire_string. destruct (p =? NULL); [done|].
    apply returns_obind; [apply returns_strlen|]. intros k _. by apply returns_framed. }
  destruct (Z.eqb_spec (PB_LTYPE (type f)) PB_LTYPE_SUBMESSAGE) as [El|].
  { unfold wire_submessage. destruct (ptr f =? NULL); [done|].
    apply returns_obind; [apply returns_plain, plain_deref|]. intros fields Hf.
    apply returns_framed, Hsub. apply (Hd El). unfold deref_fields in Hf.
    destruct (fields_at (ptr f)) as [fs|]; [|done]. by injection Hf as ->. }
  destruct (_ =? PB_LTYPE_FIXED_LENGTH_BYTES); [by apply returns_framed|done].
Qed.

Lemma returns_key f : returns (wire_field_key f).
Proof. unfold wire_field_key. by destruct (wiretype_of _). Qed.

Lemma returns_array f p count : field_depth n f -> returns (wire_array m wire_sub f p count).
Proof.
  intros Hd. unfold wire_array. cbv zeta. destruct (count =? 0); [done|].
  destruct (_ && _); [done|]. destruct (_ <=? _).
  - apply returns_wseq; [done|]. apply returns_framed, returns_all. intros x _.
    by apply returns_value.
  - apply returns_all. intros x _. apply returns_wseq; [apply returns_key|].
    apply returns_obind; [|intros y _; by apply returns_value].
    unfold deref_item. destruct (_ && _); [apply returns_rd|done].
Qed.

Lemma returns_field f p :
  field_depth n f ->
  returns (wire_field m wire_sub (pb_check_proto3_default_value m n) f p).
Proof.
  intros Hd. unfold wire_field. destruct (_ || _).
  - unfold wire_basic. cbv zeta. apply returns_obind.
    { destruct (negb _); [done|]. destruct (_ =? PB_HTYPE_OPTIONAL); [|done].
      apply returns_obind; [by apply returns_check|done]. }
    intros imp _. apply returns_obind.
    { destruct (_ =? PB_ATYPE_POINTER); [|done]. apply returns_obind; [apply returns_rd|done]. }
    intros [q imp'] _.
    assert (Hp : returns (wseq (wire_field_key f) (wire_value m wire_sub f q)))
      by (apply returns_wseq; [apply returns_key|by apply returns_value]).
    destruct (_ =? PB_HTYPE_REQUIRED); [by destruct (q =? NULL)|].
    destruct (_ =? PB_HTYPE_OPTIONAL).
    { apply returns_obind; [destruct (negb _); [apply returns_any_nonzero|done]|].
      by intros []. }
    destruct (_ =? PB_HTYPE_REPEATED).
    { apply returns_obind; [destruct (negb _); [apply returns_rd|done]|].
      intros count _. by apply returns_array. }
    apply returns_obind; [destruct (negb _); [apply returns_rd|done]|].
    intros which _. by destruct (_ =? tag f).
  - destruct (_ =? PB_ATYPE_CALLBACK); [|done]. apply returns_obind; [apply returns_rd|].
    intros fn _. by destruct (fn =? NULL).
Qed.
End Wire.

Section WireMessage.
Context `{Image} `{EncodeTraces} (m : mem).
Context (Hcb : forall fn f p, returns (enc_trace m fn f p)).

Lemma wire_message_S n fields src :
  wire_message m (S n) fields src =
  wire_all (wire_entry m (wire_message m n) (pb_check_proto3_default_value m n) n)
    (struct_fields fields src).
Proof. done. Qed.

Lemma returns_message n fields src :
  depth_ok n fields = true -> returns (wire_message m (S n) fields src).
Proof.
  revert fields src. induction n as [|n IH]; intros fields src Hd; [done|].
  rewrite wire_message_S. apply returns_all. intros it Hit.
  apply list_elem_of_fmap in Hit as (k & -> & _).
  unfold wire_entry. apply returns_obind; [apply returns_plain, plain_cur|]. intros f Hf.
  unfold cur in Hf. rewrite (proj1 (field_at_start fields src k)) in Hf.
  destruct (fields !! _) as [g|] eqn:Eg; [|done]. injection Hf as ->.
  pose proof (depth_ok_field _ _ _ _ Hd Eg) as Hfd.
  destruct (Z.eqb_spec (PB_LTYPE (type f)) PB_LTYPE_EXTENSION) as [Ee|];
    [by destruct Hfd as (_ & ? & _)|].
  apply (returns_field m Hcb (S n)); [|done]. intros sub p Hs. by apply IH.
Qed.
End WireMessage.

(** ** The encoder *)
Section Streams.
Context {W : Type} `{StreamCallback W}.

Lemma live_return_error msg : live (return_error (W := W) msg).
Proof. done. Qed.

Lemma live_pb_write buf n : live (pb_write (W := W) buf n).
Proof.
  intros s. unfold pb_write. destruct (_ && _); [|done]. destruct (_ || _); [done|].
  apply live_bind; [|by intros []]. intros s'. unfold call_callback.
  destruct (cbuf_read buf n) as [bs|]; [|done]. destruct (sink s') as [|b d|w] eqn:E; [done| |].
  - unfold buf_write. rewrite E. by destruct (_ <? _)%nat.
  - by destruct (usr_write w bs).
Qed.

Lemma returns_varint_loop n v : returns (varint_loop n v).
Proof.
  revert v. induction n as [|n IH]; intros v; cbn [varint_loop]; destruct (v =? 0); try done.
  specialize (IH (Z.shiftr v 7)). unfold returns in *. by destruct (varint_loop n _).
Qed.

Lemma live_varint v : live (pb_encode_varint (W := W) v).
Proof.
  unfold pb_encode_varint. destruct (_ <=? _); [apply live_pb_write|].
  apply live_lift; [apply returns_varint_loop|]. intros l _. apply live_pb_write.
Qed.

Lemma live_try (c k : EM W bool) : live c -> live k -> live (try c; k).
Proof. intros Hc Hk. apply live_bind; [done|]. by intros []. Qed.

Lemma live_string buf n : live (pb_encode_string (W := W) buf n).
Proof. apply live_try; [apply live_varint|apply live_pb_write]. Qed.

Lemma live_tag_for_field f : live (pb_encode_tag_for_field (W := W) f).
Proof. unfold pb_encode_tag_for_field. destruct (wiretype_of _); [apply live_varint|done]. Qed.

Lemma live_on_ostream {A} sub (c : EM W A) : live c -> live (on_ostream sub c).
Proof. intros Hc s. specialize (Hc sub). unfold returns, on_ostream in *. by destruct (c sub) as [[]| |]. Qed.

Lemma live_get : live (get (S := pb_ostream_t W)).
Proof. done. Qed.
Lemma live_modify f : live (modify (S := pb_ostream_t W) f).
Proof. done. Qed.
End Streams.

Create HintDb live.
#[export] Hint Resolve live_pb_write live_varint live_string live_tag_for_field live_get live_modify
  live_return_error returns_rd returns_any_nonzero returns_bool returns_read_int returns_strlen returns_varint_loop
  : live.
#[export] Hint Extern 1 (returns _) => done : live.

(** One rule of [live] per step. *)
Ltac live_step :=
  match goal with
  | |- live (bind (lift _) _) => apply live_lift; [auto with live|intros]
  | |- live (bind _ _) => apply live_bind; [|intros]
  | |- live (if ?b then _ else _) => destruct b
  | |- live (match ?o with _ => _ end) => destruct o
  | |- live _ => solve [auto with live | done]
  end.
Ltac live_tac := repeat live_step.

Section EncodeFields.
Context {W : Type} `{StreamCallback W} `{!EncodeCallbacks W} `{Image} (m : mem) (n : nat).
Context (Henc : forall fn f p, live (usr_encode (W := W) m fn f p)).
Context (rec_encode : list pb_field_t -> Z -> EM W bool).
Context (Hrec : forall fields src, depth_ok (pred n) fields = true -> live (rec_encode fields src)).

Lemma live_submessage fields src :
  depth_ok (pred n) fields = true -> live (pb_encode_submessage rec_encode fields src).
Proof.
  intros Hd. unfold pb_encode_submessage.
  apply live_bind; [by apply live_on_ostream, Hrec|]. intros [ok sub].
  destruct ok; cbn [negb]; [|live_tac]. cbv zeta. apply live_try; [apply live_varint|].
  apply live_bind; [done|]. intros s. destruct (is_null _); [live_tac|].
  destruct (_ <? _); [live_tac|].
  apply live_bind; [by apply live_on_ostream, Hrec|]. intros [status sub']. live_tac.
Qed.

Lemma live_enc_int {A} (o : outcome (option A)) (k : A -> EM W bool) msg :
  returns o -> (forall a, live (k a)) ->
  live (do value <- lift o; match value with None => return_error msg | Some v => k v end).
Proof. intros Ho Hk. apply live_lift; [done|]. intros [v|] _; [apply Hk|done]. Qed.

Lemma live_call f func p :
  field_depth n f -> encoder_for m rec_encode (PB_LTYPE (type f)) = Ok func ->
  live (call_encoder func f p).
Proof.
  intros (_ & _ & Hsub) Hfunc. unfold encoder_for, or_ub in Hfunc.
  destruct (_ !! _) as [func'|] eqn:El; [|done]. injection Hfunc as ->.
  assert (Hl : 0 <= PB_LTYPE (type f)) by (apply Z.land_nonneg; by right).
  destruct (Z.to_nat (PB_LTYPE (type f))) as [|[|[|[|[|[|[|[|[|[|[|k]]]]]]]]]]] eqn:Ek;
    cbn in El; simplify_eq; cbn [call_encoder].
  - unfold pb_enc_bool. live_tac.
  - apply live_enc_int; [apply returns_read_int|intros; apply live_varint].
  - apply live_enc_int; [apply returns_read_int|intros; apply live_varint].
  - apply live_enc_int; [apply returns_read_int|intros; apply live_varint].
  - unfold pb_enc_fixed32, pb_encode_fixed32. apply live_lift; [apply (returns_rd (fun m => load m p 4))|].
    intros. apply live_pb_write.
  - unfold pb_enc_fixed64, pb_encode_fixed64. apply live_lift; [apply (returns_rd (fun m => load m p 8))|].
    intros. apply live_pb_write.
  - unfold pb_enc_bytes. cbv zeta. live_tac.
  - unfold pb_enc_string. apply live_bind; [destruct (p =? NULL); [done|]|intros; apply live_string].
    apply live_of, returns_strlen.
  - unfold pb_enc_submessage. destruct (ptr f =? NULL); [done|].
    apply live_lift; [apply returns_plain, plain_deref|]. intros fields Hf. apply live_submessage.
    apply Hsub; [unfold PB_LTYPE_SUBMESSAGE; lia|]. unfold deref_fields in Hf.
    destruct (fields_at (ptr f)) as [fs|]; [|done]. by injection Hf as ->.
  - done.
  - unfold pb_enc_fixed_length_bytes. live_tac.
Qed.

Lemma live_each body k p ds : (forall q, live (body q)) -> live (each_item (W := W) body k p ds).
Proof.
  intros Hb. revert p. induction k as [|k IH]; intros p; [done|]. cbn [each_item].
  by apply live_try.
Qed.

Lemma live_array f p count func :
  (forall q, live (call_encoder func f q)) -> live (encode_array m f p count func).
Proof.
  intros Hc. unfold encode_array. destruct (count =? 0); [done|]. destruct (_ && _); [done|].
  destruct (_ <=? _).
  - apply live_try; [apply live_varint|]. apply live_bind.
    { unfold packed_size. destruct (_ =? _); [done|]. destruct (_ =? _); [done|].
      apply live_bind; [by apply live_on_ostream, live_each|]. by intros [[] ?]. }
    intros [sz|]; [|done]. apply live_try; [apply live_varint|]. apply live_bind; [done|].
    intros s. destruct (is_null _); [apply live_pb_write|by apply live_each].
  - apply live_each. intros q. apply live_try; [apply live_tag_for_field|].
    apply live_lift; [|intros; apply Hc]. unfold deref_item. destruct (_ && _); [apply returns_rd|done].
Qed.

Lemma live_basic f p :
  field_depth n f -> live (encode_basic_field m rec_encode (pb_check_proto3_default_value m n) f p).
Proof.
  intros Hd. unfold encode_basic_field. cbv zeta.
  apply live_lift; [unfold encoder_for, or_ub; by destruct (_ !! _)|]. intros func Hfunc.
  pose proof (fun q => live_call f func q Hd Hfunc) as Hc.
  apply live_bind.
  { destruct (negb _); [done|]. destruct (_ =? _); [|done].
    apply live_lift; [by apply returns_check|done]. }
  intros imp. apply live_bind; [destruct (_ =? _); live_tac|]. intros [q imp'].
  assert (Hpres : live (try pb_encode_tag_for_field f; try call_encoder func f q; ret true)).
  { apply live_try; [apply live_tag_for_field|]. by apply live_try. }
  destruct (_ =? PB_HTYPE_REQUIRED); [by destruct (q =? NULL)|].
  destruct (_ =? PB_HTYPE_OPTIONAL).
  { apply live_bind; [|by intros []]. destruct (_ =? _); [done|].
    apply live_of, returns_bool. }
  destruct (_ =? PB_HTYPE_REPEATED).
  { apply live_bind; [destruct (_ =? _); [done|]|].
    - apply live_of, returns_rd.
    - intros count. apply live_try; [by apply live_array|done]. }
  destruct (_ =? PB_HTYPE_ONEOF); [|done]. apply live_bind.
  - destruct (_ =? _); [done|]. apply live_of, returns_rd.
  - intros w. by destruct (w =? tag f).
Qed.

Lemma live_encode_field f p :
  field_depth n f -> live (encode_field m rec_encode (pb_check_proto3_default_value m n) f p).
Proof.
  intros Hd. unfold encode_field. destruct (_ || _); [by apply live_basic|].
  destruct (_ =? PB_ATYPE_CALLBACK); [|done]. unfold encode_callback_field.
  apply live_lift; [apply returns_rd|]. intros fn _. destruct (fn =? NULL); [done|].
  apply live_bind; [apply Henc|]. by intros [].
Qed.
End EncodeFields.

Section EncodeMessage.
Context {W : Type} `{StreamCallback W} `{!EncodeCallbacks W} `{Image} (m : mem).
Context (Henc : forall fn f p, live (usr_encode (W := W) m fn f p)).

Lemma live_encode n fields src :
  depth_ok n fields = true -> live (pb_encode (W := W) m (S n) fields src).
Proof.
  revert fields src. induction n as [|n IH]; intros fields src Hd; [done|].
  change (pb_encode m (S (S n)) fields src) with
    (encode_body m (pb_encode (W := W) m (S n)) (pb_check_proto3_default_value m (S n)) (S n) fields src).
  apply live_for_fields. intros it Hst. unfold encode_entry.
  apply live_lift; [apply returns_plain, plain_cur|]. intros f Hf. unfold cur in Hf.
  rewrite Hst in Hf. destruct (fields !! _) as [g|] eqn:Eg; [|done]. injection Hf as ->.
  pose proof (depth_ok_field _ _ _ _ Hd Eg) as Hfd.
  destruct (Z.eqb_spec (PB_LTYPE (type f)) PB_LTYPE_EXTENSION) as [Ee|];
    [by destruct Hfd as (_ & ? & _)|].
  apply (live_encode_field m (S n) Henc); [|done]. intros sub p Hs. by apply IH.
Qed.
End EncodeMessage.
