(* ===== verification/Descriptors.v ===== *)
(** * The generated message descriptors

    The structs of [cct.nanopb.h] and [firebasecore.nanopb.h] and the
    descriptor arrays of the corresponding [.c] files, built with the macros
    of Types.  [field_address] is the general fact about the macros: the
    address the iterator computes for a member is its [offsetof]. *)
From S2P Require Import Prelude Types Mem Iter Wire Decode MemSafe.
#[local] Open Scope string_scope.
Open Scope Z_scope.

(** ** The macros and the iterator agree on the struct layout *)
Section Layout.
Context (st : struct_decl).

(** The C declaration of member [m] fits its allocation type: an array for
    a static repeated field, a pointer for a pointer field. *)
Definition member_fits (r : frules) (a : falloc) (m : string) : Prop :=
  0 <= pb_membersize st m < 2 ^ 32 /\
  match a, r with
  | STATIC, REPEATED => pb_elemsize st m * pb_arraysize st m = pb_membersize st m
  | POINTER, _ => pb_membersize st m = sizeof_ptr
  | _, _ => True
  end.

Lemma PB_FIELD_atype tg t r a p m prev pt :
  PB_ATYPE (type (PB_FIELD tg t r a p st m prev pt)) =
    match a with
    | STATIC => PB_ATYPE_STATIC
    | POINTER => PB_ATYPE_POINTER
    | CALLBACK => PB_ATYPE_CALLBACK
    end.
Proof. by destruct r, a, t. Qed.

Lemma PB_FIELD_htype tg t r a p m prev pt :
  PB_HTYPE (type (PB_FIELD tg t r a p st m prev pt)) =
    match r, a with
    | REQUIRED, _ | OPTEXT, STATIC => PB_HTYPE_REQUIRED
    | REPEATED, _ => PB_HTYPE_REPEATED
    | _, _ => PB_HTYPE_OPTIONAL
    end.
Proof. by destruct r, a, t. Qed.

Lemma PB_FIELD_ltype tg t r a p m prev pt :
  PB_LTYPE (type (PB_FIELD tg t r a p st m prev pt)) = PB_LTYPE_MAP t.
Proof. by destruct r, a, t. Qed.

Lemma PB_FIELD_offset tg t r a p m prev pt :
  r <> OPTEXT ->
  data_offset (PB_FIELD tg t r a p st m prev pt) = PB_DATAOFFSET p st m prev.
Proof. by destruct r, a. Qed.

(** The iterator moves over a member by that member's size. *)
Lemma prev_size_member tg t r a p m prev pt :
  r <> OPTEXT -> member_fits r a m ->
  prev_size (PB_FIELD tg t r a p st m prev pt) = pb_membersize st m.
Proof.
  intros Hr [Hm Hf]. unfold prev_size. rewrite PB_FIELD_atype, PB_FIELD_htype.
  destruct a, r; cbn in *; done || (rewrite wrap_small; lia).
Qed.

(** Two consecutive entries: from the address of one member to the next. *)
Lemma advance_address it dest tg2 t2 r2 a2 p2 m2 prev2 pt2 tg t r a m pt :
  r2 <> OPTEXT -> r <> OPTEXT -> member_fits r2 a2 m2 ->
  0 <= offsetof st m - offsetof st m2 - pb_membersize st m2 < 2 ^ 32 ->
  pData it = dest + offsetof st m2 ->
  pData (advance it (PB_FIELD tg2 t2 r2 a2 p2 st m2 prev2 pt2)
           (PB_FIELD tg t r a OTHER st m m2 pt)) = dest + offsetof st m.
Proof.
  intros Hr2 Hr Hfit Ho Hp. unfold advance, same_union.
  rewrite !PB_FIELD_htype. rewrite prev_size_member, PB_FIELD_offset by done.
  replace (_ && _) with false by (by destruct r2, a2, r, a).
  cbn [pData PB_DATAOFFSET]. unfold PB_DATAOFFSET_OTHER. rewrite wrap_small by lia. lia.
Qed.
End Layout.

(** ** Addresses of the constant data

    The linker chooses the addresses of the descriptor arrays and of the
    default values; any distinct ones will do. *)
Definition addr_LogEvent : Z := 0x10000.
Definition addr_NetworkConnectionInfo : Z := 0x11000.
Definition addr_IosClientInfo : Z := 0x12000.
Definition addr_ClientInfo : Z := 0x13000.
Definition addr_BatchedLogRequest : Z := 0x14000.
Definition addr_LogRequest : Z := 0x15000.
Definition addr_QosTierConfiguration : Z := 0x16000.
Definition addr_QosTiersOverride : Z := 0x17000.
Definition addr_LogResponse : Z := 0x18000.
Definition addr_ICoreConfiguration : Z := 0x19000.
Definition addr_network_type_default : Z := 0x1A000.
Definition addr_mobile_subtype_default : Z := 0x1A004.
Definition addr_qos_tier_default : Z := 0x1A008.
Definition addr_log_source_default : Z := 0x1A00C.

(** The default values themselves: [NONE = -1] and zeros. *)
Definition gdt_cct_NetworkConnectionInfo_network_type_default : Z := -1.
Definition gdt_cct_NetworkConnectionInfo_mobile_subtype_default : Z := 0.
Definition gdt_cct_LogRequest_qos_tier_default : Z := 0.
Definition gdt_cct_QosTierConfiguration_log_source_default : Z := 0.
Definition default_values : list Z :=
  le_bytes 4 gdt_cct_NetworkConnectionInfo_network_type_default ++
  le_bytes 4 gdt_cct_NetworkConnectionInfo_mobile_subtype_default ++
  le_bytes 4 gdt_cct_LogRequest_qos_tier_default ++
  le_bytes 4 gdt_cct_QosTierConfiguration_log_source_default.

(** ** Structs *)
Definition c_bool : ctype := CInt 1.
Definition c_int32 : ctype := CInt 4.
Definition c_int64 : ctype := CInt 8.
Definition c_enum : ctype := CInt 4.
Definition c_size : ctype := CInt 4.
(** [pb_bytes_array_t *]; the struct has a size and one byte. *)
Definition c_bytes_ptr : ctype := CPtr 8.

Definition gdt_cct_IosClientInfo : struct_decl :=
  [("os_major_version", c_bytes_ptr); ("os_full_version", c_bytes_ptr);
   ("application_build", c_bytes_ptr); ("country", c_bytes_ptr);
   ("model", c_bytes_ptr); ("language_code", c_bytes_ptr);
   ("application_bundle_id", c_bytes_ptr)].

Definition gdt_cct_ClientInfo : struct_decl :=
  [("has_client_type", c_bool); ("client_type", c_enum);
   ("has_ios_client_info", c_bool); ("ios_client_info", struct_type gdt_cct_IosClientInfo)].

Definition gdt_cct_NetworkConnectionInfo : struct_decl :=
  [("has_network_type", c_bool); ("network_type", c_enum);
   ("has_mobile_subtype", c_bool); ("mobile_subtype", c_enum)].

Definition gdt_cct_QosTierConfiguration : struct_decl :=
  [("has_qos_tier", c_bool); ("qos_tier", c_enum);
   ("has_log_source", c_bool); ("log_source", c_int32)].

Definition gdt_cct_QosTiersOverride : struct_decl :=
  [("qos_tier_configuration_count", c_size);
   ("qos_tier_configuration", CPtr (struct_size gdt_cct_QosTierConfiguration));
   ("has_qos_tier_fingerprint", c_bool); ("qos_tier_fingerprint", c_int64)].

Definition gdt_cct_LogEvent : struct_decl :=
  [("has_event_time_ms", c_bool); ("event_time_ms", c_int64);
   ("source_extension", c_bytes_ptr);
   ("has_event_code", c_bool); ("event_code", c_int32);
   ("has_timezone_offset_seconds", c_bool); ("timezone_offset_seconds", c_int64);
   ("has_event_uptime_ms", c_bool); ("event_uptime_ms", c_int64);
   ("has_network_connection_info", c_bool);
   ("network_connection_info", struct_type gdt_cct_NetworkConnectionInfo)].

Definition gdt_cct_LogRequest : struct_decl :=
  [("has_client_info", c_bool); ("client_info", struct_type gdt_cct_ClientInfo);
   ("has_log_source", c_bool); ("log_source", c_int32);
   ("log_event_count", c_size); ("log_event", CPtr (struct_size gdt_cct_LogEvent));
   ("has_request_time_ms", c_bool); ("request_time_ms", c_int64);
   ("has_request_uptime_ms", c_bool); ("request_uptime_ms", c_int64);
   ("has_qos_tier", c_bool); ("qos_tier", c_enum)].

Definition gdt_cct_BatchedLogRequest : struct_decl :=
  [("log_request_count", c_size); ("log_request", CPtr (struct_size gdt_cct_LogRequest))].

Definition gdt_cct_LogResponse : struct_decl :=
  [("has_next_request_wait_millis", c_bool); ("next_request_wait_millis", c_int64);
   ("has_qos_tier", c_bool); ("qos_tier", struct_type gdt_cct_QosTiersOverride)].

Definition logs_proto_mobilesdk_ios_ICoreConfiguration : struct_decl :=
  [("has_configuration_type", c_bool); ("configuration_type", c_enum);
   ("sdk_service_installed_count", c_size); ("sdk_service_installed", CPtr 4);
   ("device_model", c_bytes_ptr); ("app_id", c_bytes_ptr); ("bundle_id", c_bytes_ptr);
   ("has_pod_name", c_bool); ("pod_name", c_enum);
   ("icore_version", c_bytes_ptr); ("sdk_version", c_bytes_ptr);
   ("has_sdk_name", c_bool); ("sdk_name", c_enum);
   ("has_app_count", c_bool); ("app_count", c_int32);
   ("os_version", c_bytes_ptr); ("min_supported_ios_version", c_bytes_ptr);
   ("has_use_default_app", c_bool); ("use_default_app", c_bool);
   ("has_deployed_in_app_store", c_bool); ("deployed_in_app_store", c_bool);
   ("has_dynamic_framework_count", c_bool); ("dynamic_framework_count", c_int32);
   ("apple_framework_version", c_bytes_ptr);
   ("has_using_zip_file", c_bool); ("using_zip_file", c_bool);
   ("has_deployment_type", c_bool); ("deployment_type", c_enum);
   ("platform_info", c_bytes_ptr);
   ("has_swizzling_enabled", c_bool); ("swizzling_enabled", c_bool);
   ("has_using_gdt", c_bool); ("using_gdt", c_bool)].

(** ** Descriptor arrays *)
Definition gdt_cct_LogEvent_fields : list pb_field_t :=
  [PB_FIELD 1 INT64 OPTIONAL STATIC FIRST gdt_cct_LogEvent "event_time_ms" "event_time_ms" 0;
   PB_FIELD 6 BYTES OPTIONAL POINTER OTHER gdt_cct_LogEvent "source_extension" "event_time_ms" 0;
   PB_FIELD 11 INT32 OPTIONAL STATIC OTHER gdt_cct_LogEvent "event_code" "source_extension" 0;
   PB_FIELD 15 SINT64 OPTIONAL STATIC OTHER gdt_cct_LogEvent "timezone_offset_seconds" "event_code" 0;
   PB_FIELD 17 INT64 OPTIONAL STATIC OTHER gdt_cct_LogEvent "event_uptime_ms" "timezone_offset_seconds" 0;
   PB_FIELD 23 MESSAGE OPTIONAL STATIC OTHER gdt_cct_LogEvent "network_connection_info"
     "event_uptime_ms" addr_NetworkConnectionInfo;
   PB_LAST_FIELD].

Definition gdt_cct_NetworkConnectionInfo_fields : list pb_field_t :=
  [PB_FIELD 1 ENUM OPTIONAL STATIC FIRST gdt_cct_NetworkConnectionInfo "network_type"
     "network_type" addr_network_type_default;
   PB_FIELD 2 UENUM OPTIONAL STATIC OTHER gdt_cct_NetworkConnectionInfo "mobile_subtype"
     "network_type" addr_mobile_subtype_default;
   PB_LAST_FIELD].

Definition gdt_cct_IosClientInfo_fields : list pb_field_t :=
  [PB_FIELD 3 BYTES OPTIONAL POINTER FIRST gdt_cct_IosClientInfo "os_major_version" "os_major_version" 0;
   PB_FIELD 4 BYTES OPTIONAL POINTER OTHER gdt_cct_IosClientInfo "os_full_version" "os_major_version" 0;
   PB_FIELD 5 BYTES OPTIONAL POINTER OTHER gdt_cct_IosClientInfo "application_build" "os_full_version" 0;
   PB_FIELD 6 BYTES OPTIONAL POINTER OTHER gdt_cct_IosClientInfo "country" "application_build" 0;
   PB_FIELD 7 BYTES OPTIONAL POINTER OTHER gdt_cct_IosClientInfo "model" "country" 0;
   PB_FIELD 8 BYTES OPTIONAL POINTER OTHER gdt_cct_IosClientInfo "language_code" "model" 0;
   PB_FIELD 11 BYTES OPTIONAL POINTER OTHER gdt_cct_IosClientInfo "application_bundle_id" "language_code" 0;
   PB_LAST_FIELD].

Definition gdt_cct_ClientInfo_fields : list pb_field_t :=
  [PB_FIELD 1 UENUM OPTIONAL STATIC FIRST gdt_cct_ClientInfo "client_type" "client_type" 0;
   PB_FIELD 4 MESSAGE OPTIONAL STATIC OTHER gdt_cct_ClientInfo "ios_client_info" "client_type"
     addr_IosClientInfo;
   PB_LAST_FIELD].

Definition gdt_cct_BatchedLogRequest_fields : list pb_field_t :=
  [PB_FIELD 1 MESSAGE REPEATED POINTER FIRST gdt_cct_BatchedLogRequest "log_request" "log_request"
     addr_LogRequest;
   PB_LAST_FIELD].

Definition gdt_cct_LogRequest_fields : list pb_field_t :=
  [PB_FIELD 1 MESSAGE OPTIONAL STATIC FIRST gdt_cct_LogRequest "client_info" "client_info" addr_ClientInfo;
   PB_FIELD 2 INT32 OPTIONAL STATIC OTHER gdt_cct_LogRequest "log_source" "client_info" 0;
   PB_FIELD 3 MESSAGE REPEATED POINTER OTHER gdt_cct_LogRequest "log_event" "log_source" addr_LogEvent;
   PB_FIELD 4 INT64 OPTIONAL STATIC OTHER gdt_cct_LogRequest "request_time_ms" "log_event" 0;
   PB_FIELD 8 INT64 OPTIONAL STATIC OTHER gdt_cct_LogRequest "request_uptime_ms" "request_time_ms" 0;
   PB_FIELD 9 UENUM OPTIONAL STATIC OTHER gdt_cct_LogRequest "qos_tier" "request_uptime_ms"
     addr_qos_tier_default;
   PB_LAST_FIELD].

Definition gdt_cct_QosTierConfiguration_fields : list pb_field_t :=
  [PB_FIELD 2 UENUM OPTIONAL STATIC FIRST gdt_cct_QosTierConfiguration "qos_tier" "qos_tier" 0;
   PB_FIELD 3 INT32 OPTIONAL STATIC OTHER gdt_cct_QosTierConfiguration "log_source" "qos_tier"
     addr_log_source_default;
   PB_LAST_FIELD].

Definition gdt_cct_QosTiersOverride_fields : list pb_field_t :=
  [PB_FIELD 1 MESSAGE REPEATED POINTER FIRST gdt_cct_QosTiersOverride "qos_tier_configuration"
     "qos_tier_configuration" addr_QosTierConfiguration;
   PB_FIELD 2 INT64 OPTIONAL STATIC OTHER gdt_cct_QosTiersOverride "qos_tier_fingerprint"
     "qos_tier_configuration" 0;
   PB_LAST_FIELD].

Definition gdt_cct_LogResponse_fields : list pb_field_t :=
  [PB_FIELD 1 INT64 OPTIONAL STATIC FIRST gdt_cct_LogResponse "next_request_wait_millis"
     "next_request_wait_millis" 0;
   PB_FIELD 3 MESSAGE OPTIONAL STATIC OTHER gdt_cct_LogResponse "qos_tier"
     "next_request_wait_millis" addr_QosTiersOverride;
   PB_LAST_FIELD].

Definition logs_proto_mobilesdk_ios_ICoreConfiguration_fields : list pb_field_t :=
  let st := logs_proto_mobilesdk_ios_ICoreConfiguration in
  [PB_FIELD 1 UENUM OPTIONAL STATIC FIRST st "configuration_type" "configuration_type" 0;
   PB_FIELD 7 UENUM REPEATED POINTER OTHER st "sdk_service_installed" "configuration_type" 0;
   PB_FIELD 9 BYTES OPTIONAL POINTER OTHER st "device_model" "sdk_service_installed" 0;
   PB_FIELD 10 BYTES OPTIONAL POINTER OTHER st "app_id" "device_model" 0;
   PB_FIELD 12 BYTES OPTIONAL POINTER OTHER st "bundle_id" "app_id" 0;
   PB_FIELD 16 UENUM OPTIONAL STATIC OTHER st "pod_name" "bundle_id" 0;
   PB_FIELD 18 BYTES OPTIONAL POINTER OTHER st "icore_version" "pod_name" 0;
   PB_FIELD 19 BYTES OPTIONAL POINTER OTHER st "sdk_version" "icore_version" 0;
   PB_FIELD 20 UENUM OPTIONAL STATIC OTHER st "sdk_name" "sdk_version" 0;
   PB_FIELD 21 INT32 OPTIONAL STATIC OTHER st "app_count" "sdk_name" 0;
   PB_FIELD 22 BYTES OPTIONAL POINTER OTHER st "os_version" "app_count" 0;
   PB_FIELD 24 BYTES OPTIONAL POINTER OTHER st "min_supported_ios_version" "os_version" 0;
   PB_FIELD 25 BOOL OPTIONAL STATIC OTHER st "use_default_app" "min_supported_ios_version" 0;
   PB_FIELD 26 BOOL OPTIONAL STATIC OTHER st "deployed_in_app_store" "use_default_app" 0;
   PB_FIELD 27 INT32 OPTIONAL STATIC OTHER st "dynamic_framework_count" "deployed_in_app_store" 0;
   PB_FIELD 28 BYTES OPTIONAL POINTER OTHER st "apple_framework_version" "dynamic_framework_count" 0;
   PB_FIELD 29 BOOL OPTIONAL STATIC OTHER st "using_zip_file" "apple_framework_version" 0;
   PB_FIELD 30 UENUM OPTIONAL STATIC OTHER st "deployment_type" "using_zip_file" 0;
   PB_FIELD 31 BYTES OPTIONAL POINTER OTHER st "platform_info" "deployment_type" 0;
   PB_FIELD 33 BOOL OPTIONAL STATIC OTHER st "swizzling_enabled" "platform_info" 0;
   PB_FIELD 36 BOOL OPTIONAL STATIC OTHER st "using_gdt" "swizzling_enabled" 0;
   PB_LAST_FIELD].

(** ** The program image *)
Definition descriptor_table : list (Z * struct_decl * list pb_field_t) :=
  [(addr_LogEvent, gdt_cct_LogEvent, gdt_cct_LogEvent_fields);
   (addr_NetworkConnectionInfo, gdt_cct_NetworkConnectionInfo, gdt_cct_NetworkConnectionInfo_fields);
   (addr_IosClientInfo, gdt_cct_IosClientInfo, gdt_cct_IosClientInfo_fields);
   (addr_ClientInfo, gdt_cct_ClientInfo, gdt_cct_ClientInfo_fields);
   (addr_BatchedLogRequest, gdt_cct_BatchedLogRequest, gdt_cct_BatchedLogRequest_fields);
   (addr_LogRequest, gdt_cct_LogRequest, gdt_cct_LogRequest_fields);
   (addr_QosTierConfiguration, gdt_cct_QosTierConfiguration, gdt_cct_QosTierConfiguration_fields);
   (addr_QosTiersOverride, gdt_cct_QosTiersOverride, gdt_cct_QosTiersOverride_fields);
   (addr_LogResponse, gdt_cct_LogResponse, gdt_cct_LogResponse_fields);
   (addr_ICoreConfiguration, logs_proto_mobilesdk_ios_ICoreConfiguration,
      logs_proto_mobilesdk_ios_ICoreConfiguration_fields)].

Fixpoint table_lookup (t : list (Z * struct_decl * list pb_field_t)) (p : Z) :
    option (list pb_field_t) :=
  match t with
  | [] => None
  | (a, _, fs) :: t' => if a =? p then Some fs else table_lookup t' p
  end.

#[export] Instance app_image : Image := {
  fields_at := table_lookup descriptor_table;
  ext_type_at _ := None
}.

Lemma table_lookup_forall (P : list pb_field_t -> bool) t p fs :
  forallb (fun e => P e.2) t = true -> table_lookup t p = Some fs -> P fs = true.
Proof.
  induction t as [|[[a st] g] t IH]; [done|]. cbn. intros [Hp Ht]%andb_true_iff.
  destruct (a =? p); [by intros [= <-]|by apply IH].
Qed.

Lemma app_image_ok : image_ok.
Proof.
  intros p fs Hp. apply descriptor_okb_spec.
  eapply (table_lookup_forall descriptor_okb); [|exact Hp]. by vm_compute.
Qed.

(** No message of the app nests more than four levels. *)
Lemma app_depth p fs : fields_at p = Some fs -> depth_ok 4 fs = true.
Proof. apply (table_lookup_forall (depth_ok 4)). by vm_compute. Qed.

(** ** Layout of the app's messages *)
Section Shift.
Context (fs : list pb_field_t).

(** Iterators over the same array at another address. *)
Definition shifted (d : Z) (it it' : pb_field_iter_t) : Prop :=
  pData it' = d + pData it /\
  match pSize it, pSize it' with
  | Mem a, Mem a' => a' = d + a
  | Local, Local => True
  | _, _ => False
  end.

Lemma field_at_shift dest k : shifted dest (field_at fs 0 k) (field_at fs dest k).
Proof.
  induction k as [|k IH]; cbn [field_at].
  - destruct (fs !! 0%nat); unfold shifted; cbn; [split; lia|split; [lia|done]].
  - destruct (fs !! k) as [prev|]; [|done]. destruct (fs !! S k) as [f|]; [|done].
    unfold advance. destruct (same_union prev f).
    + exact IH.
    + destruct IH as [IH _]. unfold shifted. cbn. split; [|lia].
      rewrite IH. lia.
Qed.
End Shift.

(** The member that holds the presence flag or the count of a field. *)
Definition size_member (f : pb_field_t) (m : string) : string :=
  if PB_HTYPE (type f) =? PB_HTYPE_REPEATED then _count m else has_ m.

(** Entry [k] of [fs] describes the member [names !! k] of [st]. *)
Definition entry_at (st : struct_decl) (fs : list pb_field_t) (dest : Z) (k : nat)
    (m : string) (f : pb_field_t) : Prop :=
  pData (field_at fs dest k) = dest + offsetof st m /\
  (size_offset f <> 0 ->
   pSize (field_at fs dest k) = Mem (dest + offsetof st (size_member f m))).

Definition entry_okb (st : struct_decl) (fs : list pb_field_t) (k : nat)
    (m : string) (f : pb_field_t) : bool :=
  (pData (field_at fs 0 k) =? offsetof st m) &&
  ((size_offset f =? 0) ||
   bool_decide (pSize (field_at fs 0 k) = Mem (offsetof st (size_member f m)))).

Fixpoint layout_okb (st : struct_decl) (fs : list pb_field_t) (k : nat)
    (names : list string) (rest : list pb_field_t) : bool :=
  match names, rest with
  | [], [_] => true
  | m :: names', f :: rest' => entry_okb st fs k m f && layout_okb st fs (S k) names' rest'
  | _, _ => false
  end.

Lemma entry_okb_spec st fs k m f dest :
  entry_okb st fs k m f = true -> entry_at st fs dest k m f.
Proof.
  unfold entry_okb, entry_at. intros [Hd Hs]%andb_true_iff.
  pose proof (field_at_shift fs dest k) as [Hp Hz]. split; [lia|]. intros Hne.
  apply orb_true_iff in Hs as [|Hs]; [lia|]. apply bool_decide_eq_true in Hs.
  rewrite Hs in Hz. destruct (pSize (field_at fs dest k)) as [a|]; [|done]. by rewrite Hz.
Qed.

Lemma layout_okb_spec st fs names rest k0 :
  layout_okb st fs k0 names rest = true ->
  length rest = S (length names) /\
  forall i m f dest, names !! i = Some m -> rest !! i = Some f ->
    entry_at st fs dest (k0 + i) m f.
Proof.
  revert k0 rest. induction names as [|m names IH]; intros k0 [|f rest]; try done.
  - by destruct rest.
  - cbn [layout_okb]. intros [He Hl]%andb_true_iff. destruct (IH _ _ Hl) as [H1 H2].
    split; [cbn; lia|]. intros [|i] m' f' dest; cbn.
    + intros [= <-] [= <-]. rewrite Nat.add_0_r. by apply entry_okb_spec.
    + intros Hm Hf. rewrite Nat.add_succ_r. by apply (H2 i m' f').
Qed.

(** The members of each message, in descriptor order. *)
Definition message_members : list (struct_decl * list pb_field_t * list string) :=
  [(gdt_cct_LogEvent, gdt_cct_LogEvent_fields,
    ["event_time_ms"; "source_extension"; "event_code"; "timezone_offset_seconds";
     "event_uptime_ms"; "network_connection_info"]);
   (gdt_cct_NetworkConnectionInfo, gdt_cct_NetworkConnectionInfo_fields,
    ["network_type"; "mobile_subtype"]);
   (gdt_cct_IosClientInfo, gdt_cct_IosClientInfo_fields,
    ["os_major_version"; "os_full_version"; "application_build"; "country"; "model";
     "language_code"; "application_bundle_id"]);
   (gdt_cct_ClientInfo, gdt_cct_ClientInfo_fields, ["client_type"; "ios_client_info"]);
   (gdt_cct_BatchedLogRequest, gdt_cct_BatchedLogRequest_fields, ["log_request"]);
   (gdt_cct_LogRequest, gdt_cct_LogRequest_fields,
    ["client_info"; "log_source"; "log_event"; "request_time_ms"; "request_uptime_ms";
     "qos_tier"]);
   (gdt_cct_QosTierConfiguration, gdt_cct_QosTierConfiguration_fields,
    ["qos_tier"; "log_source"]);
   (gdt_cct_QosTiersOverride, gdt_cct_QosTiersOverride_fields,
    ["qos_tier_configuration"; "qos_tier_fingerprint"]);
   (gdt_cct_LogResponse, gdt_cct_LogResponse_fields,
    ["next_request_wait_millis"; "qos_tier"]);
   (logs_proto_mobilesdk_ios_ICoreConfiguration,
    logs_proto_mobilesdk_ios_ICoreConfiguration_fields,
    ["configuration_type"; "sdk_service_installed"; "device_model"; "app_id"; "bundle_id";
     "pod_name"; "icore_version"; "sdk_version"; "sdk_name"; "app_count"; "os_version";
     "min_supported_ios_version"; "use_default_app"; "deployed_in_app_store";
     "dynamic_framework_count"; "apple_framework_version"; "using_zip_file";
     "deployment_type"; "platform_info"; "swizzling_enabled"; "using_gdt"])].

Lemma message_members_ok st fs names :
  In (st, fs, names) message_members -> layout_okb st fs 0 names fs = true.
Proof.
  assert (Hall : forallb (fun e => layout_okb e.1.1 e.1.2 0 e.2 e.1.2) message_members = true)
    by (by vm_compute).
  intros Hin. rewrite forallb_forall in Hall. exact (Hall _ Hin).
Qed.

Lemma message_members_nonempty :
  forall st fs names, In (st, fs, names) message_members -> names <> [].
Proof.
  assert (Hall : forallb (fun e => negb (bool_decide (e.2 = []))) message_members = true)
    by (by vm_compute).
  intros st fs names Hin. rewrite forallb_forall in Hall. specialize (Hall _ Hin). cbn in Hall.
  by case_bool_decide.
Qed.
