(* ===== verification/RoundTrip.v ===== *)
(** * Decoding what was encoded

    [holds s bs]: the next bytes of the buffer stream in [s] are [bs].  The
    primitive decoders of IStream, run on the wire format of Wire, return the
    encoded value and consume exactly its bytes. *)
From S2P Require Import Prelude Base128 Types Mem OStream IStream Wire.

(** ** Feeding a stream *)
Definition holds (s : dstate) (bs : list Z) : Prop :=
  exists rest, source (istream s) = IBuf (bs ++ rest) /\
    zlen bs <= bytes_left (istream s) < 2 ^ 64.

Definition consumed (k : Z) (s : dstate) : dstate :=
  with_istream
    (mk_istream (match source (istream s) with
                 | IBuf r => IBuf (drop (Z.to_nat k) r)
                 | u => u
                 end) (bytes_left (istream s) - k) (i_errmsg (istream s))) s.

Lemma consumed_consumed a b s :
  0 <= a -> 0 <= b -> consumed b (consumed a s) = consumed (a + b) s.
Proof.
  intros. destruct s as [m [[r|p] n e] l]; unfold consumed, with_istream; cbn; f_equal; f_equal; try lia.
  rewrite drop_drop. f_equal. f_equal. lia.
Qed.

Lemma consumed_0 s : consumed 0 s = s.
Proof. destruct s as [m [[r|p] n e] l]; unfold consumed, with_istream; cbn; f_equal; f_equal; lia. Qed.

Lemma holds_nonneg s bs : holds s bs -> 0 <= bytes_left (istream s) < 2 ^ 64.
Proof. intros (rest & _ & ?). pose proof (zlen_nonneg bs). lia. Qed.

Lemma holds_consumed s l bs : holds s (l ++ bs) -> holds (consumed (zlen l) s) bs.
Proof.
  intros (rest & Hs & Hl). rewrite zlen_app in Hl. pose proof (zlen_nonneg l).
  exists rest. unfold consumed. cbn. rewrite Hs. split; [|lia]. unfold zlen. rewrite Nat2Z.id.
  by rewrite <- app_assoc, drop_app_length.
Qed.

Lemma holds_prefix s l bs : holds s (l ++ bs) -> holds s l.
Proof.
  intros (rest & Hs & Hl). rewrite zlen_app in Hl. pose proof (zlen_nonneg bs).
  exists (bs ++ rest). rewrite app_assoc. split; [done|lia].
Qed.

Section Reading.
Context `{ReadCallback}.

Lemma read_now_holds s l bs :
  holds s (l ++ bs) -> read_now false (zlen l) s = Ok (Some l, consumed (zlen l) s).
Proof.
  intros (rest & Hs & Hl). rewrite zlen_app in Hl.
  pose proof (zlen_nonneg l). pose proof (zlen_nonneg bs).
  destruct s as [m [src n e] lc]. cbn in Hs, Hl. subst src.
  unfold read_now, left, bind, call_read, buf_read. cbn.
  destruct (Z.ltb_spec n (zlen l)); [lia|]. cbn. rewrite <- app_assoc.
  destruct (Z.ltb_spec (zlen (l ++ bs ++ rest)) (zlen l)); [rewrite zlen_app in *; pose proof (zlen_nonneg (bs ++ rest)); lia|].
  cbn. rewrite wrap_small by lia. unfold consumed. cbn.
  unfold zlen at 1. rewrite Nat2Z.id, take_app_length. done.
Qed.

Lemma read_holds s l bs :
  holds s (l ++ bs) -> pb_read false (zlen l) s = Ok (Some l, consumed (zlen l) s).
Proof.
  intros Hs. unfold pb_read. destruct (Z.eqb_spec (zlen l) 0) as [Hz|].
  - destruct l; [|rewrite zlen_cons in Hz; pose proof (zlen_nonneg l); lia].
    rewrite zlen_nil, consumed_0. done.
  - rewrite (bind_Ok get _ s s s) by done. cbn [andb]. by apply (read_now_holds s l bs).
Qed.

(** Skipping the same bytes. *)
Lemma skip_holds s l bs :
  holds s (l ++ bs) -> pb_read true (zlen l) s = Ok (Some [], consumed (zlen l) s).
Proof.
  intros Hs. unfold pb_read. destruct (Z.eqb_spec (zlen l) 0) as [Hz|].
  - destruct l; [|rewrite zlen_cons in Hz; pose proof (zlen_nonneg l); lia].
    rewrite zlen_nil, consumed_0. done.
  - rewrite (bind_Ok get _ s s s) by done.
    destruct Hs as (rest & Hs & Hl). rewrite zlen_app in Hl. rewrite Hs. cbn [is_buf negb andb].
    pose proof (zlen_nonneg l). pose proof (zlen_nonneg bs).
    destruct s as [m [src n' e] lc]. cbn in Hs, Hl. subst src.
    unfold read_now, left, bind, call_read, buf_read. cbn.
    destruct (Z.ltb_spec n' (zlen l)); [lia|]. cbn. rewrite <- app_assoc.
    destruct (Z.ltb_spec (zlen (l ++ bs ++ rest)) (zlen l)); [rewrite zlen_app in *; pose proof (zlen_nonneg (bs ++ rest)); lia|].
    cbn. rewrite wrap_small by lia. done.
Qed.

Lemma readbyte_holds s b bs :
  holds s (b :: bs) -> pb_readbyte s = Ok (Some b, consumed 1 s).
Proof.
  intros (rest & Hs & Hl). rewrite zlen_cons in Hl. pose proof (zlen_nonneg bs).
  destruct s as [m [src n e] lc]. cbn in Hs, Hl. subst src.
  unfold pb_readbyte, left, bind, call_read, buf_read. cbn.
  destruct (Z.eqb_spec n 0); [lia|]. cbn.
  destruct (Z.ltb_spec (zlen (b :: bs ++ rest)) 1); [rewrite zlen_cons in *; pose proof (zlen_nonneg (bs ++ rest)); lia|].
  cbn. rewrite wrap_small by lia. done.
Qed.

Lemma holds_cons s b bs : holds s (b :: bs) -> holds (consumed 1 s) bs.
Proof. apply (holds_consumed s [b] bs). Qed.
End Reading.

(** ** Bytes of a varint *)
Lemma byte_cases (P : Z -> bool) :
  forallb P (map Z.of_nat (seq 0 256)) = true -> forall b, 0 <= b < 256 -> P b = true.
Proof.
  rewrite forallb_forall. intros Hall b Hb. apply Hall. apply in_map_iff.
  exists (Z.to_nat b). split; [lia|]. apply in_seq. lia.
Qed.

Lemma high_bit b : 0 <= b < 256 -> (Z.land b 0x80 =? 0) = (b <? 128).
Proof.
  intros Hb. apply eqb_prop.
  by apply (byte_cases (fun b => eqb (Z.land b 0x80 =? 0) (b <? 128))).
Qed.

Lemma low_bits b : 0 <= b < 128 -> Z.land (128 + b) 0x7F = b.
Proof.
  intros Hb. rewrite land_127. replace (128 + b) with (b + 1 * 128) by lia.
  by rewrite Z.mod_add, Z.mod_small by lia.
Qed.

Lemma or_shifted w r v p :
  0 <= p <= w -> 0 <= r < 2 ^ p -> 0 <= v < 2 ^ (w - p) ->
  Z.lor r (wrap w (Z.shiftl v p)) = r + v * 2 ^ p.
Proof.
  intros Hp Hr Hv. rewrite wrap_small; [by apply lor_shiftl_add; lia|].
  rewrite Z.shiftl_mul_pow2 by lia. split; [lia|].
  replace w with ((w - p) + p) by lia. rewrite Z.pow_add_r by lia.
  apply Z.mul_lt_mono_pos_r; lia.
Qed.

(** The next group: the accumulated value and the bound on the rest. *)
Lemma group_step r v p :
  0 <= p -> 0 <= r < 2 ^ p -> 0 <= v ->
  0 <= r + v mod 128 * 2 ^ p < 2 ^ (p + 7) /\
  r + v mod 128 * 2 ^ p + v / 128 * 2 ^ (p + 7) = r + v * 2 ^ p.
Proof.
  intros Hp Hr Hv. pose proof (Z.mod_pos_bound v 128 ltac:(lia)).
  rewrite Z.pow_add_r by lia. change (2 ^ 7) with 128.
  pose proof (Z.div_mod v 128 ltac:(lia)) as Hdm.
  set (q := v / 128) in *. set (t := v mod 128) in *. nia.
Qed.

Lemma div_128_bound v k : 0 <= v < 2 ^ k -> 7 <= k -> 0 <= v / 128 < 2 ^ (k - 7).
Proof.
  intros Hv Hk. split; [apply Z.div_pos; lia|]. apply Z.div_lt_upper_bound; [lia|].
  change 128 with (2 ^ 7). rewrite <- Z.pow_add_r by lia. replace (7 + (k - 7)) with k by lia. lia.
Qed.

Lemma mod_128_bound v k : 0 <= v < 2 ^ k -> 0 <= k -> 0 <= v mod 128 < 2 ^ k.
Proof.
  intros Hv Hk. pose proof (Z.mod_pos_bound v 128 ltac:(lia)).
  pose proof (Z.mod_le v 128 ltac:(lia) ltac:(lia)). lia.
Qed.

Section Varint.
Context `{ReadCallback}.

Lemma varint_loop64_holds n v r p s fuel :
  0 <= p <= 63 -> 0 <= r < 2 ^ p -> 0 <= v < 2 ^ (64 - p) -> v < 2 ^ (7 * Z.of_nat n) ->
  (n < fuel)%nat -> (0 < n)%nat ->
  holds s (varint_n n v) ->
  varint_loop64 fuel r p s = Ok (Some (r + v * 2 ^ p), consumed (zlen (varint_n n v)) s).
Proof.
  revert v r p s fuel. induction n as [|n IH]; intros v r p s [|fuel] Hp Hr Hv Hn Hf H0 Hs; try lia.
  rewrite varint_n_cons in *. cbn [varint_loop64]. destruct (Z.leb_spec 64 p); [lia|].
  destruct (Z.ltb_spec v 128) as [Hlt|Hge].
  - rewrite (bind_Ok _ _ _ _ _ (readbyte_holds s v [] Hs)).
    rewrite high_bit by lia. destruct (Z.ltb_spec v 128); [|lia]. cbn [negb].
    rewrite land_127, Z.mod_small by lia. rewrite or_shifted by lia. done.
  - rewrite (bind_Ok _ _ _ _ _ (readbyte_holds s _ _ Hs)).
    pose proof (Z.mod_pos_bound v 128 ltac:(lia)).
    rewrite high_bit by lia. destruct (Z.ltb_spec (128 + v mod 128) 128); [lia|]. cbn [negb].
    rewrite low_bits by lia.
    assert (Hp7 : p <= 56).
    { destruct (Z.leb_spec p 56); [done|]. exfalso.
      assert (2 ^ (64 - p) <= 2 ^ 7) by (apply Z.pow_le_mono_r; lia). lia. }
    rewrite or_shifted by (try lia; apply mod_128_bound; lia).
    destruct (group_step r v p ltac:(lia) Hr ltac:(lia)) as [Hb He].
    rewrite wrap_small by lia.
    assert (Hn0 : (0 < n)%nat).
    { destruct n; [|lia]. cbn in Hn. lia. }
    rewrite (IH (v / 128)) with (fuel := fuel); [|lia|done| | |lia|done|by eapply holds_cons].
    + rewrite He, zlen_cons, consumed_consumed by (try lia; apply zlen_nonneg). done.
    + replace (64 - (p + 7)) with (64 - p - 7) by lia. apply div_128_bound; lia.
    + replace (7 * Z.of_nat n) with (7 * Z.of_nat (S n) - 7) by lia.
      apply (div_128_bound v (7 * Z.of_nat (S n))); lia.
Qed.

Lemma decode_varint_holds v s :
  0 <= v < 2 ^ 64 -> holds s (varint v) ->
  pb_decode_varint s = Ok (Some v, consumed (zlen (varint v)) s).
Proof.
  intros Hv Hs. unfold pb_decode_varint.
  rewrite (varint_loop64_holds 10 v 0 0 s 11); [|lia..|done].
  do 4 f_equal. lia.
Qed.

Lemma svarint_value v : - 2 ^ 63 <= v < 2 ^ 63 ->
  (if negb (Z.land (zigzag v) 1 =? 0)
   then swrap 64 (wrap 64 (Z.lnot (Z.shiftr (zigzag v) 1)))
   else swrap 64 (Z.shiftr (zigzag v) 1)) = v.
Proof.
  intros Hv. change 1 with (Z.ones 1) at 1. rewrite Z.land_ones, shiftr_div by lia.
  change (2 ^ 1) with 2. unfold zigzag. destruct (Z.ltb_spec v 0).
  - replace (-2 * v - 1) with (1 + (- v - 1) * 2) by lia.
    rewrite Z.mod_add, Z.div_add by lia. cbn [Z.modulo Z.eqb negb]. change (1 mod 2 =? 0) with false.
    cbn [negb]. change (1 / 2) with 0. rewrite swrap_wrap by lia.
    unfold Z.lnot. rewrite swrap_small by lia. lia.
  - replace (2 * v) with (v * 2) by lia. rewrite Z.mod_mul, Z.div_mul by lia. cbn [Z.eqb negb].
    by apply swrap_small; lia.
Qed.

Lemma decode_svarint_holds v s :
  - 2 ^ 63 <= v < 2 ^ 63 -> holds s (varint (zigzag v)) ->
  pb_decode_svarint s = Ok (Some v, consumed (zlen (varint (zigzag v))) s).
Proof.
  intros Hv Hs. unfold pb_decode_svarint.
  assert (Hz : 0 <= zigzag v < 2 ^ 64) by (unfold zigzag; destruct (v <? 0) eqn:E; lia).
  rewrite (bind_Ok _ _ _ _ _ (decode_varint_holds _ _ Hz Hs)). cbn.
  pose proof (svarint_value v Hv) as Hval.
  by destruct (negb (Z.land (zigzag v) 1 =? 0)); rewrite Hval.
Qed.
End Varint.

(** ** 32-bit varints *)
Section Varint32.
Context `{ReadCallback}.

Lemma bytes_left_holds s bs : holds s bs -> zlen bs <= bytes_left (istream s).
Proof. by intros (rest & _ & ? & _). Qed.

(** The loop from the second group on, for a value of at most 32 bits. *)
Lemma varint32_loop_holds n v r p s fuel :
  7 <= p <= 28 -> (exists k, p = 7 * k) -> 0 <= r < 2 ^ p -> 0 < v < 2 ^ (32 - p) -> v < 2 ^ (7 * Z.of_nat n) ->
  (length (varint_n n v) <= fuel)%nat ->
  holds s (varint_n n v) ->
  varint32_loop fuel r p s = Ok (Some (r + v * 2 ^ p), consumed (zlen (varint_n n v)) s).
Proof.
  revert v r p s fuel. induction n as [|n IH]; intros v r p s fuel Hp [k H7] Hr Hv Hn Hf Hs;
    [simpl in Hn; lia|].
  rewrite varint_n_cons in *. destruct fuel as [|fuel]; [destruct (v <? 128); simpl in Hf; lia|].
  cbn [varint32_loop].
  destruct (Z.ltb_spec v 128) as [Hlt|Hge].
  - rewrite (bind_Ok _ _ _ _ _ (readbyte_holds s v [] Hs)). cbv zeta.
    destruct (Z.leb_spec 32 p); [lia|]. cbn [andb].
    rewrite high_bit by lia. destruct (Z.ltb_spec v 128); [|lia]. cbn [negb].
    rewrite land_127, Z.mod_small by lia. rewrite or_shifted by lia. rewrite wrap_small by lia.
    assert (Hno : (p + 7 =? 35) && negb (Z.land v 0x70 =? 0) = false).
    { destruct (Z.eqb_spec (p + 7) 35) as [Hp28|]; [|done]. cbn [andb].
      assert (v < 16) by (replace (32 - p) with 4 in Hv by lia; lia).
      apply negb_false_iff.
      pose proof (byte_cases (fun v => (16 <=? v) || (Z.land v 0x70 =? 0)) ltac:(by vm_compute) v ltac:(lia)) as Hb.
      apply orb_true_iff in Hb as [|]; [lia|done]. }
    rewrite Hno. done.
  - rewrite (bind_Ok _ _ _ _ _ (readbyte_holds s _ _ Hs)). cbv zeta.
    destruct (Z.leb_spec 32 p); [lia|]. cbn [andb].
    pose proof (Z.mod_pos_bound v 128 ltac:(lia)).
    rewrite high_bit by lia. destruct (Z.ltb_spec (128 + v mod 128) 128); [lia|]. cbn [negb].
    rewrite low_bits by lia.
    assert (Hp21 : p <= 21).
    { destruct (Z.leb_spec p 24); [lia|]. exfalso.
      assert (2 ^ (32 - p) <= 2 ^ 7) by (apply Z.pow_le_mono_r; lia). lia. }
    rewrite or_shifted by (try lia; apply mod_128_bound; lia).
    destruct (group_step r v p ltac:(lia) Hr ltac:(lia)) as [Hb He].
    rewrite wrap_small by lia.
    rewrite (IH (v / 128)) with (fuel := fuel); [|lia|exists (k + 1); lia|done| | |simpl in Hf; lia|by eapply holds_cons].
    + rewrite He, zlen_cons, consumed_consumed by (try lia; apply zlen_nonneg). done.
    + split; [apply Z.div_str_pos; lia|]. replace (32 - (p + 7)) with (32 - p - 7) by lia.
      apply div_128_bound; lia.
    + replace (7 * Z.of_nat n) with (7 * Z.of_nat (S n) - 7) by lia.
      apply (div_128_bound v (7 * Z.of_nat (S n))); lia.
Qed.

Lemma varint_head_big v : 128 <= v -> varint v = (128 + v mod 128) :: varint_n 9 (v / 128).
Proof. intros. unfold varint. rewrite varint_n_cons. destruct (Z.ltb_spec v 128); [lia|done]. Qed.

Lemma varint_head_small v : v < 128 -> varint v = [v].
Proof. intros. unfold varint. rewrite varint_n_cons. destruct (Z.ltb_spec v 128); [done|lia]. Qed.

Lemma decode_varint32_eof_holds v s :
  0 <= v < 2 ^ 32 -> holds s (varint v) ->
  pb_decode_varint32_eof s = Ok ((Some v, false), consumed (zlen (varint v)) s).
Proof.
  intros Hv Hs. unfold pb_decode_varint32_eof.
  destruct (Z.ltb_spec v 128) as [Hlt|Hge].
  - rewrite varint_head_small in * by done.
    rewrite (bind_Ok _ _ _ _ _ (readbyte_holds s v [] Hs)).
    rewrite high_bit by lia. by destruct (Z.ltb_spec v 128); [|lia].
  - rewrite varint_head_big in * by done.
    rewrite (bind_Ok _ _ _ _ _ (readbyte_holds s _ _ Hs)).
    pose proof (Z.mod_pos_bound v 128 ltac:(lia)).
    rewrite high_bit by lia. destruct (Z.ltb_spec (128 + v mod 128) 128); [lia|].
    rewrite low_bits by lia. apply holds_cons in Hs as Hs1.
    rewrite (bind_Ok left _ _ (bytes_left (istream (consumed 1 s))) (consumed 1 s)) by done.
    pose proof (bytes_left_holds _ _ Hs1) as Hbl. pose proof (zlen_nonneg (varint_n 9 (v / 128))).
    pose proof (div_128_bound v 32 ltac:(lia) ltac:(lia)).
    assert (Hq : 0 < v / 128) by (apply Z.div_str_pos; lia).
    assert (Hl9 : v / 128 < 2 ^ (7 * Z.of_nat 9)) by (change (7 * Z.of_nat 9) with 63; lia).
    pose proof (varint32_loop_holds 9 (v / 128) (v mod 128) 7 (consumed 1 s)
      (S (Z.to_nat (bytes_left (istream (consumed 1 s))))) ltac:(lia)
      (ex_intro _ 1 eq_refl) ltac:(lia) ltac:(lia) Hl9 ltac:(unfold zlen in *; lia) Hs1) as Hloop.
    rewrite (bind_Ok _ _ _ _ _ Hloop).
    rewrite zlen_cons, consumed_consumed by lia. cbn [ret].
    pose proof (Z.div_mod v 128 ltac:(lia)).
    by replace (v mod 128 + v / 128 * 2 ^ 7) with v by lia.
Qed.

Lemma decode_varint32_holds v s :
  0 <= v < 2 ^ 32 -> holds s (varint v) ->
  pb_decode_varint32 s = Ok (Some v, consumed (zlen (varint v)) s).
Proof.
  intros Hv Hs. unfold pb_decode_varint32.
  by rewrite (bind_Ok _ _ _ _ _ (decode_varint32_eof_holds v s Hv Hs)).
Qed.

(** ** Tags *)
Lemma decode_tag_holds wt tg s :
  0 < tg < 2 ^ 29 -> 0 <= wt < 8 -> holds s (wire_key wt tg) ->
  pb_decode_tag s = Ok (mk_tag true wt tg false, consumed (zlen (wire_key wt tg)) s).
Proof.
  intros Ht Hw Hs. unfold pb_decode_tag, wire_key in *.
  rewrite (bind_Ok _ _ _ _ _ (decode_varint32_eof_holds (8 * tg + wt) s ltac:(lia) Hs)).
  destruct (Z.eqb_spec (8 * tg + wt) 0); [lia|].
  change 7 with (Z.ones 3). rewrite Z.land_ones, shiftr_div by lia. change (2 ^ 3) with 8.
  replace (8 * tg + wt) with (wt + tg * 8) by lia.
  by rewrite Z.mod_add, Z.div_add, Z.mod_small, Z.div_small, Z.add_0_l by lia.
Qed.

(** ** Skipping *)
Lemma skip_varint_loop_holds n v s fuel :
  0 <= v < 2 ^ (7 * Z.of_nat n) -> (0 < n)%nat ->
  (length (varint_n n v) <= fuel)%nat -> holds s (varint_n n v) ->
  skip_varint_loop fuel s = Ok (true, consumed (zlen (varint_n n v)) s).
Proof.
  revert v s fuel. induction n as [|n IH]; intros v s fuel Hv Hn Hf Hs; [lia|].
  rewrite varint_n_cons in *. destruct fuel as [|fuel]; [destruct (v <? 128); simpl in Hf; lia|].
  cbn [skip_varint_loop]. destruct (Z.ltb_spec v 128) as [Hlt|Hge].
  - pose proof (read_holds s [v] [] Hs) as Hr. change (zlen [v]) with 1 in *.
    rewrite (bind_Ok _ _ _ _ _ Hr). cbv beta iota. rewrite high_bit by lia.
    by destruct (Z.ltb_spec v 128); [|lia].
  - pose proof (read_holds s [128 + v mod 128] _ Hs) as Hr.
    change (zlen [128 + v mod 128]) with 1 in *.
    rewrite (bind_Ok _ _ _ _ _ Hr). cbv beta iota.
    pose proof (Z.mod_pos_bound v 128 ltac:(lia)).
    rewrite high_bit by lia. destruct (Z.ltb_spec (128 + v mod 128) 128); [lia|]. cbn [negb].
    assert (Hn0 : (0 < n)%nat) by (destruct n; [cbn in Hv; lia|lia]).
    rewrite (IH (v / 128)); [|..|by eapply holds_cons]; [|idtac|done|simpl in Hf; lia].
    + rewrite zlen_cons, consumed_consumed by (try lia; apply zlen_nonneg). done.
    + replace (7 * Z.of_nat n) with (7 * Z.of_nat (S n) - 7) by lia.
      apply div_128_bound; lia.
Qed.

Lemma skip_varint_holds v s :
  0 <= v < 2 ^ 64 -> holds s (varint v) ->
  pb_skip_varint s = Ok (true, consumed (zlen (varint v)) s).
Proof.
  intros Hv Hs. unfold pb_skip_varint.
  rewrite (bind_Ok left _ _ (bytes_left (istream s)) s) by done.
  apply (skip_varint_loop_holds 10 v s); [|lia| |done].
  - change (2 ^ (7 * Z.of_nat 10)) with (2 ^ 70). lia.
  - pose proof (bytes_left_holds _ _ Hs). unfold varint, zlen in *. lia.
Qed.

Lemma skip_bytes_holds l s :
  holds s l -> pb_skip_bytes (zlen l) s = Ok (true, consumed (zlen l) s).
Proof.
  intros Hs. unfold pb_skip_bytes. rewrite <- (app_nil_r l) in Hs.
  by rewrite (bind_Ok _ _ _ _ _ (skip_holds s l [] Hs)).
Qed.

Lemma skip_string_holds w s :
  zlen w < 2 ^ 32 -> holds s (framed w) ->
  pb_skip_string s = Ok (true, consumed (zlen (framed w)) s).
Proof.
  intros Hw Hs. unfold pb_skip_string, framed in *. pose proof (zlen_nonneg w).
  rewrite (bind_Ok _ _ _ _ _ (decode_varint32_holds (zlen w) s ltac:(lia) (holds_prefix _ _ _ Hs))).
  cbv beta iota. apply holds_consumed in Hs.
  assert (Hs' : holds (consumed (zlen (varint (zlen w))) s) (w ++ [])) by (by rewrite app_nil_r).
  rewrite (bind_Ok _ _ _ _ _ (skip_holds _ w [] Hs')). cbn [ret].
  rewrite zlen_app, consumed_consumed by (apply zlen_nonneg). done.
Qed.
End Varint32.

(** ** Fixed-width integers *)
Lemma or_bytes_spec w bs k :
  bytes bs -> 0 <= k -> k + 8 * zlen bs <= w ->
  or_bytes w k bs = of_le bs * 2 ^ k.
Proof.
  revert k. induction bs as [|b bs IH]; intros k Hb Hk Hw; [done|].
  inversion Hb as [|?? Hb0 Hbs]; subst. rewrite zlen_cons in Hw. pose proof (zlen_nonneg bs).
  cbn [or_bytes of_le]. rewrite IH by (done || lia). unfold is_byte in Hb0.
  assert (Hbound : b * 2 ^ k < 2 ^ (k + 8)) by (rewrite Z.pow_add_r by lia; nia).
  rewrite wrap_small.
  - rewrite Z.shiftl_mul_pow2 by lia.
    replace (of_le bs * 2 ^ (k + 8)) with (Z.shiftl (of_le bs) (k + 8))
      by (rewrite Z.shiftl_mul_pow2 by lia; done).
    rewrite lor_shiftl_add by lia. rewrite Z.pow_add_r by lia. change (2 ^ 8) with 256. lia.
  - rewrite Z.shiftl_mul_pow2 by lia. split; [lia|]. eapply Z.lt_le_trans; [exact Hbound|].
    apply Z.pow_le_mono_r; lia.
Qed.

Section Fixed.
Context `{ReadCallback}.

Lemma store_of_le m dest bs :
  bytes bs -> store m dest (zlen bs) (of_le bs) = store_bytes m dest bs.
Proof. intros Hb. unfold store, zlen. by rewrite Nat2Z.id, le_bytes_of_le. Qed.

(** [pb_decode_fixed32] copies four bytes to [dest]. *)
Lemma decode_fixed32_holds bs dest s m' :
  bytes bs -> zlen bs = 4 -> holds s bs -> store_bytes (dmem s) dest bs = Some m' ->
  pb_decode_fixed32 dest s = Ok (true, with_mem m' (consumed 4 s)).
Proof.
  intros Hb Hl Hs Hm. unfold pb_decode_fixed32. rewrite <- (app_nil_r bs) in Hs.
  pose proof (read_holds s bs [] Hs) as Hr. rewrite Hl in Hr.
  rewrite (bind_Ok _ _ _ _ _ Hr). cbv beta iota. unfold bind, upd_mem.
  change (dmem (consumed 4 s)) with (dmem s).
  rewrite or_bytes_spec by (done || lia). rewrite Z.mul_1_r, <- Hl at 1.
  by rewrite store_of_le, Hm.
Qed.

Lemma decode_fixed64_holds bs dest s m' :
  bytes bs -> zlen bs = 8 -> holds s bs -> store_bytes (dmem s) dest bs = Some m' ->
  pb_decode_fixed64 dest s = Ok (true, with_mem m' (consumed 8 s)).
Proof.
  intros Hb Hl Hs Hm. unfold pb_decode_fixed64. rewrite <- (app_nil_r bs) in Hs.
  pose proof (read_holds s bs [] Hs) as Hr. rewrite Hl in Hr.
  rewrite (bind_Ok _ _ _ _ _ Hr). cbv beta iota. unfold bind, upd_mem.
  change (dmem (consumed 8 s)) with (dmem s).
  rewrite or_bytes_spec by (done || lia). rewrite Z.mul_1_r, <- Hl at 1.
  by rewrite store_of_le, Hm.
Qed.

(** Copying bytes from the stream to memory. *)
Lemma read_to_holds l bs dest s m' :
  holds s (l ++ bs) -> store_bytes (dmem s) dest l = Some m' ->
  pb_read_to dest (zlen l) s = Ok (true, with_mem m' (consumed (zlen l) s)).
Proof.
  intros Hs Hm. unfold pb_read_to.
  rewrite (bind_Ok _ _ _ _ _ (read_holds s l bs Hs)). cbv beta iota. unfold bind, upd_mem.
  change (dmem (consumed (zlen l) s)) with (dmem s). by rewrite Hm.
Qed.
End Fixed.
