(* ===== verification/Values.v ===== *)
(** * Values stored by the scalar decoders

    What each scalar decoder stores and returns when the stream holds the
    encoding of a value: the integers and their range checks, and the
    length-delimited strings and byte arrays with their size limits. *)
From S2P Require Import Prelude Base128 Types Mem OStream IStream Wire Decode RoundTrip.

(** ** Storing integers *)
Section Store.
Context `{ReadCallback}.

Definition int_width (n : Z) : bool := (n =? 1) || (n =? 2) || (n =? 4) || (n =? 8).

Lemma store_checked_width cast n dest v s m' :
  int_width n = true -> store (dmem s) dest n (cast (8 * n) v) = Some m' ->
  if cast (8 * n) v =? v
  then store_checked cast n dest v s = Ok (true, with_mem m' s)
  else exists s', store_checked cast n dest v s = Ok (false, s') /\ dmem s' = m'.
Proof.
  unfold int_width. intros Hn Hm.
  assert (Hput : store_int cast n dest v s = Ok (Some (cast (8 * n) v), with_mem m' s)).
  { unfold store_int, upd_mem, bind.
    assert (n = 1 \/ n = 2 \/ n = 4 \/ n = 8) as [-> | [-> | [-> | ->]]] by lia;
      cbn [Z.eqb Pos.eqb]; by rewrite Hm. }
  unfold store_checked. rewrite (bind_Ok _ _ _ _ _ Hput).
  destruct (_ =? v); cbn; [done|]. by eexists.
Qed.

Lemma store_checked_bad cast n dest v s :
  int_width n = false ->
  exists s', store_checked cast n dest v s = Ok (false, s') /\ dmem s' = dmem s.
Proof.
  unfold int_width. rewrite !orb_false_iff. intros (((H1 & H2) & H4) & H8).
  unfold store_checked, store_int, bind. rewrite H8, H4, H2, H1. cbn. by eexists.
Qed.

(** The integer a decoder hands to [store_checked]. *)
Definition svalue (n v : Z) : Z := if n =? 8 then swrap 64 v else swrap 32 v.

Lemma dec_uvarint_holds f v dest s :
  0 <= v < 2 ^ 64 -> holds s (varint v) ->
  pb_dec_uvarint f dest s =
    store_checked wrap (data_size f) dest v (consumed (zlen (varint v)) s).
Proof.
  intros Hv Hs. unfold pb_dec_uvarint.
  by rewrite (bind_Ok _ _ _ _ _ (decode_varint_holds v s Hv Hs)).
Qed.

Lemma dec_varint_holds f v dest s :
  0 <= v < 2 ^ 64 -> holds s (varint v) ->
  pb_dec_varint f dest s =
    store_checked swrap (data_size f) dest (svalue (data_size f) v)
      (consumed (zlen (varint v)) s).
Proof.
  intros Hv Hs. unfold pb_dec_varint.
  by rewrite (bind_Ok _ _ _ _ _ (decode_varint_holds v s Hv Hs)).
Qed.

Lemma dec_svarint_holds f v dest s :
  - 2 ^ 63 <= v < 2 ^ 63 -> holds s (varint (zigzag v)) ->
  pb_dec_svarint f dest s =
    store_checked swrap (data_size f) dest v (consumed (zlen (varint (zigzag v))) s).
Proof.
  intros Hv Hs. unfold pb_dec_svarint.
  by rewrite (bind_Ok _ _ _ _ _ (decode_svarint_holds v s Hv Hs)).
Qed.

Lemma wrap_eq_iff w v : 0 <= w -> 0 <= v -> (wrap w v =? v) = (v <? 2 ^ w).
Proof.
  intros Hw Hv. destruct (Z.ltb_spec v (2 ^ w)).
  - rewrite wrap_small by lia. lia.
  - pose proof (wrap_range w v Hw). lia.
Qed.

Lemma swrap_eq_iff w v : 0 < w ->
  (swrap w v =? v) = (- 2 ^ (w - 1) <=? v) && (v <? 2 ^ (w - 1)).
Proof.
  intros Hw. pose proof (swrap_range w v Hw).
  destruct (Z.leb_spec (- 2 ^ (w - 1)) v), (Z.ltb_spec v (2 ^ (w - 1))); cbn; try lia.
  rewrite swrap_small by lia. lia.
Qed.
End Store.

(** ** Strings and byte arrays *)
Section Strings.
Context `{ReadCallback} `{Allocator}.

Lemma framed_consumed w s :
  consumed (zlen w) (consumed (zlen (varint (zlen w))) s) = consumed (zlen (framed w)) s.
Proof. unfold framed. rewrite zlen_app, consumed_consumed by apply zlen_nonneg. done. Qed.

Lemma dmem_consumed k s : dmem (consumed k s) = dmem s.
Proof. done. Qed.

(** A static string field: the bytes and the terminator, within [data_size]. *)
Lemma dec_string_fits f w dest s m1 m2 :
  PB_ATYPE (type f) = PB_ATYPE_STATIC -> zlen w + 1 <= data_size f < 2 ^ 32 ->
  holds s (framed w) ->
  store_bytes (dmem s) dest w = Some m1 -> store_bytes m1 (dest + zlen w) [0] = Some m2 ->
  pb_dec_string f dest s = Ok (true, with_mem m2 (consumed (zlen (framed w)) s)).
Proof.
  intros Ha Hf Hs Hm1 Hm2. unfold pb_dec_string. pose proof (zlen_nonneg w).
  rewrite (bind_Ok _ _ _ _ _ (decode_varint32_holds (zlen w) s ltac:(lia) (holds_prefix _ _ _ Hs))).
  apply holds_consumed in Hs as Hh. cbv beta iota.
  cbv zeta. rewrite wrap_small by lia. rewrite Ha.
  change (PB_ATYPE_STATIC =? PB_ATYPE_POINTER) with false.
  destruct (Z.ltb_spec (zlen w + 1) (zlen w)); [lia|].
  destruct (Z.ltb_spec (data_size f) (zlen w + 1)); [lia|]. cbv iota.
  set (s1 := consumed (zlen (varint (zlen w))) s) in *.
  assert (Hh1 : holds s1 (w ++ [])) by (by rewrite app_nil_r).
  rewrite (bind_Ok _ _ _ _ _ (read_to_holds w [] dest s1 m1 Hh1 Hm1)). unfold s1.
  unfold bind, upd_mem. cbn [dmem with_mem]. rewrite Hm2. by rewrite framed_consumed.
Qed.

(** A string that does not fit is refused before anything is stored. *)
Lemma dec_string_overflow f w dest s :
  PB_ATYPE (type f) = PB_ATYPE_STATIC -> data_size f < zlen w + 1 -> zlen w + 1 < 2 ^ 32 ->
  holds s (framed w) ->
  exists s', pb_dec_string f dest s = Ok (false, s') /\ dmem s' = dmem s.
Proof.
  intros Ha Hf Hlt Hs. unfold pb_dec_string. pose proof (zlen_nonneg w).
  rewrite (bind_Ok _ _ _ _ _ (decode_varint32_holds (zlen w) s ltac:(lia) (holds_prefix _ _ _ Hs))).
  cbv zeta beta iota. rewrite wrap_small by lia. rewrite Ha.
  change (PB_ATYPE_STATIC =? PB_ATYPE_POINTER) with false.
  destruct (Z.ltb_spec (zlen w + 1) (zlen w)); [lia|].
  destruct (Z.ltb_spec (data_size f) (zlen w + 1)); [|lia]. cbn. by eexists.
Qed.

(** A static byte array: the size and then the bytes. *)
Lemma dec_bytes_fits f w dest s m1 m2 :
  PB_ATYPE (type f) = PB_ATYPE_STATIC -> zlen w + offsetof_bytes <= data_size f < 2 ^ 32 ->
  holds s (framed w) ->
  store_size (dmem s) dest (zlen w) = Some m1 ->
  store_bytes m1 (dest + offsetof_bytes) w = Some m2 ->
  pb_dec_bytes f dest s = Ok (true, with_mem m2 (consumed (zlen (framed w)) s)).
Proof.
  intros Ha Hf Hs Hm1 Hm2. unfold pb_dec_bytes. pose proof (zlen_nonneg w).
  unfold offsetof_bytes in Hf.
  rewrite (bind_Ok _ _ _ _ _ (decode_varint32_holds (zlen w) s ltac:(lia) (holds_prefix _ _ _ Hs))).
  cbv zeta beta iota. change PB_SIZE_MAX with (2 ^ 32 - 1).
  destruct (Z.ltb_spec (2 ^ 32 - 1) (zlen w)); [lia|].
  unfold PB_BYTES_ARRAY_T_ALLOCSIZE, offsetof_bytes.
  rewrite (wrap_small 64 (zlen w)), (wrap_small 64) by lia. rewrite Ha.
  change (PB_ATYPE_STATIC =? PB_ATYPE_POINTER) with false.
  destruct (Z.ltb_spec (zlen w + 4) (zlen w)); [lia|].
  destruct (Z.ltb_spec (data_size f) (zlen w + 4)); [lia|]. cbv iota.
  unfold bind at 1, upd_mem. rewrite dmem_consumed, Hm1.
  apply holds_consumed in Hs as Hh.
  set (s1 := with_mem m1 (consumed (zlen (varint (zlen w))) s)).
  assert (Hh1 : holds s1 (w ++ [])) by (rewrite app_nil_r; exact Hh).
  rewrite (read_to_holds w [] _ s1 m2 Hh1 Hm2).
  unfold s1. by rewrite <- framed_consumed.
Qed.

Lemma dec_bytes_overflow f w dest s :
  PB_ATYPE (type f) = PB_ATYPE_STATIC -> data_size f < zlen w + offsetof_bytes ->
  zlen w < 2 ^ 32 -> holds s (framed w) ->
  exists s', pb_dec_bytes f dest s = Ok (false, s') /\ dmem s' = dmem s.
Proof.
  intros Ha Hf Hlt Hs. unfold pb_dec_bytes. pose proof (zlen_nonneg w).
  unfold offsetof_bytes in Hf.
  rewrite (bind_Ok _ _ _ _ _ (decode_varint32_holds (zlen w) s ltac:(lia) (holds_prefix _ _ _ Hs))).
  cbv zeta beta iota. change PB_SIZE_MAX with (2 ^ 32 - 1).
  destruct (Z.ltb_spec (2 ^ 32 - 1) (zlen w)); [lia|].
  unfold PB_BYTES_ARRAY_T_ALLOCSIZE, offsetof_bytes.
  rewrite (wrap_small 64 (zlen w)), (wrap_small 64) by lia. rewrite Ha.
  change (PB_ATYPE_STATIC =? PB_ATYPE_POINTER) with false.
  destruct (Z.ltb_spec (zlen w + 4) (zlen w)); [lia|].
  destruct (Z.ltb_spec (data_size f) (zlen w + 4)); [|lia]. cbn. by eexists.
Qed.
End Strings.
