(* ===== verification/Required.v ===== *)
(** * The required-field check

    [fields_seen] is a set of field indices kept in two 32-bit words;
    [mark_seen] inserts, [all_seen] tests that the first [n] are present, and
    [count_required] computes [n] from the descriptor. *)
From S2P Require Import Prelude Types Mem Iter IStream Decode.

(** Membership of an index in the words. *)
Definition seen_bit (seen : list Z) (i : Z) : bool :=
  Z.testbit (default 0 (seen !! Z.to_nat (i / 32))) (i mod 32).

Definition seen_ok (seen : list Z) : Prop :=
  length seen = 2%nat /\ Forall (fun w => 0 <= w < 2 ^ 32) seen.

Lemma seen_word seen k : seen_ok seen -> 0 <= default 0 (seen !! k) < 2 ^ 32.
Proof.
  intros [_ Hf]. destruct (seen !! k) as [w|] eqn:E; cbn; [|lia].
  by apply (Forall_lookup_1 _ _ _ _ Hf E).
Qed.

Lemma land_31 i : Z.land i 31 = i mod 32.
Proof. apply (Z.land_ones i 5). lia. Qed.

Lemma shiftr_5 i : Z.shiftr i 5 = i / 32.
Proof. by rewrite shiftr_div by lia. Qed.

Lemma bit_word i : wrap 32 (Z.shiftl 1 (Z.land i 31)) = 2 ^ (i mod 32).
Proof.
  rewrite land_31, Z.shiftl_1_l. pose proof (Z.mod_pos_bound i 32 ltac:(lia)).
  apply wrap_small. split; [apply Z.pow_nonneg; lia|]. apply Z.pow_lt_mono_r; lia.
Qed.

Lemma mark_seen_ok i seen : 0 <= i < 64 -> seen_ok seen -> seen_ok (mark_seen i seen).
Proof.
  intros Hi Hs. pose proof (seen_word seen (Z.to_nat (Z.shiftr i 5)) Hs) as Hw.
  destruct Hs as [Hl Hf]. unfold mark_seen. split; [by rewrite length_insert|].
  apply Forall_insert; [done|]. rewrite bit_word. apply lor_range; [done|].
  pose proof (Z.mod_pos_bound i 32 ltac:(lia)).
  split; [apply Z.pow_nonneg; lia|]. apply Z.pow_lt_mono_r; lia.
Qed.

(** Marking an index adds it and nothing else. *)
Lemma mark_seen_bit i j seen :
  0 <= i < 64 -> 0 <= j < 64 -> seen_ok seen ->
  seen_bit (mark_seen i seen) j = (i =? j) || seen_bit seen j.
Proof.
  intros Hi Hj [Hl _]. unfold mark_seen, seen_bit. rewrite bit_word, shiftr_5.
  pose proof (Z.div_mod i 32 ltac:(lia)). pose proof (Z.div_mod j 32 ltac:(lia)).
  pose proof (Z.mod_pos_bound i 32 ltac:(lia)). pose proof (Z.mod_pos_bound j 32 ltac:(lia)).
  destruct (Z.eqb_spec (i / 32) (j / 32)) as [E|E].
  - rewrite E, list_lookup_insert_eq by lia. cbn [from_option id].
    rewrite Z.lor_spec, Z.pow2_bits_eqb by lia. rewrite orb_comm. f_equal. lia.
  - rewrite list_lookup_insert_ne by lia. destruct (Z.eqb_spec i j); [congruence|done].
Qed.

(** ** The test *)
Lemma word_full w : 0 <= w < 2 ^ 32 ->
  (w =? allbits) = forallb (fun k => Z.testbit w (Z.of_nat k)) (seq 0 32).
Proof.
  intros Hw. apply eq_true_iff_eq. rewrite Z.eqb_eq, forallb_forall. split.
  - intros -> k Hk. apply in_seq in Hk. change allbits with (Z.ones 32).
    apply Z.ones_spec_low. lia.
  - intros Hall. apply Z.bits_inj'. intros n Hn. change allbits with (Z.ones 32).
    destruct (Z.ltb_spec n 32).
    + rewrite Z.ones_spec_low by lia. specialize (Hall (Z.to_nat n)).
      rewrite Z2Nat.id in Hall by lia. apply Hall. apply in_seq. lia.
    + rewrite Z.ones_spec_high by lia. rewrite <- (Z.mod_small w (2 ^ 32)) by lia.
      apply Z.mod_pow2_bits_high. lia.
Qed.

Lemma word_low w r : 0 <= w < 2 ^ 32 -> 0 < r < 32 ->
  (forall k, r <= k < 32 -> Z.testbit w k = false) ->
  (w =? Z.shiftr allbits (32 - r)) = forallb (fun k => Z.testbit w (Z.of_nat k)) (seq 0 (Z.to_nat r)).
Proof.
  intros Hw Hr Hhigh. apply eq_true_iff_eq. rewrite Z.eqb_eq, forallb_forall.
  assert (Hones : Z.shiftr allbits (32 - r) = Z.ones r).
  { change allbits with (Z.ones 32). rewrite shiftr_div by lia. rewrite Z.ones_div_pow2 by lia.
    f_equal. lia. }
  rewrite Hones. split.
  - intros -> k Hk. apply in_seq in Hk. apply Z.ones_spec_low. lia.
  - intros Hall. apply Z.bits_inj'. intros n Hn. destruct (Z.ltb_spec n r).
    + rewrite Z.ones_spec_low by lia. specialize (Hall (Z.to_nat n)).
      rewrite Z2Nat.id in Hall by lia. apply Hall. apply in_seq. lia.
    + rewrite Z.ones_spec_high by lia. destruct (Z.ltb_spec n 32); [by apply Hhigh|].
      rewrite <- (Z.mod_small w (2 ^ 32)) by lia. apply Z.mod_pow2_bits_high. lia.
Qed.

(** With no index at or above [n] present, [all_seen n] says that every
    index below [n] is. *)
Lemma all_seen_spec n seen :
  0 <= n <= 64 -> seen_ok seen ->
  (forall i, n <= i < 64 -> seen_bit seen i = false) ->
  all_seen n seen = true <-> forall i, 0 <= i < n -> seen_bit seen i = true.
Proof.
  intros Hn Hs Hhigh. unfold all_seen. rewrite land_31, shiftr_5.
  pose proof (Z.div_mod n 32 ltac:(lia)) as Hdm. pose proof (Z.mod_pos_bound n 32 ltac:(lia)).
  assert (Hq : 0 <= n / 32 <= 2) by lia.
  (* the full words *)
  assert (Hfull : forall w, (w < 2)%nat ->
    (default 0 (seen !! w) =? allbits) = true <->
    forall i, 32 * Z.of_nat w <= i < 32 * Z.of_nat w + 32 -> seen_bit seen i = true).
  { intros w Hw. rewrite word_full by (by apply seen_word). rewrite forallb_forall. split.
    - intros Hall i Hi. unfold seen_bit.
      assert (i / 32 = Z.of_nat w) as ->.
      { symmetry. apply (Z.div_unique _ _ _ (i - 32 * Z.of_nat w)); lia. }
      rewrite Nat2Z.id. specialize (Hall (Z.to_nat (i mod 32))).
      pose proof (Z.mod_pos_bound i 32 ltac:(lia)). rewrite Z2Nat.id in Hall by lia.
      apply Hall, in_seq. lia.
    - intros Hall k Hk. apply in_seq in Hk. specialize (Hall (32 * Z.of_nat w + Z.of_nat k) ltac:(lia)).
      unfold seen_bit in Hall.
      rewrite (Z.mul_comm 32), (Z.add_comm (_ * _)), Z.div_add, Z.mod_add in Hall by lia.
      rewrite Z.div_small, Z.mod_small in Hall by lia. rewrite Z.add_0_l, Nat2Z.id in Hall. done. }
  (* the partial word *)
  assert (Hpart : n mod 32 <> 0 ->
    (default 0 (seen !! Z.to_nat (n / 32)) =? Z.shiftr allbits (32 - n mod 32)) = true <->
    forall i, 32 * (n / 32) <= i < n -> seen_bit seen i = true).
  { intros Hr. rewrite word_low; [|by apply seen_word|lia|].
    - rewrite forallb_forall. split.
      + intros Hall i Hi. unfold seen_bit.
        assert (i / 32 = n / 32) as ->.
        { symmetry. apply (Z.div_unique _ _ _ (i - 32 * (n / 32))); lia. }
        pose proof (Z.mod_pos_bound i 32 ltac:(lia)). pose proof (Z.div_mod i 32 ltac:(lia)).
        assert (i / 32 = n / 32) by (symmetry; apply (Z.div_unique _ _ _ (i - 32 * (n / 32))); lia).
        specialize (Hall (Z.to_nat (i mod 32))). rewrite Z2Nat.id in Hall by lia.
        apply Hall, in_seq. lia.
      + intros Hall k Hk. apply in_seq in Hk.
        specialize (Hall (32 * (n / 32) + Z.of_nat k) ltac:(lia)). unfold seen_bit in Hall.
        rewrite (Z.mul_comm 32), (Z.add_comm (_ * _)), Z.div_add, Z.mod_add in Hall by lia.
        rewrite Z.div_small, Z.mod_small in Hall by lia. by rewrite Z.add_0_l in Hall.
    - intros k Hk. specialize (Hhigh (32 * (n / 32) + k) ltac:(lia)). unfold seen_bit in Hhigh.
      rewrite (Z.mul_comm 32), (Z.add_comm (_ * _)), Z.div_add, Z.mod_add in Hhigh by lia.
      rewrite Z.div_small, Z.mod_small in Hhigh by lia. by rewrite Z.add_0_l in Hhigh. }
  rewrite andb_true_iff, forallb_forall, orb_true_iff, Z.eqb_eq. split.
  - intros [H1 H2] i Hi. destruct (Z.ltb_spec i (32 * (n / 32))).
    + assert (Hw : In (Z.to_nat (i / 32)) (seq 0 (Z.to_nat (n / 32)))).
      { apply in_seq. pose proof (Z.div_lt_upper_bound i 32 (n / 32) ltac:(lia) ltac:(lia)).
        pose proof (Z.div_pos i 32). lia. }
      pose proof (Z.div_mod i 32 ltac:(lia)). pose proof (Z.mod_pos_bound i 32 ltac:(lia)).
      pose proof (Z.div_pos i 32 ltac:(lia) ltac:(lia)).
      apply in_seq in Hw as Hw'. apply (proj1 (Hfull (Z.to_nat (i / 32)) ltac:(lia)) (H1 _ Hw)). lia.
    + destruct H2 as [|H2]; [lia|]. apply Hpart; [lia|done|lia].
  - intros Hall. split.
    + intros w Hw. apply in_seq in Hw. apply Hfull; [lia|]. intros i Hi. apply Hall. lia.
    + destruct (Z.eq_dec (n mod 32) 0); [by left|right]. apply Hpart; [done|].
      intros i Hi. apply Hall. lia.
Qed.

(** The words after marking a list of indices. *)
Definition marked (l : list Z) : list Z := foldr mark_seen [0; 0] l.

Lemma marked_spec l :
  Forall (fun i => 0 <= i < 64) l ->
  seen_ok (marked l) /\ forall j, 0 <= j < 64 -> seen_bit (marked l) j = bool_decide (j ∈ l).
Proof.
  induction 1 as [|i l Hi _ [IH1 IH2]]; cbn [marked foldr].
  - split; [split; [done|repeat constructor; lia]|]. intros j Hj.
    unfold seen_bit. rewrite bool_decide_eq_false_2 by (by inversion 1).
    assert (Z.to_nat (j / 32) = 0%nat \/ Z.to_nat (j / 32) = 1%nat) as [-> | ->].
    { pose proof (Z.div_lt_upper_bound j 32 2 ltac:(lia) ltac:(lia)).
      pose proof (Z.div_pos j 32 ltac:(lia) ltac:(lia)). lia. }
    all: apply Z.bits_0.
  - split; [by apply mark_seen_ok|]. intros j Hj. rewrite mark_seen_bit, IH2 by done.
    apply eq_true_iff_eq. rewrite orb_true_iff, Z.eqb_eq, !bool_decide_eq_true, elem_of_cons.
    split; intros [|]; auto.
Qed.

(** ** Counting the required fields *)
Definition is_required (f : pb_field_t) : bool := PB_HTYPE (type f) =? PB_HTYPE_REQUIRED.
Definition required_before (fs : list pb_field_t) (k : nat) : Z :=
  Z.of_nat (length (List.filter is_required (firstn k fs))).

Lemma required_before_S fs k f :
  fs !! k = Some f ->
  required_before fs (S k) = required_before fs k + (if is_required f then 1 else 0).
Proof.
  intros Hf. unfold required_before. rewrite (take_S_r _ _ _ Hf), List.filter_app, length_app.
  cbn. destruct (is_required f); simpl length; lia.
Qed.

Lemma required_before_le fs k : required_before fs k <= Z.of_nat k.
Proof.
  unfold required_before. pose proof (List.filter_length_le is_required (firstn k fs)).
  rewrite length_take in *. lia.
Qed.

Section Count.
Context (fs : list pb_field_t) (dest : Z) (n : nat) (Hterm : terminated fs n).
Context (Hsmall : Z.of_nat n < 2 ^ 32).

(** The iterator counts the required fields it has passed. *)
Lemma required_index k :
  (k < n)%nat -> required_field_index (field_at fs dest k) = required_before fs k.
Proof.
  induction k as [|k IH]; intros Hk; cbn [field_at]; [by destruct (fs !! 0%nat)|].
  destruct (terminated_lookup fs n Hterm k ltac:(lia)) as (f & Hf & _).
  destruct (terminated_lookup fs n Hterm (S k) Hk) as (g & Hg & _). rewrite Hf, Hg.
  rewrite (required_before_S _ _ _ Hf), <- IH by lia. unfold advance, same_union, is_required.
  pose proof (required_before_le fs k). rewrite <- IH in * by lia.
  assert (0 <= required_field_index (field_at fs dest k)).
  { rewrite IH by lia. unfold required_before. lia. }
  destruct (Z.eqb_spec (PB_HTYPE (type f)) PB_HTYPE_ONEOF) as [E|]; cbn [andb].
  - rewrite E. change (PB_HTYPE_ONEOF =? PB_HTYPE_REQUIRED) with false.
    destruct (_ && _); cbn; lia.
  - cbn [required_field_index]. destruct (_ =? PB_HTYPE_REQUIRED); [rewrite wrap_small|]; lia.
Qed.

Lemma cur_field_at k : (k < n)%nat -> exists f, cur (field_at fs dest k) = Ok f /\
  fs !! k = Some f /\ tag f <> 0.
Proof.
  intros Hk. destruct (terminated_lookup fs n Hterm k Hk) as (f & Hf & H0). exists f.
  unfold cur. rewrite (proj1 (field_at_start fs dest k)), (field_at_pos fs dest n Hterm k Hk).
  by rewrite Hf.
Qed.

Lemma seek_end_spec k fuel :
  (k < n)%nat -> (n - k <= fuel)%nat ->
  exists f, fs !! pred n = Some f /\
    seek_end fuel (field_at fs dest k) =
      Ok (required_before fs (pred n), type f, field_at fs dest 0).
Proof.
  revert k. induction fuel as [|fuel IH]; intros k Hk Hf; [lia|]. cbn [seek_end].
  destruct (cur_field_at k Hk) as (f & -> & Hfk & _).
  rewrite (iter_next_spec fs dest n Hterm k Hk). destruct (Nat.ltb_spec (S k) n).
  - apply IH; lia.
  - exists f. replace (pred n) with k by lia. split; [done|]. by rewrite required_index.
Qed.

Lemma count_required_spec k :
  (k < n)%nat ->
  count_required (field_at fs dest k) =
    Ok (Z.min PB_MAX_REQUIRED_FIELDS (required_before fs n)).
Proof.
  intros Hk. unfold count_required. rewrite (proj1 (field_at_start fs dest k)).
  destruct (seek_end_spec k (length fs) Hk) as (f & Hf & ->); [destruct Hterm; lia|].
  destruct (cur_field_at 0 ltac:(lia)) as (g & -> & _ & Hg).
  destruct (Z.eqb_spec (tag g) 0); [done|]. cbn [negb]. rewrite andb_true_r.
  assert (Hn : required_before fs n = required_before fs (pred n) + (if is_required f then 1 else 0)).
  { rewrite <- (required_before_S _ _ _ Hf). f_equal. lia. }
  rewrite Hn.
  pose proof (required_before_le fs (pred n)).
  assert (0 <= required_before fs (pred n)) by (unfold required_before; lia).
  unfold is_required. f_equal. unfold PB_MAX_REQUIRED_FIELDS in *.
  destruct (_ =? PB_HTYPE_REQUIRED); rewrite ?wrap_small by lia;
    destruct (Z.ltb_spec 64 (required_before fs (pred n) + 1));
    destruct (Z.ltb_spec 64 (required_before fs (pred n))); lia.
Qed.
End Count.
