(* ===== verification/Client.v ===== *)
(** * The clients of the runtime ([GDTCCTNanopbHelpers.m])

    The two functions that hand messages to nanopb: the upload request is
    encoded twice (once for its size), the server's response is decoded from
    the downloaded data.  The app installs no nanopb callbacks. *)
From S2P Require Import Prelude Types Mem Iter OStream Encode Wire EncodeProof.
From S2P Require Import IStream Discipline Decode DecodeSafe Descriptors.

(** ** No callbacks

    No function pointer of the app's messages or streams is one of the
    user's, so calling one is a fault. *)
#[export] Instance no_write : StreamCallback unit := fun w _ => (false, w).
#[export] Instance no_encode : EncodeCallbacks unit := {
  usr_encode _ _ _ _ := fails BadCall;
  usr_ext_encode _ _ _ := fails BadCall
}.
#[export] Instance no_traces : EncodeTraces := {
  enc_trace _ _ _ _ := UB BadCall;
  ext_trace _ _ _ := UB BadCall
}.
#[export] Instance no_read : ReadCallback := fun m p _ => (false, [], m, p).
#[export] Instance no_decode : DecodeCallbacks := {
  usr_decode _ _ _ := fails BadCall;
  usr_ext_decode _ _ _ _ := fails BadCall
}.

Lemma no_callbacks_refine m : callbacks_refine (W := unit) m.
Proof. split; intros; apply refines_UB. Qed.

Lemma no_callbacks_lawful T : LawfulDecode T.
Proof. split; [done|by right|done]. Qed.

(** ** Encoding the upload request

    [CFData] is the buffer of a [CFMutableData] whose length was set to the
    argument. *)
Section Request.
Context (CFData : Z -> list Z) (m : mem).

Definition GDTCCTEncodeBatchedLogRequest (fuel : nat) (batchedLogRequest : Z) :
    outcome (list Z) :=
  let encode := pb_encode (W := unit) m fuel gdt_cct_BatchedLogRequest_fields
                  batchedLogRequest in
  let! (_, sizestream) := encode PB_OSTREAM_SIZING in
  let bufferSize := bytes_written sizestream in
  let! (_, ostream) := encode (pb_ostream_from_buffer (CFData bufferSize) bufferSize) in
  match sink ostream with
  | OBuf data _ => Ok data
  | _ => UB BadCall
  end.
End Request.

(** ** Decoding the server's response

    [response] is the address of the local struct.  The result is the
    [nanopb error:] of the [NSError], if one is made, and the memory with the
    struct that is returned. *)
Section Response.
Context `{Allocator}.

(** [gdt_cct_LogResponse_init_default]: every member is zero. *)
Definition gdt_cct_LogResponse_init_default (m : mem) (response : Z) : option mem :=
  memset0 m response (struct_size gdt_cct_LogResponse).

Definition GDTCCTDecodeLogResponse (fuel : nat) (m : mem) (response : Z) (data : list Z) :
    outcome (option string * mem) :=
  let! m0 := or_ub BadAccess (gdt_cct_LogResponse_init_default m response) in
  let istream := pb_istream_from_buffer data (zlen data) in
  let! (ok, s) := pb_decode fuel gdt_cct_LogResponse_fields response (mk_dstate m0 istream 0) in
  if negb ok then
    let! m1 := or_ub BadAccess (gdt_cct_LogResponse_init_default (dmem s) response) in
    Ok (Some (PB_GET_ERROR (i_errmsg (IStream.istream s))), m1)
  else Ok (None, dmem s).
End Response.

(** ** Sample memories for concrete runs *)

(** An environment in which every allocation succeeds. *)
Definition always : Allocator := fun _ _ => true.

Definition mem_bytesb (m : mem) : bool :=
  forallb (fun c : Z * option Z =>
    match c.2 with Some b => (0 <=? b) && (b <? 256) | None => true end)
    (map_to_list (cells m)).

Lemma mem_bytesb_spec m : mem_bytesb m = true -> mem_bytes m.
Proof.
  unfold mem_bytesb. rewrite forallb_forall. intros Hall a b Ha. unfold is_byte.
  specialize (Hall (a, Some b)). cbn in Hall. apply andb_true_iff in Hall; [lia|].
  apply list_elem_of_In. by apply elem_of_map_to_list.
Qed.

(** Stores of a member of a struct. *)
Definition set_member (st : struct_decl) (base : Z) (name : string) (v : Z) (m : mem) : mem :=
  default m (store m (base + offsetof st name) (csize (member st name)) v).
Definition set_bytes (a : Z) (bs : list Z) (m : mem) : mem := default m (store_bytes m a bs).

(** A request with one log request of one event. *)
Definition sample_request : Z := 0x1000.
Definition sample_mem : mem :=
  let log_request := 0x1100 in
  let log_event := 0x1200 in
  let extension := 0x1300 in
  fold_right (fun f m => f m) (mem_of 0x1000 (replicate 1024 0))
    [set_member gdt_cct_BatchedLogRequest sample_request "log_request_count" 1;
     set_member gdt_cct_BatchedLogRequest sample_request "log_request" log_request;
     set_member gdt_cct_LogRequest log_request "has_log_source" 1;
     set_member gdt_cct_LogRequest log_request "log_source" 1018;
     set_member gdt_cct_LogRequest log_request "has_request_time_ms" 1;
     set_member gdt_cct_LogRequest log_request "request_time_ms" 300;
     set_member gdt_cct_LogRequest log_request "log_event_count" 1;
     set_member gdt_cct_LogRequest log_request "log_event" log_event;
     set_member gdt_cct_LogEvent log_event "has_event_time_ms" 1;
     set_member gdt_cct_LogEvent log_event "event_time_ms" (-1);
     set_member gdt_cct_LogEvent log_event "has_timezone_offset_seconds" 1;
     set_member gdt_cct_LogEvent log_event "timezone_offset_seconds" (-3600);
     set_member gdt_cct_LogEvent log_event "source_extension" extension;
     set_bytes extension (le_bytes 4 3 ++ [104; 105; 33])].

(** The bytes on the wire: a [LogRequest] with its source 1018, the event
    (time -1, extension "hi!", offset -3600) and the time 300. *)
Definition sample_wire : list Z :=
  [10; 27; 16; 250; 7; 26; 19; 8; 255; 255; 255; 255; 255; 255; 255; 255; 255; 1;
   50; 3; 104; 105; 33; 120; 159; 56; 32; 172; 2].

Lemma sample_bytes : mem_bytes sample_mem.
Proof. apply mem_bytesb_spec. by vm_compute. Qed.

Example sample_encodes :
  wire_message sample_mem 5 gdt_cct_BatchedLogRequest_fields sample_request = Ok (sample_wire, true).
Proof. by vm_compute. Qed.
