(* ===== verification/Infallible.v ===== *)
(** * Messages whose encoding cannot fail

    [infallible n fields] is a test on a descriptor array.  It excludes what
    [pb_encode] can reject: integer fields of an odd width, byte arrays and
    repeated fields of bounded capacity, missing required fields, submessages
    without a descriptor, callbacks and extensions. *)
From S2P Require Import Prelude Base128 Types Mem Iter OStream Encode Wire.

Section Infallible.
Context `{Image}.

Definition sure_value (sub_ok : list pb_field_t -> bool) (f : pb_field_t) : bool :=
  let lt := PB_LTYPE (type f) in
  if (lt =? PB_LTYPE_VARINT) || (lt =? PB_LTYPE_UVARINT) || (lt =? PB_LTYPE_SVARINT) then
    (data_size f =? 1) || (data_size f =? 2) || (data_size f =? 4) || (data_size f =? 8)
  else if lt =? PB_LTYPE_BYTES then PB_ATYPE (type f) =? PB_ATYPE_POINTER
  else if lt =? PB_LTYPE_SUBMESSAGE then
    negb (ptr f =? NULL) &&
    match fields_at (ptr f) with Some sub => sub_ok sub | None => false end
  else negb (lt =? PB_LTYPE_EXTENSION).

Definition sure_field (sub_ok : list pb_field_t -> bool) (f : pb_field_t) : bool :=
  let ty := type f in
  ((PB_ATYPE ty =? PB_ATYPE_STATIC) || (PB_ATYPE ty =? PB_ATYPE_POINTER)) &&
  ((PB_HTYPE ty =? PB_HTYPE_OPTIONAL)
   || ((PB_HTYPE ty =? PB_HTYPE_REPEATED) && (PB_ATYPE ty =? PB_ATYPE_POINTER))) &&
  bool_decide (is_Some (wiretype_of (PB_LTYPE ty))) && sure_value sub_ok f.

Fixpoint infallible (n : nat) (fields : list pb_field_t) : bool :=
  match n with
  | O => false
  | S n' => forallb (fun f => (tag f =? 0) || sure_field (infallible n') f) fields
  end.

(** A trace that does not end in failure. *)
Definition sure (o : outcome trace) : Prop := forall t, o = Ok t -> t.2 = true.

Lemma sure_bytes w : sure (wire_bytes w).
Proof. by intros t [= <-]. Qed.

Lemma sure_obind {A} (o : outcome A) (k : A -> outcome trace) :
  (forall a, o = Ok a -> sure (k a)) -> sure (obind o k).
Proof. intros Hk t (a & E & Ht)%obind_Ok. by apply (Hk a E). Qed.

Lemma sure_wseq a b : sure a -> sure b -> sure (wseq a b).
Proof.
  intros Ha Hb t (u & E & Ht)%obind_Ok. rewrite (Ha u E) in Ht.
  apply obind_Ok in Ht as (v & Ev & [= <-]). exact (Hb v Ev).
Qed.

Lemma sure_all {X} (item : X -> outcome trace) l :
  (forall x, x ∈ l -> sure (item x)) -> sure (wire_all item l).
Proof.
  induction l as [|x l IH]; intros Hi; [by intros t [= <-]|]. cbn [wire_all].
  apply sure_wseq; [apply Hi, list_elem_of_here|]. apply IH. intros y Hy.
  by apply Hi, list_elem_of_further.
Qed.

Lemma sure_framed o : sure o -> sure (wire_framed o).
Proof. intros Ho t (u & E & Ht)%obind_Ok. rewrite (Ho u E) in Ht. by injection Ht as <-. Qed.
End Infallible.

Section Wire.
Context `{Image} `{EncodeTraces} (m : mem).
Context (n : nat) (wire_sub : list pb_field_t -> Z -> outcome trace).
Context (check_proto3 : pb_field_t -> Z -> M unit bool).
Context (Himg : image_ok).
Context (Hsub : forall fields src, descriptor_ok fields -> infallible n fields = true ->
           sure (wire_sub fields src)).

Lemma sure_mem p k : sure (wire_mem m p k).
Proof. apply sure_obind. intros. apply sure_bytes. Qed.

Lemma sure_int ld conv f p :
  (data_size f =? 1) || (data_size f =? 2) || (data_size f =? 4) || (data_size f =? 8) = true ->
  sure (wire_int m ld conv f p).
Proof.
  intros Hd. apply sure_obind. unfold read_int. rewrite Hd. intros v (z & _ & [= <-])%obind_Ok.
  apply sure_bytes.
Qed.

Lemma sure_value_ok f p : sure_value (infallible n) f = true -> sure (wire_value m wire_sub f p).
Proof.
  unfold sure_value, wire_value. cbv zeta. intros Hv.
  destruct (_ =? PB_LTYPE_BOOL); [apply sure_obind; intros; apply sure_bytes|].
  destruct (_ =? PB_LTYPE_VARINT); [by apply sure_int|].
  destruct (_ =? PB_LTYPE_UVARINT); [by apply sure_int|].
  destruct (_ =? PB_LTYPE_SVARINT); [by apply sure_int|]. cbn [orb] in Hv.
  destruct (_ =? PB_LTYPE_FIXED32); [apply sure_mem|].
  destruct (_ =? PB_LTYPE_FIXED64); [apply sure_mem|].
  destruct (_ =? PB_LTYPE_BYTES).
  { unfold wire_bytes_array. destruct (p =? NULL); [apply sure_bytes|].
    apply sure_obind. intros k _. replace (PB_ATYPE (type f) =? PB_ATYPE_STATIC) with false by
      (unfold PB_ATYPE_POINTER, PB_ATYPE_STATIC in *; lia). cbn [andb]. apply sure_framed, sure_mem. }
  destruct (_ =? PB_LTYPE_STRING).
  { unfold wire_string. destruct (p =? NULL); [apply sure_bytes|]. apply sure_obind. intros.
    apply sure_framed, sure_mem. }
  destruct (_ =? PB_LTYPE_SUBMESSAGE).
  { apply andb_true_iff in Hv as [Hp Hs]. unfold wire_submessage, deref_fields.
    destruct (ptr f =? NULL); [done|]. destruct (fields_at (ptr f)) as [sub|] eqn:E; [|done].
    apply sure_framed, Hsub; [by eapply Himg|done]. }
  destruct (_ =? PB_LTYPE_FIXED_LENGTH_BYTES); [|by intros t]. apply sure_framed, sure_mem.
Qed.

Lemma sure_field_ok f p :
  sure_field (infallible n) f = true -> sure (wire_field m wire_sub check_proto3 f p).
Proof.
  unfold sure_field. cbv zeta. rewrite !andb_true_iff. intros (((Ha & Hh) & Hw) & Hv).
  pose proof (fun q => sure_value_ok f q Hv) as Hval.
  assert (Hkey : sure (wire_field_key f)).
  { unfold wire_field_key. apply bool_decide_eq_true in Hw as [wt ->]. apply sure_bytes. }
  unfold wire_field. rewrite Ha. unfold wire_basic. cbv zeta.
  apply sure_obind. intros imp _. apply sure_obind. intros [q imp'] _.
  assert (Hreq : (PB_HTYPE (type f) =? PB_HTYPE_REQUIRED) = false).
  { unfold PB_HTYPE_OPTIONAL, PB_HTYPE_REPEATED, PB_HTYPE_REQUIRED in *. lia. }
  rewrite Hreq. destruct (_ =? PB_HTYPE_OPTIONAL).
  { apply sure_obind. intros [] _; [by apply sure_wseq|apply sure_bytes]. }
  cbn [orb] in Hh. apply andb_true_iff in Hh as [-> Hptr]. apply sure_obind. intros count _.
  unfold wire_array. rewrite Hptr. cbn [negb andb].
  destruct (count =? 0); [apply sure_bytes|]. destruct (_ <=? _).
  - apply sure_wseq; [apply sure_bytes|]. apply sure_framed, sure_all. intros. apply Hval.
  - apply sure_all. intros x _. apply sure_wseq; [done|]. apply sure_obind. intros. apply Hval.
Qed.
End Wire.

Section Message.
Context `{Image} `{EncodeTraces} (m : mem) (Himg : image_ok).

(** The encoding of a message that passes the test does not fail. *)
Lemma infallible_sure n k fields src :
  descriptor_ok fields -> infallible n fields = true -> sure (wire_message m k fields src).
Proof.
  revert n fields src. induction k as [|k IH]; intros n fields src Hd Hi; [done|].
  destruct n as [|n]; [done|]. cbn [wire_message infallible] in *.
  apply sure_all. intros it Hit. apply list_elem_of_fmap in Hit as (i & -> & Hi').
  apply elem_of_seq in Hi'. destruct Hd as [Hterm _].
  unfold wire_entry. apply sure_obind. intros f Hf. unfold cur in Hf.
  rewrite (proj1 (field_at_start fields src i)) in Hf.
  rewrite (field_at_pos fields src _ Hterm i) in Hf by lia.
  destruct (terminated_lookup fields _ Hterm i ltac:(lia)) as (g & Eg & Hne).
  rewrite Eg in Hf. injection Hf as ->.
  rewrite forallb_forall in Hi. assert (Hin : In f fields).
  { apply list_elem_of_In. by eapply list_elem_of_lookup_2. }
  specialize (Hi f Hin). rewrite (proj2 (Z.eqb_neq _ _) Hne) in Hi. cbn [orb] in Hi.
  assert (Hx : (PB_LTYPE (type f) =? PB_LTYPE_EXTENSION) = false).
  { unfold sure_field in Hi. cbv zeta in Hi. apply andb_true_iff in Hi as [Hi Hv].
    apply andb_true_iff in Hi as [_ Hw].
    destruct (Z.eqb_spec (PB_LTYPE (type f)) PB_LTYPE_EXTENSION) as [E|]; [|done].
    by rewrite E in Hw. }
  rewrite Hx. apply (sure_field_ok m n); [done| |done].
  intros sub p Hok Hs. by apply (IH n).
Qed.
End Message.
