(* ===== verification/EncodeSpec.v ===== *)
(** * What the encoder promises its clients

    The refinement of EncodeProof read at the entry points of [pb_encode.h]:
    the contents of the buffer, the size pass, framing, termination, and the
    write primitive on user streams. *)
From S2P Require Import Prelude Base128 Types Mem Iter OStream Encode Wire EncodeProof.
From S2P Require Import Decode MemSafe Total Descriptors Client Infallible.

Section Entry.
Context {W : Type} `{StreamCallback W} `{!EncodeCallbacks W} `{EncodeTraces} `{Image}.
Context (m : mem).

(** The stream after [w] was written to a fresh buffer stream. *)
Definition written (buf w : list Z) (bufsize : Z) : pb_ostream_t W :=
  mk_ostream (OBuf (overwrite buf 0 w) (length w)) bufsize (zlen w) None.

Lemma buffer_wf buf bufsize :
  0 <= bufsize <= zlen buf -> bufsize < 2 ^ 64 ->
  ostream_wf (pb_ostream_from_buffer (W := W) buf bufsize).
Proof. intros. unfold ostream_wf. cbn. lia. Qed.

Lemma append_buffer buf bufsize w :
  append (pb_ostream_from_buffer (W := W) buf bufsize) w = written buf w bufsize.
Proof. done. Qed.

(** A computation that emits [w], run on a fresh buffer. *)
Lemma emits_buffer (c : EM W bool) w ok buf bufsize :
  emits c (w, ok) -> 0 <= bufsize <= zlen buf -> bufsize < 2 ^ 64 -> zlen w < 2 ^ 64 ->
  if ok && (zlen w <=? bufsize)
  then c (pb_ostream_from_buffer buf bufsize) = Ok (true, written buf w bufsize)
  else exists s', c (pb_ostream_from_buffer buf bufsize) = Ok (false, s') /\
    exists buf' d, sink s' = OBuf buf' d /\ length buf' = length buf /\
      drop (Z.to_nat bufsize) buf' = drop (Z.to_nat bufsize) buf.
Proof.
  intros Hc Hb Hn Hw.
  specialize (Hc _ (buffer_wf buf bufsize Hb Hn) eq_refl ltac:(cbn; lia)).
  unfold room in Hc. cbn [fst snd sink max_size bytes_written pb_ostream_from_buffer] in Hc.
  rewrite Z.sub_0_r in Hc. destruct (ok && _); [exact Hc|].
  destruct Hc as (s' & E & Hk). exists s'. split; [done|].
  destruct Hk as (_ & _ & _ & Hk). cbn in Hk. destruct (sink s') as [|buf' d|]; try done.
  exists buf', d. split; [done|]. unfold room in Hk. cbn in Hk. rewrite !Z.sub_0_r in Hk.
  by destruct Hk as (? & _ & _ & _ & ?).
Qed.

Context (Hm : mem_bytes m) (Himg : image_ok) (Hcb : callbacks_refine (W := W) m).

(** C1: encoding a message into a buffer.  When the message's wire format
    is [w] and fits the given size, [pb_encode] returns true, the buffer
    starts with exactly [w], the rest of it is untouched, and
    [bytes_written] is the length of [w]. *)
Theorem encode_to_buffer fuel fields src w buf bufsize :
  descriptor_ok fields -> wire_message m fuel fields src = Ok (w, true) ->
  0 <= bufsize <= zlen buf -> bufsize < 2 ^ 64 -> zlen w <= bufsize ->
  pb_encode m fuel fields src (pb_ostream_from_buffer buf bufsize) =
    Ok (true, written buf w bufsize).
Proof.
  intros Hd Hw Hb Hn Hl.
  pose proof (emits_buffer _ w true buf bufsize
    (pb_encode_refines m Hm Himg Hcb fuel fields src Hd _ Hw) Hb Hn ltac:(lia)) as Hc.
  by rewrite (proj2 (Z.leb_le _ _) Hl) in Hc.
Qed.

(** C22: a message that cannot be encoded, or whose wire format exceeds the
    buffer size, makes [pb_encode] return false, and no byte outside the
    first [bufsize] bytes of the buffer has changed. *)
Theorem encode_short_buffer fuel fields src w ok buf bufsize :
  descriptor_ok fields -> wire_message m fuel fields src = Ok (w, ok) ->
  0 <= bufsize <= zlen buf -> bufsize < 2 ^ 64 -> zlen w < 2 ^ 64 ->
  ok = false \/ bufsize < zlen w ->
  exists s', pb_encode m fuel fields src (pb_ostream_from_buffer buf bufsize) = Ok (false, s') /\
    exists buf' d, sink s' = OBuf buf' d /\ length buf' = length buf /\
      drop (Z.to_nat bufsize) buf' = drop (Z.to_nat bufsize) buf.
Proof.
  intros Hd Hw Hb Hn Hl Hno.
  pose proof (emits_buffer _ w ok buf bufsize
    (pb_encode_refines m Hm Himg Hcb fuel fields src Hd _ Hw) Hb Hn Hl) as Hc.
  destruct ok, (Z.leb_spec (zlen w) bufsize); cbn [andb] in Hc; try done.
  destruct Hno as [|]; [done|lia].
Qed.

(** C23: [pb_get_encoded_size] computes the length of the wire format, and
    reports failure exactly when the message cannot be encoded. *)
Theorem encoded_size_exact fuel fields src w ok :
  descriptor_ok fields -> wire_message m fuel fields src = Ok (w, ok) -> zlen w < 2 ^ 64 ->
  pb_get_encoded_size (W := W) m fuel fields src = Ok (if ok then Some (zlen w) else None).
Proof.
  intros Hd Hw Hl. unfold pb_get_encoded_size. pose proof (zlen_nonneg w).
  assert (Hwf : ostream_wf (PB_OSTREAM_SIZING (W := W))) by (unfold ostream_wf; cbn; lia).
  destruct (emits_cases _ w ok PB_OSTREAM_SIZING
    (pb_encode_refines m Hm Himg Hcb fuel fields src Hd _ Hw) Hwf eq_refl ltac:(cbn; lia))
    as [(-> & _ & ->)|(Hno & s' & -> & _)]; cbn [obind].
  - unfold append. cbn. by rewrite Z.add_0_l.
  - destruct Hno as [->|Hno]; [done|]. unfold room in Hno. cbn in Hno. lia.
Qed.

(** The delimited and the NUL-terminated variants write the same
    message with its length in front or a zero byte behind. *)
Theorem encode_variants fuel fields src w buf bufsize :
  descriptor_ok fields -> wire_message m fuel fields src = Ok (w, true) ->
  0 <= bufsize <= zlen buf -> bufsize < 2 ^ 64 -> zlen (framed w) <= bufsize ->
  pb_encode_delimited m fuel fields src (pb_ostream_from_buffer buf bufsize) =
    Ok (true, written buf (framed w) bufsize) /\
  pb_encode_nullterminated m fuel fields src (pb_ostream_from_buffer buf bufsize) =
    Ok (true, written buf (w ++ [0]) bufsize).
Proof.
  intros Hd Hw Hb Hn Hl.
  pose proof (pb_encode_refines m Hm Himg Hcb fuel fields src Hd) as Hr. split.
  - assert (He : emits (pb_encode_delimited m fuel fields src) (framed w, true)).
    { apply (submessage_refines _ fields src _ Hr). unfold wire_framed. by rewrite Hw. }
    pose proof (emits_buffer _ _ _ buf bufsize He Hb Hn ltac:(lia)) as Hc.
    by rewrite (proj2 (Z.leb_le _ _) Hl) in Hc.
  - assert (He : emits (pb_encode_nullterminated m fuel fields src) (w ++ [0], true)).
    { apply (emits_seq _ _ (w, true) ([0], true)); [by apply Hr|by apply pb_write_emits]. }
    assert (Hz : zlen (w ++ [0]) <= bufsize).
    { unfold framed in Hl. rewrite zlen_app in *. change (zlen [0]) with 1.
      pose proof (varint_nonempty (zlen w)). lia. }
    pose proof (emits_buffer _ _ _ buf bufsize He Hb Hn ltac:(lia)) as Hc.
    by rewrite (proj2 (Z.leb_le _ _) Hz) in Hc.
Qed.
End Entry.

(** ** Termination *)

(** Encoding returns.  For descriptors without extension ranges nested
    less than [n] deep, [n + 1] levels of recursion are enough on every stream
    and every message, as long as user callbacks return. *)
Theorem encode_returns {W} `{StreamCallback W} `{!EncodeCallbacks W} `{Image} m n fields src s :
  (forall fn f p, live (usr_encode (W := W) m fn f p)) -> depth_ok n fields = true ->
  pb_encode (W := W) m (S n) fields src s <> Timeout.
Proof. intros Hcb Hd. by apply live_encode. Qed.

(** ** Writing to user streams *)
Section UserStream.
Context {W : Type} `{StreamCallback W}.

(** [pb_write] on a stream with a user callback.  Bytes that would
    exceed [max_size], or overflow the counter, are refused with "stream
    full" and the callback is not called; otherwise it is called once with
    exactly the bytes, and its verdict decides between counting them and
    "io error". *)
Theorem pb_write_user (s : pb_ostream_t W) u buf count bs :
  sink s = OUser u -> 0 <= bytes_written s < 2 ^ 64 -> 0 <= max_size s < 2 ^ 64 ->
  0 < count < 2 ^ 64 -> cbuf_read buf count = Some bs ->
  pb_write buf count s =
    if max_size s <? bytes_written s + count then
      Ok (false, mk_ostream (OUser u) (max_size s) (bytes_written s)
                   (set_error (errmsg s) "stream full"))
    else
      let '(ok, u') := usr_write u bs in
      if ok then Ok (true, mk_ostream (OUser u') (max_size s) (bytes_written s + count) (errmsg s))
      else Ok (false, mk_ostream (OUser u') (max_size s) (bytes_written s)
                        (set_error (errmsg s) "io error")).
Proof.
  destruct s as [k mx bw e]. cbn. intros -> Hbw Hmx Hc Hb. unfold pb_write.
  cbn [sink bytes_written max_size is_null negb]. rewrite andb_true_r, (proj2 (Z.ltb_lt 0 count)) by lia.
  destruct (Z.ltb_spec mx (bw + count)) as [Hfull|Hfits].
  - assert (Hor : (wrap 64 (bw + count) <? bw) || (mx <? wrap 64 (bw + count)) = true); [|by rewrite Hor].
    destruct (Z.ltb_spec (bw + count) (2 ^ 64)); [rewrite wrap_small by lia; lia|].
    unfold wrap. replace (bw + count) with (bw + count - 2 ^ 64 + 1 * 2 ^ 64) by lia.
    rewrite Z.mod_add, Z.mod_small by lia. lia.
  - rewrite wrap_small by lia. replace (_ || _) with false by lia.
    unfold bind, call_callback. cbn [sink max_size bytes_written errmsg]. rewrite Hb.
    destruct (usr_write u bs) as [[] u']; [|done].
    unfold add_written. cbn. by rewrite wrap_small by lia.
Qed.
End UserStream.

(** ** Varints *)

(** [pb_encode_varint] writes one to ten bytes into a buffer, continuation
    bytes with the high bit set and then one byte without it. *)
Theorem encode_varint_shape {W} `{StreamCallback W} v buf bufsize :
  0 <= v < 2 ^ 64 -> 10 <= bufsize <= zlen buf -> bufsize < 2 ^ 64 ->
  exists l b, Forall (fun x => 128 <= x < 256) l /\ 0 <= b < 128 /\ zlen l <= 9 /\
    pb_encode_varint (W := W) v (pb_ostream_from_buffer buf bufsize) =
      Ok (true, written buf (l ++ [b]) bufsize).
Proof.
  intros Hv Hb Hn. destruct (varint_n_shape 10 v ltac:(lia)) as (l & b & El & Hl & Hlast & Hlen).
  { change (2 ^ (7 * Z.of_nat 10)) with (2 ^ 70). lia. }
  exists l, b. split; [done|]. split; [done|]. assert (Hz : zlen l <= 9) by (unfold zlen; lia).
  split; [done|]. change (varint_n 10 v) with (varint v) in El. rewrite <- El.
  assert (Hw : zlen (varint v) <= 10) by (rewrite El, zlen_app; change (zlen [b]) with 1; lia).
  pose proof (emits_buffer _ _ _ buf bufsize (varint_emits v Hv) ltac:(lia) Hn ltac:(lia)) as Hc.
  by rewrite (proj2 (Z.leb_le _ _)) in Hc by lia.
Qed.

(** ** The upload request *)
Section Request.
Context (CFData : Z -> list Z) (HCF : forall n, 0 <= n -> zlen (CFData n) = n).
Context (m : mem) (Hm : mem_bytes m).

Lemma request_fields_ok : descriptor_ok gdt_cct_BatchedLogRequest_fields.
Proof. apply descriptor_okb_spec. by vm_compute. Qed.

Lemma request_refines fuel src :
  refines (pb_encode (W := unit) m fuel gdt_cct_BatchedLogRequest_fields src)
    (wire_message m fuel gdt_cct_BatchedLogRequest_fields src).
Proof. apply pb_encode_refines; [done|apply app_image_ok|apply no_callbacks_refine|apply request_fields_ok]. Qed.

Lemma sizing_wf : ostream_wf (PB_OSTREAM_SIZING (W := unit)).
Proof. unfold ostream_wf. cbn. lia. Qed.

(** When the message can be encoded, the size pass and the buffer pass
    agree, and the returned data is its wire format. *)
Lemma request_data fuel req w :
  wire_message m fuel gdt_cct_BatchedLogRequest_fields req = Ok (w, true) -> zlen w < 2 ^ 64 ->
  GDTCCTEncodeBatchedLogRequest CFData m fuel req = Ok w.
Proof.
  intros Hw Hl. unfold GDTCCTEncodeBatchedLogRequest. cbv zeta. pose proof (zlen_nonneg w).
  pose proof (request_refines fuel req _ Hw) as He.
  pose proof (He _ sizing_wf eq_refl ltac:(cbn; lia)) as Hs. unfold room in Hs. cbn [fst snd] in Hs.
  rewrite (proj2 (Z.leb_le _ _)) in Hs by (cbn; lia). cbn [andb] in Hs. rewrite Hs. cbn [obind].
  change (bytes_written (append PB_OSTREAM_SIZING w)) with (zlen w).
  pose proof (emits_buffer _ _ _ (CFData (zlen w)) (zlen w) He) as Hb. rewrite HCF in Hb by done.
  rewrite Z.leb_refl in Hb. cbn [andb] in Hb. rewrite Hb by lia. cbn.
  f_equal. unfold overwrite. rewrite drop_ge, app_nil_r; [done|].
  pose proof (HCF (zlen w) ltac:(done)) as Hlen. unfold zlen in *. lia.
Qed.

Lemma request_infallible : infallible 4 gdt_cct_BatchedLogRequest_fields = true.
Proof. by vm_compute. Qed.

(** C3: encoding the upload request cannot fail.  Whatever the request
    holds, as long as reading it is defined, its wire format exists without
    failure, so the function's error branches are never taken and the data
    it returns is complete. *)
Theorem batched_log_request_infallible req w ok :
  wire_message m 5 gdt_cct_BatchedLogRequest_fields req = Ok (w, ok) -> zlen w < 2 ^ 64 ->
  ok = true /\ GDTCCTEncodeBatchedLogRequest CFData m 5 req = Ok w.
Proof.
  intros Hw Hl.
  assert (ok = true) as ->.
  { exact (infallible_sure m app_image_ok 4 5 _ req request_fields_ok request_infallible _ Hw). }
  split; [done|]. by apply request_data.
Qed.
End Request.

(** ** Concrete runs

    Each theorem with hypotheses is applied to the sample request. *)
Lemma encode_to_buffer_witness :
  wire_message sample_mem 5 gdt_cct_BatchedLogRequest_fields sample_request = Ok (sample_wire, true) /\
  pb_encode (W := unit) sample_mem 5 gdt_cct_BatchedLogRequest_fields sample_request
    (pb_ostream_from_buffer (replicate 40 7) 32) = Ok (true, written (replicate 40 7) sample_wire 32).
Proof.
  split; [by vm_compute|].
  by apply (encode_to_buffer sample_mem sample_bytes app_image_ok (no_callbacks_refine _) 5
    gdt_cct_BatchedLogRequest_fields sample_request sample_wire (replicate 40 7) 32
    request_fields_ok sample_encodes).
Defined.

Lemma encode_short_buffer_witness :
  28 < zlen sample_wire /\
  exists s', pb_encode (W := unit) sample_mem 5 gdt_cct_BatchedLogRequest_fields sample_request
    (pb_ostream_from_buffer (replicate 40 7) 28) = Ok (false, s') /\
  exists buf' d, sink s' = OBuf buf' d /\ length buf' = 40%nat /\
    drop 28 buf' = drop 28 (replicate 40 7).
Proof.
  split; [by vm_compute|].
  apply (encode_short_buffer sample_mem sample_bytes app_image_ok (no_callbacks_refine _) 5
    gdt_cct_BatchedLogRequest_fields sample_request sample_wire true (replicate 40 7) 28
    request_fields_ok sample_encodes); [by vm_compute|done|by vm_compute|by right].
Defined.

Lemma encoded_size_exact_witness :
  pb_get_encoded_size (W := unit) sample_mem 5 gdt_cct_BatchedLogRequest_fields sample_request =
    Ok (Some 29).
Proof.
  by apply (encoded_size_exact sample_mem sample_bytes app_image_ok (no_callbacks_refine _) 5
    gdt_cct_BatchedLogRequest_fields sample_request sample_wire true request_fields_ok sample_encodes).
Defined.

Lemma encode_variants_witness :
  pb_encode_delimited (W := unit) sample_mem 5 gdt_cct_BatchedLogRequest_fields sample_request
    (pb_ostream_from_buffer (replicate 40 7) 40) =
      Ok (true, written (replicate 40 7) (29 :: sample_wire) 40) /\
  pb_encode_nullterminated (W := unit) sample_mem 5 gdt_cct_BatchedLogRequest_fields sample_request
    (pb_ostream_from_buffer (replicate 40 7) 40) =
      Ok (true, written (replicate 40 7) (sample_wire ++ [0]) 40).
Proof.
  by apply (encode_variants sample_mem sample_bytes app_image_ok (no_callbacks_refine _) 5
    gdt_cct_BatchedLogRequest_fields sample_request sample_wire (replicate 40 7) 40
    request_fields_ok sample_encodes).
Defined.

Lemma encode_returns_witness :
  depth_ok 4 gdt_cct_BatchedLogRequest_fields = true /\
  forall s, pb_encode (W := unit) sample_mem 5 gdt_cct_BatchedLogRequest_fields sample_request s <> Timeout.
Proof.
  split; [by vm_compute|]. intros s.
  by apply (encode_returns sample_mem 4 gdt_cct_BatchedLogRequest_fields sample_request s).
Defined.

(** A callback that records what it is given and then refuses. *)
Definition recorder : StreamCallback (list Z) := fun w bs => (zlen w <? 4, w ++ bs).

Lemma pb_write_user_witness :
  let H := recorder in
  pb_write (BArr [1; 2; 3]) 2 (mk_ostream (OUser [9]) 10 1 None) =
    Ok (true, mk_ostream (OUser [9; 1; 2]) 10 3 None) /\
  pb_write (BArr [1; 2; 3]) 3 (mk_ostream (OUser [9; 9; 9; 9]) 10 4 None) =
    Ok (false, mk_ostream (OUser [9; 9; 9; 9; 1; 2; 3]) 10 4 (Some "io error"%string)) /\
  pb_write (BArr [1; 2; 3]) 3 (mk_ostream (OUser []) 10 8 None) =
    Ok (false, mk_ostream (OUser []) 10 8 (Some "stream full"%string)).
Proof.
  cbv zeta. split; [|split].
  - by apply (@pb_write_user _ recorder (mk_ostream (OUser [9]) 10 1 None) [9] (BArr [1; 2; 3]) 2 [1; 2]).
  - by apply (@pb_write_user _ recorder (mk_ostream (OUser [9; 9; 9; 9]) 10 4 None) [9; 9; 9; 9] (BArr [1; 2; 3]) 3 [1; 2; 3]).
  - by apply (@pb_write_user _ recorder (mk_ostream (OUser []) 10 8 None) [] (BArr [1; 2; 3]) 3 [1; 2; 3]).
Defined.

Lemma encode_varint_shape_witness :
  exists l b, Forall (fun x => 128 <= x < 256) l /\ 0 <= b < 128 /\ zlen l <= 9 /\
    pb_encode_varint (W := unit) 300 (pb_ostream_from_buffer (replicate 12 7) 10) =
      Ok (true, written (replicate 12 7) (l ++ [b]) 10).
Proof. by apply (encode_varint_shape 300 (replicate 12 7) 10). Defined.

Lemma batched_log_request_infallible_witness :
  true = true /\
  GDTCCTEncodeBatchedLogRequest (fun n => replicate (Z.to_nat n) 0) sample_mem 5 sample_request =
    Ok sample_wire.
Proof.
  apply (batched_log_request_infallible (fun n => replicate (Z.to_nat n) 0)) with (m := sample_mem).
  - intros n Hn. unfold zlen. rewrite length_replicate. lia.
  - exact sample_bytes.
  - exact sample_encodes.
  - by vm_compute.
Defined.
