(* ===== verification/DecodeSpec.v ===== *)
(** * What the decoder promises its clients

    The reading discipline read at the entry points of [pb_decode.h]: no input
    makes the decoder read past it, success consumes exactly what was counted,
    decoding returns, and a delimited message is confined to its frame. *)
From S2P Require Import Prelude Base128 Types Mem Iter OStream Wire IStream Discipline Decode MemSafe DecodeSafe.
From S2P Require Import RoundTrip Descriptors Client.

(** The bytes a stream may still read. *)
Definition window (i : pb_istream_t) : list Z :=
  match source i with
  | IBuf r => take (Z.to_nat (bytes_left i)) r
  | IUser _ => []
  end.

Section Entry.
Context `{Image} `{ReadCallback} `{Allocator} `{DecodeCallbacks}.

(** C2: whatever bytes the input holds, whatever the descriptors and the
    destination are, [pb_decode] and its delimited variant never read a byte
    outside the input, on streams with lawful callbacks. *)
Theorem decode_in_bounds `{!LawfulDecode True} fuel fields dest s :
  istream_wf (istream s) ->
  pb_decode fuel fields dest s <> UB OverRead /\
  pb_decode_delimited fuel fields dest s <> UB OverRead.
Proof.
  intros Hs.
  pose proof (decode_disc True (or_introl I) fuel fields dest (or_introl I)) as Hd.
  pose proof (delimited_disc True _ Hd) as Hl.
  specialize (Hd s Hs). specialize (Hl s Hs). unfold disc_at in *. split.
  - by destruct (pb_decode fuel fields dest s) as [[]|[]|].
  - unfold pb_decode_delimited. by destruct (delimited _ s) as [[]|[]|].
Qed.

(** C20: when [pb_decode] succeeds on a buffer, it has moved the buffer
    position by exactly the amount it took off [bytes_left], and what is
    left to read is the tail of what was. *)
Theorem decode_consumes `{!LawfulDecode True} fuel fields dest s s' r :
  istream_wf (istream s) -> source (istream s) = IBuf r ->
  pb_decode fuel fields dest s = Ok (true, s') ->
  let taken := bytes_left (istream s) - bytes_left (istream s') in
  0 <= taken /\ source (istream s') = IBuf (drop (Z.to_nat taken) r) /\
  window (istream s') = drop (Z.to_nat taken) (window (istream s)).
Proof.
  intros Hs Hr E. cbv zeta.
  pose proof (decode_disc True (or_introl I) fuel fields dest (or_introl I) s Hs) as Hd.
  rewrite E in Hd. destruct Hd as (Hwf & (Hle & _ & Hsrc) & Hg).
  destruct (Hg eq_refl) as [_ Hsl]. clear Hg E. unfold window, slack, istream_wf in *. rewrite Hr in *.
  destruct Hs as (Hb & Hz & _). destruct Hwf as (Hb' & Hz').
  destruct (source (istream s')) as [r'|]; [|done]. destruct Hsrc as [k ->].
  destruct Hz' as [Hz' _]. unfold zlen in *. rewrite length_drop in *.
  assert (Hk : drop k r = drop (Z.to_nat (bytes_left (istream s) - bytes_left (istream s'))) r).
  { destruct (Nat.leb_spec k (length r)); [f_equal; lia|rewrite !drop_ge by lia; done]. }
  split; [lia|]. split; [by rewrite Hk|]. rewrite Hk, skipn_firstn_comm. f_equal. lia.
Qed.

End Entry.

(** ** Delimited messages *)
Section Delimited.
Context `{ReadCallback}.

(** The substream of a frame. *)
Lemma make_substream_holds w s :
  zlen w < 2 ^ 32 -> holds s (framed w) ->
  exists rest, source (istream (consumed (zlen (varint (zlen w))) s)) = IBuf (w ++ rest) /\
    let n := bytes_left (istream s) - zlen (framed w) in
    0 <= n /\
    pb_make_string_substream s =
      Ok (Some (mk_istream (IBuf (w ++ rest)) (zlen w) (i_errmsg (istream s))),
          with_istream (mk_istream (IBuf (w ++ rest)) n (i_errmsg (istream s))) s).
Proof.
  intros Hw Hs. pose proof (zlen_nonneg w). unfold framed in *.
  pose proof (decode_varint32_holds (zlen w) s ltac:(lia) (holds_prefix _ _ _ Hs)) as Hn.
  pose proof (holds_nonneg _ _ Hs) as Hb. apply holds_consumed in Hs as (rest & Hsrc & Hl).
  set (v := zlen (varint (zlen w))) in *.
  assert (Hbl : bytes_left (istream (consumed v s)) = bytes_left (istream s) - v) by done.
  rewrite Hbl in Hl. exists rest. split; [done|]. cbv zeta. rewrite zlen_app. fold v.
  split; [lia|]. unfold pb_make_string_substream. rewrite (bind_Ok _ _ _ _ _ Hn). cbv iota beta.
  rewrite (bind_Ok get _ _ _ _ eq_refl). cbv zeta.
  rewrite Hbl. destruct (Z.ltb_spec (bytes_left (istream s) - v) (zlen w)); [lia|].
  unfold bind, take_left, modify, ret. rewrite Hsrc. cbn [istream with_istream dmem fixed_count_size].
  pose proof (zlen_nonneg (varint (zlen w))). rewrite Hbl, wrap_small by lia.
  by rewrite Z.sub_add_distr.
Qed.

(** What a disciplined computation leaves of a frame [w] in front of [rest]. *)
Lemma frame_rest (w rest : list Z) (n : Z) (i' : pb_istream_t) e :
  istream_wf i' -> advances (mk_istream (IBuf (w ++ rest)) (zlen w) e) i' ->
  slack i' = slack (mk_istream (IBuf (w ++ rest)) (zlen w) e) ->
  exists l, source i' = IBuf (l ++ rest) /\ zlen l = bytes_left i' /\ bytes_left i' < 2 ^ 64.
Proof.
  intros [Hb Hwf] (Hle & _ & Hsrc) Hsl. unfold slack in Hsl. cbn in *.
  destruct (source i') as [r'|]; [|done]. destruct Hsrc as [k ->]. destruct Hwf as [Hwf _].
  rewrite zlen_app in Hsl. exists (drop (Z.to_nat (zlen w - bytes_left i')) w).
  unfold zlen in *. rewrite length_drop, length_app in *.
  assert (Hk : drop k (w ++ rest) = drop (Z.to_nat (Z.of_nat (length w) - bytes_left i')) (w ++ rest)).
  { destruct (Nat.leb_spec k (length (w ++ rest))) as [Hk|Hk]; rewrite length_app in Hk;
      [f_equal; lia|rewrite !drop_ge by (rewrite length_app; lia); done]. }
  rewrite Hk, drop_app_le by lia. split; [done|]. split; lia.
Qed.

(** Closing such a substream brings the parent behind the frame. *)
Lemma close_frame (l rest : list Z) (sub : pb_istream_t) s :
  source sub = IBuf (l ++ rest) -> zlen l = bytes_left sub -> bytes_left sub < 2 ^ 64 ->
  exists e, pb_close_string_substream sub s =
    Ok (true, with_istream (mk_istream (IBuf rest) (bytes_left (istream s)) e) s).
Proof.
  intros Hsrc Hl Hn. unfold pb_close_string_substream. cbv zeta.
  destruct (Z.eqb_spec (bytes_left sub) 0) as [Hz|Hz]; cbn [negb].
  - destruct l; [|rewrite zlen_cons in Hl; pose proof (zlen_nonneg l); lia].
    unfold bind, modify, ret. rewrite Hsrc. by eexists.
  - assert (Hh : holds (with_istream sub s) (l ++ [])).
    { exists rest. cbn. rewrite app_nil_r. split; [done|]. lia. }
    pose proof (skip_holds _ l [] Hh) as Hr. rewrite Hl in Hr.
    unfold bind at 1, on_stream. rewrite Hr. unfold bind, modify, ret, consumed.
    cbn [istream with_istream source]. rewrite Hsrc, <- Hl. unfold zlen. rewrite Nat2Z.id, drop_app_length.
    by eexists.
Qed.

Lemma frame_bytes w s rest :
  holds s (framed w) -> istream_wf (istream s) ->
  source (istream (consumed (zlen (varint (zlen w))) s)) = IBuf (w ++ rest) ->
  bytes rest /\ bytes w.
Proof.
  intros (r & Hr & _) [_ Hwf] Hsrc. unfold consumed in Hsrc. cbn [istream with_istream source] in Hsrc. rewrite Hr in *.
  injection Hsrc as Hsrc. destruct Hwf as [_ Hb].
  apply (Forall_drop _ (Z.to_nat (zlen (varint (zlen w))))) in Hb. rewrite Hsrc in Hb.
  by apply Forall_app in Hb as [? ?].
Qed.

(** A delimited message is confined to its frame.  When the input
    holds a frame with the bytes [w] and decoding the message succeeds, the
    stream ends up exactly behind the frame, however much of [w] the message
    decoder [c] left unread. *)
Theorem delimited_frame (c : DM bool) w s s' :
  disc true True c -> zlen w < 2 ^ 32 -> holds s (framed w) ->
  istream_wf (istream s) -> delimited c s = Ok (true, s') ->
  source (istream s') = source (istream (consumed (zlen (framed w)) s)) /\
  bytes_left (istream s') = bytes_left (istream s) - zlen (framed w).
Proof.
  intros Hc Hw Hs Hwf. unfold delimited.
  destruct (make_substream_holds w s Hw Hs) as (rest & Hsrc & Hn & Hmk). cbv zeta in Hn, Hmk.
  rewrite (bind_Ok _ _ _ _ _ Hmk). cbv iota beta.
  set (sub := mk_istream (IBuf (w ++ rest)) (zlen w) (i_errmsg (istream s))).
  set (s1 := with_istream _ s).
  assert (Hsub : istream_wf sub).
  { destruct (frame_bytes w s rest Hs Hwf Hsrc) as [Hr Hbw]. pose proof (zlen_nonneg w).
    pose proof (zlen_nonneg rest). split; cbn; [lia|]. rewrite zlen_app. split; [lia|].
    apply Forall_app. by split. }
  intros ([status sub'] & s2 & E & Hk)%bind_inv. unfold on_stream in E.
  pose proof (Hc (with_istream sub s1) Hsub) as Hd.
  destruct (c (with_istream sub s1)) as [[st s3]| |] eqn:Ec; try done. injection E as <- <- <-.
  destruct Hd as (Hwf3 & Ha & Hg). apply bind_inv in Hk as (b & s4 & Hclose & Hk).
  destruct b; [|done]. injection Hk as -> <-. destruct (Hg eq_refl) as [_ Hsl].
  destruct (frame_rest w rest 0 _ _ Hwf3 Ha Hsl) as (l & Hl1 & Hl2 & Hl3).
  destruct (close_frame l rest _ (with_istream (istream s1) s3) Hl1 Hl2 Hl3) as (e & Hcl).
  pose proof (eq_trans (eq_sym Hcl) Hclose) as Hx. injection Hx as <-. cbn [istream with_istream source bytes_left].
  split; [|done]. unfold framed. rewrite zlen_app, <- consumed_consumed by apply zlen_nonneg.
  unfold consumed at 1. rewrite Hsrc. cbn. unfold zlen at 1. by rewrite Nat2Z.id, drop_app_length.
Qed.
End Delimited.

(** ** The server's response *)
Section Response.
Context `{Allocator}.

Lemma response_terminated :
  terminated gdt_cct_LogResponse_fields (pred (length gdt_cct_LogResponse_fields)).
Proof. apply terminatedb_spec. by vm_compute. Qed.

Lemma response_depth : depth_ok 4 gdt_cct_LogResponse_fields = true.
Proof. by vm_compute. Qed.

Lemma data_wf data : bytes data -> zlen data < 2 ^ 64 ->
  istream_wf (pb_istream_from_buffer data (zlen data)).
Proof. intros Hb Hl. pose proof (zlen_nonneg data). split; cbn; [lia|]. split; [lia|done]. Qed.

End Response.

(** ** Concrete runs *)
#[local] Existing Instance always.
Definition response_mem : mem := mem_of 0x1000 (replicate 64 7).
Definition response_stream (data : list Z) : dstate :=
  mk_dstate response_mem (pb_istream_from_buffer data (zlen data)) 0.

Lemma response_wf data :
  forallb (fun b => (0 <=? b) && (b <? 256)) data && (zlen data <? 2 ^ 64) = true ->
  istream_wf (istream (response_stream data)).
Proof.
  intros [Hb Hl]%andb_true_iff. apply data_wf; [|lia].
  rewrite forallb_forall in Hb. apply Forall_forall. intros b Hin. unfold is_byte.
  apply list_elem_of_In in Hin. specialize (Hb b Hin). lia.
Qed.

(** A truncated string field: the decoder stops with an error. *)
Lemma decode_in_bounds_witness :
  pb_decode 5 gdt_cct_LogResponse_fields 0x1000 (response_stream [26; 200; 1; 10]) <> UB OverRead /\
  pb_decode_delimited 5 gdt_cct_LogResponse_fields 0x1000 (response_stream [26; 200; 1; 10]) <> UB OverRead.
Proof.
  assert (Hlaw : LawfulDecode True) by apply no_callbacks_lawful.
  apply decode_in_bounds. by apply response_wf.
Defined.

(** What is left to read after success. *)
Definition success_left (o : outcome (bool * dstate)) : option Z :=
  match o with Ok (true, s) => Some (bytes_left (istream s)) | _ => None end.
Lemma success_left_inv o n :
  success_left o = Some n -> exists s, o = Ok (true, s) /\ bytes_left (istream s) = n.
Proof. destruct o as [[[] s]| |]; try done. intros [= <-]. by exists s. Qed.

Lemma decode_consumes_witness :
  exists s', pb_decode 5 gdt_cct_LogResponse_fields 0x1000 (response_stream [8; 100; 0; 9]) = Ok (true, s') /\
  source (istream s') = IBuf [9] /\ window (istream s') = [9].
Proof.
  assert (E : success_left (pb_decode 5 gdt_cct_LogResponse_fields 0x1000
    (response_stream [8; 100; 0; 9])) = Some 1) by (by vm_compute).
  apply success_left_inv in E as (s' & E & Hb). exists s'. split; [done|].
  assert (Hlaw : LawfulDecode True) by apply no_callbacks_lawful.
  destruct (decode_consumes 5 gdt_cct_LogResponse_fields 0x1000 (response_stream [8; 100; 0; 9]) s'
    [8; 100; 0; 9]) as (_ & Hs & Hw); [by apply response_wf|done|done|].
  rewrite Hb in Hs, Hw. by split.
Defined.


Lemma delimited_frame_witness :
  exists s', delimited pb_skip_varint (response_stream [2; 5; 9; 7]) = Ok (true, s') /\
    source (istream s') = IBuf [7] /\ bytes_left (istream s') = 1.
Proof.
  assert (E : success_left (delimited pb_skip_varint (response_stream [2; 5; 9; 7])) = Some 1)
    by (by vm_compute).
  apply success_left_inv in E as (s' & E & _). exists s'. split; [done|].
  destruct (delimited_frame pb_skip_varint [5; 9] (response_stream [2; 5; 9; 7]) s') as [Hs Hb].
  - apply skip_varint_disc.
  - done.
  - exists [7]. split; [done|]. by vm_compute.
  - by apply response_wf.
  - exact E.
  - rewrite Hs, Hb. by split.
Defined.

(** The error a response is refused with. *)
Definition response_error (o : outcome (option string * mem)) : option string :=
  match o with Ok (e, _) => e | _ => None end.

