(* ===== verification/RoundTripSpec.v ===== *)
(** * Round trips

    What the primitive encoders write into a buffer is read back by the
    primitive decoders from that buffer: varints, zigzag integers, tags and
    fixed-width values; and a value of any wire type is skipped exactly. *)
From S2P Require Import Prelude Base128 Types Mem OStream Encode Wire EncodeProof IStream RoundTrip.
From S2P Require Import Decode Descriptors Client EncodeSpec.

(** A decoder about to read the first [n] bytes of [buf]. *)
Definition reader (m : mem) (buf : list Z) (n : Z) : dstate :=
  mk_dstate m (pb_istream_from_buffer buf n) 0.

(** [enc] fills the start of the buffer, and [dec] run on the bytes written
    returns [a] and uses them up. *)
Definition round_trips {W A} (enc : EM W bool) (dec : DM A) (a : A) (buf : list Z)
    (bufsize : Z) : Prop :=
  exists buf' n,
    enc (pb_ostream_from_buffer buf bufsize) =
      Ok (true, mk_ostream (OBuf buf' (Z.to_nat n)) bufsize n None) /\
    forall m, exists s', dec (reader m buf' n) = Ok (a, s') /\
      bytes_left (istream s') = 0 /\ dmem s' = m.

Section RoundTrip.
Context {W : Type} `{StreamCallback W} `{ReadCallback}.
Context (buf : list Z) (bufsize : Z) (Hb : 0 <= bufsize <= zlen buf) (Hn : bufsize < 2 ^ 64).

Lemma reader_holds m w :
  zlen w < 2 ^ 64 -> holds (reader m (overwrite buf 0 w) (zlen w)) w.
Proof. intros. eexists. split; [done|]. cbn. lia. Qed.

Lemma round_trips_intro {A} (enc : EM W bool) (dec : DM A) a w :
  emits enc (w, true) -> zlen w <= bufsize ->
  (forall s, holds s w -> dec s = Ok (a, consumed (zlen w) s)) ->
  round_trips enc dec a buf bufsize.
Proof.
  intros He Hw Hd. exists (overwrite buf 0 w), (zlen w).
  pose proof (emits_buffer _ _ _ buf bufsize He Hb Hn ltac:(lia)) as Hc.
  rewrite (proj2 (Z.leb_le _ _) Hw) in Hc. split.
  - rewrite Hc. unfold written. do 4 f_equal. unfold zlen. lia.
  - intros m. eexists. split; [apply Hd, reader_holds; lia|]. split; [cbn; lia|done].
Qed.

(** Varints.  Every 64-bit value written by [pb_encode_varint] is read
    back by [pb_decode_varint], and every 32-bit value by
    [pb_decode_varint32], with all written bytes used up. *)
Theorem varint_roundtrip v :
  10 <= bufsize -> 0 <= v < 2 ^ 64 ->
  round_trips (pb_encode_varint (W := W) v) pb_decode_varint (Some v) buf bufsize /\
  (v < 2 ^ 32 ->
   round_trips (pb_encode_varint (W := W) v) pb_decode_varint32 (Some v) buf bufsize).
Proof.
  intros H10 Hv. pose proof (zlen_varint v Hv). split; intros.
  - apply (round_trips_intro _ _ _ (varint v)); [by apply varint_emits|lia|].
    intros s. by apply decode_varint_holds.
  - apply (round_trips_intro _ _ _ (varint v)); [by apply varint_emits|lia|].
    intros s Hs. apply decode_varint32_holds; [lia|done].
Qed.

(** Zigzag integers.  Every signed 64-bit value written by
    [pb_encode_svarint] is read back by [pb_decode_svarint]. *)
Theorem svarint_roundtrip v :
  10 <= bufsize -> - 2 ^ 63 <= v < 2 ^ 63 ->
  round_trips (pb_encode_svarint (W := W) v) pb_decode_svarint (Some v) buf bufsize.
Proof.
  intros H10 Hv. assert (Hz : 0 <= zigzag v < 2 ^ 64) by (unfold zigzag; destruct (v <? 0) eqn:E; lia).
  pose proof (zlen_varint _ Hz).
  apply (round_trips_intro _ _ _ (varint (zigzag v))); [by apply svarint_emits|lia|].
  intros s. by apply decode_svarint_holds.
Qed.

(** Tags.  A field key written by [pb_encode_tag] is read back by
    [pb_decode_tag] as the same field number and wire type, and not as the
    end of the message. *)
Theorem tag_roundtrip wiretype field_number :
  10 <= bufsize -> 0 < field_number < 2 ^ 29 -> 0 <= wiretype < 8 ->
  round_trips (pb_encode_tag (W := W) wiretype field_number) pb_decode_tag
    (mk_tag true wiretype field_number false) buf bufsize.
Proof.
  intros H10 Ht Hw. pose proof (zlen_varint (8 * field_number + wiretype) ltac:(lia)).
  apply (round_trips_intro _ _ _ (wire_key wiretype field_number)).
  - apply tag_emits; lia.
  - done || (unfold wire_key; lia).
  - intros s. by apply decode_tag_holds.
Qed.
End RoundTrip.

(** ** Fixed-width values *)

(** Fixed-width values.  Four (or eight) bytes of one memory written by
    [pb_encode_fixed32] ([pb_encode_fixed64]) are stored unchanged in another
    memory by the decoder. *)
Theorem fixed_roundtrip {W} `{StreamCallback W} `{ReadCallback} m src n bs buf bufsize m1 dest m2 :
  mem_bytes m -> n = 4 \/ n = 8 -> load_bytes m src n = Some bs ->
  8 <= bufsize <= zlen buf -> bufsize < 2 ^ 64 -> store_bytes m1 dest bs = Some m2 ->
  let enc := if n =? 4 then pb_encode_fixed32 (W := W) m src else pb_encode_fixed64 m src in
  let dec := if n =? 4 then pb_decode_fixed32 dest else pb_decode_fixed64 dest in
  enc (pb_ostream_from_buffer buf bufsize) = Ok (true, written buf bs bufsize) /\
  exists s', dec (reader m1 (overwrite buf 0 bs) n) = Ok (true, s') /\
    dmem s' = m2 /\ bytes_left (istream s') = 0.
Proof.
  intros Hm Hn Hbs Hb Hsz Hst. cbv zeta.
  pose proof (load_bytes_length m src n bs ltac:(lia) Hbs) as Hl.
  assert (Hbytes : bytes bs) by (eapply load_bytes_bytes; done).
  assert (He : emits (if n =? 4 then pb_encode_fixed32 (W := W) m src else pb_encode_fixed64 m src) (bs, true)).
  { assert (Hw : wire_mem m src n = Ok (bs, true)) by (unfold wire_mem, rd; by rewrite Hbs).
    destruct Hn as [-> | ->]; [by apply (fixed32_refines m Hm)|by apply (fixed64_refines m Hm)]. }
  split.
  - pose proof (emits_buffer _ _ _ buf bufsize He ltac:(lia) Hsz ltac:(lia)) as Hc.
    by rewrite (proj2 (Z.leb_le _ _)) in Hc by lia.
  - pose proof (reader_holds buf m1 bs ltac:(lia)) as Hh. rewrite Hl in Hh.
    assert (Hd : exists s', (if n =? 4 then pb_decode_fixed32 dest else pb_decode_fixed64 dest)
      (reader m1 (overwrite buf 0 bs) n) = Ok (true, s') /\ s' = with_mem m2 (consumed n (reader m1 (overwrite buf 0 bs) n))).
    { destruct Hn as [-> | ->]; eexists; (split; [|reflexivity]);
        [by apply (decode_fixed32_holds bs)|by apply (decode_fixed64_holds bs)]. }
    destruct Hd as (s' & -> & ->). eexists. split; [done|]. split; [done|]. cbn. lia.
Qed.

(** ** Skipping *)

(** The bytes of a value of a wire type. *)
Definition wire_payload (wt : Z) (w : list Z) : Prop :=
  (wt = PB_WT_VARINT /\ exists v, 0 <= v < 2 ^ 64 /\ w = varint v) \/
  (wt = PB_WT_64BIT /\ zlen w = 8) \/
  (wt = PB_WT_STRING /\ exists u, w = framed u) \/
  (wt = PB_WT_32BIT /\ zlen w = 4).

Section Skip.
Context `{Image} `{EncodeTraces} (m : mem) (Hm : mem_bytes m).
Context (wire_sub : list pb_field_t -> Z -> outcome trace).

Lemma framed_payload o w :
  wire_framed o = Ok (w, true) -> wire_payload PB_WT_STRING w.
Proof.
  intros ([u ok] & _ & Ht)%obind_Ok. destruct ok; [|done]. injection Ht as <-.
  right; right; left. split; [done|]. by exists u.
Qed.

Lemma int_payload ld conv f p w :
  (forall n v, ld m p n = Some v -> 1 <= n <= 8 -> 0 <= conv v < 2 ^ 64) ->
  wire_int m ld conv f p = Ok (w, true) -> wire_payload PB_WT_VARINT w.
Proof.
  intros Hld (r & Hr & Ht)%obind_Ok. destruct r as [v|]; [|done]. injection Ht as <-.
  left. split; [done|]. exists (conv v). split; [|done].
  unfold read_int in Hr. destruct (_ || _) eqn:E; [|done].
  apply obind_Ok in Hr as (a & Ha & [= ->]). unfold rd in Ha.
  destruct (ld m p (data_size f)) eqn:El; [|done]. injection Ha as ->. eapply Hld; [done|lia].
Qed.

Lemma mem_payload p n w : 0 <= n -> wire_mem m p n = Ok (w, true) -> zlen w = n.
Proof.
  intros Hn (bs & Hbs & [= <-])%obind_Ok. unfold rd in Hbs.
  destruct (load_bytes m p n) as [l|] eqn:E; [|done]. injection Hbs as ->.
  by eapply load_bytes_length.
Qed.

Lemma signed_value_range p n v : load_signed m p n = Some v -> 1 <= n <= 8 -> - 2 ^ 63 <= v < 2 ^ 63.
Proof.
  intros Hv Hn. apply load_signed_range in Hv; [|lia].
  assert (2 ^ (8 * n - 1) <= 2 ^ 63) by (apply Z.pow_le_mono_r; lia). lia.
Qed.

(** What a field's encoder writes after the key has the form the key's wire
    type announces. *)
Lemma value_payload f p wt w :
  0 <= PB_LTYPE (type f) -> wiretype_of (PB_LTYPE (type f)) = Some wt ->
  wire_value m wire_sub f p = Ok (w, true) -> wire_payload wt w.
Proof.
  unfold wire_value. cbv zeta. intros Hl Hwt.
  destruct (Z.eqb_spec (PB_LTYPE (type f)) PB_LTYPE_BOOL) as [E|N0].
  { rewrite E in Hwt. injection Hwt as <-. intros (b & _ & [= <-])%obind_Ok. left. split; [done|].
    exists (if b then 1 else 0). by destruct b. }
  destruct (Z.eqb_spec (PB_LTYPE (type f)) PB_LTYPE_VARINT) as [E|N1].
  { rewrite E in Hwt. injection Hwt as <-. apply int_payload. intros. apply wrap_range. lia. }
  destruct (Z.eqb_spec (PB_LTYPE (type f)) PB_LTYPE_UVARINT) as [E|N2].
  { rewrite E in Hwt. injection Hwt as <-. apply int_payload. intros n v Hv Hn.
    apply load_range in Hv; [|done|lia]. unfold id.
    assert (2 ^ (8 * n) <= 2 ^ 64) by (apply Z.pow_le_mono_r; lia). lia. }
  destruct (Z.eqb_spec (PB_LTYPE (type f)) PB_LTYPE_SVARINT) as [E|N3].
  { rewrite E in Hwt. injection Hwt as <-. apply int_payload. intros n v Hv Hn.
    apply signed_value_range in Hv; [|done]. unfold zigzag. destruct (v <? 0) eqn:?; lia. }
  destruct (Z.eqb_spec (PB_LTYPE (type f)) PB_LTYPE_FIXED32) as [E|N4].
  { rewrite E in Hwt. injection Hwt as <-. intros Hw%mem_payload; [|lia]. by do 3 right. }
  destruct (Z.eqb_spec (PB_LTYPE (type f)) PB_LTYPE_FIXED64) as [E|N5].
  { rewrite E in Hwt. injection Hwt as <-. intros Hw%mem_payload; [|lia]. right. by left. }
  assert (wt = PB_WT_STRING) as ->.
  { unfold wiretype_of in Hwt. rewrite bool_decide_eq_false_2 in Hwt by (rewrite !elem_of_cons, elem_of_nil; tauto).
    rewrite (proj2 (Z.eqb_neq _ _) N4), (proj2 (Z.eqb_neq _ _) N5) in Hwt.
    destruct (bool_decide _); [by injection Hwt|done]. }
  destruct (_ =? PB_LTYPE_BYTES).
  { unfold wire_bytes_array. destruct (p =? NULL); [intros [= <-]; right; right; left; split; [done|by eexists]|].
    intros (n & _ & Ht)%obind_Ok. destruct (_ && _); [done|]. by apply framed_payload in Ht. }
  destruct (_ =? PB_LTYPE_STRING).
  { unfold wire_string. destruct (p =? NULL); [intros [= <-]; right; right; left; split; [done|by eexists]|].
    intros (n & _ & Ht)%obind_Ok. by apply framed_payload in Ht. }
  destruct (_ =? PB_LTYPE_SUBMESSAGE).
  { unfold wire_submessage. destruct (ptr f =? NULL); [done|].
    intros (fs & _ & Ht)%obind_Ok. by apply framed_payload in Ht. }
  destruct (_ =? PB_LTYPE_FIXED_LENGTH_BYTES); [apply framed_payload|done].
Qed.

Lemma skip_payload `{ReadCallback} wt w s :
  wire_payload wt w -> zlen w < 2 ^ 32 -> holds s w ->
  pb_skip_field wt s = Ok (true, consumed (zlen w) s).
Proof.
  intros [(-> & v & Hv & ->)|[(-> & Hw)|[(-> & u & ->)|(-> & Hw)]]] Hlt Hs; unfold pb_skip_field; cbn [Z.eqb Pos.eqb].
  - by apply skip_varint_holds.
  - rewrite <- Hw. by apply skip_bytes_holds.
  - apply skip_string_holds; [|done]. unfold framed in Hlt. rewrite zlen_app in Hlt.
    pose proof (zlen_nonneg (varint (zlen u))). lia.
  - rewrite <- Hw. by apply skip_bytes_holds.
Qed.

(** Unknown fields are skipped.  Whatever value the encoder wrote for a
    field (a scalar, a string, bytes, a submessage), [pb_skip_field] with the
    field's wire type consumes exactly its bytes and succeeds. *)
Theorem skip_encoded_value `{ReadCallback} f p wt w s :
  wiretype_of (PB_LTYPE (type f)) = Some wt -> wire_value m wire_sub f p = Ok (w, true) ->
  zlen w < 2 ^ 32 -> holds s w -> pb_skip_field wt s = Ok (true, consumed (zlen w) s).
Proof.
  intros Hwt Hw Hl Hs. apply (skip_payload _ _ _ (value_payload f p wt w
    ltac:(apply Z.land_nonneg; by right) Hwt Hw) Hl Hs).
Qed.
End Skip.

(** ** Overlong varints *)
Section Overflow.
Context `{ReadCallback}.

Lemma varint_loop64_cont l r k s :
  Forall (fun b => 128 <= b < 256) l -> zlen l = 10 - k -> 0 <= k -> holds s l ->
  exists s', varint_loop64 (S (length l)) r (7 * k) s = Ok (None, s') /\
    dmem s' = dmem s /\ bytes_left (istream s') = bytes_left (istream s) - zlen l /\
    i_errmsg (istream s') = set_error (i_errmsg (istream s)) "varint overflow".
Proof.
  revert r k s. induction l as [|b l IH]; intros r k s Hl Hk Hk0 Hs.
  - rewrite zlen_nil in Hk. replace k with 10 by lia. cbn [length varint_loop64].
    change (64 <=? 7 * 10) with true. cbn iota. eexists. split; [done|]. split; [done|].
    split; [cbn; rewrite zlen_nil; lia|done].
  - inversion Hl as [|?? Hb Hl']; subst. rewrite zlen_cons in Hk. pose proof (zlen_nonneg l).
    cbn [length]. cbn [varint_loop64]. destruct (Z.leb_spec 64 (7 * k)); [lia|].
    rewrite (bind_Ok _ _ _ _ _ (readbyte_holds s b l Hs)). cbv iota beta zeta.
    rewrite high_bit by lia. destruct (Z.ltb_spec b 128); [lia|]. cbn [negb].
    rewrite (wrap_small 8) by lia. replace (7 * k + 7) with (7 * (k + 1)) by lia.
    destruct (IH (Z.lor r (wrap 64 (Z.shiftl (Z.land b 0x7F) (7 * k)))) (k + 1) (consumed 1 s) Hl'
      ltac:(lia) ltac:(lia) (holds_cons _ _ _ Hs)) as (s' & E & Hm & Hbl & He).
    exists s'. split; [exact E|]. split; [by rewrite Hm|]. split; [|by rewrite He].
    rewrite Hbl, zlen_cons. cbn. lia.
Qed.

(** A varint of more than ten bytes is refused: after ten continuation
    bytes [pb_decode_varint] reports "varint overflow", having read just
    those ten. *)
Theorem varint_overflow l s :
  Forall (fun b => 128 <= b < 256) l -> zlen l = 10 -> holds s l ->
  exists s', pb_decode_varint s = Ok (None, s') /\
    dmem s' = dmem s /\ bytes_left (istream s') = bytes_left (istream s) - 10 /\
    i_errmsg (istream s') = set_error (i_errmsg (istream s)) "varint overflow".
Proof.
  intros Hl Hz Hs. destruct (varint_loop64_cont l 0 0 s Hl ltac:(lia) ltac:(lia) Hs)
    as (s' & E & Hm & Hb & He).
  exists s'. rewrite Hz in Hb. split; [|done]. unfold zlen in Hz.
  replace (S (length l)) with 11%nat in E by lia. exact E.
Qed.

(** [pb_decode_varint32] and [pb_decode_varint] disagree on an overlong
    encoding: the bits of the fifth byte beyond the 32nd are dropped when a
    sixth byte follows, so a value that exceeds 32 bits is read as 0 instead
    of being refused. *)
Theorem varint32_drops_bits m :
  let s := reader m [0x80; 0x80; 0x80; 0x80; 0xF0; 0x00] 6 in
  let s' := reader m [] 0 in
  pb_decode_varint32 s = Ok (Some 0, s') /\ pb_decode_varint s = Ok (Some (7 * 2 ^ 32), s').
Proof. cbv zeta. split; by vm_compute. Qed.
End Overflow.

(** ** Concrete runs *)
Lemma varint_roundtrip_witness :
  round_trips (W := unit) (pb_encode_varint (2 ^ 64 - 1)) pb_decode_varint (Some (2 ^ 64 - 1))
    (replicate 12 7) 10 /\
  round_trips (W := unit) (pb_encode_varint 300) pb_decode_varint32 (Some 300) (replicate 12 7) 10.
Proof.
  assert (Hb : 0 <= 10 <= zlen (replicate 12 7)) by (by vm_compute).
  split.
  - apply (varint_roundtrip (replicate 12 7) 10 Hb eq_refl (2 ^ 64 - 1)); lia.
  - apply (varint_roundtrip (replicate 12 7) 10 Hb eq_refl 300); lia.
Defined.

Lemma svarint_roundtrip_witness :
  round_trips (W := unit) (pb_encode_svarint (- 2 ^ 63)) pb_decode_svarint (Some (- 2 ^ 63))
    (replicate 12 7) 10.
Proof.
  assert (Hb : 0 <= 10 <= zlen (replicate 12 7)) by (by vm_compute).
  apply (svarint_roundtrip (replicate 12 7) 10 Hb eq_refl); lia.
Defined.

Lemma tag_roundtrip_witness :
  round_trips (W := unit) (pb_encode_tag PB_WT_STRING 23) pb_decode_tag (mk_tag true 2 23 false)
    (replicate 12 7) 10.
Proof.
  assert (Hb : 0 <= 10 <= zlen (replicate 12 7)) by (by vm_compute).
  apply (tag_roundtrip (replicate 12 7) 10 Hb eq_refl PB_WT_STRING 23); unfold PB_WT_STRING; lia.
Defined.

(** The log source of the sample request. *)
Definition sample_source : Z := 4436.

Lemma fixed_roundtrip_witness :
  let m1 := mem_of 0x2000 (replicate 8 0) in
  exists m2, store_bytes m1 0x2000 [250; 3; 0; 0] = Some m2 /\
  pb_encode_fixed32 (W := unit) sample_mem sample_source (pb_ostream_from_buffer (replicate 9 7) 8) =
    Ok (true, written (replicate 9 7) [250; 3; 0; 0] 8) /\
  exists s', pb_decode_fixed32 0x2000 (reader m1 (overwrite (replicate 9 7) 0 [250; 3; 0; 0]) 4) =
    Ok (true, s') /\ dmem s' = m2 /\ bytes_left (istream s') = 0.
Proof.
  cbv zeta. destruct (store_bytes (mem_of 0x2000 (replicate 8 0)) 0x2000 [250; 3; 0; 0]) as [m2|] eqn:E;
    [|by vm_compute in E].
  exists m2. split; [done|].
  pose proof (fixed_roundtrip (W := unit) sample_mem sample_source 4 [250; 3; 0; 0] (replicate 9 7) 8
    (mem_of 0x2000 (replicate 8 0)) 0x2000 m2 sample_bytes (or_introl eq_refl)) as H.
  rewrite (Z.eqb_refl 4) in H.
  apply H; [by vm_compute|by vm_compute|done|exact E].
Defined.

Lemma skip_encoded_value_witness :
  let f := default PB_LAST_FIELD (gdt_cct_LogEvent_fields !! 1%nat) in
  wire_value sample_mem (wire_message sample_mem 0) f 0x1300 = Ok ([3; 104; 105; 33], true) /\
  pb_skip_field PB_WT_STRING (reader sample_mem [3; 104; 105; 33; 120] 5) =
    Ok (true, consumed 4 (reader sample_mem [3; 104; 105; 33; 120] 5)).
Proof.
  cbv zeta. split; [by vm_compute|].
  apply (skip_encoded_value sample_mem sample_bytes (wire_message sample_mem 0)
    (default PB_LAST_FIELD (gdt_cct_LogEvent_fields !! 1%nat)) 0x1300 PB_WT_STRING [3; 104; 105; 33]);
    [by vm_compute|by vm_compute|by vm_compute|].
  exists [120]. split; [done|by vm_compute].
Defined.

Lemma varint_overflow_witness :
  exists s', pb_decode_varint (reader (mem_of 0x2000 [0]) (replicate 10 255 ++ [1]) 11) = Ok (None, s') /\
    dmem s' = (mem_of 0x2000 [0]) /\ bytes_left (istream s') = 1 /\
    i_errmsg (istream s') = Some "varint overflow"%string.
Proof.
  assert (Hh : holds (reader (mem_of 0x2000 [0]) (replicate 10 255 ++ [1]) 11) (replicate 10 255)).
  { exists [1]. split; [reflexivity|by vm_compute]. }
  assert (Hl : Forall (fun b => 128 <= b < 256) (replicate 10 255)) by (by apply Forall_replicate).
  destruct (varint_overflow (replicate 10 255) _ Hl eq_refl Hh) as (s' & E & Hm & Hb & He).
  exists s'. split; [exact E|]. split; [exact Hm|]. split; [exact Hb|exact He].
Defined.
