(* ===== verification/MemorySpec.v ===== *)
(** * Heap use of the decoder

    What the decoder relies on when it grows and releases the memory of
    pointer fields: [realloc] keeps the contents, [allocate_field] never asks
    for less than it needs, and releasing a field cannot free twice. *)
From S2P Require Import Prelude Types Mem Iter IStream Decode RoundTripSpec Descriptors Client.

Section Growing.
Context `{Allocator}.

(** The effect of moving a live block. *)
Lemma realloc_moved m p old n :
  mem_wf m -> p <> NULL -> heap m !! p = Some old -> 0 < n -> alloc_ok m n = true ->
  exists q m', pb_realloc m p n = Some (q, m') /\ mem_wf m' /\
    heap m' !! q = Some n /\ heap m' !! p = None /\
    (forall i, 0 <= i < Z.min old n -> cells m' !! (q + i) = cells m !! (p + i)) /\
    (forall a, ~ p <= a < p + old -> ~ q <= a < q + n -> cells m' !! a = cells m !! a).
Proof.
  intros Hm Hp Hold Hn Ha. destruct (realloc_move m Hm p old n Hp Hold Hn Ha) as (m' & E & Hwf & Hfree).
  destruct (block_below m Hm p old Hold) as [_ Hbelow].
  destruct (wf_blocks m Hm p old Hold) as [Hpos Hall].
  pose proof (zlen_moved m p old n Hpos Hn) as Hlen.
  pose proof (fun a => realloc_cells m Hm p old n m' a Hp Hold Hn Hfree) as Hc.
  exists (brk m), m'. split; [done|]. split; [done|].
  assert (Hne : moved_contents m p old n <> []) by (intros E'; rewrite E', zlen_nil in Hlen; lia).
  destruct (free_inv _ (new_block_wf m Hm _ Hne) p m' Hp Hfree) as (k & Hk & Hh & _ & _).
  rewrite Hh. cbn [heap new_block snd]. rewrite lookup_delete_ne, lookup_insert, decide_True by lia.
  rewrite lookup_delete_eq, Hlen. split; [done|]. split; [done|]. split.
  - intros i Hi. rewrite Hc, decide_False, decide_True by lia. unfold moved_contents.
    rewrite lookup_app_l by (rewrite length_get_cells; lia).
    rewrite lookup_get_cells, decide_True by lia.
    replace (p + Z.of_nat (Z.to_nat (brk m + i - brk m))) with (p + i) by lia.
    destruct (Hall (p + i) ltac:(lia)) as [v ->]. done.
  - intros a H1 H2. by rewrite Hc, !decide_False by lia.
Qed.

(** Growing a block.  A successful [realloc] of a live block gives a
    block of the new size in a well-formed heap; it holds the old contents up
    to the smaller of the two sizes, the old block is gone, and no other cell
    has changed. *)
Theorem realloc_preserves m p old n :
  mem_wf m -> p <> NULL -> heap m !! p = Some old -> 0 < n -> alloc_ok m n = true ->
  exists q m', pb_realloc m p n = Some (q, m') /\ mem_wf m' /\
    heap m' !! q = Some n /\ heap m' !! p = None /\
    (forall i, 0 <= i < Z.min old n -> cells m' !! (q + i) = cells m !! (p + i)) /\
    (forall a, ~ p <= a < p + old -> ~ q <= a < q + n -> cells m' !! a = cells m !! a).
Proof. apply realloc_moved. Qed.

(** The size computation of [allocate_field]. *)
Lemma allocation_size ds n :
  0 < ds < 2 ^ 64 -> 0 < n < 2 ^ 64 ->
  ((2 ^ 32 <=? ds) || (2 ^ 32 <=? n)) && (SIZE_T_MAX / n <? ds) = false ->
  n * ds < 2 ^ 64.
Proof.
  intros Hd Hn Hc. apply andb_false_iff in Hc as [Hc|Hc].
  - assert (ds < 2 ^ 32 /\ n < 2 ^ 32) as [? ?] by lia.
    change (2 ^ 64) with (2 ^ 32 * 2 ^ 32). apply Z.mul_lt_mono_nonneg; lia.
  - apply Z.ltb_ge in Hc. pose proof (Z.mul_div_le SIZE_T_MAX n ltac:(lia)) as Hm.
    unfold SIZE_T_MAX in *. nia.
Qed.

Lemma realloc_result m p n q m' :
  mem_wf m -> 0 < n -> pb_realloc m p n = Some (q, m') -> q <> NULL ->
  q = brk m /\ heap m' !! q = Some n /\ mem_wf m'.
Proof.
  intros Hm Hn E Hq. destruct (alloc_ok m n) eqn:Ha.
  2:{ exfalso. apply Hq. unfold pb_realloc in E. rewrite Ha in E.
      destruct (bool_decide (p = NULL)); [by injection E|]. destruct (heap m !! p); [by injection E|done]. }
  destruct (decide (p = NULL)) as [->|Hp].
  - rewrite (realloc_new m n Ha) in E. cbn [new_block] in E. injection E as <- <-.
    assert (Hl : zlen (replicate (Z.to_nat n) (@None Z)) = n) by (unfold zlen; rewrite length_replicate; lia).
    split; [done|]. split; [cbn; by rewrite lookup_insert, decide_True, Hl by done|].
    apply (new_block_wf m Hm). intros Er. rewrite Er, zlen_nil in Hl. lia.
  - destruct (heap m !! p) as [old|] eqn:Hold.
    + destruct (realloc_moved m p old n Hm Hp Hold Hn Ha) as (q' & m2 & E' & Hwf & Hh & _).
      destruct (realloc_move m Hm p old n Hp Hold Hn Ha) as (m3 & E3 & _ & _).
      rewrite E in E', E3. injection E' as <- <-. injection E3 as -> _. done.
    + unfold pb_realloc in E. rewrite bool_decide_eq_false_2, Hold in E by done. done.
Qed.

(** C33: allocating for a field.  When [allocate_field] succeeds, the product
    of element size and count did not overflow, and the field's pointer
    designates a live block of exactly that many bytes, in a well-formed
    heap.  (Addresses are assumed to fit a pointer.) *)
Theorem allocate_field_exact pData ds n s s' :
  mem_wf (dmem s) -> 0 <= ds < 2 ^ 64 -> 0 <= n < 2 ^ 64 -> brk (dmem s) < 2 ^ 64 ->
  allocate_field pData ds n s = Ok (true, s') ->
  n * ds < 2 ^ 64 /\ exists q, load_ptr (dmem s') pData = Some q /\ q <> NULL /\
    heap (dmem s') !! q = Some (n * ds) /\ mem_wf (dmem s').
Proof.
  intros Hm Hd Hn Hbrk. unfold allocate_field. intros (p & s1 & Hp & Hk)%bind_inv.
  unfold on_mem in Hp. destruct (load_ptr (dmem s) pData); [|done]. injection Hp as <- <-.
  destruct ((ds =? 0) || (n =? 0)) eqn:Hz; [done|]. cbv zeta in Hk.
  destruct (_ && _) eqn:Hc; [done|].
  pose proof (allocation_size ds n ltac:(lia) ltac:(lia) Hc) as Hs. split; [done|].
  assert (Hpos : 0 < n * ds) by (apply Z.mul_pos_pos; lia).
  apply bind_inv in Hk as (s2 & s3 & [= <- <-] & Hk). rewrite wrap_small in Hk by lia.
  destruct (pb_realloc (dmem s) _ (n * ds)) as [[q m]|] eqn:Er; [|done].
  apply bind_inv in Hk as (u & s4 & [= <- <-] & Hk).
  destruct (Z.eqb_spec q NULL) as [|Hq]; [done|].
  apply bind_inv in Hk as (u2 & s5 & Hst & [= <-]). unfold upd_mem in Hst. cbn [dmem with_mem] in Hst.
  destruct (store_ptr m pData q) as [m2|] eqn:Est; [|done]. injection Hst as <- <-. cbn [dmem with_mem].
  destruct (realloc_result _ _ _ _ _ Hm Hpos Er Hq) as (Hqb & Hh & Hwf).
  pose proof (wf_brk _ Hm).
  exists q. split; [|split; [done|]].
  - unfold load_ptr. rewrite (load_store_same m m2 pData sizeof_ptr q) by done.
    change (8 * sizeof_ptr) with 64. rewrite wrap_small by lia. done.
  - split; [|by eapply store_bytes_wf].
    apply store_bytes_inv in Est as [-> _]. exact Hh.
Qed.
End Growing.

(** ** Releasing *)
Section Releasing.
Context `{Image}.

(** A pointer field that owns one block: optional or required, and neither a
    submessage nor an extension. *)
Definition plain_pointer (f : pb_field_t) : Prop :=
  PB_ATYPE (type f) = PB_ATYPE_POINTER /\
  (PB_HTYPE (type f) = PB_HTYPE_OPTIONAL \/ PB_HTYPE (type f) = PB_HTYPE_REQUIRED) /\
  PB_LTYPE (type f) <> PB_LTYPE_EXTENSION /\ PB_LTYPE (type f) <> PB_LTYPE_SUBMESSAGE.

Lemma release_plain n it f m :
  cur it = Ok f -> plain_pointer f ->
  pb_release_single_field (S n) it m =
    (do p <- ld (fun m => load_ptr m (pData it));
     run release_block p;
     st (fun m => store_ptr m (pData it) NULL)) m.
Proof.
  intros Hf (Ha & Hh & Hx & Hs). cbn [pb_release_single_field]. unfold release_field_body.
  unfold bind at 1, lift. rewrite Hf. cbv zeta.
  assert (Ho : (PB_HTYPE (type f) =? PB_HTYPE_ONEOF) = false)
    by (unfold PB_HTYPE_ONEOF, PB_HTYPE_OPTIONAL, PB_HTYPE_REQUIRED in *; lia).
  assert (Hr : (PB_HTYPE (type f) =? PB_HTYPE_REPEATED) = false)
    by (unfold PB_HTYPE_REPEATED, PB_HTYPE_OPTIONAL, PB_HTYPE_REQUIRED in *; lia).
  rewrite Ho. rewrite (proj2 (Z.eqb_neq _ _) Hx), (proj2 (Z.eqb_neq _ _) Hs), Ha.
  cbn [andb negb]. change (PB_ATYPE_POINTER =? PB_ATYPE_POINTER) with true.
  rewrite !ret_bind. cbn [negb]. rewrite ret_bind. unfold release_pointer. rewrite Hr. cbn [andb].
  by rewrite !ret_bind.
Qed.

(** Releasing a field frees its block once.  After
    [pb_release_single_field] the block is gone from the heap, the field's
    pointer is NULL, and releasing the field again changes nothing. *)
Theorem release_twice n it f m p size :
  mem_wf m -> cur it = Ok f -> plain_pointer f ->
  load_ptr m (pData it) = Some p -> p <> NULL -> heap m !! p = Some size ->
  pData it + sizeof_ptr <= p \/ p + size <= pData it ->
  exists m', pb_release_single_field (S n) it m = Ok (tt, m') /\ mem_wf m' /\
    heap m' !! p = None /\ load_ptr m' (pData it) = Some NULL /\
    pb_release_single_field (S n) it m' = Ok (tt, m').
Proof.
  intros Hm Hf Hpl Hp Hne Hsz Hdis. rewrite (release_plain n it f m Hf Hpl).
  unfold bind at 1, ld. rewrite Hp.
  assert (Hfree : exists m1, pb_free m p = Some m1).
  { unfold pb_free. rewrite bool_decide_eq_false_2 by done. rewrite Hsz. by eexists. }
  destruct Hfree as [m1 Hfree]. pose proof (free_wf m Hm p m1 Hfree) as Hwf1.
  destruct (free_inv m Hm p m1 Hne Hfree) as (k & Hk & Hh & _ & Hc). rewrite Hsz in Hk. injection Hk as <-.
  unfold bind, release_block. rewrite Hfree.
  assert (Hst : exists m2, store_ptr m1 (pData it) NULL = Some m2).
  { unfold store_ptr, store, store_bytes. destruct (range_ok _ _ _) eqn:Er; [by eexists|].
    apply not_true_iff_false in Er. exfalso. apply Er, range_ok_spec. intros x Hx.
    rewrite length_le_bytes in Hx. change (Z.of_nat (Z.to_nat sizeof_ptr)) with sizeof_ptr in Hx.
    rewrite Hc. rewrite decide_False by lia.
    unfold load_ptr, load, load_bytes in Hp. destruct (read_cells _ _ _) as [bs|] eqn:Eb; [|done].
    apply read_cells_spec in Eb as [_ Hi]. destruct (Hi (Z.to_nat (x - pData it))) as (b & _ & Hb).
    { unfold sizeof_ptr in *. lia. }
    replace (pData it + Z.of_nat (Z.to_nat (x - pData it))) with x in Hb by lia. rewrite Hb. by eexists. }
  destruct Hst as [m2 Hst]. exists m2. unfold st at 1. rewrite Hst.
  assert (Hload : load_ptr m2 (pData it) = Some NULL).
  { unfold load_ptr. by rewrite (load_store_same m1 m2 (pData it) sizeof_ptr NULL). }
  assert (Hheap : heap m2 = delete p (heap m)).
  { apply store_bytes_inv in Hst as [-> _]. exact Hh. }
  split; [done|]. split; [by eapply store_bytes_wf|]. split; [by rewrite Hheap, lookup_delete_eq|].
  split; [done|]. rewrite (release_plain n it f m2 Hf Hpl). unfold bind, ld, release_block, st.
  rewrite Hload. change (pb_free m2 NULL) with (Some m2). cbn.
  rewrite (store_again m1 m2 (pData it) NULL Hst). done.
Qed.
End Releasing.

(** ** Concrete runs: a pointer at [0x2000] to a block of three bytes *)
#[local] Existing Instance always.
Definition block_mem : mem :=
  (new_block (mem_of 0x2000 (le_bytes 8 0x2010)) [Some 1; Some 2; Some 3]).2.

Lemma block_mem_wf : mem_wf block_mem.
Proof. apply mem_wfb_spec. by vm_compute. Qed.

Lemma realloc_preserves_witness :
  exists q m', pb_realloc block_mem 0x2010 5 = Some (q, m') /\ mem_wf m' /\
    heap m' !! q = Some 5 /\ heap m' !! 0x2010 = None /\
    (forall i, 0 <= i < 3 -> cells m' !! (q + i) = cells block_mem !! (0x2010 + i)) /\
    (forall a, ~ 0x2010 <= a < 0x2010 + 3 -> ~ q <= a < q + 5 -> cells m' !! a = cells block_mem !! a).
Proof.
  exact (realloc_preserves block_mem 0x2010 3 5 block_mem_wf ltac:(discriminate)
    ltac:(by vm_compute) ltac:(lia) eq_refl).
Defined.

Lemma allocate_field_exact_witness :
  exists s', allocate_field 0x2000 4 6 (reader block_mem [] 0) = Ok (true, s') /\
  6 * 4 < 2 ^ 64 /\ exists q, load_ptr (dmem s') 0x2000 = Some q /\ q <> NULL /\
    heap (dmem s') !! q = Some (6 * 4) /\ mem_wf (dmem s').
Proof.
  destruct (allocate_field 0x2000 4 6 (reader block_mem [] 0)) as [[[] s']| |] eqn:E;
    [exists s'; split; [reflexivity|]|vm_compute in E; discriminate E..].
  exact (allocate_field_exact 0x2000 4 6 (reader block_mem [] 0) s' block_mem_wf
    ltac:(lia) ltac:(lia) ltac:(by vm_compute) E).
Defined.

Definition string_pointer : pb_field_t :=
  mk_field 1 (Z.lor PB_ATYPE_POINTER (Z.lor PB_HTYPE_OPTIONAL PB_LTYPE_STRING)) 0 0 0 0 0.

Lemma release_twice_witness :
  let it := mk_iter [string_pointer; PB_LAST_FIELD] 0 0 0x2000 0x2000 Local in
  exists m', pb_release_single_field 1 it block_mem = Ok (tt, m') /\ mem_wf m' /\
    heap m' !! 0x2010 = None /\ load_ptr m' 0x2000 = Some NULL /\
    pb_release_single_field 1 it m' = Ok (tt, m').
Proof.
  intros it. apply (release_twice 0 it string_pointer block_mem 0x2010 3 block_mem_wf).
  - reflexivity.
  - split; [reflexivity|]. split; [by left|]. by split.
  - by vm_compute.
  - discriminate.
  - by vm_compute.
  - cbn. unfold sizeof_ptr. lia.
Defined.
