(* ===== verification/FieldSpec.v ===== *)
(** * What the scalar field decoders guarantee

    Integers are stored in the field's width and a value that does not fit is
    reported; strings and byte arrays are stored within the field's capacity
    or refused without touching memory. *)
From S2P Require Import Prelude Base128 Types Mem Iter OStream Wire IStream Decode Descriptors RoundTrip Values Required Client.
From S2P Require Import RoundTripSpec.

Section Integers.
Context `{ReadCallback}.
Context (f : pb_field_t) (dest : Z) (s : dstate) (m' : mem).
Let n : Z := data_size f.
Context (Hn : int_width n = true).

(** The outcome of a range-checked store: success, or an error after the
    store. *)
Definition range_result (fits : bool) (o : outcome (bool * dstate)) (w : list Z) : Prop :=
  if fits then o = Ok (true, with_mem m' (consumed (zlen w) s))
  else exists s', o = Ok (false, s') /\ dmem s' = m'.

(** Unsigned fields.  Decoding the varint of [v] into a field of 1, 2,
    4 or 8 bytes stores [v] modulo the width, and succeeds exactly when [v]
    is below [2 ^ (8 * n)]. *)
Theorem uvarint_range v :
  0 <= v < 2 ^ 64 -> holds s (varint v) -> store (dmem s) dest n (wrap (8 * n) v) = Some m' ->
  range_result (v <? 2 ^ (8 * n)) (pb_dec_uvarint f dest s) (varint v).
Proof.
  intros Hv Hs Hm. rewrite (dec_uvarint_holds f v dest s Hv Hs). unfold range_result.
  pose proof (store_checked_width wrap n dest v (consumed (zlen (varint v)) s) m' Hn Hm) as Hc.
  assert (0 <= n) by (unfold int_width in Hn; lia).
  by rewrite wrap_eq_iff in Hc by lia.
Qed.

(** Zigzag fields.  The same for signed values: success exactly when [v]
    is in the range of the field's two's complement width. *)
Theorem svarint_range v :
  - 2 ^ 63 <= v < 2 ^ 63 -> holds s (varint (zigzag v)) ->
  store (dmem s) dest n (swrap (8 * n) v) = Some m' ->
  range_result ((- 2 ^ (8 * n - 1) <=? v) && (v <? 2 ^ (8 * n - 1)))
    (pb_dec_svarint f dest s) (varint (zigzag v)).
Proof.
  intros Hv Hs Hm. rewrite (dec_svarint_holds f v dest s Hv Hs). unfold range_result.
  pose proof (store_checked_width swrap n dest v (consumed (zlen (varint (zigzag v))) s) m' Hn Hm) as Hc.
  assert (0 < n) by (unfold int_width in Hn; lia).
  by rewrite swrap_eq_iff in Hc by lia.
Qed.

(** Signed fields ([int32], [int64], enums), encoded as 64-bit two's
    complement.  In a field of 8 bytes the value is exact; a field of 4
    bytes takes the low 32 bits of any value without an error; narrower
    fields check the range of the 32-bit value. *)
Theorem varint_range v :
  - 2 ^ 63 <= v < 2 ^ 63 -> holds s (varint (wrap 64 v)) ->
  let u := if n =? 8 then v else swrap 32 v in
  store (dmem s) dest n (swrap (8 * n) u) = Some m' ->
  range_result ((4 <=? n) || ((- 2 ^ (8 * n - 1) <=? u) && (u <? 2 ^ (8 * n - 1))))
    (pb_dec_varint f dest s) (varint (wrap 64 v)).
Proof.
  cbv zeta. intros Hv Hs Hm.
  rewrite (dec_varint_holds f (wrap 64 v) dest s (wrap_range 64 v ltac:(lia)) Hs).
  assert (Hu : svalue n (wrap 64 v) = if n =? 8 then v else swrap 32 v).
  { unfold svalue. destruct (n =? 8).
    - rewrite swrap_wrap by lia. by apply swrap_small.
    - unfold swrap, wrap. f_equal. rewrite <- (Zmod_mod (v + _)).
      replace (2 ^ 64) with (2 ^ 32 * 2 ^ 32) by lia.
      rewrite Z.rem_mul_r by lia. rewrite Zmod_mod.
      replace (v mod 2 ^ 32 + 2 ^ 32 * (v / 2 ^ 32 mod 2 ^ 32) + 2 ^ (32 - 1))
        with (v mod 2 ^ 32 + 2 ^ (32 - 1) + (v / 2 ^ 32 mod 2 ^ 32) * 2 ^ 32) by lia.
      rewrite Z.mod_add by lia. by rewrite Zplus_mod_idemp_l. }
  fold n. rewrite Hu. set (u := if n =? 8 then v else swrap 32 v) in *. unfold range_result.
  pose proof (store_checked_width swrap n dest u (consumed (zlen (varint (wrap 64 v))) s) m' Hn Hm) as Hc.
  unfold int_width in Hn. rewrite swrap_eq_iff in Hc by lia.
  destruct (Z.leb_spec 4 n); [|exact Hc]. cbn [orb].
  assert (Hfit : (- 2 ^ (8 * n - 1) <=? u) && (u <? 2 ^ (8 * n - 1)) = true); [|by rewrite Hfit in Hc].
  unfold u. destruct (Z.eqb_spec n 8) as [E|].
  - rewrite E. change (8 * 8 - 1) with 63. lia.
  - replace n with 4 by lia. pose proof (swrap_range 32 v ltac:(lia)). change (8 * 4 - 1) with (32 - 1). lia.
Qed.
End Integers.

Section Arrays.
Context `{ReadCallback} `{Allocator}.

(** C28: static string fields.  A string is accepted exactly when it and its
    terminating NUL fit the field; then both are stored, within
    [data_size] bytes.  A longer one is refused before memory is touched. *)
Theorem string_field f w dest s :
  PB_ATYPE (type f) = PB_ATYPE_STATIC -> data_size f < 2 ^ 32 -> zlen w + 1 < 2 ^ 32 ->
  holds s (framed w) ->
  (forall m1 m2, zlen w + 1 <= data_size f -> store_bytes (dmem s) dest w = Some m1 ->
     store_bytes m1 (dest + zlen w) [0] = Some m2 ->
     pb_dec_string f dest s = Ok (true, with_mem m2 (consumed (zlen (framed w)) s))) /\
  (data_size f < zlen w + 1 ->
   exists s', pb_dec_string f dest s = Ok (false, s') /\ dmem s' = dmem s).
Proof.
  intros Ha Hd Hl Hs. split; intros.
  - by apply (dec_string_fits f w dest s m1).
  - by apply (dec_string_overflow f w).
Qed.

(** Static bytes fields.  A byte array is accepted exactly when it fits
    the field together with its size member; then the size and the bytes are
    stored.  A longer one is refused before memory is touched. *)
Theorem bytes_field f w dest s :
  PB_ATYPE (type f) = PB_ATYPE_STATIC -> data_size f < 2 ^ 32 -> zlen w < 2 ^ 32 ->
  holds s (framed w) ->
  (forall m1 m2, zlen w + offsetof_bytes <= data_size f -> store_size (dmem s) dest (zlen w) = Some m1 ->
     store_bytes m1 (dest + offsetof_bytes) w = Some m2 ->
     pb_dec_bytes f dest s = Ok (true, with_mem m2 (consumed (zlen (framed w)) s))) /\
  (data_size f < zlen w + offsetof_bytes ->
   exists s', pb_dec_bytes f dest s = Ok (false, s') /\ dmem s' = dmem s).
Proof.
  intros Ha Hd Hl Hs. split; intros.
  - by apply (dec_bytes_fits f w dest s m1).
  - by apply (dec_bytes_overflow f w).
Qed.

(** Fixed-length bytes fields.  The empty value clears the field, a value
    of exactly the field's length is copied, and any other length is refused
    with the memory unchanged. *)
Theorem fixed_length_field f w dest s :
  zlen w < 2 ^ 32 -> holds s (framed w) ->
  (forall m', zlen w = 0 -> memset0 (dmem s) dest (data_size f) = Some m' ->
     pb_dec_fixed_length_bytes f dest s = Ok (true, with_mem m' (consumed (zlen (framed w)) s))) /\
  (forall m', zlen w = data_size f -> 0 < zlen w -> store_bytes (dmem s) dest w = Some m' ->
     pb_dec_fixed_length_bytes f dest s = Ok (true, with_mem m' (consumed (zlen (framed w)) s))) /\
  (zlen w <> 0 -> zlen w <> data_size f ->
   exists s', pb_dec_fixed_length_bytes f dest s = Ok (false, s') /\ dmem s' = dmem s).
Proof.
  intros Hl Hs. pose proof (zlen_nonneg w).
  pose proof (decode_varint32_holds (zlen w) s ltac:(lia) (holds_prefix _ _ _ Hs)) as Hd.
  assert (Hh : holds (consumed (zlen (varint (zlen w))) s) (w ++ []))
    by (rewrite app_nil_r; by apply holds_consumed).
  unfold pb_dec_fixed_length_bytes. rewrite (bind_Ok _ _ _ _ _ Hd). cbv iota beta.
  change PB_SIZE_MAX with (2 ^ 32 - 1). destruct (Z.ltb_spec (2 ^ 32 - 1) (zlen w)); [lia|].
  split; [|split].
  - intros m' Hz Hm. rewrite Hz, Z.eqb_refl. unfold bind, upd_mem. rewrite dmem_consumed, Hm.
    unfold framed. rewrite zlen_app, Hz, Z.add_0_r. done.
  - intros m' Hz Hpos Hm. rewrite (proj2 (Z.eqb_neq (zlen w) 0)) by lia. rewrite Hz, Z.eqb_refl.
    cbn [negb]. rewrite <- Hz, (read_to_holds w [] dest _ m' Hh Hm). by rewrite framed_consumed.
  - intros Hz Hne. rewrite (proj2 (Z.eqb_neq (zlen w) 0)) by done.
    rewrite (proj2 (Z.eqb_neq (zlen w) (data_size f))) by done. cbn. by eexists.
Qed.
End Arrays.

(** ** Concrete runs *)
#[local] Existing Instance always.
Definition field_mem : mem := mem_of 0x1000 (replicate 16 7).
Definition scalar_field (ltype data_size : Z) : pb_field_t := mk_field 1 ltype 0 0 data_size 0 0.

(** Closes [exists m', store = Some m' /\ ...] for a concrete store. *)
Tactic Notation "stored" ident(x) ident(E) :=
  match goal with |- exists m', ?o = Some m' /\ _ =>
    destruct o as [x|] eqn:E; [|vm_compute in E; discriminate E]; exists x; split; [reflexivity|]
  end.

Lemma reader_holds_prefix m w rest :
  zlen (w ++ rest) < 2 ^ 64 -> holds (reader m (w ++ rest) (zlen (w ++ rest))) w.
Proof.
  intros Hl. exists rest. split; [done|]. cbn. rewrite zlen_app in *. pose proof (zlen_nonneg rest). lia.
Qed.

Lemma uvarint_range_witness :
  exists m', store field_mem 0x1000 2 (wrap 16 70000) = Some m' /\
  exists s', pb_dec_uvarint (scalar_field PB_LTYPE_UVARINT 2) 0x1000 (reader field_mem [240; 162; 4] 3) =
    Ok (false, s') /\ dmem s' = m'.
Proof.
  stored m' E.
  exact (uvarint_range (scalar_field PB_LTYPE_UVARINT 2) 0x1000 (reader field_mem [240; 162; 4] 3) m'
    eq_refl 70000 ltac:(lia) (reader_holds_prefix field_mem [240; 162; 4] [] ltac:(by vm_compute)) E).
Defined.

Lemma svarint_range_witness :
  exists m', store field_mem 0x1000 4 (swrap 32 (-3600)) = Some m' /\
  pb_dec_svarint (scalar_field PB_LTYPE_SVARINT 4) 0x1000 (reader field_mem [159; 56; 9] 3) =
    Ok (true, with_mem m' (consumed 2 (reader field_mem [159; 56; 9] 3))).
Proof.
  stored m' E.
  exact (svarint_range (scalar_field PB_LTYPE_SVARINT 4) 0x1000 (reader field_mem [159; 56; 9] 3) m'
    eq_refl (-3600) ltac:(lia) (reader_holds_prefix field_mem [159; 56] [9] ltac:(by vm_compute)) E).
Defined.

Lemma varint_range_witness :
  exists m', store field_mem 0x1000 4 (swrap 32 (swrap 32 (2 ^ 32 + 5))) = Some m' /\
  pb_dec_varint (scalar_field PB_LTYPE_VARINT 4) 0x1000 (reader field_mem [133; 128; 128; 128; 16] 5) =
    Ok (true, with_mem m' (consumed 5 (reader field_mem [133; 128; 128; 128; 16] 5))).
Proof.
  stored m' E.
  exact (varint_range (scalar_field PB_LTYPE_VARINT 4) 0x1000 (reader field_mem [133; 128; 128; 128; 16] 5) m'
    eq_refl (2 ^ 32 + 5) ltac:(lia) (reader_holds_prefix field_mem [133; 128; 128; 128; 16] [] ltac:(by vm_compute)) E).
Defined.

Lemma string_field_witness :
  exists m', store_bytes field_mem 0x1000 [104; 105] = Some m' /\
  exists m2, store_bytes m' 0x1002 [0] = Some m2 /\
  pb_dec_string (scalar_field PB_LTYPE_STRING 3) 0x1000 (reader field_mem [2; 104; 105] 3) =
    Ok (true, with_mem m2 (consumed 3 (reader field_mem [2; 104; 105] 3))) /\
  exists s', pb_dec_string (scalar_field PB_LTYPE_STRING 2) 0x1000 (reader field_mem [2; 104; 105] 3) =
    Ok (false, s') /\ dmem s' = field_mem.
Proof.
  pose proof (reader_holds_prefix field_mem (framed [104; 105]) [] ltac:(by vm_compute)) as Hh.
  stored m' E. assert (E2 : exists m2, store_bytes m' 0x1002 [0] = Some m2).
  { assert (He : is_Some (store_bytes field_mem 0x1000 [104; 105] ≫= fun m => store_bytes m 0x1002 [0]))
      by (vm_compute; by eexists).
    rewrite E in He. destruct He as [m2 He]. by exists m2. }
  destruct E2 as [m2 E2]. exists m2. split; [exact E2|]. split.
  - exact (proj1 (string_field (scalar_field PB_LTYPE_STRING 3) [104; 105] 0x1000
      (reader field_mem [2; 104; 105] 3) eq_refl eq_refl eq_refl Hh) m' m2 ltac:(by vm_compute) E E2).
  - exact (proj2 (string_field (scalar_field PB_LTYPE_STRING 2) [104; 105] 0x1000
      (reader field_mem [2; 104; 105] 3) eq_refl eq_refl eq_refl Hh) eq_refl).
Defined.

Lemma bytes_field_witness :
  exists s', pb_dec_bytes (scalar_field PB_LTYPE_BYTES 5) 0x1000 (reader field_mem [2; 104; 105] 3) =
    Ok (false, s') /\ dmem s' = field_mem.
Proof.
  exact (proj2 (bytes_field (scalar_field PB_LTYPE_BYTES 5) [104; 105] 0x1000
    (reader field_mem [2; 104; 105] 3) eq_refl eq_refl eq_refl
    (reader_holds_prefix field_mem (framed [104; 105]) [] ltac:(by vm_compute))) eq_refl).
Defined.

Lemma fixed_length_field_witness :
  exists m', store_bytes field_mem 0x1000 [104; 105] = Some m' /\
  pb_dec_fixed_length_bytes (scalar_field PB_LTYPE_FIXED_LENGTH_BYTES 2) 0x1000
      (reader field_mem [2; 104; 105] 3) =
    Ok (true, with_mem m' (consumed 3 (reader field_mem [2; 104; 105] 3))).
Proof.
  stored m' E.
  exact (proj1 (proj2 (fixed_length_field (scalar_field PB_LTYPE_FIXED_LENGTH_BYTES 2) [104; 105] 0x1000
    (reader field_mem [2; 104; 105] 3) eq_refl
    (reader_holds_prefix field_mem (framed [104; 105]) [] ltac:(by vm_compute)))) m' eq_refl eq_refl E).
Defined.

(** ** Walking a message

    What the functions that walk a descriptor rely on: the iterator finds a
    field wherever it starts, a walk visits every field once, the address it
    computes is the address the compiler gave the member, and the
    required-field check looks at the fields it should. *)
#[local] Open Scope string_scope.
#[local] Open Scope Z_scope.

(** Finding a field.  From any entry of a descriptor array,
    [pb_field_iter_find] returns, and stops at the first entry in cyclic
    order that has the tag and is not an extension; when there is none it
    reports so and the iterator is back where it started. *)
Theorem iter_find fs dest n k t :
  terminated fs n -> (k < n)%nat ->
  match pb_field_iter_find (field_at fs dest k) t with
  | Ok (true, it) =>
      exists d, (d < n)%nat /\ it = field_at fs dest (cyc n k d) /\
        entry_ok fs (has_tag t) (cyc n k d) = true /\
        forall e, (e < d)%nat -> entry_ok fs (has_tag t) (cyc n k e) = false
  | Ok (false, it) =>
      it = field_at fs dest k /\ forall j, (j < n)%nat -> entry_ok fs (has_tag t) j = false
  | _ => False
  end.
Proof.
  intros Ht Hk. unfold pb_field_iter_find.
  rewrite (field_at_pos fs dest n Ht k Hk), (proj1 (field_at_start fs dest k)).
  destruct (iter_search_spec fs dest n Ht (has_tag t) k Hk) as [(e & He & Hok & Hno & ->)|[Hno ->]].
  - by exists e.
  - done.
Qed.

(** ** Visiting every field *)
Section Visit.
Context {S : Type} (fs : list pb_field_t) (dest : Z) (f : pb_field_iter_t -> M S bool).

(** The reference: [f] at the entries of a list of indices, until it
    returns [false]. *)
Fixpoint visit (ks : list nat) : M S bool :=
  match ks with
  | [] => ret true
  | k :: ks' => try f (field_at fs dest k); visit ks'
  end.

Lemma iter_each_visits n fuel k s :
  terminated fs n -> (k < n)%nat -> (n - k <= fuel)%nat ->
  iter_each f fuel (field_at fs dest k) s = visit (seq k (n - k)) s.
Proof.
  intros Ht. revert k s. induction fuel as [|fuel IH]; intros k s Hk Hf; [lia|].
  cbn [iter_each]. replace (n - k)%nat with (Datatypes.S (n - Datatypes.S k)) by lia.
  cbn [seq visit]. unfold bind. destruct (f (field_at fs dest k) s) as [[[] s']| |]; try done.
  rewrite (iter_next_spec fs dest n Ht k Hk). unfold lift.
  destruct (Nat.ltb_spec (Datatypes.S k) n).
  - apply IH; lia.
  - by replace (n - Datatypes.S k)%nat with 0%nat by lia.
Qed.

(** Visiting every field.  The do-while loop of the encoder, of the
    defaults and of [pb_release] handles the fields of the array once each,
    in order, and stops at the first failure: it is the recursion over the
    indices [0 .. n - 1], and it never runs past the terminator. *)
Theorem for_fields_visits n s :
  terminated fs n -> for_fields fs dest f s = visit (seq 0 n) s.
Proof.
  intros Ht. unfold for_fields, bind, lift. rewrite (iter_begin_spec fs dest n Ht).
  destruct (Nat.eqb_spec n 0) as [->|Hn]; [done|]. cbn [negb].
  rewrite (iter_each_visits n); [by rewrite Nat.sub_0_r|done|lia|destruct Ht; lia].
Qed.
End Visit.

(** ** Addresses *)
Section Chain.
Context (st : struct_decl).

(** One line of a generated [.pb.c] file. *)
Record line : Type := mk_line {
  l_tag : Z; l_type : ftype; l_rules : frules; l_alloc : falloc; l_member : string; l_ptr : Z
}.
Definition entry_of (p : placement) (prev : string) (l : line) : pb_field_t :=
  PB_FIELD (l_tag l) (l_type l) (l_rules l) (l_alloc l) p st (l_member l) prev (l_ptr l).
Fixpoint chain_from (prev : string) (ls : list line) : list pb_field_t :=
  match ls with
  | [] => [PB_LAST_FIELD]
  | l :: ls' => entry_of OTHER prev l :: chain_from (l_member l) ls'
  end.
(** The array: the first entry is placed [FIRST], the others [OTHER], each
    naming the member before it. *)
Definition chain (ls : list line) : list pb_field_t :=
  match ls with
  | [] => [PB_LAST_FIELD]
  | l :: ls' => entry_of FIRST (l_member l) l :: chain_from (l_member l) ls'
  end.

(** The lines are in the order of the struct and each declares its member as
    it is. *)
Fixpoint in_order (from : Z) (ls : list line) : Prop :=
  match ls with
  | [] => True
  | l :: ls' =>
      l_rules l <> OPTEXT /\ member_fits st (l_rules l) (l_alloc l) (l_member l) /\
      0 <= offsetof st (l_member l) - from < 2 ^ 32 /\
      in_order (offsetof st (l_member l) + pb_membersize st (l_member l)) ls'
  end.

Lemma chain_from_lookup prev ls k l :
  ls !! k = Some l ->
  exists prev', chain_from prev ls !! k = Some (entry_of OTHER prev' l) /\
    (forall l', k <> 0%nat -> ls !! pred k = Some l' -> prev' = l_member l') /\
    (k = 0%nat -> prev' = prev).
Proof.
  revert prev k. induction ls as [|l0 ls IH]; intros prev [|k]; try done.
  - intros [= ->]. by exists prev.
  - intros Hl. destruct (IH (l_member l0) k Hl) as (prev' & E & Hp & H0). exists prev'. split; [exact E|].
    split; [|done]. intros l' _ Hl'. destruct k as [|k]; [|by apply Hp].
    injection Hl' as ->. by apply H0.
Qed.

Lemma in_order_lookup from ls k l :
  in_order from ls -> ls !! k = Some l ->
  l_rules l <> OPTEXT /\ member_fits st (l_rules l) (l_alloc l) (l_member l) /\
  forall l', ls !! S k = Some l' ->
    0 <= offsetof st (l_member l') - (offsetof st (l_member l) + pb_membersize st (l_member l)) < 2 ^ 32.
Proof.
  revert from k. induction ls as [|l0 ls IH]; intros from [|k]; try done; intros (Hr & Hf & Ho & Hls).
  - intros [= ->]. split; [done|]. split; [done|]. intros l'. cbn. destruct ls as [|l1 ls]; [done|].
    intros [= ->]. by destruct Hls as (_ & _ & Ho' & _).
  - intros Hl. by apply (IH _ _ Hls).
Qed.

(** The descriptor macros.  For any struct and any fields declared in
    the struct's order, with the member types their rules ask for, the
    address the iterator computes for field [k] of the array that the
    [PB_FIELD] macros build is the base address plus [offsetof] the member. *)
Theorem macro_address ls dest k l :
  in_order 0 ls -> ls !! k = Some l ->
  pData (field_at (chain ls) dest k) = dest + offsetof st (l_member l).
Proof.
  intros Ho. revert l. induction k as [|k IH]; intros l Hl; destruct ls as [|l0 ls]; try done.
  - injection Hl as ->. destruct Ho as (Hr & _ & Hoff & _). cbn [field_at chain lookup list_lookup pData].
    unfold entry_of. rewrite PB_FIELD_offset by done. done.
  - destruct ((l0 :: ls) !! k) as [lp|] eqn:Hp.
    2:{ apply lookup_ge_None in Hp. apply lookup_lt_Some in Hl. lia. }
    destruct (in_order_lookup 0 (l0 :: ls) k lp Ho Hp) as (Hrp & Hfp & Hgap).
    destruct (in_order_lookup 0 (l0 :: ls) (S k) l Ho Hl) as (Hr & Hf & _).
    specialize (Hgap l Hl). cbn [lookup list_lookup] in Hl.
    destruct (chain_from_lookup (l_member l0) ls k l Hl) as (prev & E & Hprev & H0).
    assert (prev = l_member lp) as ->.
    { destruct k as [|k]; [injection Hp as ->; by apply H0|by apply (Hprev lp)]. }
    assert (Ep : exists p q, chain (l0 :: ls) !! k = Some (entry_of p q lp)).
    { destruct k as [|k]; [injection Hp as ->; by do 2 eexists|].
      destruct (chain_from_lookup (l_member l0) ls k lp Hp) as (q & Eq & _). by exists OTHER, q. }
    destruct Ep as (p & q & Ep). cbn [field_at]. rewrite Ep.
    change (chain (l0 :: ls) !! S k) with (chain_from (l_member l0) ls !! k). rewrite E.
    unfold entry_of. apply advance_address; try done; [lia|]. by apply IH.
Qed.
End Chain.

(** The generated descriptors.  In every message of the app, at any
    address, entry [i] of the descriptor array designates the member it is
    meant for, and its [pSize] the member's presence flag or count. *)
Theorem app_layout st fs names i name f dest :
  In (st, fs, names) message_members -> names !! i = Some name -> fs !! i = Some f ->
  pData (field_at fs dest i) = dest + offsetof st name /\
  (size_offset f <> 0 ->
   pSize (field_at fs dest i) = Iter.Mem (dest + offsetof st (size_member f name))).
Proof.
  intros Hin Hn Hf. pose proof (message_members_ok st fs names Hin) as Hok.
  destruct (layout_okb_spec st fs names fs 0 Hok) as [_ Hat]. exact (Hat i name f dest Hn Hf).
Qed.

(** ** Required fields *)

(** The required-field check.  When the decoder has marked exactly the
    indices [l] (of at most 64 fields), the final check passes if and only
    if every required field among the first 64 was marked, and otherwise
    reports "missing required field"; nothing else is changed. *)
Theorem required_check fs dest n k l s st :
  terminated fs n -> Z.of_nat n < 2 ^ 32 -> (k < n)%nat ->
  l_iter st = field_at fs dest k -> fields_seen st = marked l ->
  Forall (fun i => 0 <= i < Z.min 64 (required_before fs n)) l ->
  check_required st s =
    if forallb (fun i => bool_decide (Z.of_nat i ∈ l)) (seq 0 (Z.to_nat (Z.min 64 (required_before fs n))))
    then Ok (true, s) else ret_error "missing required field" s.
Proof.
  intros Ht Hn Hk Hit Hseen Hl. unfold check_required, bind, lift. rewrite Hit.
  rewrite (count_required_spec fs dest n Ht Hn k Hk). change PB_MAX_REQUIRED_FIELDS with 64.
  set (r := Z.min 64 (required_before fs n)) in *.
  assert (Hr : 0 <= r <= 64) by (unfold r, required_before; lia).
  destruct (marked_spec l) as [Hok Hbit]; [by eapply Forall_impl; [exact Hl|cbv beta; lia]|].
  assert (Hall : all_seen r (fields_seen st) = true <-> forall i, 0 <= i < r -> i ∈ l).
  { rewrite Hseen. rewrite all_seen_spec; [|done|done|].
    - split; intros Hi i ?; specialize (Hi i ltac:(lia)); rewrite Hbit in * by lia; by apply (bool_decide_eq_true (i ∈ l)).
    - intros i Hi. rewrite Hbit by lia. apply bool_decide_eq_false. intros Hin.
      rewrite Forall_forall in Hl. specialize (Hl i Hin). cbv beta in Hl. lia. }
  assert (Hlist : forallb (fun i => bool_decide (Z.of_nat i ∈ l)) (seq 0 (Z.to_nat r)) = true <->
                  forall i, 0 <= i < r -> i ∈ l).
  { rewrite forallb_forall. split.
    - intros Hi i Hir. specialize (Hi (Z.to_nat i)). rewrite Z2Nat.id in Hi by lia.
      apply (bool_decide_eq_true (i ∈ l)), Hi, in_seq. lia.
    - intros Hi i Hir. apply in_seq in Hir. apply bool_decide_eq_true. apply Hi. lia. }
  rewrite <- Hlist in Hall. apply eq_true_iff_eq in Hall. rewrite <- Hall.
  destruct (Z.ltb_spec 0 r); [by destruct (all_seen _ _)|].
  rewrite Hall, (proj2 Hlist) by lia. done.
Qed.

(** ** Concrete runs *)
#[local] Existing Instance always.
Lemma terminatedb_n fs n : terminatedb fs && (length fs =? S n)%nat = true -> terminated fs n.
Proof.
  intros [Ht Hl]%andb_true_iff. apply Nat.eqb_eq in Hl. pose proof (terminatedb_spec fs Ht) as H.
  by rewrite Hl in H.
Qed.

Lemma iter_find_witness :
  match pb_field_iter_find (field_at gdt_cct_LogEvent_fields 0x1000 4) 11 with
  | Ok (true, it) =>
      exists d, (d < 6)%nat /\ it = field_at gdt_cct_LogEvent_fields 0x1000 (cyc 6 4 d) /\
        entry_ok gdt_cct_LogEvent_fields (has_tag 11) (cyc 6 4 d) = true /\
        forall e, (e < d)%nat -> entry_ok gdt_cct_LogEvent_fields (has_tag 11) (cyc 6 4 e) = false
  | Ok (false, it) =>
      it = field_at gdt_cct_LogEvent_fields 0x1000 4 /\
        forall j, (j < 6)%nat -> entry_ok gdt_cct_LogEvent_fields (has_tag 11) j = false
  | _ => False
  end.
Proof.
  apply (iter_find gdt_cct_LogEvent_fields 0x1000 6 4 11); [|lia].
  apply terminatedb_n. by vm_compute.
Defined.

(** Records the tags it visits. *)
Definition record_tag (it : pb_field_iter_t) : M (list Z) bool := fun l =>
  let! f := cur it in Ok (negb (tag f =? 15), (l ++ [tag f])%list).

Lemma for_fields_visits_witness :
  for_fields gdt_cct_LogEvent_fields 0 record_tag [] =
    visit gdt_cct_LogEvent_fields 0 record_tag (seq 0 6) [] /\
        for_fields gdt_cct_LogEvent_fields 0 record_tag [] = Ok (false, [1; 6; 11; 15]).
Proof.
  split; [|by vm_compute].
  apply (for_fields_visits gdt_cct_LogEvent_fields 0 record_tag 6).
  apply terminatedb_n. by vm_compute.
Defined.

Definition qos_lines : list line :=
  [mk_line 1 MESSAGE REPEATED POINTER "qos_tier_configuration" addr_QosTierConfiguration;
   mk_line 2 INT64 OPTIONAL STATIC "qos_tier_fingerprint" 0].

Lemma macro_address_witness :
  chain gdt_cct_QosTiersOverride qos_lines = gdt_cct_QosTiersOverride_fields /\
        pData (field_at (chain gdt_cct_QosTiersOverride qos_lines) 0x1000 1) = 0x1000 + 24.
Proof.
  split; [by vm_compute|].
  apply (macro_address gdt_cct_QosTiersOverride qos_lines 0x1000 1
    (mk_line 2 INT64 OPTIONAL STATIC "qos_tier_fingerprint" 0)); [|done].
  vm_compute. intuition discriminate.
Defined.

Lemma app_layout_witness :
  pData (field_at gdt_cct_LogResponse_fields 0x1000 1) =
    0x1000 + offsetof gdt_cct_LogResponse "qos_tier".
Proof.
  apply (app_layout gdt_cct_LogResponse gdt_cct_LogResponse_fields
    ["next_request_wait_millis"; "qos_tier"] 1 "qos_tier"
    (PB_FIELD 3 MESSAGE OPTIONAL STATIC OTHER gdt_cct_LogResponse "qos_tier"
       "next_request_wait_millis" addr_QosTiersOverride) 0x1000); [|done|done].
  unfold message_members. do 8 right. by left.
Defined.

(** Two required fields, of which only the second was seen. *)
Definition required_fields : list pb_field_t :=
  [mk_field 1 PB_HTYPE_REQUIRED 0 0 4 0 0; mk_field 2 PB_HTYPE_REQUIRED 0 0 4 0 0; PB_LAST_FIELD].

Lemma required_check_witness :
  check_required (mk_loop (field_at required_fields 0 1) (marked [1]) 0 None) (reader (mem_of 0x1000 [0]) [] 0) =
    ret_error "missing required field" (reader (mem_of 0x1000 [0]) [] 0).
Proof.
  apply (required_check required_fields 0 2 1 [1] _
    (mk_loop (field_at required_fields 0 1) (marked [1]) 0 None)); try done; [|lia|].
  - apply terminatedb_n. by vm_compute.
  - apply Forall_cons_2; [by vm_compute|constructor].
Defined.
