(* ===== verification/Base64.v ===== *)
(** * Base64 ([fbase64.c])

    [f_b64_ntop] and [f_b64_pton] as the C code performs them, on a source
    string and a target buffer; an access outside either is undefined
    behaviour.  The specification is the group-wise encoding of RFC 1521. *)
From S2P Require Import Prelude.
From Stdlib Require Import Ascii.

(** ** The alphabet *)
Definition Base64 : list Z :=
  chars "ABCDEFGHIJKLMNOPQRSTUVWXYZabcdefghijklmnopqrstuvwxyz0123456789+/".
Definition Pad64 : Z := 61.

(** [isspace] in the C locale. *)
Definition isspace (ch : Z) : bool := ((9 <=? ch) && (ch <=? 13)) || (ch =? 32).

(** [strchr(Base64, ch) - Base64]; [ch] is not NUL here. *)
Fixpoint index_of (ch : Z) (l : list Z) : option Z :=
  match l with
  | [] => None
  | c :: l' => if c =? ch then Some 0 else (fun i => i + 1) <$> index_of ch l'
  end.
Definition strchr_base64 (ch : Z) : option Z := index_of ch Base64.

(** [Base64[i]]. *)
Definition digit (i : Z) : outcome Z := or_ub BadAccess (Base64 !! Z.to_nat i).

(** ** Buffers *)
Definition tput (target : list Z) (i c : Z) : outcome (list Z) :=
  if (i <? 0) || (zlen target <=? i) then UB OverWrite
  else Ok (overwrite target (Z.to_nat i) [c]).
Definition tget (target : list Z) (i : Z) : outcome Z :=
  if i <? 0 then UB BadAccess else or_ub BadAccess (target !! Z.to_nat i).

(** ** Encoding *)
Definition out0 (a : Z) : Z := wrap 8 (Z.shiftr a 2).
Definition out1 (a b : Z) : Z := wrap 8 (Z.shiftl (Z.land a 0x03) 4 + Z.shiftr b 4).
Definition out2 (b c : Z) : Z := wrap 8 (Z.shiftl (Z.land b 0x0f) 2 + Z.shiftr c 6).
Definition out3 (c : Z) : Z := wrap 8 (Z.land c 0x3f).

(** [target[datalength++] = c] for each of [cs]. *)
Fixpoint put_all (target : list Z) (datalength : Z) (cs : list Z) : outcome (list Z) :=
  match cs with
  | [] => Ok target
  | c :: cs' => let! t := tput target datalength c in put_all t (datalength + 1) cs'
  end.

(** The part after the loop: padding and the terminator. *)
Definition ntop_finish (target : list Z) (datalength targsize : Z) : outcome (Z * list Z) :=
  if targsize <=? datalength then Ok (-1, target)
  else
    let! t := tput target datalength 0 in
    Ok (swrap 32 datalength, t).

Definition ntop_tail (src : list Z) (srclength : Z) (target : list Z)
    (datalength targsize : Z) : outcome (Z * list Z) :=
  if negb (0 =? srclength) then
    match take (Z.to_nat srclength) src with
    | [] => UB OverRead
    | a :: rest =>
        let b := hd 0 rest in
        let c := 0 in
        if zlen (a :: rest) <? srclength then UB OverRead
        else if targsize <? wrap 64 (datalength + 4) then Ok (-1, target)
        else
          let! d0 := digit (out0 a) in
          let! d1 := digit (out1 a b) in
          let! d2 := (if srclength =? 1 then Ok Pad64 else digit (out2 b c)) in
          let! t := put_all target datalength [d0; d1; d2; Pad64] in
          ntop_finish t (datalength + 4) targsize
    end
  else ntop_finish target datalength targsize.

(** [while (2 < srclength)]. *)
Fixpoint ntop_loop (n : nat) (src : list Z) (srclength : Z) (target : list Z)
    (datalength targsize : Z) : outcome (Z * list Z) :=
  match n with
  | O => Timeout
  | S n' =>
      if 2 <? srclength then
        match src with
        | a :: b :: c :: src' =>
            if targsize <? wrap 64 (datalength + 4) then Ok (-1, target)
            else
              let! d0 := digit (out0 a) in
              let! d1 := digit (out1 a b) in
              let! d2 := digit (out2 b c) in
              let! d3 := digit (out3 c) in
              let! t := put_all target datalength [d0; d1; d2; d3] in
              ntop_loop n' src' (srclength - 3) t (datalength + 4) targsize
        | _ => UB OverRead
        end
      else ntop_tail src srclength target datalength targsize
  end.

(** The returned integer and the final target buffer. *)
Definition f_b64_ntop (src : list Z) (srclength : Z) (target : list Z) (targsize : Z) :
    outcome (Z * list Z) :=
  ntop_loop (S (Z.to_nat srclength)) src srclength target 0 targsize.

(** ** Decoding *)

(** How the main loop ends: [return -1], or at the character [ch] (NUL or
    [Pad64]) with the rest of the source. *)
Inductive scan : Type :=
| Reject (target : option (list Z))
| Stop (ch : Z) (src : list Z) (target : option (list Z)) (tarindex state : Z).

(** The switch on [state] for the digit [v]; [None] is [return -1]. *)
Definition pton_digit (v : Z) (target : option (list Z)) (targsize tarindex state : Z) :
    outcome (option (option (list Z) * Z * Z)) :=
  match target with
  | None =>
      Ok (Some (None, (if state =? 0 then tarindex else wrap 32 (tarindex + 1)),
                (if state =? 3 then 0 else state + 1)))
  | Some t =>
      if state =? 0 then
        if targsize <=? tarindex then Ok None
        else
          let! t := tput t tarindex (wrap 8 (Z.shiftl v 2)) in
          Ok (Some (Some t, tarindex, 1))
      else if state =? 1 then
        if targsize <=? wrap 32 (tarindex + 1) then Ok None
        else
          let! x := tget t tarindex in
          let! t := tput t tarindex (wrap 8 (Z.lor x (Z.shiftr v 4))) in
          let! t := tput t (wrap 32 (tarindex + 1)) (wrap 8 (Z.shiftl (Z.land v 0x0f) 4)) in
          Ok (Some (Some t, wrap 32 (tarindex + 1), 2))
      else if state =? 2 then
        if targsize <=? wrap 32 (tarindex + 1) then Ok None
        else
          let! x := tget t tarindex in
          let! t := tput t tarindex (wrap 8 (Z.lor x (Z.shiftr v 2))) in
          let! t := tput t (wrap 32 (tarindex + 1)) (wrap 8 (Z.shiftl (Z.land v 0x03) 6)) in
          Ok (Some (Some t, wrap 32 (tarindex + 1), 3))
      else
        if targsize <=? tarindex then Ok None
        else
          let! x := tget t tarindex in
          let! t := tput t tarindex (wrap 8 (Z.lor x v)) in
          Ok (Some (Some t, wrap 32 (tarindex + 1), 0))
  end.

(** [char] is signed on the platform. *)
Fixpoint pton_scan (src : list Z) (target : option (list Z)) (targsize tarindex state : Z) :
    outcome scan :=
  match src with
  | [] => UB OverRead
  | b :: src' =>
      let ch := swrap 8 b in
      if ch =? 0 then Ok (Stop ch src' target tarindex state)
      else if isspace ch then pton_scan src' target targsize tarindex state
      else if ch =? Pad64 then Ok (Stop ch src' target tarindex state)
      else
        match strchr_base64 ch with
        | None => Ok (Reject target)
        | Some v =>
            let! r := pton_digit v target targsize tarindex state in
            match r with
            | None => Ok (Reject target)
            | Some (target', tarindex', state') =>
                pton_scan src' target' targsize tarindex' state'
            end
        end
  end.

(** [for (; ch != '\0'; ch = *src++) if (!isspace(ch)) break;]: the character
    it stops at and the rest. *)
Fixpoint skip_spaces (ch : Z) (src : list Z) : outcome (Z * list Z) :=
  if (ch =? 0) || negb (isspace ch) then Ok (ch, src)
  else
    match src with
    | [] => UB OverRead
    | b :: src' => skip_spaces (swrap 8 b) src'
    end.

(** The checks of the case for a single trailing [=]: [true] is acceptance. *)
Definition pton_end (ch : Z) (src : list Z) (target : option (list Z)) (tarindex : Z) :
    outcome bool :=
  let! (ch', _) := skip_spaces ch src in
  if negb (ch' =? 0) then Ok false
  else
    match target with
    | None => Ok true
    | Some t => let! x := tget t tarindex in Ok (x =? 0)
    end.

Definition next_char (src : list Z) : outcome (Z * list Z) :=
  match src with
  | [] => UB OverRead
  | b :: src' => Ok (swrap 8 b, src')
  end.

(** The returned integer and the final target. *)
Definition f_b64_pton (src : list Z) (target : option (list Z)) (targsize : Z) :
    outcome (Z * option (list Z)) :=
  let! r := pton_scan src target targsize 0 0 in
  match r with
  | Reject t => Ok (-1, t)
  | Stop ch src t tarindex state =>
      let result (ok : bool) := Ok (if ok then swrap 32 tarindex else -1, t) in
      if ch =? Pad64 then
        let! (ch, src) := next_char src in
        if (state =? 0) || (state =? 1) then result false
        else if state =? 2 then
          let! (ch, src) := skip_spaces ch src in
          if negb (ch =? Pad64) then result false
          else
            let! (ch, src) := next_char src in
            let! ok := pton_end ch src t tarindex in result ok
        else
          let! ok := pton_end ch src t tarindex in result ok
      else result (state =? 0)
  end.

(** ** Specification *)
Definition enc (i : Z) : Z := nth (Z.to_nat i) Base64 0.

(** A 24-bit group is cut into four 6-bit digits; a short last group is
    padded. *)
Fixpoint b64_encode (l : list Z) : list Z :=
  match l with
  | a :: b :: c :: l' =>
      let n := a * 2 ^ 16 + b * 2 ^ 8 + c in
      enc (n / 2 ^ 18) :: enc (n / 2 ^ 12 mod 64) :: enc (n / 2 ^ 6 mod 64) :: enc (n mod 64)
        :: b64_encode l'
  | [a; b] =>
      let n := a * 2 ^ 16 + b * 2 ^ 8 in
      [enc (n / 2 ^ 18); enc (n / 2 ^ 12 mod 64); enc (n / 2 ^ 6 mod 64); Pad64]
  | [a] =>
      let n := a * 2 ^ 16 in
      [enc (n / 2 ^ 18); enc (n / 2 ^ 12 mod 64); Pad64; Pad64]
  | [] => []
  end.

Example encode_Man : f_b64_ntop [77; 97; 110] 3 (replicate 5 7) 5 =
  Ok (4, [84; 87; 70; 117; 0]).
Proof. by vm_compute. Qed.
Example decode_TQ : f_b64_pton [84; 81; 32; 61; 61; 0] (Some [1; 2]) 2 = Ok (1, Some [77; 0]).
Proof. by vm_compute. Qed.
