(* ===== verification/Base64Proof.v ===== *)
(** * Base64 is the encoding of RFC 1521

    [f_b64_ntop] writes [b64_encode] of its input when that fits, and
    [f_b64_pton] accepts exactly (up to white space) the encodings of what it
    returns. *)
From S2P Require Import Prelude Base64.

(** ** Digits *)
Lemma digit_enc i : 0 <= i < 64 -> digit i = Ok (enc i).
Proof.
  intros Hi. unfold digit, enc.
  destruct (Base64 !! Z.to_nat i) as [c|] eqn:E.
  - cbn [or_ub]. f_equal. apply nth_lookup_Some with (d := 0) in E. by symmetry.
  - apply lookup_ge_None in E. change (length Base64) with 64%nat in E. lia.
Qed.

(** A digit's character is found again, and is neither NUL, nor white space,
    nor padding. *)
Lemma enc_strchr v : 0 <= v < 64 -> strchr_base64 (enc v) = Some v.
Proof.
  intros Hv.
  pose proof (range_cases 64 (fun v => bool_decide (strchr_base64 (enc v) = Some v))
    ltac:(by vm_compute) v Hv) as H.
  by apply bool_decide_eq_true in H.
Qed.

Lemma enc_char v : 0 <= v < 64 ->
  0 <= enc v < 128 /\ enc v <> 0 /\ isspace (enc v) = false /\ enc v <> Pad64.
Proof.
  intros Hv.
  pose proof (range_cases 64 (fun v => (0 <=? enc v) && (enc v <? 128) && negb (enc v =? 0)
    && negb (isspace (enc v)) && negb (enc v =? Pad64)) ltac:(by vm_compute) v Hv) as H.
  rewrite !andb_true_iff in H. destruct H as ((((? & ?) & ?) & Hsp) & ?).
  apply negb_true_iff in Hsp. repeat split; lia || done.
Qed.

Lemma strchr_enc ch v : strchr_base64 ch = Some v -> 0 <= v < 64 /\ ch = enc v.
Proof.
  unfold strchr_base64, enc. change 64 with (zlen Base64). generalize Base64 as l. intros l.
  revert v. induction l as [|c l IH]; intros v; [done|]. cbn [index_of]. rewrite zlen_cons.
  pose proof (zlen_nonneg l). destruct (Z.eqb_spec c ch) as [->|].
  - intros [= <-]. split; [lia|done].
  - destruct (index_of ch l) as [i|]; [|done]. intros [= <-].
    destruct (IH i eq_refl) as [? ->]. split; [lia|].
    replace (Z.to_nat (i + 1)) with (S (Z.to_nat i)) by lia. done.
Qed.

(** ** The bytes of a group *)
Lemma land_3 a : Z.land a 0x03 = a mod 4.
Proof. apply (Z.land_ones a 2). lia. Qed.
Lemma land_15 a : Z.land a 0x0f = a mod 16.
Proof. apply (Z.land_ones a 4). lia. Qed.
Lemma land_63 a : Z.land a 0x3f = a mod 64.
Proof. apply (Z.land_ones a 6). lia. Qed.

Lemma out0_div a : is_byte a -> out0 a = a / 4.
Proof.
  unfold is_byte, out0. intros. rewrite shiftr_div by lia. apply wrap_small.
  change (2 ^ 2) with 4. change (2 ^ 8) with 256. euclid.
Qed.
Lemma out1_div a b : is_byte a -> is_byte b -> out1 a b = a mod 4 * 16 + b / 16.
Proof.
  unfold is_byte, out1. intros. rewrite land_3, shiftr_div, Z.shiftl_mul_pow2 by lia.
  apply wrap_small. change (2 ^ 4) with 16. change (2 ^ 8) with 256. euclid.
Qed.
Lemma out2_div b c : is_byte b -> is_byte c -> out2 b c = b mod 16 * 4 + c / 64.
Proof.
  unfold is_byte, out2. intros. rewrite land_15, shiftr_div, Z.shiftl_mul_pow2 by lia.
  apply wrap_small. change (2 ^ 6) with 64. change (2 ^ 2) with 4. change (2 ^ 8) with 256. euclid.
Qed.
Lemma out3_mod c : is_byte c -> out3 c = c mod 64.
Proof.
  unfold is_byte, out3. intros. rewrite land_63. apply wrap_small. change (2 ^ 8) with 256. euclid.
Qed.

(** The four digits of the 24-bit number. *)
Lemma group_digits a b c :
  is_byte a -> is_byte b -> is_byte c ->
  let n := a * 2 ^ 16 + b * 2 ^ 8 + c in
  n / 2 ^ 18 = a / 4 /\ n / 2 ^ 12 mod 64 = a mod 4 * 16 + b / 16 /\
  n / 2 ^ 6 mod 64 = b mod 16 * 4 + c / 64 /\ n mod 64 = c mod 64.
Proof.
  unfold is_byte. cbv zeta. intros Ha Hb Hc.
  change (2 ^ 16) with 65536. change (2 ^ 8) with 256. change (2 ^ 18) with 262144.
  change (2 ^ 12) with 4096. change (2 ^ 6) with 64.
  repeat split; euclid.
Qed.

(** ** Buffers *)
Lemma tput_Ok t i c :
  0 <= i < zlen t -> tput t i c = Ok (overwrite t (Z.to_nat i) [c]).
Proof.
  intros Hi. unfold tput. destruct (Z.ltb_spec i 0), (Z.leb_spec (zlen t) i); cbn; done || lia.
Qed.

Lemma zlen_overwrite t w : zlen w <= zlen t -> zlen (overwrite t 0 w) = zlen t.
Proof. intros. unfold zlen in *. rewrite length_overwrite by lia. done. Qed.

(** Writing at the end of what was written. *)
Lemma tput_next t w c :
  zlen w < zlen t -> tput (overwrite t 0 w) (zlen w) c = Ok (overwrite t 0 (w ++ [c])).
Proof.
  intros Hw. pose proof (zlen_nonneg w). rewrite tput_Ok by (rewrite zlen_overwrite; lia).
  f_equal. unfold zlen in *. rewrite Nat2Z.id.
  rewrite <- (Nat.add_0_l (length w)). apply overwrite_app. simpl length. lia.
Qed.

Lemma put_all_next t w cs :
  zlen w + zlen cs <= zlen t ->
  put_all (overwrite t 0 w) (zlen w) cs = Ok (overwrite t 0 (w ++ cs)).
Proof.
  revert w. induction cs as [|c cs IH]; intros w Hl; cbn [put_all].
  - by rewrite app_nil_r.
  - rewrite zlen_cons in Hl. pose proof (zlen_nonneg cs). rewrite tput_next by lia. cbn [obind].
    replace (zlen w + 1) with (zlen (w ++ [c])) by (rewrite zlen_app; done).
    rewrite IH by (rewrite zlen_app; change (zlen [c]) with 1; lia). by rewrite <- app_assoc.
Qed.

Lemma overwrite_lookup t w i : (i < length w)%nat -> overwrite t 0 w !! i = w !! i.
Proof. intros. unfold overwrite. simpl. by rewrite lookup_app_l. Qed.

(** Replacing a byte already written. *)
Lemma overwrite_insert t w i c :
  (i < length w)%nat -> (length w <= length t)%nat ->
  overwrite (overwrite t 0 w) i [c] = overwrite t 0 (<[i := c]> w).
Proof.
  intros Hi Hw. unfold overwrite. simpl take. simpl app. cbn [length Nat.add].
  rewrite length_insert, insert_take_drop by lia. rewrite ?Nat.add_0_l.
  rewrite take_app_le by lia. rewrite <- !app_assoc. f_equal. cbn [app]. f_equal.
  replace (i + 1)%nat with (S i) by lia. by rewrite drop_app_le by lia.
Qed.

Lemma take_overwrite_all t w : (length w <= length t)%nat -> take (length w) (overwrite t 0 w) = w.
Proof. intros. unfold overwrite. simpl. by rewrite take_app_length. Qed.

(** ** Encoding *)
Section Encode.
Context (t0 : list Z) (targsize : Z).
Context (Hsize : 0 <= targsize <= zlen t0) (Hbig : zlen t0 < 2 ^ 62).

(** What the function returns when [e] is the whole encoding and [w] was
    written before it gave up. *)
Definition ntop_result (e : list Z) (r : outcome (Z * list Z)) : Prop :=
  if zlen e <? targsize then r = Ok (swrap 32 (zlen e), overwrite t0 0 (e ++ [0]))
  else exists w, r = Ok (-1, overwrite t0 0 w) /\ zlen w <= targsize.

Lemma ntop_finish_spec w :
  zlen w <= targsize -> ntop_result w (ntop_finish (overwrite t0 0 w) (zlen w) targsize).
Proof.
  intros Hw. unfold ntop_result, ntop_finish.
  destruct (Z.ltb_spec (zlen w) targsize), (Z.leb_spec targsize (zlen w)); try lia.
  - rewrite tput_next by lia. done.
  - by exists w.
Qed.

Lemma b64_encode_short l : (0 < length l)%nat -> zlen (b64_encode l) >= 4.
Proof.
  destruct l as [|a [|b [|c l]]]; cbn [b64_encode length]; intros; try lia;
    rewrite !zlen_cons, ?zlen_nil; try pose proof (zlen_nonneg (b64_encode l)); lia.
Qed.

Lemma ntop_too_small w l :
  (0 < length l)%nat -> zlen w <= targsize < zlen w + 4 ->
  ntop_result (w ++ b64_encode l) (Ok (-1, overwrite t0 0 w)).
Proof.
  intros Hl Hw. unfold ntop_result. rewrite zlen_app. pose proof (b64_encode_short l Hl).
  destruct (Z.ltb_spec (zlen w + zlen (b64_encode l)) targsize); [lia|]. exists w. split; [done|lia].
Qed.

Lemma ntop_tail_spec src w :
  bytes src -> (length src < 3)%nat -> zlen w <= targsize ->
  ntop_result (w ++ b64_encode src)
    (ntop_tail src (zlen src) (overwrite t0 0 w) (zlen w) targsize).
Proof.
  intros Hb Hl Hw. unfold ntop_tail. pose proof (zlen_nonneg w).
  destruct src as [|a rest]; [rewrite app_nil_r; by apply ntop_finish_spec|].
  replace (0 =? zlen (a :: rest)) with false by (rewrite zlen_cons; pose proof (zlen_nonneg rest); lia).
  cbn [negb]. unfold zlen at 1. rewrite Nat2Z.id, take_ge by lia. cbv zeta.
  rewrite Z.ltb_irrefl. rewrite wrap_small by lia.
  destruct (Z.ltb_spec targsize (zlen w + 4)); [apply ntop_too_small; [simpl; lia|lia]|].
  inversion Hb as [|?? Ha Hr]; subst.
  assert (Hb0 : is_byte (hd 0 rest)).
  { destruct rest; [unfold is_byte; cbn; lia|by inversion Hr]. }
  assert (Hz : is_byte 0) by (unfold is_byte; lia).
  destruct (group_digits a (hd 0 rest) 0 Ha Hb0 Hz) as (E0 & E1 & E2 & _).
  rewrite Z.add_0_r in E0, E1, E2.
  rewrite out0_div, out1_div, out2_div by done.
  unfold is_byte in *.
  rewrite (digit_enc (a / 4)) by euclid. cbn [obind].
  rewrite (digit_enc (a mod 4 * 16 + hd 0 rest / 16)) by euclid. cbn [obind].
  assert (Hput : forall d,
    ntop_result (w ++ [enc (a / 4); enc (a mod 4 * 16 + hd 0 rest / 16); d; Pad64])
      (let! t := put_all (overwrite t0 0 w) (zlen w)
                   [enc (a / 4); enc (a mod 4 * 16 + hd 0 rest / 16); d; Pad64] in
       ntop_finish t (zlen w + 4) targsize)).
  { intros d. rewrite put_all_next by (rewrite !zlen_cons, zlen_nil; lia). cbn [obind].
    replace (zlen w + 4) with (zlen (w ++ [enc (a / 4); enc (a mod 4 * 16 + hd 0 rest / 16); d; Pad64]))
      by (rewrite zlen_app, !zlen_cons, zlen_nil; lia).
    apply ntop_finish_spec. rewrite zlen_app, !zlen_cons, zlen_nil. lia. }
  destruct rest as [|b [|]]; [| |simpl in Hl; lia].
  - change (zlen [a] =? 1) with true. cbn [obind]. cbn [hd] in *. cbn [b64_encode].
    replace (a * 2 ^ 16) with (a * 2 ^ 16 + 0 * 2 ^ 8) by lia. rewrite E0, E1. apply Hput.
  - change (zlen [a; b] =? 1) with false. cbn [hd] in *. cbv iota.
    rewrite (digit_enc (b mod 16 * 4 + 0 / 64)) by euclid. cbn [obind b64_encode].
    rewrite E0, E1, E2. apply Hput.
Qed.

Lemma ntop_loop_spec n src w :
  bytes src -> (length src < n)%nat -> zlen w <= targsize ->
  ntop_result (w ++ b64_encode src)
    (ntop_loop n src (zlen src) (overwrite t0 0 w) (zlen w) targsize).
Proof.
  revert src w. induction n as [|n IH]; intros src w Hb Hn Hw; [lia|]. cbn [ntop_loop].
  pose proof (zlen_nonneg w).
  destruct (Z.ltb_spec 2 (zlen src)) as [H2|H2].
  2:{ apply ntop_tail_spec; [done| |done]. unfold zlen in *. lia. }
  destruct src as [|a [|b [|c src]]]; try (unfold zlen in H2; simpl in H2; lia).
  rewrite wrap_small by lia.
  destruct (Z.ltb_spec targsize (zlen w + 4)); [apply ntop_too_small; [simpl; lia|lia]|].
  inversion Hb as [|?? Ha Hb1]; subst. inversion Hb1 as [|?? Hbb Hb2]; subst.
  inversion Hb2 as [|?? Hc Hb3]; subst.
  destruct (group_digits a b c Ha Hbb Hc) as (E0 & E1 & E2 & E3).
  rewrite out0_div, out1_div, out2_div, out3_mod by done. cbn [b64_encode].
  rewrite E0, E1, E2, E3. unfold is_byte in *.
  rewrite (digit_enc (a / 4)) by euclid. cbn [obind].
  rewrite (digit_enc (a mod 4 * 16 + b / 16)) by euclid. cbn [obind].
  rewrite (digit_enc (b mod 16 * 4 + c / 64)) by euclid. cbn [obind].
  rewrite (digit_enc (c mod 64)) by euclid. cbn [obind].
  rewrite put_all_next by (rewrite !zlen_cons, zlen_nil; lia). cbn [obind].
  set (g := [enc (a / 4); enc (a mod 4 * 16 + b / 16); enc (b mod 16 * 4 + c / 64); enc (c mod 64)]).
  replace (zlen w + 4) with (zlen (w ++ g)) by (rewrite zlen_app; done).
  replace (zlen (a :: b :: c :: src) - 3) with (zlen src) by (rewrite !zlen_cons; lia).
  change (enc (a / 4) :: enc (a mod 4 * 16 + b / 16) :: enc (b mod 16 * 4 + c / 64) ::
    enc (c mod 64) :: b64_encode src) with (g ++ b64_encode src).
  rewrite app_assoc. apply IH; [done|simpl in Hn; lia|].
  rewrite zlen_app. change (zlen g) with 4. lia.
Qed.
End Encode.

(** ** Decoding *)

(** The three bytes of four digits, and the buffer contents after one, two or
    three of them. *)
Definition group_bytes (v0 v1 v2 v3 : Z) : list Z :=
  [v0 * 4 + v1 / 16; v1 mod 16 * 16 + v2 / 4; v2 mod 4 * 64 + v3].
Definition partial (tail : list Z) : list Z :=
  match tail with
  | [v0] => [v0 * 4]
  | [v0; v1] => [v0 * 4 + v1 / 16; v1 mod 16 * 16]
  | [v0; v1; v2] => [v0 * 4 + v1 / 16; v1 mod 16 * 16 + v2 / 4; v2 mod 4 * 64]
  | _ => []
  end.

(** The digits of whole groups. *)
Fixpoint b64_digits (l : list Z) : list Z :=
  match l with
  | a :: b :: c :: l' =>
      a / 4 :: (a mod 4 * 16 + b / 16) :: (b mod 16 * 4 + c / 64) :: c mod 64 :: b64_digits l'
  | _ => []
  end.

Definition is_digit (v : Z) : Prop := 0 <= v < 64.

(** Whole groups: a length that is a multiple of three. *)
Inductive whole : list Z -> Prop :=
| whole_nil : whole []
| whole_cons a b c l : is_byte a -> is_byte b -> is_byte c -> whole l -> whole (a :: b :: c :: l).

Lemma whole_bytes l : whole l -> bytes l.
Proof. induction 1; [constructor|]. do 3 (constructor; [done|]). done. Qed.

Lemma whole_app l l' : whole l -> whole l' -> whole (l ++ l').
Proof. induction 1; intros; [done|]. cbn. constructor; auto. Qed.

Lemma b64_digits_app l l' : whole l -> b64_digits (l ++ l') = b64_digits l ++ b64_digits l'.
Proof. induction 1 as [|a b c l ? ? ? ? IH]; [done|]. cbn. by rewrite IH. Qed.

Lemma b64_encode_app l l' :
  whole l -> b64_encode (l ++ l') = map enc (b64_digits l) ++ b64_encode l'.
Proof.
  induction 1 as [|a b c l Ha Hb Hc _ IH]; [done|]. cbn [app b64_encode b64_digits map].
  destruct (group_digits a b c Ha Hb Hc) as (-> & -> & -> & ->). by rewrite IH.
Qed.

Lemma group_bytes_whole v0 v1 v2 v3 :
  is_digit v0 -> is_digit v1 -> is_digit v2 -> is_digit v3 -> whole (group_bytes v0 v1 v2 v3).
Proof.
  unfold is_digit, group_bytes. intros.
  constructor; [| | |constructor]; unfold is_byte; euclid.
Qed.

Lemma group_bytes_digits v0 v1 v2 v3 :
  is_digit v0 -> is_digit v1 -> is_digit v2 -> is_digit v3 ->
  b64_digits (group_bytes v0 v1 v2 v3) = [v0; v1; v2; v3].
Proof.
  unfold is_digit, group_bytes. intros. cbn [b64_digits]. repeat f_equal; euclid.
Qed.

Lemma b64_digits_range l : whole l -> Forall is_digit (b64_digits l).
Proof.
  induction 1 as [|a b c l Ha Hb Hc _ IH]; [constructor|]. cbn [b64_digits].
  unfold is_byte, is_digit in *. do 4 (constructor; [euclid|]). done.
Qed.

(** Comparisons of literals. *)
Ltac concrete_tests :=
  repeat match goal with
  | |- context [Zpos ?a =? ?b] => progress (let r := eval vm_compute in (Zpos a =? b) in change (Zpos a =? b) with r)
  | |- context [0 =? ?b] => progress (let r := eval vm_compute in (0 =? b) in change (0 =? b) with r)
  | |- context [?a <? ?b] =>
      let r := eval vm_compute in (a <? b) in
      match r with true => idtac | false => idtac end; change (a <? b) with r
  end; cbv iota.

(** Bit operations on digits. *)
Lemma or_low a v k : 0 <= k -> 0 <= v < 2 ^ k -> Z.lor (a * 2 ^ k) v = a * 2 ^ k + v.
Proof.
  intros Hk Hv. rewrite Z.lor_comm, <- Z.shiftl_mul_pow2 by done.
  rewrite lor_shiftl_add, Z.shiftl_mul_pow2 by done. lia.
Qed.

Lemma digit_store0 v : is_digit v -> wrap 8 (Z.shiftl v 2) = v * 4.
Proof. unfold is_digit. intros. rewrite Z.shiftl_mul_pow2 by lia. by rewrite wrap_small by lia. Qed.
Lemma digit_store1 v : is_digit v -> wrap 8 (Z.shiftl (Z.land v 0x0f) 4) = v mod 16 * 16.
Proof.
  unfold is_digit. intros. rewrite land_15, Z.shiftl_mul_pow2 by lia. apply wrap_small.
  change (2 ^ 4) with 16. change (2 ^ 8) with 256. euclid.
Qed.
Lemma digit_store2 v : is_digit v -> wrap 8 (Z.shiftl (Z.land v 0x03) 6) = v mod 4 * 64.
Proof.
  unfold is_digit. intros. rewrite land_3, Z.shiftl_mul_pow2 by lia. apply wrap_small.
  change (2 ^ 6) with 64. change (2 ^ 8) with 256. euclid.
Qed.
Lemma digit_or1 u v : is_digit u -> is_digit v ->
  wrap 8 (Z.lor (u * 4) (Z.shiftr v 4)) = u * 4 + v / 16.
Proof.
  unfold is_digit. intros. rewrite shiftr_div by lia. change (2 ^ 4) with 16.
  rewrite (or_low u _ 2) by (try lia; change (2 ^ 2) with 4; euclid). apply wrap_small.
  change (2 ^ 2) with 4. change (2 ^ 8) with 256. euclid.
Qed.
Lemma digit_or2 u v : is_digit u -> is_digit v ->
  wrap 8 (Z.lor (u mod 16 * 16) (Z.shiftr v 2)) = u mod 16 * 16 + v / 4.
Proof.
  unfold is_digit. intros. rewrite shiftr_div by lia. change (2 ^ 2) with 4.
  rewrite (or_low _ _ 4) by (try lia; change (2 ^ 4) with 16; euclid). apply wrap_small.
  change (2 ^ 4) with 16. change (2 ^ 8) with 256. euclid.
Qed.
Lemma digit_or3 u v : is_digit u -> is_digit v ->
  wrap 8 (Z.lor (u mod 4 * 64) v) = u mod 4 * 64 + v.
Proof.
  unfold is_digit. intros.
  rewrite (or_low _ _ 6) by (try lia; change (2 ^ 6) with 64; euclid). apply wrap_small.
  change (2 ^ 6) with 64. change (2 ^ 8) with 256. euclid.
Qed.

Section Decode.
Context (t0 : list Z) (targsize : Z).
Context (Hsize : 0 <= targsize <= zlen t0) (Hbig : targsize < 2 ^ 31).

(** What was decoded so far: whole groups [done], digits [tail] of the
    current group. *)
Definition buf (done tail : list Z) : list Z := overwrite t0 0 (done ++ partial tail).
Definition index (done tail : list Z) : Z := zlen done + Z.max 0 (zlen tail - 1).
Definition push (done tail : list Z) (v : Z) : list Z * list Z :=
  match tail with
  | [v0; v1; v2] => (done ++ group_bytes v0 v1 v2 v, [])
  | _ => (done, tail ++ [v])
  end.

Record decoded (done tail : list Z) : Prop := {
  d_whole : whole done;
  d_tail : Forall is_digit tail;
  d_short : (length tail < 4)%nat;
  d_fits : zlen (done ++ partial tail) <= targsize
}.

(** The bytes in use once [v] is taken. *)
Definition needs (done tail : list Z) : Z := index done tail + (if (2 <? zlen tail) then 1
  else if (0 <? zlen tail) then 2 else 1).

(** Reading and writing the last bytes of the buffer. *)
Lemma tget_at l x r i :
  i = zlen l -> zlen (l ++ x :: r) <= zlen t0 -> tget (overwrite t0 0 (l ++ x :: r)) i = Ok x.
Proof.
  intros -> Hl. unfold tget. pose proof (zlen_nonneg l).
  destruct (Z.ltb_spec (zlen l) 0); [lia|]. unfold zlen. rewrite Nat2Z.id.
  rewrite overwrite_lookup by (rewrite length_app; simpl; lia).
  by rewrite list_lookup_middle.
Qed.

Lemma tput_at l x r y i :
  i = zlen l -> zlen (l ++ x :: r) <= zlen t0 ->
  tput (overwrite t0 0 (l ++ x :: r)) i y = Ok (overwrite t0 0 (l ++ y :: r)).
Proof.
  intros -> Hl. pose proof (zlen_nonneg l). pose proof (zlen_nonneg r).
  rewrite tput_Ok by (rewrite zlen_overwrite by done; rewrite zlen_app, zlen_cons in Hl; lia).
  unfold zlen at 1. rewrite Nat2Z.id. rewrite overwrite_insert.
  - by rewrite insert_app_r_alt, Nat.sub_diag by lia.
  - rewrite length_app. simpl. lia.
  - unfold zlen in Hl. lia.
Qed.

Lemma tput_end l y i :
  i = zlen l -> zlen l < zlen t0 ->
  tput (overwrite t0 0 l) i y = Ok (overwrite t0 0 (l ++ [y])).
Proof. intros ->. apply tput_next. Qed.

Ltac digits := repeat first [apply Forall_nil_2 | apply Forall_cons_2; [done|]].

Lemma step_eq (t t' : list Z) (i i' st st' : Z) :
  t = t' -> i = i' -> st = st' ->
  Ok (Some (Some t, i, st)) = Ok (Some (Some t', i', st')).
Proof. by intros -> -> ->. Qed.

(** One digit of the switch. *)
Lemma pton_digit_step done tail v :
  decoded done tail -> is_digit v ->
  let '(done', tail') := push done tail v in
  if needs done tail <=? targsize then
    decoded done' tail' /\
    pton_digit v (Some (buf done tail)) targsize (index done tail) (zlen tail) =
      Ok (Some (Some (buf done' tail'), index done' tail', zlen tail'))
  else pton_digit v (Some (buf done tail)) targsize (index done tail) (zlen tail) = Ok None.
Proof.
  intros [Hw Ht Hs Hf] Hv. unfold needs, index, buf, pton_digit in *.
  pose proof (zlen_nonneg done) as Hd0.
  destruct tail as [|v0 [|v1 [|v2 [|]]]]; cbn [push partial app] in *; [| | | |simpl in Hs; lia];
    rewrite ?zlen_app, ?zlen_cons, ?zlen_nil in Hf.
  - change (zlen (@nil Z)) with 0. change (Z.max 0 (0 - 1)) with 0. concrete_tests.
    rewrite Z.add_0_r. destruct (Z.leb_spec (zlen done + 1) targsize), (Z.leb_spec targsize (zlen done)); try lia; [|done].
    split.
    + split; [done|by constructor|simpl; lia|]. cbn [partial]. rewrite ?zlen_app, ?zlen_cons, ?zlen_nil. lia.
    + rewrite app_nil_r, tput_end by lia. cbn [obind]. rewrite digit_store0 by done.
      cbn [partial]. apply step_eq; [done|..]; rewrite ?zlen_cons, ?zlen_nil; lia.
  - inversion Ht as [|?? Hv0 _]; subst. change (zlen [v0]) with 1.
    change (Z.max 0 (1 - 1)) with 0. concrete_tests. rewrite Z.add_0_r.
    rewrite (wrap_small 32) by lia.
    destruct (Z.leb_spec (zlen done + 2) targsize), (Z.leb_spec targsize (zlen done + 1)); try lia; [|done].
    split.
    + split; [done|digits|simpl; lia|]. cbn [partial]. rewrite ?zlen_app, ?zlen_cons, ?zlen_nil. lia.
    + rewrite (tget_at done) by (rewrite ?zlen_app, ?zlen_cons, ?zlen_nil; lia). cbn [obind].
      rewrite (tput_at done) by (rewrite ?zlen_app, ?zlen_cons, ?zlen_nil; lia). cbn [obind].
      rewrite tput_end by (rewrite ?zlen_app, ?zlen_cons, ?zlen_nil; lia). cbn [obind].
      rewrite digit_or1, digit_store1 by done. rewrite <- app_assoc. cbn [app partial].
      apply step_eq; [done|..]; rewrite ?zlen_cons, ?zlen_nil; lia.
  - inversion Ht as [|?? Hv0 Ht1]; subst. inversion Ht1 as [|?? Hv1 _]; subst.
    change (zlen [v0; v1]) with 2. change (Z.max 0 (2 - 1)) with 1. concrete_tests.
    rewrite (wrap_small 32) by lia.
    destruct (Z.leb_spec (zlen done + 1 + 2) targsize), (Z.leb_spec targsize (zlen done + 1 + 1)); try lia; [|done].
    split.
    + split; [done|digits|simpl; lia|]. cbn [partial]. rewrite ?zlen_app, ?zlen_cons, ?zlen_nil. lia.
    + replace (done ++ [v0 * 4 + v1 / 16; v1 mod 16 * 16]) with
        ((done ++ [v0 * 4 + v1 / 16]) ++ [v1 mod 16 * 16]) by (by rewrite <- app_assoc).
      rewrite (tget_at (done ++ _)) by (rewrite ?zlen_app, ?zlen_cons, ?zlen_nil; lia). cbn [obind].
      rewrite (tput_at (done ++ _)) by (rewrite ?zlen_app, ?zlen_cons, ?zlen_nil; lia). cbn [obind].
      rewrite tput_end by (rewrite ?zlen_app, ?zlen_cons, ?zlen_nil; lia). cbn [obind].
      rewrite digit_or2, digit_store2 by done. rewrite <- !app_assoc. cbn [app partial].
      apply step_eq; [done|..]; rewrite ?zlen_cons, ?zlen_nil; lia.
  - inversion Ht as [|?? Hv0 Ht1]; subst. inversion Ht1 as [|?? Hv1 Ht2]; subst.
    inversion Ht2 as [|?? Hv2 _]; subst.
    change (zlen [v0; v1; v2]) with 3. change (Z.max 0 (3 - 1)) with 2. concrete_tests.
    rewrite (wrap_small 32) by lia.
    destruct (Z.leb_spec (zlen done + 2 + 1) targsize), (Z.leb_spec targsize (zlen done + 2)); try lia.
    split.
    + split; [apply whole_app; [done|by apply group_bytes_whole]|constructor|simpl; lia|].
      unfold group_bytes. cbn [partial]. rewrite ?zlen_app, ?zlen_cons, ?zlen_nil. lia.
    + replace (done ++ [v0 * 4 + v1 / 16; v1 mod 16 * 16 + v2 / 4; v2 mod 4 * 64]) with
        ((done ++ [v0 * 4 + v1 / 16; v1 mod 16 * 16 + v2 / 4]) ++ [v2 mod 4 * 64])
        by (by rewrite <- app_assoc).
      rewrite (tget_at (done ++ _)) by (rewrite ?zlen_app, ?zlen_cons, ?zlen_nil; lia). cbn [obind].
      rewrite (tput_at (done ++ _)) by (rewrite ?zlen_app, ?zlen_cons, ?zlen_nil; lia). cbn [obind].
      rewrite digit_or3 by done. rewrite <- !app_assoc. unfold group_bytes. cbn [app partial].
      apply step_eq; [done|..]; rewrite ?zlen_app, ?zlen_cons, ?zlen_nil; lia.
Qed.

(** *** The scan *)

(** The characters of a text that are not white space. *)
Definition visible (text : list Z) : list Z :=
  filter (fun b => isspace (swrap 8 b) = false) text.

(** How many bytes of the target [m] digits take. *)
Definition used (m : Z) : Z := m - m / 4.

Lemma used_mono m m' : 0 <= m <= m' -> used m <= used m'.
Proof. unfold used. intros. euclid. Qed.

Lemma length_b64_digits l : whole l -> 3 * zlen (b64_digits l) = 4 * zlen l.
Proof. induction 1; [done|]. cbn [b64_digits]. rewrite !zlen_cons. lia. Qed.

Lemma needs_used done tail :
  decoded done tail -> needs done tail = used (zlen (b64_digits done ++ tail) + 1).
Proof.
  intros [Hw _ Hs _]. pose proof (length_b64_digits _ Hw).
  unfold needs, index, used. rewrite zlen_app.
  destruct tail as [|v0 [|v1 [|v2 [|]]]]; [| | | |simpl in Hs; lia];
    rewrite ?zlen_cons, ?zlen_nil; concrete_tests; euclid.
Qed.

Lemma push_digits done tail v :
  decoded done tail -> is_digit v ->
  let '(done', tail') := push done tail v in
  b64_digits done' ++ tail' = b64_digits done ++ tail ++ [v].
Proof.
  intros [Hw Ht Hs _] Hv. destruct tail as [|v0 [|v1 [|v2 [|]]]]; [done..| |simpl in Hs; lia].
  inversion Ht as [|?? Hv0 Ht1]; subst. inversion Ht1 as [|?? Hv1 Ht2]; subst.
  inversion Ht2 as [|?? Hv2 _]; subst.
  cbn [push]. rewrite b64_digits_app, group_bytes_digits by done. by rewrite app_nil_r.
Qed.

Lemma swrap_char b : is_byte b -> 0 <= swrap 8 b -> swrap 8 b = b.
Proof.
  unfold is_byte, swrap. change (2 ^ (8 - 1)) with 128. change (2 ^ 8) with 256.
  intros. euclid.
Qed.

Lemma swrap_ascii b : 0 <= b < 128 -> swrap 8 b = b.
Proof.
  intros. unfold swrap. change (2 ^ (8 - 1)) with 128. change (2 ^ 8) with 256. euclid.
Qed.

Lemma visible_space b text : isspace (swrap 8 b) = true -> visible (b :: text) = visible text.
Proof. intros E. unfold visible. rewrite filter_cons. by rewrite E. Qed.
Lemma visible_char b text :
  isspace (swrap 8 b) = false -> visible (b :: text) = b :: visible text.
Proof. intros E. unfold visible. rewrite filter_cons. by rewrite E. Qed.
Lemma visible_app l l' : visible (l ++ l') = visible l ++ visible l'.
Proof. apply filter_app. Qed.

(** Digits, white space and nothing else are taken. *)
Lemma pton_scan_digits text vs stop rest done tail :
  decoded done tail -> Forall is_digit vs -> visible text = map enc vs ->
  Forall (fun b => 0 <= b < 128 /\ b <> 0) text -> stop = 0 \/ stop = Pad64 ->
  used (zlen (b64_digits done ++ tail ++ vs)) <= targsize ->
  exists done' tail',
    decoded done' tail' /\ b64_digits done' ++ tail' = b64_digits done ++ tail ++ vs /\
    pton_scan (text ++ stop :: rest) (Some (buf done tail)) targsize (index done tail) (zlen tail) =
      Ok (Stop stop rest (Some (buf done' tail')) (index done' tail') (zlen tail')).
Proof.
  revert vs done tail. induction text as [|b text IH]; intros vs done tail Hd Hvs Hvis Htext Hstop Hroom;
    cbn [app pton_scan].
  - destruct vs; [|done]. exists done, tail. rewrite app_nil_r. split; [done|]. split; [done|].
    destruct Hstop as [->| ->]; done.
  - inversion Htext as [|?? [Hb Hb0] Htext']; subst. rewrite swrap_ascii by done.
    rewrite (proj2 (Z.eqb_neq b 0)) by done.
    destruct (isspace b) eqn:Esp.
    { rewrite visible_space in Hvis by (by rewrite swrap_ascii). by apply IH. }
    rewrite visible_char in Hvis by (by rewrite swrap_ascii).
    destruct vs as [|v vs]; [done|]. injection Hvis as -> Hvis.
    inversion Hvs as [|?? Hv Hvs']; subst.
    destruct (enc_char v Hv) as (_ & _ & _ & Hpad). rewrite (proj2 (Z.eqb_neq (enc v) Pad64)) by done.
    rewrite enc_strchr by done.
    pose proof (pton_digit_step done tail v Hd Hv) as Hstep.
    pose proof (push_digits done tail v Hd Hv) as Hpush.
    destruct (push done tail v) as [done' tail'] eqn:Epush.
    rewrite needs_used in Hstep by done.
    pose proof (zlen_nonneg (b64_digits done ++ tail)). pose proof (zlen_nonneg vs).
    assert (Hle : used (zlen (b64_digits done ++ tail) + 1) <= targsize).
    { etrans; [apply used_mono|apply Hroom]. rewrite !zlen_app, zlen_cons in *. lia. }
    rewrite (proj2 (Z.leb_le _ _) Hle) in Hstep. destruct Hstep as [Hd' ->]. cbn [obind].
    replace (b64_digits done ++ tail ++ v :: vs) with (b64_digits done' ++ tail' ++ vs) in *
      by (rewrite app_assoc, Hpush, <- !app_assoc; done).
    by apply IH.
Qed.

(** A scan of a NUL-terminated text stays in bounds, and what it took were
    digits. *)
Lemma pton_scan_inv src done tail :
  decoded done tail -> bytes src -> In 0 src ->
  exists r, pton_scan src (Some (buf done tail)) targsize (index done tail) (zlen tail) = Ok r /\
  match r with
  | Reject t => exists t', t = Some t' /\ zlen t' = zlen t0
  | Stop ch rest t tarindex state =>
      exists text vs done' tail',
        src = text ++ ch :: rest /\ (ch = 0 \/ ch = Pad64 /\ In 0 rest) /\ ~ In 0 text /\
        Forall is_digit vs /\ visible text = map enc vs /\ decoded done' tail' /\
        b64_digits done' ++ tail' = b64_digits done ++ tail ++ vs /\
        t = Some (buf done' tail') /\ tarindex = index done' tail' /\ state = zlen tail'
  end.
Proof.
  revert done tail. induction src as [|b src IH]; [by intros|]. intros done tail Hd Hb Hin.
  inversion Hb as [|?? Hbb Hb']; subst. cbn [pton_scan].
  destruct (Z.eqb_spec (swrap 8 b) 0) as [E0|E0].
  { rewrite swrap_char in E0 by (done || lia). subst b. eexists. split; [done|].
    exists [], [], done, tail. rewrite app_nil_r. split_and!; auto. }
  assert (b <> 0) by (intros ->; done). destruct Hin as [|Hin]; [done|].
  destruct (isspace (swrap 8 b)) eqn:Esp.
  { destruct (IH done tail Hd Hb' Hin) as (r & Er & Hr). exists r. split; [done|].
    destruct r; [done|]. destruct Hr as (text & vs & d & t & Hsrc & Hch & Hno & Hvs & Hvis & Hr).
    exists (b :: text), vs, d, t. rewrite visible_space by done.
    split; [by rewrite Hsrc|]. split; [done|]. split; [|done]. intros [|]; done. }
  destruct (Z.eqb_spec (swrap 8 b) Pad64) as [Ep|Ep].
  { pose proof Ep as Ep'. rewrite swrap_char in Ep by (done || rewrite Ep'; done).
    rewrite Ep'. subst b. eexists. split; [done|].
    exists [], [], done, tail. rewrite app_nil_r. split_and!; auto. }
  destruct (strchr_base64 (swrap 8 b)) as [v|] eqn:Ev.
  2:{ eexists. split; [done|]. cbn. eexists. split; [done|].
      apply zlen_overwrite. destruct Hd. lia. }
  apply strchr_enc in Ev as [Hv Ev].
  pose proof (enc_char v Hv) as (Hrange & _).
  rewrite swrap_char in Ev by (done || lia).
  pose proof (pton_digit_step done tail v Hd Hv) as Hstep.
  pose proof (push_digits done tail v Hd Hv) as Hpush.
  destruct (push done tail v) as [done' tail'] eqn:Epush.
  destruct (needs done tail <=? targsize).
  2:{ rewrite Hstep. eexists. split; [done|]. cbn. eexists. split; [done|].
      apply zlen_overwrite. destruct Hd. lia. }
  destruct Hstep as [Hd' ->]. cbn [obind].
  destruct (IH done' tail' Hd' Hb' Hin) as (r & Er & Hr). exists r. split; [done|].
  destruct r; [done|]. destruct Hr as (text & vs & d & t & Hsrc & Hch & Hno & Hvs & Hvis & Hd2 & Hdig & Hr).
  exists (b :: text), (v :: vs), d, t. rewrite visible_char by done.
  split; [by rewrite Hsrc|]. split; [done|]. split; [intros [|]; done|].
  split; [by constructor|]. split; [cbn [map]; congruence|]. split; [done|]. split; [|done].
  rewrite Hdig, app_assoc, Hpush, <- !app_assoc. done.
Qed.

(** *** The end of the text *)
Lemma nul_char b : is_byte b -> (swrap 8 b =? 0) = (b =? 0).
Proof.
  intros Hb. destruct (Z.eqb_spec b 0) as [->|]; [done|].
  apply Z.eqb_neq. intros E. rewrite swrap_char in E by (done || lia). done.
Qed.

Lemma skip_spaces_inv b src :
  bytes (b :: src) -> In 0 (b :: src) ->
  exists sp b' src', b :: src = sp ++ b' :: src' /\ visible sp = [] /\ ~ In 0 sp /\
    In 0 (b' :: src') /\ skip_spaces (swrap 8 b) src = Ok (swrap 8 b', src').
Proof.
  revert b. induction src as [|c src IH]; intros b Hb Hin; inversion Hb as [|?? Hbb Hb']; subst;
    cbn [skip_spaces]; rewrite nul_char by done.
  - destruct Hin as [->|[]]. exists [], 0, []. split_and!; auto using in_eq.
  - destruct (Z.eqb_spec b 0) as [->|Hb0].
    { exists [], 0, (c :: src). split_and!; auto using in_eq. }
    destruct (isspace (swrap 8 b)) eqn:Esp; cbn [negb orb].
    2:{ exists [], b, (c :: src). split_and!; auto. }
    destruct Hin as [|Hin]; [done|].
    destruct (IH c Hb' Hin) as (sp & b' & src' & Hsrc & Hsp & Hno & Hin' & E).
    exists (b :: sp), b', src'. rewrite visible_space by done.
    split_and!; [by rewrite Hsrc|done|intros [|]; done|done|done].
Qed.

(** After the padding only white space is accepted, and the byte that holds
    the left-over bits must be zero. *)
Lemma pton_end_inv b src l x r tarindex :
  bytes (b :: src) -> In 0 (b :: src) -> tarindex = zlen l -> zlen (l ++ x :: r) <= zlen t0 ->
  exists ok, pton_end (swrap 8 b) src (Some (overwrite t0 0 (l ++ x :: r))) tarindex = Ok ok /\
    (ok = true -> x = 0 /\ exists sp rest, b :: src = sp ++ 0 :: rest /\ visible sp = [] /\ ~ In 0 sp).
Proof.
  intros Hb Hin Hi Hl. unfold pton_end.
  destruct (skip_spaces_inv b src Hb Hin) as (sp & b' & src' & Hsrc & Hsp & Hno & Hin' & ->).
  cbn [obind]. rewrite Hsrc in Hb. apply Forall_app in Hb as [_ Hb]. inversion Hb; subst.
  rewrite nul_char by done. destruct (Z.eqb_spec b' 0) as [->|]; cbn [negb]; [|by exists false].
  rewrite tget_at by done. cbn [obind]. exists (x =? 0). split; [done|].
  rewrite Z.eqb_eq. intros ->. split; [done|]. by exists sp, src'.
Qed.

Lemma pton_end_zero src l r tarindex :
  tarindex = zlen l -> zlen (l ++ 0 :: r) <= zlen t0 ->
  pton_end 0 src (Some (overwrite t0 0 (l ++ 0 :: r))) tarindex = Ok true.
Proof.
  intros Hi Hl. unfold pton_end. destruct src; cbn [skip_spaces]; cbn;
    by rewrite tget_at.
Qed.
End Decode.

(** What acceptance of [src] with the value [n] and the target [t'] means. *)
Definition accepted (src : list Z) (n : Z) (t' : list Z) : Prop :=
  exists text rest, src = text ++ 0 :: rest /\ ~ In 0 text /\
    bytes (take (Z.to_nat n) t') /\ zlen (take (Z.to_nat n) t') = n /\
    visible text = b64_encode (take (Z.to_nat n) t').

Lemma take_written t l r :
  zlen (l ++ r) <= zlen t -> take (Z.to_nat (zlen l)) (overwrite t 0 (l ++ r)) = l.
Proof.
  intros. unfold zlen at 1. rewrite Nat2Z.id. unfold overwrite. simpl.
  rewrite <- app_assoc. by rewrite take_app_length.
Qed.

Lemma visible_stop text : visible (text ++ [Pad64]) = visible text ++ [Pad64].
Proof. rewrite visible_app. f_equal. Qed.

Lemma accepted_at t src l r n text rest :
  n = zlen l -> zlen (l ++ r) <= zlen t -> bytes l -> src = text ++ 0 :: rest -> ~ In 0 text ->
  visible text = b64_encode l -> accepted src n (overwrite t 0 (l ++ r)).
Proof.
  intros -> Hl Hb Hsrc Hno Hv. exists text, rest. by rewrite take_written.
Qed.

Lemma encode_two v0 v1 :
  is_digit v0 -> is_digit v1 -> v1 mod 16 * 16 = 0 ->
  is_byte (v0 * 4 + v1 / 16) /\
  b64_encode [v0 * 4 + v1 / 16] = [enc v0; enc v1; Pad64; Pad64].
Proof.
  unfold is_digit. intros H0 H1 Hz.
  assert (Hb : is_byte (v0 * 4 + v1 / 16)) by (unfold is_byte; euclid).
  assert (Hb0 : is_byte 0) by done.
  destruct (group_digits _ 0 0 Hb Hb0 Hb0) as (E0 & E1 & _). rewrite !Z.mul_0_l, !Z.add_0_r in *.
  split; [done|]. cbn [b64_encode]. rewrite E0, E1. do 2 f_equal; [f_equal; euclid|].
  f_equal. f_equal. euclid.
Qed.

Lemma encode_three v0 v1 v2 :
  is_digit v0 -> is_digit v1 -> is_digit v2 -> v2 mod 4 * 64 = 0 ->
  bytes [v0 * 4 + v1 / 16; v1 mod 16 * 16 + v2 / 4] /\
  b64_encode [v0 * 4 + v1 / 16; v1 mod 16 * 16 + v2 / 4] = [enc v0; enc v1; enc v2; Pad64].
Proof.
  unfold is_digit. intros H0 H1 H2 Hz.
  assert (Ha : is_byte (v0 * 4 + v1 / 16)) by (unfold is_byte; euclid).
  assert (Hb : is_byte (v1 mod 16 * 16 + v2 / 4)) by (unfold is_byte; euclid).
  assert (Hb0 : is_byte 0) by done.
  destruct (group_digits _ _ 0 Ha Hb Hb0) as (E0 & E1 & E2 & _). rewrite !Z.add_0_r in *.
  split; [by repeat apply Forall_cons_2|]. cbn [b64_encode]. rewrite E0, E1, E2.
  f_equal; [f_equal; euclid|]. f_equal; [f_equal; euclid|]. f_equal. f_equal. euclid.
Qed.

Lemma digits_inj l l' : whole l -> whole l' -> b64_digits l = b64_digits l' -> l = l'.
Proof.
  intros H. revert l'. induction H as [|a b c l Ha Hb Hc _ IH]; intros l' H'; destruct H' as [|a' b' c' l' Ha' Hb' Hc' H'];
    [done|done|done|]. cbn [b64_digits]. intros [= E0 E1 E2 E3 E]. rewrite (IH _ H' E).
  unfold is_byte in *. f_equal; [euclid|]. f_equal; [euclid|]. f_equal. euclid.
Qed.

Lemma split_whole l : bytes l -> exists full r, l = full ++ r /\ whole full /\ (length r < 3)%nat /\ bytes r.
Proof.
  intros Hb. assert (Hn : (length l < S (length l))%nat) by lia.
  revert Hb Hn. generalize (S (length l)). intros n. revert l.
  induction n as [|n IH]; intros l Hb Hn; [lia|].
  destruct l as [|a [|b [|c l]]]; try (exists []; eexists; split; [done|split; [constructor|split; [simpl; lia|done]]]).
  inversion Hb as [|?? Ha Hb1]; subst. inversion Hb1 as [|?? Hbb Hb2]; subst.
  inversion Hb2 as [|?? Hc Hb3]; subst.
  destruct (IH l Hb3 ltac:(simpl in Hn; lia)) as (full & r & -> & Hw & Hr).
  exists (a :: b :: c :: full), r. split; [done|]. split; [by constructor|done].
Qed.

Lemma visible_digits vs : Forall is_digit vs -> visible (map enc vs) = map enc vs.
Proof.
  induction 1 as [|v vs Hv _ IH]; [done|]. cbn [map].
  destruct (enc_char v Hv) as (? & _ & ? & _). rewrite visible_char by (by rewrite swrap_ascii).
  by rewrite IH.
Qed.

Section Pton.
Context (t0 : list Z) (targsize : Z).
Context (Hsize : 0 <= targsize <= zlen t0) (Hbig : targsize < 2 ^ 31).

Lemma buf_nil : buf t0 [] [] = t0.
Proof. done. Qed.
Lemma decoded_nil : decoded targsize [] [].
Proof. split; [constructor|constructor|simpl; lia|cbn; rewrite zlen_nil; lia]. Qed.

(** A run that stays in the target and, if it accepts, saw an encoding. *)
Definition good (src : list Z) (r : outcome (Z * option (list Z))) : Prop :=
  exists n t', r = Ok (n, Some t') /\ zlen t' = zlen t0 /\
    (n = -1 \/ (0 <= n <= targsize /\ accepted src n t')).

Lemma good_reject src l : zlen l <= zlen t0 -> good src (Ok (-1, Some (overwrite t0 0 l))).
Proof. intros. eexists _, _. split; [done|]. split; [by apply zlen_overwrite|by left]. Qed.

Lemma good_accept src n l r text rest :
  n = zlen l -> zlen (l ++ r) <= targsize -> bytes l -> src = text ++ 0 :: rest -> ~ In 0 text ->
  visible text = b64_encode l -> good src (Ok (swrap 32 n, Some (overwrite t0 0 (l ++ r)))).
Proof.
  intros -> Hl Hb Hsrc Hno Hv. pose proof (zlen_nonneg l). pose proof (zlen_nonneg r).
  pose proof Hl as Hl'. rewrite zlen_app in Hl'. rewrite swrap_small by lia.
  eexists _, _. split; [done|]. split; [apply zlen_overwrite; lia|]. right. split; [lia|].
  apply (accepted_at t0 src l r _ text rest); done || lia.
Qed.

(** The last check, for the bytes [l] whose encoding was read up to [text]. *)
Lemma good_end src b rest l x text i :
  bytes (b :: rest) -> In 0 (b :: rest) -> i = zlen l -> zlen (l ++ [x]) <= targsize ->
  src = text ++ b :: rest -> ~ In 0 text ->
  (x = 0 -> bytes l /\ visible text = b64_encode l) ->
  good src (let! ok := pton_end (swrap 8 b) rest (Some (overwrite t0 0 (l ++ [x]))) i in
            Ok (if ok then swrap 32 i else -1, Some (overwrite t0 0 (l ++ [x])))).
Proof.
  intros Hb Hin Hi Hl Hsrc Hno Hend.
  destruct (pton_end_inv t0 b rest l x [] i Hb Hin Hi) as (ok & -> & Hok); [lia|].
  cbn [obind]. destruct ok; [|apply good_reject; lia].
  destruct (Hok eq_refl) as (Hz & sp & rest' & Hsrc' & Hsp & Hno').
  destruct (Hend Hz) as [Hbl Hv].
  apply (good_accept _ _ _ _ (text ++ sp) rest'); try done.
  - by rewrite Hsrc, Hsrc', <- app_assoc.
  - rewrite in_app_iff. intros [|]; done.
  - by rewrite visible_app, Hsp, app_nil_r.
Qed.

Lemma good_two src full v0 v1 text b rest :
  decoded targsize full [v0; v1] -> bytes (b :: rest) -> In 0 (b :: rest) ->
  src = text ++ Pad64 :: b :: rest -> ~ In 0 text ->
  visible text = map enc (b64_digits full) ++ [enc v0; enc v1] ->
  good src (let t := Some (buf t0 full [v0; v1]) in
    let i := index full [v0; v1] in
    let! (ch, src) := skip_spaces (swrap 8 b) rest in
    if negb (ch =? Pad64) then Ok (-1, t)
    else
      let! (ch, src) := next_char src in
      let! ok := pton_end ch src t i in Ok (if ok then swrap 32 i else -1, t)).
Proof.
  intros [Hw Ht _ Hfits] Hb Hin Hsrc Hno Hv. cbv zeta.
  inversion Ht as [|?? Hv0 Ht1]; subst. inversion Ht1 as [|?? Hv1 _]; subst.
  destruct (skip_spaces_inv b rest Hb Hin) as (sp & b' & src' & Hsrc' & Hsp & Hno' & Hin' & ->).
  cbn [obind]. rewrite Hsrc' in *. apply Forall_app in Hb as [_ Hb]. inversion Hb as [|?? Hb' Hb3]; subst.
  unfold buf. cbn [partial] in *. set (x := v0 * 4 + v1 / 16) in *.
  change [x; v1 mod 16 * 16] with ([x] ++ [v1 mod 16 * 16]) in *. rewrite app_assoc in *.
  destruct (Z.eqb_spec (swrap 8 b') Pad64) as [Ep|]; cbn [negb]; [|apply good_reject; lia].
  rewrite swrap_char in Ep by (done || rewrite Ep; done). subst b'.
  destruct Hin' as [|Hin']; [done|]. destruct src' as [|c src']; [done|]. cbn [next_char obind].
  apply (good_end _ c src' _ _ (text ++ [Pad64] ++ sp ++ [Pad64])); try done.
  - by rewrite zlen_app.
  - by rewrite <- !app_assoc.
  - rewrite !in_app_iff. intros [|[[|[]]|[|[|[]]]]]; done.
  - intros Hz. destruct (encode_two v0 v1 Hv0 Hv1 Hz) as [Hx Henc]. fold x in Hx, Henc. split.
    + apply Forall_app. split; [by apply whole_bytes|by constructor].
    + rewrite !visible_app, Hsp, Hv, b64_encode_app, Henc by done. by rewrite <- !app_assoc.
Qed.

Lemma good_three src full v0 v1 v2 text b rest :
  decoded targsize full [v0; v1; v2] -> bytes (b :: rest) -> In 0 (b :: rest) ->
  src = text ++ Pad64 :: b :: rest -> ~ In 0 text ->
  visible text = map enc (b64_digits full) ++ [enc v0; enc v1; enc v2] ->
  good src (let t := Some (buf t0 full [v0; v1; v2]) in
    let i := index full [v0; v1; v2] in
    let! ok := pton_end (swrap 8 b) rest t i in Ok (if ok then swrap 32 i else -1, t)).
Proof.
  intros [Hw Ht _ Hfits] Hb Hin Hsrc Hno Hv. cbv zeta.
  inversion Ht as [|?? Hv0 Ht1]; subst. inversion Ht1 as [|?? Hv1 Ht2]; subst.
  inversion Ht2 as [|?? Hv2 _]; subst.
  unfold buf. cbn [partial] in *.
  set (x := v0 * 4 + v1 / 16) in *. set (y := v1 mod 16 * 16 + v2 / 4) in *.
  change [x; y; v2 mod 4 * 64] with ([x; y] ++ [v2 mod 4 * 64]) in *. rewrite app_assoc in *.
  apply (good_end _ b rest _ _ (text ++ [Pad64])); try done.
  - by rewrite zlen_app.
  - by rewrite <- app_assoc.
  - rewrite !in_app_iff. intros [|[|[]]]; done.
  - intros Hz. destruct (encode_three v0 v1 v2 Hv0 Hv1 Hv2 Hz) as [Hx Henc]. fold x y in Hx, Henc.
    split.
    + apply Forall_app. split; [by apply whole_bytes|done].
    + rewrite !visible_app, Hv, b64_encode_app, Henc by done. by rewrite <- !app_assoc.
Qed.

(** Decoding a NUL-terminated text stays within the source and the target;
    what it accepts is an encoding of what it returns. *)
Lemma pton_inv src : bytes src -> In 0 src -> good src (f_b64_pton src (Some t0) targsize).
Proof.
  intros Hb Hin. unfold f_b64_pton.
  destruct (pton_scan_inv t0 targsize Hsize Hbig src [] [] decoded_nil Hb Hin) as (r & Er & Hr).
  change (index [] []) with 0 in Er. change (zlen (@nil Z)) with 0 in Er.
  rewrite buf_nil in Er. rewrite Er. cbn [obind]. clear Er. destruct r as [t|ch rest t tarindex state].
  { destruct Hr as (t' & -> & Hz). exists (-1), t'. auto. }
  destruct Hr as (text & vs & full & tail & Hsrc & Hch & Hno & Hvs & Hvis & Hd & Hdig & -> & -> & ->).
  cbn [b64_digits app] in Hdig. pose proof Hd as [Hwhole _ Hshort Hfits].
  assert (Hvis' : visible text = map enc (b64_digits full) ++ map enc tail).
  { by rewrite Hvis, <- Hdig, map_app. }
  destruct Hch as [->|[-> Hrest]].
  { change (0 =? Pad64) with false. cbn iota.
    destruct (Z.eqb_spec (zlen tail) 0) as [Hz|]; [|apply good_reject; lia].
    destruct tail; [|rewrite zlen_cons in Hz; pose proof (zlen_nonneg tail); lia].
    apply (good_accept src _ full [] text rest); try done.
    - unfold index. rewrite zlen_nil. lia.
    - by apply whole_bytes.
    - rewrite <- (app_nil_r full), b64_encode_app by done. exact Hvis'. }
  change (Pad64 =? Pad64) with true. cbn iota.
  destruct rest as [|b rest]; [done|]. cbn [next_char obind].
  assert (Hb2 : bytes (b :: rest)).
  { rewrite Hsrc in Hb. apply Forall_app in Hb as [_ Hb]. by inversion Hb. }
  destruct tail as [|v0 [|v1 [|v2 [|]]]]; [apply good_reject; lia|apply good_reject; lia|..|simpl in Hshort; lia].
  - by apply (good_two src full v0 v1 text).
  - by apply (good_three src full v0 v1 v2 text).
Qed.

(** *** The round trip *)
Lemma decoded_digits full tail full' tail' :
  whole full -> (length tail < 4)%nat -> decoded targsize full' tail' ->
  b64_digits full' ++ tail' = b64_digits full ++ tail -> full' = full /\ tail' = tail.
Proof.
  intros Hw Ht [Hw' _ Ht' _] E.
  pose proof (length_b64_digits _ Hw) as L. pose proof (length_b64_digits _ Hw') as L'.
  pose proof (f_equal zlen E) as El. rewrite !zlen_app in El.
  apply app_inj_1 in E as [Ed Et]; [|unfold zlen in *; lia].
  split; [by apply digits_inj|done].
Qed.

(** A padded or whole text of the digits of [full ++ r]. *)
Lemma scan_encoded full tail stop rest :
  whole full -> Forall is_digit tail -> (length tail < 4)%nat -> stop = 0 \/ stop = Pad64 ->
  used (zlen (b64_digits full ++ tail)) <= targsize ->
  zlen (full ++ partial tail) <= targsize /\
  pton_scan (map enc (b64_digits full ++ tail) ++ stop :: rest) (Some t0) targsize 0 0 =
    Ok (Stop stop rest (Some (buf t0 full tail)) (index full tail) (zlen tail)).
Proof.
  intros Hw Ht Hs Hstop Hroom.
  assert (Hdig : Forall is_digit (b64_digits full ++ tail)).
  { apply Forall_app. split; [by apply b64_digits_range|done]. }
  destruct (pton_scan_digits t0 targsize Hsize Hbig (map enc (b64_digits full ++ tail))
    (b64_digits full ++ tail) stop rest [] [] decoded_nil Hdig) as (full' & tail' & Hd & E & Hscan);
    [by apply visible_digits|apply Forall_map, (Forall_impl _ _ _ Hdig); intros v Hv;
      destruct (enc_char v Hv) as (? & ? & _); done
     |done|done|].
  destruct (decoded_digits full tail full' tail' Hw Hs Hd E) as [-> ->]. by destruct Hd.
Qed.

(** The end of an encoding with padding. *)
Lemma pton_accept src l t i :
  i = zlen l -> zlen l < targsize -> t = overwrite t0 0 (l ++ [0]) ->
  exists t', (let! ok := pton_end 0 src (Some t) i in
              Ok (if ok then swrap 32 i else -1, Some t)) = Ok (zlen l, Some t') /\
    zlen t' = zlen t0 /\ take (Z.to_nat (zlen l)) t' = l.
Proof.
  intros -> Hl ->. pose proof (zlen_nonneg l).
  assert (zlen (l ++ [0]) <= zlen t0) by (rewrite zlen_app; change (zlen [0]) with 1; lia).
  rewrite (pton_end_zero t0 src l [] (zlen l)) by done. cbn [obind]. rewrite swrap_small by lia.
  eexists. split; [done|]. split; [by apply zlen_overwrite|by apply take_written].
Qed.

Lemma pton_encode l rest :
  bytes l -> zlen l < targsize ->
  exists t', f_b64_pton (b64_encode l ++ 0 :: rest) (Some t0) targsize = Ok (zlen l, Some t') /\
    zlen t' = zlen t0 /\ take (Z.to_nat (zlen l)) t' = l.
Proof.
  intros Hl Hroom. destruct (split_whole l Hl) as (full & r & -> & Hw & Hr & Hbr).
  pose proof (length_b64_digits _ Hw) as Hlen. pose proof (zlen_nonneg full).
  rewrite b64_encode_app by done. rewrite zlen_app in Hroom.
  destruct r as [|a [|b [|]]]; [| | |simpl in Hr; lia].
  - destruct (scan_encoded full [] 0 rest Hw) as [_ Hscan];
      [constructor|simpl; lia|auto|rewrite app_nil_r; unfold used; rewrite zlen_nil in *; euclid|].
    rewrite !app_nil_r in *. rewrite zlen_nil in Hroom. unfold f_b64_pton. rewrite Hscan. cbn [obind].
    change (0 =? Pad64) with false. change (zlen (@nil Z) =? 0) with true. cbn iota.
    replace (index full []) with (zlen full) by (unfold index; rewrite zlen_nil; lia).
    rewrite swrap_small by lia. eexists. split; [done|]. unfold buf. cbn [partial].
    split; [apply zlen_overwrite; rewrite app_nil_r; lia|apply take_written; rewrite app_nil_r; lia].
  - inversion Hbr as [|?? Ha _]; subst. pose proof Ha as Ha'. unfold is_byte in Ha'.
    assert (Hb0 : is_byte 0) by done.
    destruct (group_digits a 0 0 Ha Hb0 Hb0) as (E0 & E1 & _).
    rewrite Z.mul_0_l, !Z.add_0_r in E0, E1. rewrite Z.div_0_l, Z.add_0_r in E1 by done.
    cbn [b64_encode]. rewrite E0, E1. rewrite zlen_cons, zlen_nil in Hroom.
    destruct (scan_encoded full [a / 4; a mod 4 * 16] Pad64 (Pad64 :: 0 :: rest) Hw) as [Hfits Hscan];
      [unfold is_digit; do 2 (apply Forall_cons_2; [euclid|]); constructor|simpl; lia|auto
      |rewrite zlen_app, !zlen_cons, zlen_nil; unfold used; euclid|].
    rewrite map_app, <- app_assoc in Hscan. cbn [map app] in Hscan. rewrite <- app_assoc. cbn [app].
    unfold f_b64_pton. rewrite Hscan. cbn [obind next_char].
    change (zlen [a / 4; a mod 4 * 16]) with 2. change (Pad64 =? Pad64) with true. concrete_tests.
    cbn [orb]. change (swrap 8 Pad64) with Pad64. cbn [skip_spaces].
    change ((Pad64 =? 0) || negb (isspace Pad64)) with true. cbn iota. cbn [obind].
    change (negb (Pad64 =? Pad64)) with false. cbn [next_char obind]. cbn iota. change (swrap 8 0) with 0.
    apply (pton_accept _ (full ++ [a])); [unfold index; rewrite zlen_app; done|..].
    + rewrite zlen_app, zlen_cons, zlen_nil in *. lia.
    + unfold buf. cbn [partial]. rewrite <- app_assoc. cbn [app]. do 4 f_equal; [euclid|f_equal; euclid].
  - inversion Hbr as [|?? Ha Hbr1]; subst. inversion Hbr1 as [|?? Hb _]; subst.
    pose proof Ha as Ha'. pose proof Hb as Hb'. unfold is_byte in Ha', Hb'.
    assert (Hb0 : is_byte 0) by done.
    destruct (group_digits a b 0 Ha Hb Hb0) as (E0 & E1 & E2 & _). rewrite !Z.add_0_r in *.
    cbn [b64_encode]. rewrite E0, E1, E2. rewrite !zlen_cons, zlen_nil in Hroom.
    destruct (scan_encoded full [a / 4; a mod 4 * 16 + b / 16; b mod 16 * 4] Pad64 (0 :: rest) Hw) as [Hfits Hscan];
      [unfold is_digit; do 3 (apply Forall_cons_2; [euclid|]); constructor|simpl; lia|auto
      |rewrite zlen_app, !zlen_cons, zlen_nil; unfold used; euclid|].
    rewrite map_app, <- app_assoc in Hscan. cbn [map app] in Hscan. rewrite <- app_assoc. cbn [app].
    unfold f_b64_pton. rewrite Hscan. cbn [obind next_char].
    change (zlen [a / 4; a mod 4 * 16 + b / 16; b mod 16 * 4]) with 3.
    change (Pad64 =? Pad64) with true. concrete_tests. cbn [orb]. change (swrap 8 0) with 0.
    apply (pton_accept _ (full ++ [a; b])); [unfold index; rewrite zlen_app; done|..].
    + rewrite zlen_app, !zlen_cons, zlen_nil in *. lia.
    + unfold buf. cbn [partial]. rewrite <- app_assoc. cbn [app].
      apply (f_equal (fun l => overwrite t0 0 (full ++ l))).
      f_equal; [euclid|]. f_equal; [euclid|]. f_equal. euclid.
Qed.
End Pton.

(** ** What the base64 functions guarantee

    [f_b64_ntop] computes the encoding or refuses; [f_b64_pton] stays in its
    buffers on every input, accepts encodings only, and inverts the
    encoder. *)
(** Encoding.  [f_b64_ntop] writes the base64 encoding of the source and
    a terminating NUL and returns the encoding's length when that is smaller
    than the target; otherwise it returns -1 and has written within the
    target only.  It returns on every source. *)
Theorem ntop_encodes src t0 targsize :
  0 <= targsize <= zlen t0 -> zlen t0 < 2 ^ 31 -> bytes src ->
  let e := b64_encode src in
  if zlen e <? targsize
  then f_b64_ntop src (zlen src) t0 targsize = Ok (zlen e, overwrite t0 0 (e ++ [0]))
  else exists w, f_b64_ntop src (zlen src) t0 targsize = Ok (-1, overwrite t0 0 w) /\
         zlen w <= targsize.
Proof.
  intros Hs Hb Hsrc. cbv zeta. unfold f_b64_ntop. change t0 with (overwrite t0 0 []) at 1 3.
  pose proof (ntop_loop_spec t0 targsize Hs ltac:(lia) (S (Z.to_nat (zlen src))) src [] Hsrc
    ltac:(unfold zlen; lia) ltac:(rewrite zlen_nil; lia)) as H.
  unfold ntop_result in H. cbn [app] in H. change (zlen (@nil Z)) with 0 in H.
  pose proof (zlen_nonneg (b64_encode src)).
  destruct (Z.ltb_spec (zlen (b64_encode src)) targsize); [|exact H].
  rewrite swrap_small in H by lia. exact H.
Qed.

(** C34: decoding is safe and strict.  On any NUL-terminated source
    [f_b64_pton] returns, reads nothing past the terminator and writes within
    [targsize] bytes.  If it accepts, the source up to the NUL, less white
    space, is the canonical encoding of the bytes it wrote, whose number it
    returns. *)
Theorem pton_strict src t0 targsize :
  0 <= targsize <= zlen t0 -> targsize < 2 ^ 31 -> bytes src -> In 0 src ->
  exists n t', f_b64_pton src (Some t0) targsize = Ok (n, Some t') /\ zlen t' = zlen t0 /\
    (n = -1 \/
     0 <= n <= targsize /\ exists text rest, src = text ++ 0 :: rest /\ ~ In 0 text /\
       bytes (take (Z.to_nat n) t') /\ zlen (take (Z.to_nat n) t') = n /\
       visible text = b64_encode (take (Z.to_nat n) t')).
Proof. intros Hs Hb Hsrc Hin. exact (pton_inv t0 targsize Hs Hb src Hsrc Hin). Qed.

(** C35: base64 round trip.  Decoding what [f_b64_ntop] wrote gives back the
    source, provided the target has one byte to spare. *)
Theorem base64_roundtrip src t0 targsize d0 dsize :
  0 <= targsize <= zlen t0 -> zlen t0 < 2 ^ 31 -> bytes src -> zlen (b64_encode src) < targsize ->
  0 <= dsize <= zlen d0 -> dsize < 2 ^ 31 -> zlen src < dsize ->
  exists n text, f_b64_ntop src (zlen src) t0 targsize = Ok (n, text) /\
  exists d, f_b64_pton text (Some d0) dsize = Ok (zlen src, Some d) /\
    zlen d = zlen d0 /\ take (Z.to_nat (zlen src)) d = src.
Proof.
  intros Hs Hb Hsrc He Hd Hdb Hroom. unfold f_b64_ntop. change t0 with (overwrite t0 0 []) at 1.
  pose proof (ntop_loop_spec t0 targsize Hs ltac:(lia) (S (Z.to_nat (zlen src))) src [] Hsrc
    ltac:(unfold zlen; lia) ltac:(rewrite zlen_nil; lia)) as H.
  unfold ntop_result in H. cbn [app] in H. change (zlen (@nil Z)) with 0 in H.
  rewrite (proj2 (Z.ltb_lt _ _) He) in H. rewrite H. do 2 eexists. split; [reflexivity|].
  unfold overwrite. cbn [take app]. rewrite <- app_assoc. cbn [app].
  by apply pton_encode.
Qed.

(** ** Concrete runs *)
#[local] Ltac concrete_bytes := repeat (apply Forall_cons_2; [by vm_compute|]); by apply Forall_nil_2.
Lemma ntop_encodes_witness :
  f_b64_ntop [77; 97] 2 (replicate 5 7) 5 = Ok (4, [84; 87; 69; 61; 0]).
Proof.
  exact (ntop_encodes [77; 97] (replicate 5 7) 5 ltac:(by vm_compute) ltac:(by vm_compute)
    ltac:(concrete_bytes)).
Defined.

Lemma pton_strict_witness :
  exists n t', f_b64_pton [84; 81; 61; 61; 0] (Some [9; 9]) 2 = Ok (n, Some t') /\ zlen t' = 2 /\
    (n = -1 \/
     0 <= n <= 2 /\ exists text rest, [84; 81; 61; 61; 0] = text ++ 0 :: rest /\ ~ In 0 text /\
       bytes (take (Z.to_nat n) t') /\ zlen (take (Z.to_nat n) t') = n /\
       visible text = b64_encode (take (Z.to_nat n) t')).
Proof.
  apply (pton_strict [84; 81; 61; 61; 0] [9; 9] 2); [by vm_compute|done| |].
  - concrete_bytes.
  - cbn. auto 6.
Defined.

Lemma base64_roundtrip_witness :
  exists n text, f_b64_ntop [77; 97] 2 (replicate 5 7) 5 = Ok (n, text) /\
  exists d, f_b64_pton text (Some [9; 9; 9]) 3 = Ok (2, Some d) /\
    zlen d = 3 /\ take 2 d = [77; 97].
Proof.
  apply (base64_roundtrip [77; 97] (replicate 5 7) 5 [9; 9; 9] 3); try done; (by vm_compute) || concrete_bytes.
Defined.
