(* ===== verification/Coding.v ===== *)
(** * LevelDB's encodings of integers and slices ([util/coding.cc])

    A [std::string] or a [Slice] is its list of bytes; a pointer [p] with its
    [limit] is the list of the bytes between them.  The functions that parse
    a value from the front of a [Slice] and advance it are computations of
    type [Get]: they return the value, if any, and the remaining input. *)
From S2P Require Import Prelude Base128.

(** [static const bool kLittleEndian = !LEVELDB_IS_BIG_ENDIAN]. *)
Definition kLittleEndian : bool := true.

(** The value a store into an [unsigned char] keeps. *)
Definition uchar (v : Z) : Z := wrap 8 v.

(** ** Fixed-width integers *)
Definition EncodeFixed32 (value : Z) : list Z :=
  if kLittleEndian then le_bytes 4 value
  else map uchar [Z.land value 0xff; Z.land (Z.shiftr value 8) 0xff;
                  Z.land (Z.shiftr value 16) 0xff; Z.land (Z.shiftr value 24) 0xff].

Definition EncodeFixed64 (value : Z) : list Z :=
  if kLittleEndian then le_bytes 8 value
  else map uchar [Z.land value 0xff; Z.land (Z.shiftr value 8) 0xff;
                  Z.land (Z.shiftr value 16) 0xff; Z.land (Z.shiftr value 24) 0xff;
                  Z.land (Z.shiftr value 32) 0xff; Z.land (Z.shiftr value 40) 0xff;
                  Z.land (Z.shiftr value 48) 0xff; Z.land (Z.shiftr value 56) 0xff].

Definition PutFixed32 (dst : list Z) (value : Z) : list Z := dst ++ EncodeFixed32 value.
Definition PutFixed64 (dst : list Z) (value : Z) : list Z := dst ++ EncodeFixed64 value.

(** Loads of 4 and 8 bytes through a pointer; [ptr] is what is left of the
    object it points into. *)
Definition DecodeFixed32 (ptr : list Z) : outcome Z :=
  match ptr with
  | b0 :: b1 :: b2 :: b3 :: _ =>
      Ok (if kLittleEndian then of_le [b0; b1; b2; b3]
          else Z.lor (Z.lor (Z.lor b0 (wrap 32 (Z.shiftl b1 8))) (wrap 32 (Z.shiftl b2 16)))
                 (wrap 32 (Z.shiftl b3 24)))
  | _ => UB OverRead
  end.

Definition DecodeFixed64 (ptr : list Z) : outcome Z :=
  if kLittleEndian then
    if zlen ptr <? 8 then UB OverRead else Ok (of_le (take 8 ptr))
  else
    let! lo := DecodeFixed32 ptr in
    let! hi := DecodeFixed32 (drop 4 ptr) in
    Ok (Z.lor (wrap 64 (Z.shiftl hi 32)) lo).

(** ** Variable-length integers *)
Definition EncodeVarint32 (v : Z) : list Z :=
  let B := 128 in
  if v <? Z.shiftl 1 7 then [uchar v]
  else if v <? Z.shiftl 1 14 then [uchar (Z.lor v B); uchar (Z.shiftr v 7)]
  else if v <? Z.shiftl 1 21 then
    [uchar (Z.lor v B); uchar (Z.lor (Z.shiftr v 7) B); uchar (Z.shiftr v 14)]
  else if v <? Z.shiftl 1 28 then
    [uchar (Z.lor v B); uchar (Z.lor (Z.shiftr v 7) B); uchar (Z.lor (Z.shiftr v 14) B);
     uchar (Z.shiftr v 21)]
  else
    [uchar (Z.lor v B); uchar (Z.lor (Z.shiftr v 7) B); uchar (Z.lor (Z.shiftr v 14) B);
     uchar (Z.lor (Z.shiftr v 21) B); uchar (Z.shiftr v 28)].

Definition PutVarint32 (dst : list Z) (v : Z) : list Z := dst ++ EncodeVarint32 v.

(** [while (v >= B)]: ten iterations clear a 64-bit value. *)
Fixpoint varint64_loop (n : nat) (v : Z) : list Z :=
  match n with
  | O => []
  | S n' =>
      if 128 <=? v then uchar (Z.lor v 128) :: varint64_loop n' (Z.shiftr v 7) else [uchar v]
  end.
Definition EncodeVarint64 (v : Z) : list Z := varint64_loop 10 v.
Definition PutVarint64 (dst : list Z) (v : Z) : list Z := dst ++ EncodeVarint64 v.

Fixpoint varint_length_loop (n : nat) (v len : Z) : Z :=
  match n with
  | O => len
  | S n' => if 128 <=? v then varint_length_loop n' (Z.shiftr v 7) (len + 1) else len
  end.
Definition VarintLength (v : Z) : Z := varint_length_loop 10 v 1.

(** [for (shift = 0; shift <= last && p < limit; shift += 7)] with a result of
    [w] bits. *)
Fixpoint varint_ptr_loop (w last : Z) (p : list Z) (shift result : Z) : option (Z * list Z) :=
  match p with
  | [] => None
  | byte :: p' =>
      if shift <=? last then
        if negb (Z.land byte 128 =? 0) then
          varint_ptr_loop w last p' (shift + 7)
            (Z.lor result (wrap w (Z.shiftl (Z.land byte 127) shift)))
        else Some (Z.lor result (wrap w (Z.shiftl byte shift)), p')
      else None
  end.

Definition GetVarint32PtrFallback (p : list Z) : option (Z * list Z) := varint_ptr_loop 32 28 p 0 0.
Definition GetVarint32Ptr (p : list Z) : option (Z * list Z) :=
  match p with
  | result :: p' =>
      if Z.land result 128 =? 0 then Some (result, p') else GetVarint32PtrFallback p
  | [] => GetVarint32PtrFallback p
  end.
Definition GetVarint64Ptr (p : list Z) : option (Z * list Z) := varint_ptr_loop 64 63 p 0 0.

(** ** Parsing from a slice *)
Definition Get (A : Type) : Type := list Z -> option A * list Z.
Definition gret {A} (a : A) : Get A := fun input => (Some a, input).
Definition gbind {A B} (g : Get A) (k : A -> Get B) : Get B := fun input =>
  match g input with
  | (Some a, input') => k a input'
  | (None, input') => (None, input')
  end.

(** A pointer-based getter, as the function on slices uses it. *)
Definition get_ptr {A} (f : list Z -> option (A * list Z)) : Get A := fun input =>
  match f input with
  | None => (None, input)
  | Some (v, q) => (Some v, q)
  end.
Definition GetVarint32 : Get Z := get_ptr GetVarint32Ptr.
Definition GetVarint64 : Get Z := get_ptr GetVarint64Ptr.

(** The pointer-based overload. *)
Definition GetLengthPrefixedSlicePtr (p : list Z) : option (list Z * list Z) :=
  match GetVarint32Ptr p with
  | None => None
  | Some (len, p) =>
      if zlen p <? len then None else Some (take (Z.to_nat len) p, drop (Z.to_nat len) p)
  end.

Definition GetLengthPrefixedSlice : Get (list Z) :=
  gbind GetVarint32 (fun len input =>
    if len <=? zlen input then (Some (take (Z.to_nat len) input), drop (Z.to_nat len) input)
    else (None, input)).

(** The length is stored as a [uint32_t]. *)
Definition PutLengthPrefixedSlice (dst value : list Z) : list Z :=
  PutVarint32 dst (wrap 32 (zlen value)) ++ value.

Declare Scope get_scope.
Delimit Scope get_scope with get.
Notation "'parse' x <- g ; k" := (gbind g (fun x => k))
  (at level 10, x pattern, g at level 100, k at level 200) : get_scope.

(** ** What a pair of functions promises its users

    A [put] that appends an encoding and a [get] that parses it back from the
    front of any input. *)
Class Codec {A} (encode : A -> list Z) (get : Get A) (valid : A -> Prop) : Prop :=
  get_encode : forall v rest, valid v -> get (encode v ++ rest) = (Some v, rest).
