(* ===== verification/Bloom.v ===== *)
(** * Bloom filters ([util/hash.cc, util/bloom.cc])

    [FilterPolicy] is the interface of [leveldb/filter_policy.h]; the built-in
    Bloom filter implements it.  A read or write outside a slice or the
    filter is undefined behaviour. *)
From S2P Require Import Prelude Coding.
From Stdlib Require Import SpecFloat.

(** ** The interface

    [CreateFilter] appends a filter for the keys to [dst]; [KeyMayMatch]
    consults a filter. *)
Class FilterPolicy : Type := {
  CreateFilter : list (list Z) -> list Z -> outcome (list Z);
  KeyMayMatch : list Z -> list Z -> outcome bool;
  policy_Name : list Z
}.

(** What a policy promises: the filter matches the keys it was made from.
    [fits] bounds the lists of keys it can summarise. *)
Class LawfulPolicy `{FilterPolicy} (fits : list (list Z) -> Prop) : Prop :=
  policy_law : forall keys dst, fits keys -> Forall bytes keys ->
    exists filter, CreateFilter keys dst = Ok (dst ++ filter) /\ bytes filter /\
      forall key, key ∈ keys -> KeyMayMatch key filter = Ok true.

(** ** The hash *)
Definition hash_m : Z := 0xc6a4a793.
Definition hash_r : Z := 24.

(** [while (data + 4 <= limit)]. *)
Fixpoint hash_words (fuel : nat) (data : list Z) (h : Z) : outcome (list Z * Z) :=
  match fuel with
  | O => Timeout
  | S n =>
      if 4 <=? zlen data then
        let! w := DecodeFixed32 data in
        let h := wrap 32 (h + w) in
        let h := wrap 32 (h * hash_m) in
        let h := Z.lxor h (Z.shiftr h 16) in
        hash_words n (drop 4 data) h
      else Ok (data, h)
  end.

(** The switch on the number of bytes left, with its fall through. *)
Definition hash_tail (data : list Z) (h : Z) : Z :=
  let last h b := let h := wrap 32 (h + b) in
                  let h := wrap 32 (h * hash_m) in
                  Z.lxor h (Z.shiftr h hash_r) in
  match data with
  | [b0; b1; b2] =>
      last (wrap 32 (wrap 32 (h + Z.shiftl b2 16) + Z.shiftl b1 8)) b0
  | [b0; b1] => last (wrap 32 (h + Z.shiftl b1 8)) b0
  | [b0] => last h b0
  | _ => h
  end.

Definition Hash (data : list Z) (seed : Z) : outcome Z :=
  let n := zlen data in
  let h := wrap 32 (Z.lxor seed (wrap 64 (n * hash_m))) in
  let! (data, h) := hash_words (S (length data)) data h in
  Ok (hash_tail data h).

Definition BloomHash (key : list Z) : outcome Z := Hash key 0xbc9f1d34.

(** ** The Bloom filter *)
Record BloomFilterPolicy : Type := mk_bloom { bits_per_key_ : Z; k_ : Z }.

(** The conversion of a finite double to an integer, towards zero. *)
Definition truncate_double (x : spec_float) : Z :=
  match x with
  | S754_finite false m e => Z.shiftl (Zpos m) e
  | S754_finite true m e => - Z.shiftl (Zpos m) e
  | _ => 0
  end.
(** The double nearest to 0.69. *)
Definition ln2 : spec_float := S754_finite false 6214967485771284 (-53).
Definition double_of (z : Z) : spec_float :=
  match z with
  | Z0 => S754_zero false
  | Zpos p => binary_round 53 1024 false p 0
  | Zneg p => binary_round 53 1024 true p 0
  end.

(** The constructor, for a non-negative argument. *)
Definition NewBloomFilterPolicy (bits_per_key : Z) : BloomFilterPolicy :=
  let k := truncate_double (SFmul 53 1024 (double_of bits_per_key) ln2) in
  let k := if k <? 1 then 1 else k in
  let k := if 30 <? k then 30 else k in
  mk_bloom bits_per_key k.

(** [(h >> 17) | (h << 15)]. *)
Definition rotate_17 (h : Z) : Z := Z.lor (Z.shiftr h 17) (wrap 32 (Z.shiftl h 15)).

(** [array[bitpos / 8] |= (1 << (bitpos % 8))]. *)
Definition set_bit (array : list Z) (bitpos : Z) : outcome (list Z) :=
  let i := Z.to_nat (bitpos / 8) in
  match array !! i with
  | Some b => Ok (<[i := uchar (Z.lor b (Z.shiftl 1 (bitpos mod 8)))]> array)
  | None => UB OverWrite
  end.

(** [(array[bitpos / 8] & (1 << (bitpos % 8))) != 0]. *)
Definition test_bit (array : list Z) (bitpos : Z) : outcome bool :=
  let! b := or_ub OverRead (array !! Z.to_nat (bitpos / 8)) in
  Ok (negb (Z.land b (Z.shiftl 1 (bitpos mod 8)) =? 0)).

(** The probes for one key, from the [n]-th hash value on. *)
Fixpoint set_probes (n : nat) (bits delta h : Z) (array : list Z) : outcome (list Z) :=
  match n with
  | O => Ok array
  | S n' =>
      let! array := set_bit array (h mod bits) in
      set_probes n' bits delta (wrap 32 (h + delta)) array
  end.

Fixpoint test_probes (n : nat) (bits delta h : Z) (array : list Z) : outcome bool :=
  match n with
  | O => Ok true
  | S n' =>
      let! b := test_bit array (h mod bits) in
      if b : bool then test_probes n' bits delta (wrap 32 (h + delta)) array else Ok false
  end.

Fixpoint add_keys (k bits : Z) (keys : list (list Z)) (array : list Z) : outcome (list Z) :=
  match keys with
  | [] => Ok array
  | key :: keys' =>
      let! h := BloomHash key in
      let! array := set_probes (Z.to_nat k) bits (rotate_17 h) h array in
      add_keys k bits keys' array
  end.

Definition bloom_create (p : BloomFilterPolicy) (keys : list (list Z)) (dst : list Z) :
    outcome (list Z) :=
  let bits := wrap 64 (zlen keys * bits_per_key_ p) in
  let bits := if bits <? 64 then 64 else bits in
  let bytes := wrap 64 (bits + 7) / 8 in
  let bits := wrap 64 (bytes * 8) in
  let array := replicate (Z.to_nat bytes) 0 ++ [uchar (k_ p)] in
  let! array := add_keys (k_ p) bits keys array in
  Ok (dst ++ array).

(** [char] is signed, so the last byte is sign-extended to a [size_t]. *)
Definition bloom_match (key bloom_filter : list Z) : outcome bool :=
  let len := zlen bloom_filter in
  if len <? 2 then Ok false
  else
    let bits := (len - 1) * 8 in
    let! last := or_ub OverRead (bloom_filter !! Z.to_nat (len - 1)) in
    let k := wrap 64 (swrap 8 last) in
    if 30 <? k then Ok true
    else
      let! h := BloomHash key in
      test_probes (Z.to_nat k) bits (rotate_17 h) h bloom_filter.

#[export] Instance bloom_policy (p : BloomFilterPolicy) : FilterPolicy | 10 := {
  CreateFilter := bloom_create p;
  KeyMayMatch := bloom_match;
  policy_Name := chars "leveldb.BuiltinBloomFilter2"
}.

Example ten_bits : k_ (NewBloomFilterPolicy 10) = 6.
Proof. by vm_compute. Qed.
Example one_key :
  (let! f := bloom_create (NewBloomFilterPolicy 10) [[104; 105]] [] in
   let! a := bloom_match [104; 105] f in let! b := bloom_match [120] f in Ok (zlen f, a, b)) =
  Ok (9, true, false).
Proof. by vm_compute. Qed.
