(* ===== verification/CodingProof.v ===== *)
(** * LevelDB's varints are base-128 integers

    The encoders produce the reference [varint], the parsers invert it, and
    the two branches of the fixed-width functions agree. *)
From S2P Require Import Prelude Base128 Coding.

(** ** Fixed-width integers *)
Lemma portable_bytes n v :
  map uchar (map (fun i => Z.land (Z.shiftr v (8 * Z.of_nat i)) 0xff) (seq 0 n)) = le_bytes n v.
Proof.
  rewrite map_map. revert v. induction n as [|n IH]; intros v; [done|].
  cbn [seq map le_bytes]. f_equal.
  - rewrite Z.shiftr_0_r, land_255. unfold uchar, wrap. change (2 ^ 8) with 256. apply Zmod_mod.
  - rewrite <- (IH (v / 256)), <- seq_shift, map_map. apply map_ext. intros i.
    do 2 f_equal. change 256 with (2 ^ 8). rewrite <- Z.shiftr_div_pow2, Z.shiftr_shiftr by lia.
    f_equal. lia.
Qed.

Lemma EncodeFixed32_le v : EncodeFixed32 v = le_bytes 4 v.
Proof. unfold EncodeFixed32. destruct kLittleEndian; [done|]. by rewrite <- portable_bytes. Qed.
Lemma EncodeFixed64_le v : EncodeFixed64 v = le_bytes 8 v.
Proof. unfold EncodeFixed64. destruct kLittleEndian; [done|]. by rewrite <- portable_bytes. Qed.

Lemma DecodeFixed32_le n v rest : (4 <= n)%nat -> DecodeFixed32 (le_bytes n v ++ rest) = Ok (wrap 32 v).
Proof.
  intros Hn. do 4 (destruct n as [|n]; [lia|]). cbn [le_bytes app DecodeFixed32 kLittleEndian].
  f_equal. exact (of_le_bytes 4 v).
Qed.

Lemma DecodeFixed64_le v rest : DecodeFixed64 (le_bytes 8 v ++ rest) = Ok (wrap 64 v).
Proof.
  unfold DecodeFixed64, kLittleEndian. rewrite zlen_app.
  change (zlen (le_bytes 8 v)) with 8. pose proof (zlen_nonneg rest).
  destruct (Z.ltb_spec (8 + zlen rest) 8); [lia|].
  rewrite (take_app_le _ _ 8) by done. rewrite take_ge by done.
  f_equal. exact (of_le_bytes 8 v).
Qed.

(** Loads within bounds. *)
Lemma DecodeFixed32_total p : 4 <= zlen p -> bytes p ->
  exists v, DecodeFixed32 p = Ok v /\ 0 <= v < 2 ^ 32 /\ le_bytes 4 v = take 4 p.
Proof.
  intros Hp Hb. destruct p as [|b0 [|b1 [|b2 [|b3 p]]]]; try (unfold zlen in Hp; simpl in Hp; lia).
  cbn [DecodeFixed32 kLittleEndian]. eexists. split; [done|].
  assert (H4 : bytes [b0; b1; b2; b3]) by (exact (Forall_take _ 4 _ Hb)).
  split; [exact (of_le_range _ H4)|exact (le_bytes_of_le _ H4)].
Qed.

Lemma DecodeFixed64_total p : 8 <= zlen p -> bytes p ->
  exists v, DecodeFixed64 p = Ok v /\ 0 <= v < 2 ^ 64 /\ le_bytes 8 v = take 8 p.
Proof.
  intros Hp Hb. unfold DecodeFixed64, kLittleEndian. destruct (Z.ltb_spec (zlen p) 8); [lia|].
  assert (H8 : bytes (take 8 p)) by (by apply Forall_take).
  assert (Hl : length (take 8 p) = 8%nat) by (rewrite length_take; unfold zlen in Hp; lia).
  eexists. split; [done|]. pose proof (of_le_range _ H8) as Hr. rewrite Hl in Hr.
  split; [exact Hr|]. rewrite <- Hl at 1. by apply le_bytes_of_le.
Qed.

(** ** Encoding varints *)
Lemma uchar_mod v : uchar v = v mod 256.
Proof. done. Qed.

Lemma uchar_or v : uchar (Z.lor v 128) = 128 + v mod 128.
Proof.
  unfold uchar, wrap. change (2 ^ 8) with 256.
  assert (E : Z.lor v 128 mod 256 = Z.lor (v mod 256) 128).
  { rewrite <- !land_255, Z.land_lor_distr_l. done. }
  rewrite E. pose proof (Z.mod_pos_bound v 256 ltac:(lia)) as Hv.
  replace (v mod 128) with (v mod 256 mod 128) by euclid.
  revert Hv. generalize (v mod 256). intros x Hx. apply Z.eqb_eq.
  exact (range_cases 256 (fun x => Z.lor x 128 =? 128 + x mod 128) eq_refl x Hx).
Qed.

Lemma uchar_small v : 0 <= v < 128 -> uchar v = v.
Proof. intros. apply wrap_small. lia. Qed.

Lemma varint64_loop_spec n v :
  (0 < n)%nat -> 0 <= v < 2 ^ (7 * Z.of_nat n) -> varint64_loop n v = varint_n n v.
Proof.
  revert v. induction n as [|n IH]; intros v Hn Hv; [lia|]. cbn [varint64_loop varint_n].
  destruct (Z.leb_spec 128 v), (Z.ltb_spec v 128); try lia; [|by rewrite uchar_small by lia].
  rewrite uchar_or, shiftr_div by lia. change (2 ^ 7) with 128. f_equal.
  destruct n as [|n]; [change (2 ^ (7 * Z.of_nat 1)) with 128 in Hv; lia|].
  apply IH; [lia|]. split; [apply Z.div_pos; lia|]. apply Z.div_lt_upper_bound; [lia|].
  change 128 with (2 ^ 7). rewrite <- Z.pow_add_r by lia.
  replace (7 + 7 * Z.of_nat (S n)) with (7 * Z.of_nat (S (S n))) by lia. lia.
Qed.

Lemma EncodeVarint64_varint v : 0 <= v < 2 ^ 64 -> EncodeVarint64 v = varint v.
Proof.
  intros Hv. apply varint64_loop_spec; [lia|]. change (2 ^ (7 * Z.of_nat 10)) with (2 ^ 70). lia.
Qed.

Lemma EncodeVarint32_varint v : 0 <= v < 2 ^ 32 -> EncodeVarint32 v = varint v.
Proof.
  intros Hv. unfold EncodeVarint32, varint. rewrite !Z.shiftl_1_l, !uchar_or, !shiftr_div by lia.
  rewrite !varint_n_cons. rewrite !Zdiv_Zdiv by lia.
  change (2 ^ 7) with 128. change (128 * 128) with (2 ^ 14). change (2 ^ 14 * 128) with (2 ^ 21).
  change (2 ^ 21 * 128) with (2 ^ 28).
  destruct (Z.ltb_spec v 128); [by rewrite uchar_small by lia|].
  destruct (Z.ltb_spec v (2 ^ 14)), (Z.ltb_spec (v / 128) 128);
    try (exfalso; euclid); [by rewrite uchar_small by euclid|].
  destruct (Z.ltb_spec v (2 ^ 21)), (Z.ltb_spec (v / 2 ^ 14) 128);
    try (exfalso; euclid); [by rewrite uchar_small by euclid|].
  destruct (Z.ltb_spec v (2 ^ 28)), (Z.ltb_spec (v / 2 ^ 21) 128);
    try (exfalso; euclid); [by rewrite uchar_small by euclid|].
  destruct (Z.ltb_spec (v / 2 ^ 28) 128); [|exfalso; euclid]. by rewrite uchar_small by euclid.
Qed.

Lemma varint_length_spec n v len :
  (0 < n)%nat -> 0 <= v < 2 ^ (7 * Z.of_nat n) ->
  varint_length_loop n v len = len - 1 + zlen (varint_n n v).
Proof.
  revert v len. induction n as [|n IH]; intros v len Hn Hv; [lia|]. cbn [varint_length_loop varint_n].
  destruct (Z.leb_spec 128 v), (Z.ltb_spec v 128); try lia; [|change (zlen [v]) with 1; lia].
  rewrite zlen_cons, shiftr_div by lia. change (2 ^ 7) with 128.
  destruct n as [|n]; [change (2 ^ (7 * Z.of_nat 1)) with 128 in Hv; lia|].
  rewrite IH; [lia|lia|]. split; [apply Z.div_pos; lia|]. apply Z.div_lt_upper_bound; [lia|].
  change 128 with (2 ^ 7). rewrite <- Z.pow_add_r by lia.
  replace (7 + 7 * Z.of_nat (S n)) with (7 * Z.of_nat (S (S n))) by lia. lia.
Qed.

(** ** Parsing varints *)
Lemma continuation_bit b : 0 <= b < 256 -> (Z.land b 128 =? 0) = (b <? 128).
Proof.
  intros Hb. apply eqb_prop.
  exact (range_cases 256 (fun b => Bool.eqb (Z.land b 128 =? 0) (b <? 128)) eq_refl b Hb).
Qed.

(** The position is a multiple of seven: [last] is the greatest one below
    the width. *)
Lemma varint_ptr_loop_spec w last n v rest k result :
  w <= last + 7 -> last < w -> last = 7 * (last / 7) ->
  (0 < n)%nat -> 0 <= v < 2 ^ (7 * Z.of_nat n) -> 0 <= k -> 7 * k <= last ->
  0 <= result < 2 ^ (7 * k) -> v * 2 ^ (7 * k) < 2 ^ w ->
  varint_ptr_loop w last (varint_n n v ++ rest) (7 * k) result =
    Some (result + v * 2 ^ (7 * k), rest).
Proof.
  intros Hw Hlast Hmul. revert v k result. induction n as [|n IH]; intros v k result Hn Hv Hk Hle Hr Hfit; [lia|].
  rewrite varint_n_cons.
  assert (Hp : 0 < 2 ^ (7 * k)) by (apply Z.pow_pos_nonneg; lia).
  destruct (Z.ltb_spec v 128) as [Hs|Hs]; cbn [app varint_ptr_loop].
  - destruct (Z.leb_spec (7 * k) last); [|lia]. rewrite continuation_bit by lia.
    destruct (Z.ltb_spec v 128); [|lia]. cbn [negb].
    rewrite wrap_small by (rewrite Z.shiftl_mul_pow2 by lia; lia).
    by rewrite lor_shiftl_add by lia.
  - destruct (Z.leb_spec (7 * k) last); [|lia].
    pose proof (Z.mod_pos_bound v 128 ltac:(lia)) as Hm.
    rewrite continuation_bit by lia. destruct (Z.ltb_spec (128 + v mod 128) 128); [lia|]. cbn [negb].
    rewrite land_127. replace ((128 + v mod 128) mod 128) with (v mod 128) by euclid.
    assert (Hshift : 2 ^ (7 * k + 7) = 128 * 2 ^ (7 * k)) by (rewrite Z.pow_add_r by lia; lia).
    assert (Hmv : v mod 128 <= v) by (apply Z.mod_le; lia).
    rewrite wrap_small by (rewrite Z.shiftl_mul_pow2 by lia; nia).
    rewrite lor_shiftl_add by lia. replace (7 * k + 7) with (7 * (k + 1)) by lia.
    assert (Hdiv : 128 * (v / 128) <= v) by (apply Z.mul_div_le; lia).
    assert (Hlt : 2 ^ (7 * k + 7) < 2 ^ w) by (rewrite Hshift; nia).
    apply Z.pow_lt_mono_r_iff in Hlt; [|lia|lia].
    destruct n as [|n]; [change (2 ^ (7 * Z.of_nat 1)) with 128 in Hv; lia|].
    replace (7 * k + 7) with (7 * (k + 1)) in Hshift by lia.
    rewrite IH.
    + f_equal. f_equal. rewrite Hshift. rewrite (Z.div_mod v 128) at 3 by lia. lia.
    + lia.
    + split; [apply Z.div_pos; lia|]. apply Z.div_lt_upper_bound; [lia|].
      change 128 with (2 ^ 7). rewrite <- Z.pow_add_r by lia.
      replace (7 + 7 * Z.of_nat (S n)) with (7 * Z.of_nat (S (S n))) by lia. lia.
    + lia.
    + rewrite Hmul in *. pose proof (Z.div_mod last 7 ltac:(lia)). lia.
    + rewrite Hshift. nia.
    + rewrite Hshift. nia.
Qed.

Lemma GetVarint64Ptr_varint v rest :
  0 <= v < 2 ^ 64 -> GetVarint64Ptr (varint v ++ rest) = Some (v, rest).
Proof.
  intros Hv. unfold GetVarint64Ptr, varint.
  pose proof (varint_ptr_loop_spec 64 63 10 v rest 0 0 ltac:(lia) ltac:(lia) eq_refl ltac:(lia)) as H.
  change (7 * 0) with 0 in H. rewrite Z.pow_0_r in H. rewrite H; try lia. do 2 f_equal. lia.
Qed.

Lemma GetVarint32Ptr_varint v rest :
  0 <= v < 2 ^ 32 -> GetVarint32Ptr (varint v ++ rest) = Some (v, rest).
Proof.
  intros Hv.
  assert (Hfall : GetVarint32PtrFallback (varint v ++ rest) = Some (v, rest)).
  { unfold GetVarint32PtrFallback, varint.
    pose proof (varint_ptr_loop_spec 32 28 10 v rest 0 0 ltac:(lia) ltac:(lia) eq_refl ltac:(lia)) as H.
    change (7 * 0) with 0 in H. rewrite Z.pow_0_r in H. rewrite H; try lia. do 2 f_equal. lia. }
  unfold GetVarint32Ptr. destruct (varint v ++ rest) as [|b p'] eqn:E; [done|].
  destruct (Z.land b 128 =? 0) eqn:Eb; [|exact Hfall]. rewrite <- Hfall.
  unfold GetVarint32PtrFallback. cbn [varint_ptr_loop]. rewrite Eb. cbn [negb].
  change (0 <=? 28) with true. cbn iota. rewrite Z.shiftl_0_r, Z.lor_0_l. rewrite wrap_small; [done|].
  unfold varint in E. rewrite varint_n_cons in E.
  destruct (v <? 128); cbn [app] in E; injection E as <- _; euclid.
Qed.

(** ** The codecs *)
#[export] Instance varint32_codec : Codec EncodeVarint32 GetVarint32 (fun v => 0 <= v < 2 ^ 32).
Proof.
  intros v rest Hv. unfold GetVarint32, get_ptr. rewrite EncodeVarint32_varint by done.
  by rewrite GetVarint32Ptr_varint.
Qed.

#[export] Instance varint64_codec : Codec EncodeVarint64 GetVarint64 (fun v => 0 <= v < 2 ^ 64).
Proof.
  intros v rest Hv. unfold GetVarint64, get_ptr. rewrite EncodeVarint64_varint by done.
  by rewrite GetVarint64Ptr_varint.
Qed.

(** ** Lengths *)
Lemma VarintLength_varint v : 0 <= v < 2 ^ 64 -> VarintLength v = zlen (varint v).
Proof.
  intros Hv. unfold VarintLength, varint. rewrite varint_length_spec; [lia|lia|].
  change (2 ^ (7 * Z.of_nat 10)) with (2 ^ 70). lia.
Qed.

Lemma zlen_varint32 v : 0 <= v < 2 ^ 32 -> zlen (varint v) <= 5.
Proof.
  intros Hv. unfold varint. rewrite !varint_n_cons, !Zdiv_Zdiv by lia.
  repeat match goal with |- context [if ?c <? 128 then _ else _] => destruct (Z.ltb_spec c 128) end;
    rewrite ?zlen_cons; try (change (zlen (@nil Z)) with 0; lia).
  all: exfalso; euclid.
Qed.

Definition EncodeLengthPrefixed (value : list Z) : list Z := PutLengthPrefixedSlice [] value.

Lemma PutLengthPrefixedSlice_app dst value :
  PutLengthPrefixedSlice dst value = dst ++ EncodeLengthPrefixed value.
Proof. unfold EncodeLengthPrefixed, PutLengthPrefixedSlice, PutVarint32. by rewrite app_assoc. Qed.

#[export] Instance length_prefixed_codec :
  Codec EncodeLengthPrefixed GetLengthPrefixedSlice (fun l => zlen l < 2 ^ 32).
Proof.
  intros v rest Hv. pose proof (zlen_nonneg v). pose proof (zlen_nonneg rest).
  unfold EncodeLengthPrefixed, PutLengthPrefixedSlice, PutVarint32. rewrite wrap_small by lia.
  rewrite app_nil_l, <- app_assoc. unfold GetLengthPrefixedSlice, gbind.
  rewrite (get_encode (zlen v)) by lia. rewrite zlen_app.
  destruct (Z.leb_spec (zlen v) (zlen v + zlen rest)); [|lia].
  unfold zlen. rewrite Nat2Z.id, take_app_length, drop_app_length. done.
Qed.

Lemma GetLengthPrefixedSlicePtr_encode v rest :
  zlen v < 2 ^ 32 ->
  GetLengthPrefixedSlicePtr (EncodeLengthPrefixed v ++ rest) = Some (v, rest).
Proof.
  intros Hv. pose proof (zlen_nonneg v). pose proof (zlen_nonneg rest).
  unfold EncodeLengthPrefixed, PutLengthPrefixedSlice, PutVarint32. rewrite wrap_small by lia.
  rewrite app_nil_l, <- app_assoc, EncodeVarint32_varint by lia. unfold GetLengthPrefixedSlicePtr.
  rewrite GetVarint32Ptr_varint by lia. rewrite zlen_app.
  destruct (Z.ltb_spec (zlen v + zlen rest) (zlen v)); [lia|].
  unfold zlen. by rewrite Nat2Z.id, take_app_length, drop_app_length.
Qed.

(** Parsing after another parser. *)
Lemma gbind_Some {A B} (g : Get A) (k : A -> Get B) input a rest :
  g input = (Some a, rest) -> gbind g k input = k a rest.
Proof. unfold gbind. by intros ->. Qed.

Lemma gbind_encode {A B} (encode : A -> list Z) g valid `{!Codec encode g valid} (k : A -> Get B) v rest :
  valid v -> gbind g k (encode v ++ rest) = k v rest.
Proof. intros Hv. apply gbind_Some. by apply get_encode. Qed.

(** ** Parsing any input *)

(** A parser that reads a prefix of at most [n] bytes, and at least one. *)
Definition reads (n : Z) {A} (P : A -> Prop) (g : Get A) : Prop := forall input,
  bytes input ->
  match g input with
  | (Some a, rest) => P a /\ exists used, input = used ++ rest /\ 1 <= zlen used <= n
  | (None, _) => True
  end.

Lemma varint_ptr_loop_reads w last p shift result :
  0 <= w -> 0 <= result < 2 ^ w -> bytes p ->
  match varint_ptr_loop w last p shift result with
  | Some (v, rest) => 0 <= v < 2 ^ w /\ exists used, p = used ++ rest /\ 1 <= zlen used /\
      7 * (zlen used - 1) <= last - shift
  | None => True
  end.
Proof.
  intros Hw. revert shift result. induction p as [|b p IH]; intros shift result Hr Hb; [done|].
  inversion Hb as [|?? Hb1 Hb2]; subst. cbn [varint_ptr_loop].
  destruct (Z.leb_spec shift last); [|done].
  pose proof (wrap_range w (Z.shiftl b shift) Hw). pose proof (wrap_range w (Z.shiftl (Z.land b 127) shift) Hw) as Hm.
  destruct (negb _).
  - pose proof (IH (shift + 7) (Z.lor result (wrap w (Z.shiftl (Z.land b 127) shift)))
      (lor_range _ _ w Hr Hm) Hb2) as Hi.
    destruct (varint_ptr_loop _ _ _ _ _) as [[v rest]|]; [|done].
    destruct Hi as [Hv (used & -> & Hlen)]. split; [done|]. exists (b :: used).
    rewrite zlen_cons. split; [done|].
    lia.
  - split; [by apply lor_range|]. exists [b]. split; [done|]. change (zlen [b]) with 1. lia.
Qed.

Lemma GetVarint32_reads : reads 5 (fun v => 0 <= v < 2 ^ 32) GetVarint32.
Proof.
  intros input Hb. unfold GetVarint32, get_ptr, GetVarint32Ptr, GetVarint32PtrFallback.
  pose proof (varint_ptr_loop_reads 32 28 input 0 0 ltac:(lia) ltac:(lia) Hb) as H.
  destruct input as [|b p]; [exact I|].
  destruct (Z.land b 128 =? 0).
  - inversion Hb as [|?? Hb1 _]; subst. unfold is_byte in Hb1. split; [lia|].
    exists [b]. split; [done|]. change (zlen [b]) with 1. lia.
  - destruct (varint_ptr_loop _ _ _ _ _) as [[v rest]|]; [|done].
    destruct H as [? (used & ? & ? & ?)]. split; [done|]. exists used. split; [done|lia].
Qed.

Lemma GetVarint64_reads : reads 10 (fun v => 0 <= v < 2 ^ 64) GetVarint64.
Proof.
  intros input Hb. unfold GetVarint64, get_ptr, GetVarint64Ptr.
  pose proof (varint_ptr_loop_reads 64 63 input 0 0 ltac:(lia) ltac:(lia) Hb) as H.
  destruct (varint_ptr_loop _ _ _ _ _) as [[v rest]|]; [|done].
  destruct H as [? (used & ? & ? & ?)]. split; [done|]. exists used. split; [done|lia].
Qed.

(** A length-prefixed slice is part of the input. *)
Lemma GetLengthPrefixedSlice_reads input s rest :
  bytes input -> GetLengthPrefixedSlice input = (Some s, rest) ->
  exists prefix, input = prefix ++ s ++ rest /\ 1 <= zlen prefix <= 5 /\ zlen s < 2 ^ 32.
Proof.
  intros Hb. pose proof (GetVarint32_reads input Hb) as H. unfold GetLengthPrefixedSlice, gbind.
  destruct (GetVarint32 input) as [[len|] input']; [|done]. destruct H as [Hlen (used & -> & Hu)].
  destruct (Z.leb_spec len (zlen input')); [|done]. intros [= <- <-]. exists used.
  rewrite take_drop. split; [done|]. split; [lia|].
  unfold zlen. rewrite length_take. unfold zlen in *. lia.
Qed.

(** ** Tables of fixed-width integers *)
Lemma put_fixed_table t dst : fold_left PutFixed32 t dst = dst ++ concat (map EncodeFixed32 t).
Proof.
  revert dst. induction t as [|v t IH]; intros dst; [cbn; by rewrite app_nil_r|].
  cbn [fold_left map concat]. rewrite IH. unfold PutFixed32. by rewrite app_assoc.
Qed.

Lemma zlen_fixed_table t : zlen (concat (map EncodeFixed32 t)) = 4 * zlen t.
Proof.
  induction t as [|v t IH]; [done|]. cbn [map concat]. rewrite zlen_app, zlen_cons, IH, EncodeFixed32_le.
  change (zlen (le_bytes 4 v)) with 4. lia.
Qed.

Lemma decode_fixed_table t j v rest :
  t !! j = Some v ->
  DecodeFixed32 (drop (4 * j) (concat (map EncodeFixed32 t) ++ rest)) = Ok (wrap 32 v).
Proof.
  revert j. induction t as [|x t IH]; intros [|j]; try done.
  - intros [= ->]. cbn [map concat drop Nat.mul]. rewrite <- app_assoc, EncodeFixed32_le.
    by apply DecodeFixed32_le.
  - cbn [lookup list_lookup map concat]. intros Hj. rewrite <- app_assoc, EncodeFixed32_le.
    replace (4 * S j)%nat with (length (le_bytes 4 x) + 4 * j)%nat by (rewrite length_le_bytes; lia).
    rewrite <- drop_drop, drop_app_length. by apply IH.
Qed.

(** ** What LevelDB's encodings guarantee

    The bytes written for an integer, the round trips, and what the parsers
    accept. *)
(** The wire format.  Fixed-width integers are little endian; both
    varint encoders write the base-128 form of their value, which is the one
    of the protobuf wire format, in at most five and ten bytes; [VarintLength]
    is the number of bytes written. *)
Theorem coding_wire_format v :
  0 <= v < 2 ^ 64 ->
  EncodeFixed32 v = le_bytes 4 v /\ EncodeFixed64 v = le_bytes 8 v /\
  EncodeVarint64 v = varint v /\ VarintLength v = zlen (EncodeVarint64 v) /\
  1 <= VarintLength v <= 10 /\
  (v < 2 ^ 32 -> EncodeVarint32 v = EncodeVarint64 v /\ VarintLength v <= 5).
Proof.
  intros Hv. rewrite EncodeFixed32_le, EncodeFixed64_le, EncodeVarint64_varint by done.
  rewrite VarintLength_varint by done. pose proof (varint_nonempty v). pose proof (zlen_varint v Hv).
  do 4 (split; [done|]). split; [lia|]. intros H32.
  rewrite EncodeVarint32_varint by lia. split; [done|]. apply zlen_varint32. lia.
Qed.

(** C36: round trips.  Whatever follows it, an encoded value is parsed back
    and the parser leaves exactly what followed: fixed-width integers,
    varints of both widths, and length-prefixed slices by either overload. *)
Theorem coding_roundtrip v s rest :
  0 <= v < 2 ^ 64 -> zlen s < 2 ^ 32 ->
  DecodeFixed64 (EncodeFixed64 v ++ rest) = Ok v /\
  GetVarint64 (PutVarint64 [] v ++ rest) = (Some v, rest) /\
  GetLengthPrefixedSlice (PutLengthPrefixedSlice [] s ++ rest) = (Some s, rest) /\
  GetLengthPrefixedSlicePtr (PutLengthPrefixedSlice [] s ++ rest) = Some (s, rest) /\
  (v < 2 ^ 32 ->
     DecodeFixed32 (EncodeFixed32 v ++ rest) = Ok v /\
     GetVarint32 (PutVarint32 [] v ++ rest) = (Some v, rest)).
Proof.
  intros Hv Hs. rewrite EncodeFixed64_le, DecodeFixed64_le, wrap_small by lia.
  split; [done|]. split; [by apply (get_encode v)|]. split; [by apply (get_encode s)|].
  split; [by apply GetLengthPrefixedSlicePtr_encode|]. intros H32.
  rewrite EncodeFixed32_le, DecodeFixed32_le, wrap_small by lia. split; [done|].
  apply (get_encode v). lia.
Qed.

(** Parsing any input.  On arbitrary bytes the varint parsers either
    fail or consume between one and five (ten) bytes and return a value of
    the result's width; a parsed slice is the part of the input that follows
    its length. *)
Theorem coding_parses_prefix input :
  bytes input ->
  reads 5 (fun v => 0 <= v < 2 ^ 32) GetVarint32 /\
  reads 10 (fun v => 0 <= v < 2 ^ 64) GetVarint64 /\
  match GetLengthPrefixedSlice input with
  | (Some s, rest) =>
      exists prefix, input = prefix ++ s ++ rest /\ 1 <= zlen prefix <= 5 /\ zlen s < 2 ^ 32
  | (None, _) => True
  end.
Proof.
  intros Hb. split; [exact GetVarint32_reads|]. split; [exact GetVarint64_reads|].
  destruct (GetLengthPrefixedSlice input) as [[s|] rest] eqn:E; [|done].
  by apply GetLengthPrefixedSlice_reads.
Qed.

(** ** Concrete runs *)
Lemma coding_wire_format_witness :
  EncodeFixed32 300 = [44; 1; 0; 0] /\ EncodeVarint64 300 = [172; 2] /\ VarintLength 300 = 2 /\
  EncodeVarint32 300 = EncodeVarint64 300.
Proof.
  destruct (coding_wire_format 300 ltac:(lia)) as (H1 & _ & H2 & H3 & _ & H4).
  rewrite H1, H3, H2. destruct (H4 ltac:(lia)) as [H5 _]. rewrite H5, H2. by vm_compute.
Defined.

Lemma coding_roundtrip_witness :
  GetVarint64 (PutVarint64 [] 300 ++ [7]) = (Some 300, [7]) /\
  GetLengthPrefixedSlice (PutLengthPrefixedSlice [] [1; 2] ++ [7]) = (Some [1; 2], [7]) /\
  DecodeFixed32 (EncodeFixed32 300 ++ [7]) = Ok 300.
Proof.
  destruct (coding_roundtrip 300 [1; 2] [7] ltac:(lia) ltac:(by vm_compute)) as (_ & H1 & H2 & _ & H3).
  destruct (H3 ltac:(lia)) as [H4 _]. auto.
Defined.

Lemma coding_parses_prefix_witness :
  exists prefix, [2; 5; 6; 7] = prefix ++ [5; 6] ++ [7] /\ 1 <= zlen prefix <= 5 /\ zlen [5; 6] < 2 ^ 32.
Proof.
  assert (Hb : bytes [2; 5; 6; 7]).
  { repeat (apply Forall_cons_2; [by vm_compute|]). by apply Forall_nil_2. }
  destruct (coding_parses_prefix [2; 5; 6; 7] Hb) as (_ & _ & H). exact H.
Defined.
