(* ===== verification/BloomProof.v ===== *)
(** * A Bloom filter matches its keys

    The hash is defined on every key, the probes of a key stay in the filter,
    and setting bits never clears one. *)
From S2P Require Import Prelude Coding CodingProof Bloom.

(** ** The hash is total *)
Lemma hash_words_total fuel data h :
  (length data < fuel)%nat -> bytes data -> 0 <= h < 2 ^ 32 ->
  exists data' h', hash_words fuel data h = Ok (data', h') /\ 0 <= h' < 2 ^ 32 /\
    (length data' < 4)%nat.
Proof.
  revert data h. induction fuel as [|fuel IH]; intros data h Hf Hb Hh; [lia|]. cbn [hash_words].
  destruct (Z.leb_spec 4 (zlen data)) as [Hl|Hl].
  - destruct (DecodeFixed32_total data Hl Hb) as (w & -> & Hw & _). cbn [obind]. cbv zeta.
    apply IH; [rewrite length_drop; unfold zlen in Hl; lia|exact (Forall_drop _ _ _ Hb)|].
    set (x := wrap 32 _). assert (Hx : 0 <= x < 2 ^ 32) by (apply wrap_range; lia).
    apply lxor_range; [done|]. rewrite shiftr_div by lia. euclid.
  - exists data, h. split; [done|]. split; [done|]. unfold zlen in Hl. lia.
Qed.

Lemma hash_tail_range data h : 0 <= h < 2 ^ 32 -> 0 <= hash_tail data h < 2 ^ 32.
Proof.
  intros Hh. assert (Hlast : forall x, 0 <= Z.lxor (wrap 32 x) (Z.shiftr (wrap 32 x) hash_r) < 2 ^ 32).
  { intros x. pose proof (wrap_range 32 x ltac:(lia)). apply lxor_range; [done|].
    unfold hash_r. rewrite shiftr_div by lia. euclid. }
  unfold hash_tail. by destruct data as [|? [|? [|? [|]]]].
Qed.

Lemma Hash_total data seed :
  bytes data -> exists h, Hash data seed = Ok h /\ 0 <= h < 2 ^ 32.
Proof.
  intros Hb. unfold Hash. cbv zeta.
  destruct (hash_words_total (S (length data)) data (wrap 32 (Z.lxor seed (wrap 64 (zlen data * hash_m)))))
    as (d & h & -> & Hh & _); [lia|done|apply wrap_range; lia|].
  cbn [obind]. eexists. split; [done|]. by apply hash_tail_range.
Qed.

(** ** Bits of a filter *)
Definition bit (array : list Z) (i : Z) : bool :=
  Z.testbit (default 0 (array !! Z.to_nat (i / 8))) (i mod 8).

(** [array] has all the bits of [array0], and the same shape. *)
Definition grows (bits : Z) (array0 array : list Z) : Prop :=
  length array = length array0 /\ bytes array /\
  (forall n, bits <= 8 * Z.of_nat n -> array !! n = array0 !! n) /\
  (forall i, 0 <= i < bits -> bit array0 i = true -> bit array i = true).

#[local] Instance grows_trans bits : Transitive (grows bits).
Proof.
  intros x y z (L1 & _ & N1 & B1) (L2 & B & N2 & B2). unfold grows. split_and!; [congruence|done| |auto].
  intros n Hn. by rewrite N2, N1.
Qed.

Lemma grows_refl bits array : bytes array -> grows bits array array.
Proof. intros. unfold grows. by split_and!. Qed.

Lemma byte_at (array : list Z) i : 0 <= i < 8 * zlen array -> exists b, array !! Z.to_nat (i / 8) = Some b.
Proof.
  intros Hi. destruct (lookup_lt_is_Some_2 array (Z.to_nat (i / 8))) as [b Hb]; [|by exists b].
  unfold zlen in Hi. pose proof (Z.div_lt_upper_bound i 8 (zlen array) ltac:(lia)). unfold zlen in *.
  pose proof (Z.div_pos i 8 ltac:(lia) ltac:(lia)). lia.
Qed.

Lemma test_bit_spec array i : 0 <= i < 8 * zlen array -> test_bit array i = Ok (bit array i).
Proof.
  intros Hi. unfold test_bit, bit. destruct (byte_at array i Hi) as [b ->]. cbn [or_ub obind default from_option id].
  f_equal. pose proof (Z.mod_pos_bound i 8 ltac:(lia)). rewrite Z.shiftl_1_l.
  cbn [id]. rewrite Z.land_comm. destruct (Z.testbit b (i mod 8)) eqn:E; cbn [id] in *.
  - apply negb_true_iff, Z.eqb_neq. intros H0.
    assert (Ht : Z.testbit (Z.land (2 ^ (i mod 8)) b) (i mod 8) = true)
      by (by rewrite Z.land_spec, Z.pow2_bits_true, E by lia).
    by rewrite H0, Z.bits_0 in Ht.
  - apply negb_false_iff, Z.eqb_eq. apply Z.bits_inj'. intros n Hn.
    rewrite Z.land_spec, Z.bits_0, Z.pow2_bits_eqb by lia.
    destruct (Z.eqb_spec (i mod 8) n) as [<-|]; [by rewrite E, andb_false_r|done].
Qed.

Lemma set_bit_spec bits array i :
  bytes array -> 0 <= i < bits -> bits <= 8 * zlen array -> bits mod 8 = 0 ->
  exists array', set_bit array i = Ok array' /\ grows bits array array' /\ bit array' i = true.
Proof.
  intros Hb Hi Hbits Hmul. unfold set_bit.
  destruct (byte_at array i ltac:(lia)) as [b Hbi]. rewrite Hbi. eexists. split; [done|].
  pose proof (Z.mod_pos_bound i 8 ltac:(lia)) as Hm. rewrite Z.shiftl_1_l.
  assert (Hbb : 0 <= b < 2 ^ 8) by (exact (Forall_lookup_1 _ _ _ _ Hb Hbi)).
  assert (Hp : 0 <= 2 ^ (i mod 8) < 2 ^ 8)
    by (split; [apply Z.pow_nonneg; lia|apply Z.pow_lt_mono_r; lia]).
  pose proof (lor_range b (2 ^ (i mod 8)) 8 Hbb Hp) as Hr. unfold uchar. rewrite wrap_small by done.
  assert (Hlt : (Z.to_nat (i / 8) < length array)%nat) by (by eapply lookup_lt_Some).
  split; [unfold grows; split_and!|].
  - apply length_insert.
  - apply Forall_insert; [done|exact Hr].
  - intros n Hn. apply list_lookup_insert_ne. intros <-.
    pose proof (Z.div_mod bits 8 ltac:(lia)). pose proof (Z.div_mod i 8 ltac:(lia)).
    pose proof (Z.div_pos i 8). lia.
  - intros j Hj. unfold bit. destruct (decide (Z.to_nat (i / 8) = Z.to_nat (j / 8))) as [E|E].
    + rewrite <- E, list_lookup_insert_eq by done. rewrite Hbi. cbn [default from_option id].
      intros Ht. by rewrite Z.lor_spec, Ht.
    + by rewrite list_lookup_insert_ne.
  - unfold bit. rewrite list_lookup_insert_eq by done. cbn [default from_option id].
    by rewrite Z.lor_spec, Z.pow2_bits_true, orb_true_r by lia.
Qed.

(** ** The probes of a key *)
Section Probes.
Context (bits delta : Z) (Hbits : 0 < bits) (Hmul : bits mod 8 = 0).

(** All [n] probes from hash value [h] on hit. *)
Fixpoint hits (n : nat) (h : Z) (array : list Z) : Prop :=
  match n with
  | O => True
  | S n' => bit array (h mod bits) = true /\ hits n' (wrap 32 (h + delta)) array
  end.

Lemma hits_grows n h array array' : grows bits array array' -> hits n h array -> hits n h array'.
Proof.
  intros Hg. revert h. induction n as [|n IH]; intros h; [done|]. intros [Hb Hh]. split; [|by apply IH].
  destruct Hg as (_ & _ & _ & Hg). apply Hg; [apply Z.mod_pos_bound; lia|done].
Qed.

Lemma set_probes_spec n h array :
  bytes array -> bits <= 8 * zlen array ->
  exists array', set_probes n bits delta h array = Ok array' /\ grows bits array array' /\ hits n h array'.
Proof.
  revert h array. induction n as [|n IH]; intros h array Hb Hl.
  { exists array. split; [done|]. split; [by apply grows_refl|exact I]. }
  cbn [set_probes]. pose proof (Z.mod_pos_bound h bits ltac:(lia)).
  destruct (set_bit_spec bits array (h mod bits) Hb ltac:(lia) Hl Hmul) as (a1 & -> & Hg1 & Hbit).
  cbn [obind]. destruct (IH (wrap 32 (h + delta)) a1) as (a2 & -> & Hg2 & Hh).
  { apply Hg1. } { destruct Hg1 as [E _]. unfold zlen in *. by rewrite E. }
  exists a2. split; [done|]. split; [by transitivity a1|]. split; [|done].
  apply Hg2; [lia|done].
Qed.

Lemma test_probes_spec n h array :
  bits <= 8 * zlen array -> hits n h array -> test_probes n bits delta h array = Ok true.
Proof.
  intros Hl. revert h. induction n as [|n IH]; intros h; [done|]. intros [Hb Hh]. cbn [test_probes].
  pose proof (Z.mod_pos_bound h bits ltac:(lia)). rewrite test_bit_spec by lia. cbn [obind].
  rewrite Hb. by apply IH.
Qed.
End Probes.

(** ** Creating and consulting *)
Definition key_hits (k bits : Z) (key array : list Z) : Prop :=
  exists h, BloomHash key = Ok h /\ hits bits (rotate_17 h) (Z.to_nat k) h array.

Lemma add_keys_spec k bits keys array :
  0 < bits -> bits mod 8 = 0 -> bytes array -> bits <= 8 * zlen array -> Forall bytes keys ->
  exists array', add_keys k bits keys array = Ok array' /\ grows bits array array' /\
    forall key, key ∈ keys -> key_hits k bits key array'.
Proof.
  intros H0 Hmul Hb Hl Hk. revert array Hb Hl.
  induction Hk as [|key keys Hkey _ IH]; intros array Hb Hl.
  { exists array. split; [done|]. split; [by apply grows_refl|]. intros key Hin. by apply elem_of_nil in Hin. }
  cbn [add_keys]. destruct (Hash_total key 0xbc9f1d34 Hkey) as (h & Eh & _).
  unfold BloomHash at 1. rewrite Eh. cbn [obind].
  destruct (set_probes_spec bits (rotate_17 h) H0 Hmul (Z.to_nat k) h array Hb Hl) as (a1 & -> & Hg1 & Hh1).
  cbn [obind]. destruct (IH a1) as (a2 & -> & Hg2 & Hh2).
  { apply Hg1. } { destruct Hg1 as [E _]. unfold zlen in *. by rewrite E. }
  exists a2. split; [done|]. split; [by transitivity a1|].
  intros key' [->|Hin]%elem_of_cons; [|by apply Hh2].
  exists h. split; [done|]. by apply (hits_grows _ _ H0 _ _ a1).
Qed.

Definition bloom_fits (p : BloomFilterPolicy) (keys : list (list Z)) : Prop :=
  zlen keys * bits_per_key_ p < 2 ^ 60.
Definition bloom_ok (p : BloomFilterPolicy) : Prop := 0 <= bits_per_key_ p /\ 1 <= k_ p <= 30.

Lemma bloom_policy_law p : bloom_ok p -> @LawfulPolicy (bloom_policy p) (bloom_fits p).
Proof.
  intros [Hbpk Hk] keys dst Hfits Hkeys. unfold bloom_fits in Hfits. cbn [CreateFilter KeyMayMatch bloom_policy].
  unfold bloom_create. pose proof (zlen_nonneg keys) as Hn.
  assert (H0 : 0 <= zlen keys * bits_per_key_ p) by nia.
  cbv zeta. rewrite (wrap_small 64 (zlen keys * _)) by lia.
  set (bits0 := if _ <? 64 then 64 else _).
  assert (Hb0 : 64 <= bits0 < 2 ^ 61) by (unfold bits0; destruct (_ <? 64) eqn:E; lia).
  rewrite (wrap_small 64 (bits0 + 7)) by lia. set (nbytes := (bits0 + 7) / 8).
  assert (Hnb : 8 <= nbytes < 2 ^ 59) by (unfold nbytes; euclid).
  rewrite wrap_small by lia. unfold uchar. rewrite (wrap_small 8 (k_ p)) by lia.
  set (array0 := replicate (Z.to_nat nbytes) 0 ++ [k_ p]).
  assert (Hl0 : zlen array0 = nbytes + 1).
  { unfold array0. rewrite zlen_app. unfold zlen at 1. rewrite length_replicate. change (zlen [k_ p]) with 1. lia. }
  assert (Hba : bytes array0).
  { unfold array0. apply Forall_app. split; [|apply Forall_cons_2; [unfold is_byte; lia|constructor]].
    apply Forall_replicate. unfold is_byte. lia. }
  destruct (add_keys_spec (k_ p) (nbytes * 8) keys array0 ltac:(lia) ltac:(apply Z.mod_mul; lia) Hba
    ltac:(lia) Hkeys) as (array & -> & (Hlen & Hbytes & Htail & _) & Hmatch).
  cbn [obind]. exists array. split; [done|]. split; [done|].
  assert (Hz : zlen array = nbytes + 1) by (unfold zlen in *; by rewrite Hlen).
  intros key Hin.
  destruct (Hmatch key Hin) as (h & Eh & Hh). unfold bloom_match. cbv zeta. rewrite Hz.
  destruct (Z.ltb_spec (nbytes + 1) 2); [lia|]. replace (nbytes + 1 - 1) with nbytes by lia.
  assert (Hlast : array !! Z.to_nat nbytes = Some (k_ p)).
  { rewrite Htail by lia. unfold array0. rewrite lookup_app_r by (rewrite length_replicate; lia).
    rewrite length_replicate. by rewrite Nat.sub_diag. }
  rewrite Hlast. cbn [or_ub obind]. rewrite swrap_small by lia. rewrite wrap_small by lia.
  destruct (Z.ltb_spec 30 (k_ p)); [lia|]. rewrite Eh. cbn [obind].
  apply test_probes_spec; [lia|rewrite Hz; lia|done].
Qed.

(** ** The size of a filter *)
Lemma set_probes_length n bits delta h array array' :
  set_probes n bits delta h array = Ok array' -> length array' = length array.
Proof.
  revert h array. induction n as [|n IH]; intros h array; cbn [set_probes]; [by intros [= ->]|].
  unfold set_bit. destruct (array !! _); [|done]. cbn [obind]. intros E. apply IH in E. by rewrite E, length_insert.
Qed.

Lemma add_keys_length k bits keys array array' : add_keys k bits keys array = Ok array' -> length array' = length array.
Proof.
  revert array. induction keys as [|key keys IH]; intros array; cbn [add_keys]; [by intros [= ->]|].
  intros (h & _ & (a1 & E1 & E)%obind_Ok)%obind_Ok. apply IH in E. by rewrite E, (set_probes_length _ _ _ _ _ _ E1).
Qed.

Lemma bloom_size p keys dst r : 0 <= zlen keys * bits_per_key_ p < 2 ^ 60 -> bloom_create p keys dst = Ok r ->
  zlen r <= zlen dst + (zlen keys * bits_per_key_ p + 71) / 8 + 1.
Proof.
  intros Hn. unfold bloom_create. cbv zeta. rewrite (wrap_small 64 (zlen keys * _)) by lia.
  set (bits0 := if _ <? 64 then 64 else _).
  assert (Hb0 : 64 <= bits0 <= zlen keys * bits_per_key_ p + 64) by (unfold bits0; destruct (_ <? 64) eqn:E; lia).
  rewrite (wrap_small 64 (bits0 + 7)) by lia. intros (a & E & [= <-])%obind_Ok. apply add_keys_length in E.
  assert (Ez : zlen a = (bits0 + 7) / 8 + 1).
  { unfold zlen. rewrite E, length_app, length_replicate. cbn [length]. pose proof (Z.div_pos (bits0 + 7) 8). lia. }
  rewrite zlen_app, Ez. pose proof (Z.div_le_mono (bits0 + 7) (zlen keys * bits_per_key_ p + 71) 8). lia.
Qed.

Lemma NewBloomFilterPolicy_ok b : 0 <= b -> bloom_ok (NewBloomFilterPolicy b).
Proof.
  intros Hb. split; [done|]. unfold NewBloomFilterPolicy. cbn [k_].
  set (k := truncate_double _). destruct (Z.ltb_spec k 1); [done|].
  destruct (Z.ltb_spec 30 k); lia.
Qed.

(** A filter that is too short to hold a bit matches nothing, and one of an
    unknown format everything. *)
Lemma bloom_match_total key filter :
  bytes key -> bytes filter -> exists b, bloom_match key filter = Ok b.
Proof.
  intros Hk Hf. unfold bloom_match. cbv zeta. destruct (Z.ltb_spec (zlen filter) 2); [by eexists|].
  destruct (lookup_lt_is_Some_2 filter (Z.to_nat (zlen filter - 1))) as [b Hb]; [unfold zlen in *; lia|].
  rewrite Hb. cbn [or_ub obind]. destruct (30 <? _); [by eexists|].
  destruct (Hash_total key 0xbc9f1d34 Hk) as (h & Eh & _). unfold BloomHash. rewrite Eh. cbn [obind].
  generalize (rotate_17 h) as delta. generalize h as x. intros x delta.
  generalize (Z.to_nat (wrap 64 (swrap 8 b))) as n. intros n. clear - H.
  revert x. induction n as [|n IH]; intros x; [by eexists|]. cbn [test_probes].
  pose proof (Z.mod_pos_bound x ((zlen filter - 1) * 8) ltac:(lia)).
  rewrite test_bit_spec by lia. cbn [obind]. destruct (bit _ _); [apply IH|by eexists].
Qed.
