(* ===== verification/FilterBlock.v ===== *)
(** * Filter blocks ([table/filter_block.cc])

    The builder collects the keys of each 2 KB range of block offsets, makes
    one filter per range with the policy, and appends the table of filter
    offsets; the reader finds the filter of a block offset.  Both are written
    against the [FilterPolicy] interface. *)
From S2P Require Import Prelude Coding Bloom.

Definition kFilterBaseLg : Z := 11.
Definition kFilterBase : Z := Z.shiftl 1 kFilterBaseLg.

Section FilterBlock.
Context `{FilterPolicy}.

(** [keys_] is the flattened contents of the pending keys, [start_] their
    starting indices. *)
Record FilterBlockBuilder : Type := mk_fbb {
  keys_ : list Z;
  start_ : list Z;
  result_ : list Z;
  filter_offsets_ : list Z
}.
Definition new_FilterBlockBuilder : FilterBlockBuilder := mk_fbb [] [] [] [].

(** [tmp_keys_[i] = Slice(keys_.data() + start_[i], start_[i + 1] - start_[i])],
    with the end of [keys_] pushed onto [start_]. *)
Fixpoint tmp_keys (keys : list Z) (starts : list Z) : list (list Z) :=
  match starts with
  | s :: (e :: _) as rest =>
      take (Z.to_nat (e - s)) (drop (Z.to_nat s) keys) :: tmp_keys keys rest
  | _ => []
  end.

(** Offsets are kept as [uint32_t]. *)
Definition GenerateFilter (b : FilterBlockBuilder) : outcome FilterBlockBuilder :=
  let offsets := filter_offsets_ b ++ [wrap 32 (zlen (result_ b))] in
  if zlen (start_ b) =? 0 then Ok (mk_fbb (keys_ b) (start_ b) (result_ b) offsets)
  else
    let starts := start_ b ++ [zlen (keys_ b)] in
    let! result := CreateFilter (tmp_keys (keys_ b) starts) (result_ b) in
    Ok (mk_fbb [] [] result offsets).

(** [while (filter_index > filter_offsets_.size()) GenerateFilter()]. *)
Fixpoint generate_until (n : nat) (filter_index : Z) (b : FilterBlockBuilder) :
    outcome FilterBlockBuilder :=
  match n with
  | O => Timeout
  | S n' =>
      if zlen (filter_offsets_ b) <? filter_index then
        let! b := GenerateFilter b in generate_until n' filter_index b
      else Ok b
  end.

Definition StartBlock (block_offset : Z) (b : FilterBlockBuilder) : outcome FilterBlockBuilder :=
  let filter_index := block_offset / kFilterBase in
  assert (zlen (filter_offsets_ b) <=? filter_index)
  (generate_until (S (Z.to_nat filter_index)) filter_index b).

Definition AddKey (key : list Z) (b : FilterBlockBuilder) : FilterBlockBuilder :=
  mk_fbb (keys_ b ++ key) (start_ b ++ [zlen (keys_ b)]) (result_ b) (filter_offsets_ b).

Definition Finish (b : FilterBlockBuilder) : outcome (list Z) :=
  let! b := (if zlen (start_ b) =? 0 then Ok b else GenerateFilter b) in
  let array_offset := wrap 32 (zlen (result_ b)) in
  let result := fold_left PutFixed32 (filter_offsets_ b) (result_ b) in
  let result := PutFixed32 result array_offset in
  Ok (result ++ [kFilterBaseLg]).

(** ** The reader

    [data_] holds the contents, [offset_] is an index into it. *)
Record FilterBlockReader : Type := mk_fbr {
  data_ : list Z;
  offset_ : Z;
  num_ : Z;
  base_lg_ : Z
}.

(** [base_lg_] is read from a signed [char] into a [size_t]. *)
Definition new_FilterBlockReader (contents : list Z) : outcome FilterBlockReader :=
  let n := zlen contents in
  if n <? 5 then Ok (mk_fbr [] 0 0 0)
  else
    let! last := or_ub OverRead (contents !! Z.to_nat (n - 1)) in
    let base_lg := wrap 64 (swrap 8 last) in
    let! last_word := DecodeFixed32 (drop (Z.to_nat (n - 5)) contents) in
    if n - 5 <? last_word then Ok (mk_fbr [] 0 0 base_lg)
    else Ok (mk_fbr contents last_word ((n - 5 - last_word) / 4) base_lg).

Definition FilterKeyMayMatch (r : FilterBlockReader) (block_offset : Z) (key : list Z) : outcome bool :=
  let! index := (if 64 <=? base_lg_ r then UB BadShift
                 else Ok (Z.shiftr block_offset (base_lg_ r))) in
  if index <? num_ r then
    let! start := DecodeFixed32 (drop (Z.to_nat (offset_ r + index * 4)) (data_ r)) in
    let! limit := DecodeFixed32 (drop (Z.to_nat (offset_ r + index * 4 + 4)) (data_ r)) in
    if (start <=? limit) && (limit <=? offset_ r) then
      KeyMayMatch key (take (Z.to_nat (limit - start)) (drop (Z.to_nat start) (data_ r)))
    else if start =? limit then Ok false
    else Ok true
  else Ok true.

(** ** Building a block

    A table builder calls [StartBlock] and then [AddKey] for each key of a
    data block, over and over, and [Finish] at the end. *)
Inductive filter_call : Type :=
| Start (block_offset : Z)
| Add (key : list Z).

Definition filter_step (c : filter_call) (b : FilterBlockBuilder) : outcome FilterBlockBuilder :=
  match c with
  | Start block_offset => StartBlock block_offset b
  | Add key => Ok (AddKey key b)
  end.

Fixpoint filter_run (cs : list filter_call) (b : FilterBlockBuilder) : outcome FilterBlockBuilder :=
  match cs with
  | [] => Ok b
  | c :: cs' => let! b := filter_step c b in filter_run cs' b
  end.

Definition build_filter_block (cs : list filter_call) : outcome (list Z) :=
  let! b := filter_run cs new_FilterBlockBuilder in Finish b.
End FilterBlock.
