(* ===== verification/Crc32cProof.v ===== *)
(** * The strided CRC-32C is the bitwise one

    The reference divides bit by bit by the Castagnoli polynomial.  One step
    is linear over exclusive or, which is why a remainder can be advanced by
    table lookups and in four interleaved strides. *)
From Stdlib Require Import Btauto.
From S2P Require Import Prelude Coding CodingProof Crc32c.

(** ** The reference *)
Definition polynomial : Z := 0x82f63b78.
Definition crc_bit (c : Z) : Z := Z.lxor (Z.shiftr c 1) (if Z.odd c then polynomial else 0).
Definition steps (n : nat) (c : Z) : Z := Nat.iter n crc_bit c.
Definition crc_byte (c b : Z) : Z := steps 8 (Z.lxor c b).
Definition crc_state (l : Z) (data : list Z) : Z := fold_left crc_byte data l.
Definition crc32c (crc : Z) (data : list Z) : Z :=
  Z.lxor (crc_state (Z.lxor crc kCRC32Xor) data) kCRC32Xor.

#[local] Arguments steps : simpl never.

(** Equations between exclusive ors. *)
Ltac xor_solve := apply Z.bits_inj'; intros ? ?; rewrite ?Z.lxor_spec, ?Z.bits_0; btauto.

Lemma odd_lxor a b : Z.odd (Z.lxor a b) = xorb (Z.odd a) (Z.odd b).
Proof. rewrite <- !Z.bit0_odd. apply Z.lxor_spec. Qed.

Lemma crc_bit_lxor a b : crc_bit (Z.lxor a b) = Z.lxor (crc_bit a) (crc_bit b).
Proof.
  unfold crc_bit. rewrite odd_lxor, Z.shiftr_lxor.
  destruct (Z.odd a), (Z.odd b); cbn [xorb]; xor_solve.
Qed.

Lemma steps_lxor n a b : steps n (Z.lxor a b) = Z.lxor (steps n a) (steps n b).
Proof.
  induction n as [|n IH]; [done|]. unfold steps in *. cbn [Nat.iter nat_rect].
  change (crc_bit (Nat.iter n crc_bit (Z.lxor a b)) =
    Z.lxor (crc_bit (Nat.iter n crc_bit a)) (crc_bit (Nat.iter n crc_bit b))).
  by rewrite IH, crc_bit_lxor.
Qed.

Lemma steps_steps n k c : steps n (steps k c) = steps (n + k) c.
Proof. unfold steps. by rewrite Nat.iter_add. Qed.

Lemma steps_shiftl n c : steps n (Z.shiftl c (Z.of_nat n)) = c.
Proof.
  revert c. induction n as [|n IH]; intros c; [apply Z.shiftl_0_r|].
  rewrite <- Nat.add_1_r, <- steps_steps.
  assert (E : steps 1 (Z.shiftl c (Z.of_nat (n + 1))) = Z.shiftl c (Z.of_nat n)); [|by rewrite E].
  unfold steps. cbn [Nat.iter nat_rect]. unfold crc_bit.
  replace (Z.of_nat (n + 1)) with (Z.of_nat n + 1) by lia.
  rewrite <- Z.shiftl_shiftl by lia. rewrite <- Z.bit0_odd, Z.shiftl_spec_low by lia.
  rewrite Z.lxor_0_r, Z.shiftr_shiftl_l by lia. by rewrite Z.sub_diag, Z.shiftl_0_r.
Qed.

Definition word (c : Z) : Prop := 0 <= c < 2 ^ 32.

Lemma word_lxor a b : word a -> word b -> word (Z.lxor a b).
Proof. apply lxor_range. Qed.

Lemma word_steps_range n c : word c -> word (steps n c).
Proof.
  intros Hc. induction n as [|n IH]; [done|]. rewrite <- Nat.add_1_l, <- steps_steps.
  revert IH. generalize (steps n c). intros x Hx. unfold steps. cbn [Nat.iter nat_rect]. unfold crc_bit.
  apply word_lxor.
  - unfold word in *. rewrite shiftr_div by lia. change (2 ^ 1) with 2. euclid.
  - unfold word, polynomial. destruct (Z.odd x); lia.
Qed.

Lemma word_byte b : is_byte b -> word b.
Proof. unfold is_byte, word. lia. Qed.

(** The low byte of a number, and the rest. *)
Lemma split_byte c : c = Z.lxor (Z.land c 0xff) (Z.shiftl (Z.shiftr c 8) 8).
Proof.
  apply Z.bits_inj'. intros i Hi. rewrite Z.lxor_spec, Z.land_spec, Z.shiftl_spec by lia.
  change 0xff with (Z.ones 8). destruct (Z.ltb_spec i 8).
  - rewrite Z.ones_spec_low by lia. rewrite (Z.testbit_neg_r (Z.shiftr c 8)) by lia.
    rewrite andb_true_r. by rewrite xorb_false_r.
  - rewrite Z.ones_spec_high by lia. rewrite Z.shiftr_spec by lia.
    rewrite andb_false_r, xorb_false_l. f_equal. lia.
Qed.

Lemma steps_8 c : steps 8 c = Z.lxor (steps 8 (Z.land c 0xff)) (Z.shiftr c 8).
Proof. rewrite (split_byte c) at 1. rewrite steps_lxor. by rewrite (steps_shiftl 8). Qed.

(** Appending a byte below a number. *)
Lemma byte_lxor b x : is_byte b -> b + 256 * x = Z.lxor b (Z.shiftl x 8).
Proof.
  intros Hb. unfold is_byte in Hb. rewrite (split_byte (b + 256 * x)). f_equal.
  - rewrite land_255. rewrite Z.mul_comm, Z.mod_add by lia. apply Z.mod_small. lia.
  - f_equal. rewrite shiftr_div by lia. change (2 ^ 8) with 256.
    rewrite Z.mul_comm, Z.div_add by lia. rewrite Z.div_small by lia. lia.
Qed.

(** Several bytes at once. *)
Lemma crc_state_steps bs l :
  bytes bs -> crc_state l bs = steps (8 * length bs) (Z.lxor l (of_le bs)).
Proof.
  intros Hb. revert l. induction Hb as [|b bs Hb _ IH]; intros l; [by rewrite Z.lxor_0_r|].
  change (crc_state l (b :: bs)) with (crc_state (crc_byte l b) bs). rewrite IH. cbn [of_le length].
  replace (8 * S (length bs))%nat with (8 * length bs + 8)%nat by lia.
  rewrite <- steps_steps. f_equal. rewrite (byte_lxor b _ Hb). unfold crc_byte.
  rewrite !steps_lxor, (steps_shiftl 8). xor_solve.
Qed.

Lemma crc_state_app l a b : crc_state l (a ++ b) = crc_state (crc_state l a) b.
Proof. apply fold_left_app. Qed.

Lemma crc_state_word l bs : word l -> bytes bs -> word (crc_state l bs).
Proof.
  intros Hl Hb. revert l Hl. induction Hb as [|b bs Hb _ IH]; intros l Hl; [done|].
  apply IH. apply word_steps_range, word_lxor; [done|by apply word_byte].
Qed.

(** ** The tables *)
Definition table_ok (t : list Z) (f : Z -> Z) : bool :=
  forallb (fun i => match table t i with Ok v => v =? f i | _ => false end) (map Z.of_nat (seq 0 256)).

Lemma table_ok_spec t f i : table_ok t f = true -> is_byte i -> table t i = Ok (f i).
Proof.
  intros Ht Hi. pose proof (range_cases 256 _ Ht i Hi) as H. cbv beta in H.
  destruct (table t i); [|done..]. f_equal. lia.
Qed.

Lemma byte_table i : is_byte i -> table kByteExtensionTable i = Ok (steps 8 i).
Proof. apply (table_ok_spec _ (steps 8)). by vm_compute. Qed.
Lemma stride_table3 i : is_byte i -> table kStrideExtensionTable3 i = Ok (steps 128 i).
Proof. apply (table_ok_spec _ (steps 128)). by vm_compute. Qed.
Lemma stride_table2 i : is_byte i -> table kStrideExtensionTable2 i = Ok (steps 128 (Z.shiftl i 8)).
Proof. apply (table_ok_spec _ (fun i => steps 128 (Z.shiftl i 8))). by vm_compute. Qed.
Lemma stride_table1 i : is_byte i -> table kStrideExtensionTable1 i = Ok (steps 128 (Z.shiftl i 16)).
Proof. apply (table_ok_spec _ (fun i => steps 128 (Z.shiftl i 16))). by vm_compute. Qed.
Lemma stride_table0 i : is_byte i -> table kStrideExtensionTable0 i = Ok (steps 128 (Z.shiftl i 24)).
Proof. apply (table_ok_spec _ (fun i => steps 128 (Z.shiftl i 24))). by vm_compute. Qed.

Lemma low_byte c : is_byte (Z.land c 0xff).
Proof. rewrite land_255. apply Z.mod_pos_bound. lia. Qed.

(** ** The code's steps *)
#[local] Opaque steps.

Lemma STEP1_spec l b : is_byte b -> STEP1 l b = Ok (crc_byte l b).
Proof.
  intros Hb. unfold STEP1, crc_byte.
  assert (Hc : Z.lxor (Z.land l 0xff) b = Z.land (Z.lxor l b) 0xff).
  { rewrite !land_255. unfold is_byte in Hb. apply Z.bits_inj'. intros i Hi.
    change 256 with (2 ^ 8). rewrite Z.lxor_spec. destruct (Z.ltb_spec i 8).
    - rewrite !Z.mod_pow2_bits_low by lia. by rewrite Z.lxor_spec.
    - rewrite !Z.mod_pow2_bits_high by lia. rewrite <- (Z.mod_small b (2 ^ 8)) by lia.
      by rewrite Z.mod_pow2_bits_high by lia. }
  rewrite Hc, byte_table by apply low_byte. cbn [obind]. f_equal.
  rewrite (steps_8 (Z.lxor l b)). f_equal. rewrite Z.shiftr_lxor.
  rewrite (shiftr_div b) by lia. change (2 ^ 8) with 256. unfold is_byte in Hb.
  rewrite (Z.div_small b) by lia. by rewrite Z.lxor_0_r.
Qed.

Lemma bytewise_spec n p l :
  (n <= length p)%nat -> bytes p -> bytewise n p l = Ok (drop n p, crc_state l (take n p)).
Proof.
  revert p l. induction n as [|n IH]; intros p l Hn Hb; [by destruct p|].
  destruct p as [|b p]; [simpl in Hn; lia|]. inversion Hb as [|?? Hb1 Hb2]; subst.
  cbn [bytewise drop take]. rewrite STEP1_spec by done. cbn [obind].
  apply IH; [simpl in Hn; lia|done].
Qed.

(** The word at stride [s]. *)
Definition word_at (s : nat) (p : list Z) : Z := of_le (take 4 (drop (s * 4) p)).

Lemma ReadUint32LE_spec s p :
  Z.of_nat (s * 4 + 4) <= zlen p -> bytes p -> ReadUint32LE (drop (s * 4) p) = Ok (word_at s p).
Proof.
  intros Hp Hb. unfold ReadUint32LE, word_at.
  assert (Hd : bytes (drop (s * 4) p)) by (exact (Forall_drop _ _ _ Hb)).
  destruct (DecodeFixed32_total (drop (s * 4) p)) as (v & -> & Hv & E); [|done|].
  { unfold zlen in *. rewrite length_drop. lia. }
  rewrite <- E, of_le_bytes. f_equal. by rewrite Z.mod_small.
Qed.

Lemma word_at_range s p : Z.of_nat (s * 4 + 4) <= zlen p -> bytes p -> word (word_at s p).
Proof.
  intros Hp Hb. unfold word_at, word.
  assert (Hd : bytes (take 4 (drop (s * 4) p))) by (exact (Forall_take _ _ _ (Forall_drop _ _ _ Hb))).
  pose proof (of_le_range _ Hd) as Hr.
  rewrite length_take, length_drop in Hr.
  replace (4 `min` (length p - s * 4))%nat with 4%nat in Hr by (unfold zlen in Hp; lia). exact Hr.
Qed.

(** A remainder, byte by byte. *)
Lemma word_bytes_lxor c : word c ->
  c = Z.lxor (Z.lxor (Z.lxor (Z.land c 0xff) (Z.shiftl (Z.land (Z.shiftr c 8) 0xff) 8))
         (Z.shiftl (Z.land (Z.shiftr c 16) 0xff) 16)) (Z.shiftl (Z.shiftr c 24) 24).
Proof.
  intros Hc. rewrite (split_byte c) at 1. rewrite (split_byte (Z.shiftr c 8)) at 1.
  rewrite (split_byte (Z.shiftr (Z.shiftr c 8) 8)) at 1.
  rewrite !Z.shiftr_shiftr, !Z.shiftl_lxor, !Z.shiftl_shiftl by lia.
  rewrite !Z.lxor_assoc. done.
Qed.

Lemma STEP4_spec s p crc :
  word crc -> Z.of_nat (s * 4 + 4) <= zlen p -> bytes p ->
  STEP4 s p crc = Ok (Z.lxor (word_at s p) (steps 128 crc)).
Proof.
  intros Hc Hp Hb. unfold STEP4. rewrite ReadUint32LE_spec by done. cbn [obind].
  rewrite stride_table3, stride_table2, stride_table1 by apply low_byte.
  rewrite stride_table0.
  2:{ unfold is_byte, word in *. rewrite shiftr_div by lia. euclid. }
  cbn [obind]. f_equal. rewrite (word_bytes_lxor crc Hc) at 5.
  rewrite !steps_lxor. xor_solve.
Qed.

(** ** The interleaved state *)
Definition combine (c : strides) : Z :=
  steps 32 (Z.lxor (crc3 c) (steps 32 (Z.lxor (crc2 c) (steps 32 (Z.lxor (crc1 c) (steps 32 (crc0 c))))))).

Definition strides_ok (c : strides) : Prop := word (crc0 c) /\ word (crc1 c) /\ word (crc2 c) /\ word (crc3 c).

Lemma take_16 (p : list Z) : take 16 p =
  take 4 (drop 0 p) ++ take 4 (drop 4 p) ++ take 4 (drop 8 p) ++ take 4 (drop 12 p).
Proof. by do 16 (destruct p as [|? p]; [done|]). Qed.

Lemma crc_state_at s p l :
  Z.of_nat (s * 4 + 4) <= zlen p -> bytes p ->
  crc_state l (take 4 (drop (s * 4) p)) = steps 32 (Z.lxor l (word_at s p)).
Proof.
  intros Hp Hb.
  assert (Hd : bytes (take 4 (drop (s * 4) p))) by (exact (Forall_take _ _ _ (Forall_drop _ _ _ Hb))).
  rewrite crc_state_steps by done. unfold word_at. f_equal.
  rewrite length_take, length_drop. unfold zlen in Hp. lia.
Qed.

Lemma crc_state_16 l p :
  16 <= zlen p -> bytes p ->
  crc_state l (take 16 p) =
    steps 32 (Z.lxor (word_at 3 p) (steps 32 (Z.lxor (word_at 2 p)
      (steps 32 (Z.lxor (word_at 1 p) (steps 32 (Z.lxor (word_at 0 p) l))))))).
Proof.
  intros Hp Hb. rewrite take_16, !crc_state_app.
  rewrite (crc_state_at 0), (crc_state_at 1), (crc_state_at 2), (crc_state_at 3) by (done || lia).
  rewrite !(Z.lxor_comm (steps _ _)), (Z.lxor_comm l). done.
Qed.

(** Normalises iterated steps over exclusive ors. *)
Ltac steps_solve := unfold combine; cbn [crc0 crc1 crc2 crc3]; rewrite ?steps_lxor, ?steps_steps;
  cbn [Nat.add]; rewrite ?steps_lxor, ?steps_steps; cbn [Nat.add]; xor_solve.

Lemma STEP16_spec p c :
  strides_ok c -> 16 <= zlen p -> bytes p ->
  exists c', STEP16 p c = Ok (drop 16 p, c') /\ strides_ok c' /\
    combine c' = crc_state (combine c) (take 16 p).
Proof.
  intros (H0 & H1 & H2 & H3) Hp Hb. unfold STEP16. rewrite !STEP4_spec by (done || lia). cbn [obind].
  eexists. split; [done|]. split.
  - split_and!; cbn [crc0 crc1 crc2 crc3]; apply word_lxor; (apply word_at_range; (done || lia)) || by apply word_steps_range.
  - rewrite crc_state_16 by done. steps_solve.
Qed.

Lemma swaths_spec fuel p c :
  strides_ok c -> bytes p -> (length p < fuel)%nat ->
  exists p' c' used, swaths fuel p c = Ok (p', c') /\ p = used ++ p' /\ strides_ok c' /\
    combine c' = crc_state (combine c) used.
Proof.
  revert p c. induction fuel as [|fuel IH]; intros p c Hc Hb Hf; [lia|]. cbn [swaths].
  destruct (Z.leb_spec 16 (zlen p)) as [Hp|].
  - destruct (STEP16_spec p c Hc Hp Hb) as (c1 & -> & Hc1 & E1). cbn [obind].
    destruct (IH (drop 16 p) c1 Hc1 (Forall_drop _ _ _ Hb)) as (p' & c' & used & -> & Hp' & Hc' & E').
    { rewrite length_drop. unfold zlen in Hp. lia. }
    exists p', c', (take 16 p ++ used). split; [done|]. rewrite <- app_assoc, <- Hp', take_drop.
    split; [done|]. split; [done|]. by rewrite crc_state_app, <- E1.
  - exists p, c, []. split; [reflexivity|]. split; [reflexivity|]. split; [exact Hc|reflexivity].
Qed.

Lemma word_steps_spec fuel p c :
  strides_ok c -> bytes p -> (length p < fuel)%nat ->
  exists p' c' used, word_steps fuel p c = Ok (p', c') /\ p = used ++ p' /\ strides_ok c' /\
    combine c' = crc_state (combine c) used.
Proof.
  revert p c. induction fuel as [|fuel IH]; intros p c Hc Hb Hf; [lia|]. cbn [word_steps].
  destruct (Z.leb_spec 4 (zlen p)) as [Hp|]; 
    [|exists p, c, []; split; [reflexivity|]; split; [reflexivity|]; split; [exact Hc|reflexivity]].
  destruct Hc as (H0 & H1 & H2 & H3).
  rewrite STEP4_spec by (done || lia). cbn [obind].
  set (c1 := mk_strides _ _ _ _).
  assert (Hc1 : strides_ok c1).
  { split_and!; try done. apply word_lxor; [apply word_at_range; [lia|done]|by apply word_steps_range]. }
  assert (E1 : combine c1 = crc_state (combine c) (take 4 p)).
  { change (take 4 p) with (take 4 (drop (0 * 4) p)). rewrite (crc_state_at 0) by (done || lia). unfold c1. steps_solve. }
  destruct (IH (drop 4 p) c1 Hc1 (Forall_drop _ _ _ Hb)) as (p' & c' & used & -> & Hp' & Hc' & E').
  { rewrite length_drop. unfold zlen in Hp. lia. }
  exists p', c', (take 4 p ++ used). split; [done|]. rewrite <- app_assoc, <- Hp', take_drop.
  split; [done|]. split; [done|]. by rewrite crc_state_app, <- E1.
Qed.

Lemma word_bytes_spec n w : word_bytes n w = Ok (steps (8 * n) w).
Proof.
  revert w. induction n as [|n IH]; intros w; [done|]. cbn [word_bytes].
  rewrite byte_table by apply low_byte. cbn [obind]. rewrite IH. f_equal.
  replace (8 * S n)%nat with (8 * n + 8)%nat by lia. rewrite <- steps_steps, (steps_8 w).
  f_equal. apply Z.lxor_comm.
Qed.

Lemma STEP4W_spec w l : STEP4W w l = Ok (steps 32 (Z.lxor w l)).
Proof. apply (word_bytes_spec 4). Qed.

Lemma by_strides_spec p l :
  word l -> 16 <= zlen p -> bytes p ->
  exists p' used, by_strides p l = Ok (p', crc_state l used) /\ p = used ++ p'.
Proof.
  intros Hl Hp Hb. unfold by_strides.
  change (ReadUint32LE p) with (ReadUint32LE (drop (0 * 4) p)).
  change (drop 4 p) with (drop (1 * 4) p). change (drop 8 p) with (drop (2 * 4) p).
  change (drop 12 p) with (drop (3 * 4) p).
  rewrite !ReadUint32LE_spec by (done || lia). cbn [obind].
  set (c := mk_strides _ _ _ _).
  assert (Hc : strides_ok c).
  { split_and!; cbn [crc0 crc1 crc2 crc3 c]; try (apply word_at_range; [lia|done]).
    apply word_lxor; [apply word_at_range; [lia|done]|done]. }
  assert (E : combine c = crc_state l (take 16 p)) by (by rewrite crc_state_16).
  destruct (swaths_spec (S (length (drop 16 p))) (drop 16 p) c Hc (Forall_drop _ _ _ Hb))
    as (p1 & c1 & u1 & -> & Hp1 & Hc1 & E1); [lia|]. cbn [obind].
  assert (Hb1 : bytes p1).
  { pose proof (Forall_drop _ 16 _ Hb) as Hd. rewrite Hp1 in Hd. by apply Forall_app in Hd as [_ ?]. }
  destruct (word_steps_spec (S (length p1)) p1 c1 Hc1 Hb1)
    as (p2 & c2 & u2 & -> & Hp2 & Hc2 & E2); [lia|]. cbn [obind].
  rewrite !STEP4W_spec. cbn [obind]. rewrite !STEP4W_spec. cbn [obind].
  rewrite !STEP4W_spec. cbn [obind]. rewrite !STEP4W_spec. cbn [obind].
  exists p2, (take 16 p ++ u1 ++ u2). split.
  - do 2 f_equal. rewrite !crc_state_app, <- E, <- E1, <- E2. unfold combine.
    by rewrite Z.lxor_0_r.
  - rewrite <- !app_assoc. rewrite <- Hp2, <- Hp1. by rewrite take_drop.
Qed.

Lemma to_boundary_range addr : 0 <= to_boundary addr <= 3.
Proof.
  unfold to_boundary. change 3 with (Z.ones 2). rewrite <- Z.ldiff_land.
  rewrite Z.ldiff_ones_r by lia. rewrite Z.shiftl_mul_pow2, Z.shiftr_div_pow2 by lia.
  change (2 ^ 2) with 4. change (Z.ones 2) with 3. euclid.
Qed.

(** Whatever the alignment of the data. *)
Lemma Extend_spec addr crc data :
  word crc -> bytes data -> Extend addr crc data = Ok (crc32c crc data).
Proof.
  intros Hc Hb. unfold Extend. change CanAccelerateCRC32C with false. cbv iota zeta.
  pose proof (to_boundary_range addr) as Hx. set (x := to_boundary addr) in *.
  set (l := Z.lxor crc kCRC32Xor).
  assert (Hl : word l) by (apply word_lxor; [done|by unfold word, kCRC32Xor]).
  assert (E1 : exists p used, (if x <=? zlen data then bytewise (Z.to_nat x) data l else Ok (data, l)) =
    Ok (p, crc_state l used) /\ data = used ++ p).
  { destruct (Z.leb_spec x (zlen data)).
    - exists (drop (Z.to_nat x) data), (take (Z.to_nat x) data). rewrite take_drop. split; [|done].
      apply bytewise_spec; [unfold zlen in *; lia|done].
    - by exists data, []. }
  destruct E1 as (p & u1 & -> & ->). cbn [obind]. apply Forall_app in Hb as [Hu1 Hp].
  assert (E2 : exists q u2, (if 16 <=? zlen p then by_strides p (crc_state l u1) else Ok (p, crc_state l u1)) =
    Ok (q, crc_state l (u1 ++ u2)) /\ p = u2 ++ q).
  { destruct (Z.leb_spec 16 (zlen p)).
    - destruct (by_strides_spec p (crc_state l u1)) as (q & u2 & -> & E); [by apply crc_state_word|done|done|].
      exists q, u2. by rewrite crc_state_app.
    - exists p, []. by rewrite app_nil_r. }
  destruct E2 as (q & u2 & -> & ->). cbn [obind]. apply Forall_app in Hp as [_ Hq].
  rewrite bytewise_spec by done. cbn [obind]. f_equal. unfold crc32c.
  rewrite take_ge by done. rewrite <- crc_state_app. by rewrite <- app_assoc.
Qed.

Lemma crc32c_word crc data : word crc -> bytes data -> word (crc32c crc data).
Proof.
  intros Hc Hb. assert (Hx : word kCRC32Xor) by (by unfold word, kCRC32Xor).
  apply word_lxor; [|done]. apply crc_state_word; [|done]. by apply word_lxor.
Qed.

Lemma crc32c_app crc a b : crc32c (crc32c crc a) b = crc32c crc (a ++ b).
Proof.
  unfold crc32c. rewrite crc_state_app. do 2 f_equal. xor_solve.
Qed.

(** ** Bursts

    A step loses nothing of a word, so data that differ only within four
    consecutive bytes have different checksums. *)
Lemma crc_bit_zero c : word c -> crc_bit c = 0 -> c = 0.
Proof.
  intros Hc. unfold crc_bit, word in *. destruct (Z.odd c) eqn:Eo.
  - intros E%Z.lxor_eq. exfalso. rewrite shiftr_div in E by lia. unfold polynomial in E. revert E. euclid.
  - rewrite Z.lxor_0_r, shiftr_div by lia. intros E. rewrite <- Z.negb_even in Eo.
    destruct (Z.even c) eqn:Ee; [|done]. apply Z.even_spec in Ee as [k ->]. revert E. euclid.
Qed.

Lemma steps_zero n c : word c -> steps n c = 0 -> c = 0.
Proof.
  intros Hc. induction n as [|n IH]; [done|]. rewrite <- Nat.add_1_l, <- steps_steps. intros E.
  apply IH, crc_bit_zero; [by apply word_steps_range|exact E].
Qed.

Lemma steps_inj n a b : word a -> word b -> steps n a = steps n b -> a = b.
Proof.
  intros Ha Hb E. apply Z.lxor_eq, (steps_zero n); [by apply word_lxor|]. by rewrite steps_lxor, E, Z.lxor_nilpotent.
Qed.

Lemma word_of_le x : bytes x -> (length x <= 4)%nat -> word (of_le x).
Proof.
  intros Hb Hl. pose proof (of_le_range x Hb) as [H0 H1]. split; [done|]. eapply Z.lt_le_trans; [exact H1|].
  change (2 ^ 32) with (256 ^ 4). apply Z.pow_le_mono_r; lia.
Qed.

Lemma lxor_inj a b c : Z.lxor a b = Z.lxor a c -> b = c.
Proof. intros E. apply Z.lxor_eq. transitivity (Z.lxor (Z.lxor a b) (Z.lxor a c)); [xor_solve|]. by rewrite E, Z.lxor_nilpotent. Qed.

Lemma crc_state_inj l1 l2 b : word l1 -> word l2 -> bytes b -> crc_state l1 b = crc_state l2 b -> l1 = l2.
Proof.
  intros H1 H2 Hb. revert l1 l2 H1 H2. induction Hb as [|x b Hx _ IH]; intros l1 l2 H1 H2 E; [done|].
  assert (Hw : forall l, word l -> word (Z.lxor l x)) by (intros l Hl; apply word_lxor; [done|by apply word_byte]).
  apply IH in E; [|by apply word_steps_range, Hw..]. apply steps_inj in E; [|by apply Hw..].
  rewrite !(Z.lxor_comm _ x) in E. by apply lxor_inj in E.
Qed.

Lemma crc32c_burst crc a x y b : word crc -> bytes (a ++ x ++ b) -> bytes (a ++ y ++ b) ->
  length x = length y -> (length x <= 4)%nat -> crc32c crc (a ++ x ++ b) = crc32c crc (a ++ y ++ b) -> x = y.
Proof.
  intros Hc Hx Hy Hl H4 E. apply Forall_app in Hx as [Ha [Hx Hb]%Forall_app]. apply Forall_app in Hy as [_ [Hy _]%Forall_app].
  assert (Hk : word kCRC32Xor) by (by unfold word, kCRC32Xor).
  unfold crc32c in E. rewrite !(Z.lxor_comm _ kCRC32Xor) in E. apply lxor_inj in E. rewrite !crc_state_app in E.
  assert (Hs : word (crc_state (Z.lxor kCRC32Xor crc) a)) by (by apply crc_state_word; [apply word_lxor|]).
  apply crc_state_inj in E; [|by apply crc_state_word..|done]. rewrite (crc_state_steps x), (crc_state_steps y), Hl in E by done.
  apply steps_inj in E; [|by apply word_lxor; [|apply word_of_le; [|lia]]..]. apply lxor_inj in E.
  rewrite <- (le_bytes_of_le x Hx), <- (le_bytes_of_le y Hy), Hl. by rewrite E.
Qed.

(** ** Masking *)
Lemma rotate_back j k x : (j = 15 /\ k = 17) \/ (j = 17 /\ k = 15) -> word x ->
  let r := Z.lor (Z.shiftr x j) (wrap 32 (Z.shiftl x k)) in
  word r /\ Z.lor (Z.shiftr r k) (wrap 32 (Z.shiftl r j)) = x.
Proof.
  intros Hjk Hx. cbv zeta. unfold word, wrap in *.
  assert (Hs : forall y, Z.shiftl y k mod 2 ^ 32 = Z.shiftl (y mod 2 ^ j) k /\
    Z.shiftl y j mod 2 ^ 32 = Z.shiftl (y mod 2 ^ k) j).
  { intros y. destruct Hjk as [[-> ->]|[-> ->]]; rewrite !Z.shiftl_mul_pow2 by lia; split; euclid. }
  assert (Hx' : 0 <= Z.shiftr x j < 2 ^ k) by (destruct Hjk as [[-> ->]|[-> ->]]; rewrite shiftr_div by lia; euclid).
  rewrite (proj1 (Hs _)), lor_shiftl_add by lia. rewrite shiftr_div in * by lia.
  set (r := x / 2 ^ j + x mod 2 ^ j * 2 ^ k).
  assert (Hr : 0 <= r < 2 ^ 32) by (unfold r; destruct Hjk as [[-> ->]|[-> ->]]; euclid). split; [done|].
  rewrite (proj2 (Hs _)), shiftr_div by lia. unfold r.
  destruct Hjk as [[-> ->]|[-> ->]]; (rewrite lor_shiftl_add; [|lia|]; euclid).
Qed.

Lemma Unmask_Mask crc : word crc -> Unmask (Mask crc) = crc.
Proof.
  intros Hc. destruct (rotate_back 15 17 crc ltac:(lia) Hc) as [Hr E]. unfold Unmask, Mask.
  set (r := Z.lor _ _) in *.
  assert (Hw : wrap 32 (wrap 32 (r + kMaskDelta) - kMaskDelta) = r); [|by rewrite Hw].
  unfold wrap. rewrite Zminus_mod_idemp_l. rewrite Z.add_simpl_r. by apply Z.mod_small.
Qed.

Lemma Mask_Unmask m : word m -> Mask (Unmask m) = m.
Proof.
  intros Hm. unfold Unmask, Mask.
  destruct (rotate_back 17 15 (wrap 32 (m - kMaskDelta)) ltac:(lia) ltac:(by apply wrap_range)) as [Hr E].
  rewrite E. unfold wrap. rewrite Zplus_mod_idemp_l. rewrite Z.sub_add. by apply Z.mod_small.
Qed.

Lemma Mask_word crc : word (Mask crc).
Proof. apply wrap_range. lia. Qed.

(** ** What the checksum guarantees

    [Extend] computes the CRC-32C of its definition by polynomial division,
    and masking loses nothing. *)
(** C31: [Extend] is CRC-32C.  Wherever the data lies in memory, the table
    and stride driven [Extend] returns, never reads outside the data or a
    table, and computes the bit-by-bit CRC with the reflected Castagnoli
    polynomial, continued from [crc]. *)
Theorem extend_crc32c addr crc data :
  word crc -> bytes data ->
  Extend addr crc data = Ok (crc32c crc data) /\ word (crc32c crc data).
Proof. intros Hc Hb. split; [by apply Extend_spec|by apply crc32c_word]. Qed.

(** Checksums compose.  Extending the checksum of one piece by the next
    gives the checksum of both, however the pieces are aligned; this is how
    the log and the tables checksum a record in parts. *)
Theorem extend_composes addr1 addr2 addr3 crc a b :
  word crc -> bytes a -> bytes b ->
  (let! c := Extend addr1 crc a in Extend addr2 c b) = Extend addr3 crc (a ++ b).
Proof.
  intros Hc Ha Hb. rewrite !Extend_spec; [|done|by apply Forall_app|done|done]. cbn [obind].
  rewrite Extend_spec by (done || by apply crc32c_word). by rewrite crc32c_app.
Qed.

(** Masked checksums.  The stored form of a checksum is 32 bits wide
    and determines the checksum. *)
Theorem mask_roundtrip crc : word crc -> Unmask (Mask crc) = crc /\ word (Mask crc).
Proof. intros Hc. split; [by apply Unmask_Mask|apply Mask_word]. Qed.

(** ** Concrete runs *)
#[local] Ltac concrete_bytes := repeat (apply Forall_cons_2; [by vm_compute|]); by apply Forall_nil_2.

Lemma extend_crc32c_witness :
  Extend 2 0 (map Z.of_nat (seq 0 40)) = Ok (crc32c 0 (map Z.of_nat (seq 0 40))).
Proof. apply (extend_crc32c 2 0); [by vm_compute|cbn; concrete_bytes]. Defined.

Lemma extend_composes_witness :
  (let! c := Extend 1 0 [49; 50; 51; 52] in Extend 5 c [53; 54; 55; 56; 57]) = Ok 0xe3069283.
Proof.
  rewrite (extend_composes 1 5 0 0 [49; 50; 51; 52] [53; 54; 55; 56; 57]);
    [by vm_compute|by vm_compute|concrete_bytes|concrete_bytes].
Defined.

Lemma mask_roundtrip_witness : Unmask (Mask 0xe3069283) = 0xe3069283 /\ word (Mask 0xe3069283).
Proof. apply mask_roundtrip. by vm_compute. Defined.
