(* ===== verification/FilterBlockProof.v ===== *)
(** * A filter block matches every key of its range

    The builder's state is described by the filters made so far and the
    pending keys; the reader finds a range's filter in the table of
    offsets. *)
From S2P Require Import Prelude Coding Bloom BloomProof FilterBlock CodingProof.

(** ** Lists of strings laid end to end *)

(** The offsets at which the strings start. *)
Fixpoint offsets (base : Z) (l : list (list Z)) : list Z :=
  match l with
  | [] => []
  | k :: l' => base :: offsets (base + zlen k) l'
  end.

Lemma length_offsets base l : length (offsets base l) = length l.
Proof. revert base. induction l as [|k l IH]; intros base; [done|]. cbn. by rewrite IH. Qed.

Lemma offsets_snoc base l k : offsets base (l ++ [k]) = offsets base l ++ [base + zlen (concat l)].
Proof.
  revert base. induction l as [|x l IH]; intros base; [cbn; rewrite zlen_nil; f_equal; lia|].
  cbn [offsets app concat]. rewrite IH, zlen_app. do 3 f_equal. lia.
Qed.

Lemma offsets_lookup base l i :
  (i <= length l)%nat ->
  (offsets base l ++ [base + zlen (concat l)]) !! i = Some (base + zlen (concat (take i l))).
Proof.
  revert base i. induction l as [|k l IH]; intros base [|i] Hi; try (simpl in Hi; lia).
  - cbn. done.
  - cbn. rewrite zlen_nil. f_equal. lia.
  - cbn [offsets app concat lookup list_lookup take]. rewrite zlen_app.
    replace (base + (zlen k + zlen (concat l))) with (base + zlen k + zlen (concat l)) by lia.
    specialize (IH (base + zlen k) i ltac:(simpl in Hi; lia)).
    etransitivity; [exact IH|]. rewrite zlen_app. f_equal. lia.
Qed.

Lemma tmp_keys_offsets keys base l :
  0 <= base -> drop (Z.to_nat base) keys = concat l ->
  tmp_keys keys (offsets base l ++ [base + zlen (concat l)]) = l.
Proof.
  revert base. induction l as [|k l IH]; intros base H0 Hd; [done|].
  pose proof (zlen_nonneg k).
  assert (IHl : tmp_keys keys (offsets (base + zlen k) l ++ [base + zlen k + zlen (concat l)]) = l).
  { apply IH; [lia|]. replace (Z.to_nat (base + zlen k)) with (Z.to_nat base + length k)%nat by (unfold zlen; lia).
    rewrite <- drop_drop, Hd. cbn [concat]. by rewrite drop_app_length. }
  cbn [offsets app concat]. rewrite zlen_app.
  replace (base + (zlen k + zlen (concat l))) with (base + zlen k + zlen (concat l)) by lia.
  assert (Hhead : take (Z.to_nat (base + zlen k - base)) (drop (Z.to_nat base) keys) = k).
  { rewrite Hd. cbn [concat]. replace (Z.to_nat (base + zlen k - base)) with (length k) by (unfold zlen; lia).
    by rewrite take_app_length. }
  destruct l as [|k2 l]; cbn [offsets app] in *; cbn [tmp_keys] in *.
  - cbn [concat]. rewrite zlen_nil, Z.add_0_r, Hhead. done.
  - rewrite Hhead. f_equal. exact IHl.
Qed.

Lemma zlen_concat_take i (l : list (list Z)) :
  zlen (concat (take i l)) <= zlen (concat l) /\
  forall k, l !! i = Some k -> zlen (concat (take (S i) l)) = zlen (concat (take i l)) + zlen k.
Proof.
  split.
  - rewrite <- (take_drop i l) at 2. rewrite concat_app, zlen_app.
    pose proof (zlen_nonneg (concat (drop i l))). lia.
  - intros k Hk. rewrite (take_S_r _ _ _ Hk), concat_app, zlen_app. cbn. by rewrite app_nil_r.
Qed.

(** The [i]-th string, cut out by its offset and length. *)
Lemma cut_string i (l : list (list Z)) k rest :
  l !! i = Some k ->
  take (length k) (drop (Z.to_nat (zlen (concat (take i l)))) (concat l ++ rest)) = k.
Proof.
  intros Hk. rewrite <- (take_drop_middle _ _ _ Hk) at 2. rewrite concat_app. cbn [concat].
  rewrite <- !app_assoc. unfold zlen. rewrite Nat2Z.id, drop_app_length.
  by rewrite take_app_length.
Qed.

(** ** The builder *)
Section Builder.
Context `{FilterPolicy} (fits : list (list Z) -> Prop) {Hlaw : LawfulPolicy fits}.
(** A property of the keys that are added. *)
Context (Q : list Z -> Prop).

(** The keys added, each with the offset of its data block. *)
Fixpoint added (off : Z) (cs : list filter_call) : list (Z * list Z) :=
  match cs with
  | [] => []
  | Start o :: cs' => added o cs'
  | Add k :: cs' => (off, k) :: added off cs'
  end.

(** Block offsets do not decrease. *)
Fixpoint ordered (off : Z) (cs : list filter_call) : Prop :=
  match cs with
  | [] => True
  | Start o :: cs' => off <= o < 2 ^ 64 /\ ordered o cs'
  | Add k :: cs' => bytes k /\ ordered off cs'
  end.

(** The offset of the block the next key belongs to. *)
Fixpoint start_after (off : Z) (cs : list filter_call) : Z :=
  match cs with
  | [] => off
  | Start o :: cs' => start_after o cs'
  | Add _ :: cs' => start_after off cs'
  end.

Lemma added_nonneg cs off : 0 <= off -> ordered off cs -> forall o k, (o, k) ∈ added off cs -> 0 <= o.
Proof.
  revert off. induction cs as [|[o|k] cs IH]; intros off H0 Ho o' k' Hin.
  - by apply elem_of_nil in Hin.
  - destruct Ho as [Ho Hos]. exact (IH o ltac:(lia) Hos _ _ Hin).
  - destruct Ho as [_ Ho]. apply elem_of_cons in Hin as [[= -> ->]|Hin]; [done|].
    exact (IH off H0 Ho _ _ Hin).
Qed.

Definition matches (k f : list Z) : Prop := KeyMayMatch k f = Ok true.

(** [fs] are the filters made, [pend] the pending keys, [ad] the keys added
    so far. *)
Record builder_inv (off : Z) (ad : list (Z * list Z)) (fs pend : list (list Z))
    (b : FilterBlockBuilder) : Prop := {
  inv_result : result_ b = concat fs;
  inv_offsets : filter_offsets_ b = map (wrap 32) (offsets 0 fs);
  inv_keys : keys_ b = concat pend;
  inv_start : start_ b = offsets 0 pend;
  inv_bytes : Forall bytes pend /\ Forall bytes fs;
  inv_prop : Forall Q pend;
  inv_count : (length pend <= length ad)%nat;
  inv_added : forall o k, (o, k) ∈ ad ->
    (exists f, fs !! Z.to_nat (o / kFilterBase) = Some f /\ matches k f) \/
    (Z.to_nat (o / kFilterBase) = length fs /\ k ∈ pend);
  inv_index : zlen fs = off / kFilterBase
}.

(** What is left of the invariant while filters are being generated. *)
Lemma generate_inv off off' ad fs pend b :
  builder_inv off ad fs pend b -> fits pend -> off' / kFilterBase = zlen fs + 1 ->
  exists f b', GenerateFilter b = Ok b' /\ builder_inv off' ad (fs ++ [f]) [] b'.
Proof.
  intros Hinv Hfits Hoff. pose proof Hinv as [Hres Hoffs Hkeys Hstart [Hb1 Hb2] Hq Hcount Hadd Hidx].
  unfold GenerateFilter. rewrite Hstart.
  assert (Hlen : zlen (offsets 0 pend) = zlen pend) by (unfold zlen; by rewrite length_offsets).
  rewrite Hlen.
  assert (Hoffs' : forall f, filter_offsets_ b ++ [wrap 32 (zlen (result_ b))] = map (wrap 32) (offsets 0 (fs ++ [f]))).
  { intros f. rewrite Hoffs, Hres, offsets_snoc, map_app. cbn [map]. by rewrite Z.add_0_l. }
  assert (Hcase : forall f b', result_ b' = concat (fs ++ [f]) -> bytes f ->
    filter_offsets_ b' = filter_offsets_ b ++ [wrap 32 (zlen (result_ b))] -> keys_ b' = [] -> start_ b' = [] ->
    (forall k, k ∈ pend -> matches k f) -> builder_inv off' ad (fs ++ [f]) [] b').
  { intros f b' E1 Hbf E2 E3 E4 Hm. split; try done.
    - by rewrite E2.
    - split; [constructor|]. apply Forall_app. split; [done|]. by repeat constructor.
    - simpl; lia.
    - intros o k Hin. left. destruct (Hadd o k Hin) as [(g & Hg & Hm')|[Hi Hp]].
      + exists g. split; [|done]. rewrite lookup_app_l; [done|]. by eapply lookup_lt_Some.
      + exists f. split; [|by apply Hm]. rewrite Hi. rewrite lookup_app_r by lia. by rewrite Nat.sub_diag.
    - rewrite zlen_app. change (zlen [f]) with 1. lia. }
  destruct (Z.eqb_spec (zlen pend) 0) as [E|E].
  - destruct pend as [|? ?]; [|rewrite zlen_cons in E; pose proof (zlen_nonneg pend); lia].
    exists [], (mk_fbb (keys_ b) (start_ b) (result_ b) (filter_offsets_ b ++ [wrap 32 (zlen (result_ b))])).
    split; [by rewrite Hstart|]. apply Hcase; try done.
    + cbn [result_]. rewrite Hres, concat_app. cbn. by rewrite app_nil_r.
    + constructor.
    + intros k Hin. by apply elem_of_nil in Hin.
  - rewrite Hkeys. replace (offsets 0 pend ++ [zlen (concat pend)]) with
      (offsets 0 pend ++ [0 + zlen (concat pend)]) by (by rewrite Z.add_0_l).
    rewrite tmp_keys_offsets by done.
    destruct (policy_law pend (result_ b) Hfits Hb1) as (f & Ef & Hbf & Hm). rewrite Ef. cbn [obind].
    eexists f, _. split; [done|]. apply Hcase; try done.
    cbn [result_]. rewrite Hres, concat_app. cbn. by rewrite app_nil_r.
Qed.

Lemma generate_until_inv n idx off ad fs pend b :
  builder_inv off ad fs pend b -> (fits pend \/ zlen fs = idx) -> fits [] ->
  zlen fs <= idx -> idx - zlen fs < Z.of_nat n ->
  exists fs' pend' b', generate_until n idx b = Ok b' /\ (forall off', off' / kFilterBase = idx ->
    builder_inv off' ad fs' pend' b').
Proof.
  revert off fs pend b. induction n as [|n IH]; intros off fs pend b Hinv Hfits Hnil Hle Hn; [lia|].
  cbn [generate_until].
  assert (Hl : zlen (filter_offsets_ b) = zlen fs).
  { rewrite (inv_offsets _ _ _ _ _ Hinv). unfold zlen. by rewrite length_map, length_offsets. }
  rewrite Hl. destruct (Z.ltb_spec (zlen fs) idx).
  - destruct Hfits as [Hfits|]; [|lia].
    destruct (generate_inv off ((zlen fs + 1) * kFilterBase) ad fs pend b Hinv Hfits)
      as (f & b1 & -> & Hinv1); [apply Z.div_mul; done|]. cbn [obind].
    apply (IH _ _ _ _ Hinv1); [by left|done|..]; rewrite zlen_app; change (zlen [f]) with 1; lia.
  - exists fs, pend, b. split; [done|]. intros off' Hoff'. destruct Hinv. split; try done. lia.
Qed.

(** ** A whole run *)
Context (total : nat)
  (Hfits : forall pend, (length pend <= total)%nat -> Forall Q pend -> fits pend).

Lemma filter_run_inv cs off ad fs pend b :
  builder_inv off ad fs pend b -> ordered off cs -> Forall (fun p => Q p.2) (added off cs) -> (length ad + length (added off cs) <= total)%nat ->
  exists fs' pend' b', filter_run cs b = Ok b' /\
    builder_inv (start_after off cs) (ad ++ added off cs) fs' pend' b'.
Proof.
  revert off ad fs pend b. induction cs as [|c cs IH]; intros off ad fs pend b Hinv Ho HQ Hlen.
  { exists fs, pend, b. by rewrite app_nil_r. }
  pose proof (inv_count _ _ _ _ _ Hinv) as Hcount. pose proof (inv_index _ _ _ _ _ Hinv) as Hidx.
  destruct c as [o|k]; cbn [filter_run filter_step added start_after] in *; destruct Ho as [Ho Hos].
  - unfold StartBlock. cbv zeta.
    assert (Hdiv : off / kFilterBase <= o / kFilterBase) by (apply Z.div_le_mono; [done|lia]).
    pose proof (zlen_nonneg fs).
    assert (Hl : zlen (filter_offsets_ b) = zlen fs).
    { rewrite (inv_offsets _ _ _ _ _ Hinv). unfold zlen. by rewrite length_map, length_offsets. }
    unfold assert. rewrite Hl, (proj2 (Z.leb_le _ _)) by lia.
    destruct (generate_until_inv (S (Z.to_nat (o / kFilterBase))) (o / kFilterBase) off ad fs pend b Hinv)
      as (fs' & pend' & b' & -> & Hinv'); [left; apply Hfits; [lia|apply Hinv]|apply Hfits; [simpl; lia|constructor]|lia|lia|].
    cbn [obind]. by apply (IH o ad fs' pend' b' (Hinv' o eq_refl)).
  - apply Forall_cons in HQ as [HQk HQ]. cbn [snd] in HQk. cbn [obind]. destruct (IH off (ad ++ [(off, k)]) fs (pend ++ [k]) (AddKey k b))
      as (fs' & pend' & b' & E & Hinv'); [|done|done|rewrite length_app; simpl in *; lia|].
    + destruct Hinv as [Hres Hoffs Hkeys Hstart [Hb1 Hb2] Hq _ Hadd _]. split; try done.
      * cbn. rewrite Hkeys, concat_app. cbn. by rewrite app_nil_r.
      * cbn. rewrite Hstart, Hkeys, offsets_snoc. by rewrite Z.add_0_l.
      * split; [apply Forall_app; split; [done|by repeat constructor]|done].
      * apply Forall_app. split; [done|]. by apply Forall_cons_2.
      * rewrite !length_app. simpl. lia.
      * intros o k' [Hin|Hin]%elem_of_app.
        -- destruct (Hadd o k' Hin) as [|[Hi Hp]]; [by left|right]. split; [done|]. apply elem_of_app. by left.
        -- apply list_elem_of_singleton in Hin as [= -> ->]. right. split; [unfold zlen in Hidx; lia|].
           apply elem_of_app. right. by apply list_elem_of_singleton.
    + exists fs', pend', b'. split; [done|]. by rewrite <- app_assoc in Hinv'.
Qed.

Lemma new_builder_inv : builder_inv 0 [] [] [] new_FilterBlockBuilder.
Proof.
  split; try reflexivity; [by split; apply Forall_nil_2|apply Forall_nil_2|]. intros o k Hin. by apply elem_of_nil in Hin.
Qed.

Lemma filter_run_ok cs : ordered 0 cs -> Forall (fun p => Q p.2) (added 0 cs) -> (length (added 0 cs) <= total)%nat ->
  exists fs pend b, filter_run cs new_FilterBlockBuilder = Ok b /\ builder_inv (start_after 0 cs) (added 0 cs) fs pend b.
Proof. intros Ho HQ Hl. exact (filter_run_inv cs 0 [] [] [] _ new_builder_inv Ho HQ Hl). Qed.

(** The contents of the finished block. *)
Lemma build_contents cs :
  ordered 0 cs -> Forall (fun p => Q p.2) (added 0 cs) -> (length (added 0 cs) <= total)%nat ->
  exists fs, build_filter_block cs =
      Ok (concat fs ++ concat (map EncodeFixed32 (map (wrap 32) (offsets 0 fs ++ [zlen (concat fs)]))) ++ [kFilterBaseLg])
    /\ Forall bytes fs /\
    forall o k, (o, k) ∈ added 0 cs ->
      exists f, fs !! Z.to_nat (o / kFilterBase) = Some f /\ matches k f.
Proof.
  intros Ho HQ Hlen. unfold build_filter_block.
  destruct (filter_run_ok cs Ho HQ Hlen) as (fs & pend & b & -> & Hinv). cbn [obind]. unfold Finish.
  assert (Hl : zlen (start_ b) = zlen pend).
  { rewrite (inv_start _ _ _ _ _ Hinv). unfold zlen. by rewrite length_offsets. }
  rewrite Hl.
  assert (Hgen : exists fs' off' b', (if zlen pend =? 0 then Ok b else GenerateFilter b) = Ok b' /\
    builder_inv off' (added 0 cs) fs' [] b').
  { destruct (Z.eqb_spec (zlen pend) 0) as [E|E].
    - destruct pend as [|? pend]; [by eexists fs, _, b|]. rewrite zlen_cons in E. pose proof (zlen_nonneg pend). lia.
    - pose proof (inv_count _ _ _ _ _ Hinv).
      destruct (generate_inv _ ((zlen fs + 1) * kFilterBase) (added 0 cs) fs pend b Hinv)
        as (f & b' & -> & Hinv'); [apply Hfits; [lia|apply Hinv]|apply Z.div_mul; done|].
      by eexists _, _, b'. }
  destruct Hgen as (fs' & off' & b' & -> & [Hres Hoffs _ _ [_ Hbf] _ _ Hadd _]). cbn [obind].
  exists fs'. split; [|split; [done|]].
  - f_equal. unfold PutFixed32 at 1. rewrite put_fixed_table, Hres, Hoffs.
    rewrite !map_app, concat_app. cbn [map concat]. by rewrite app_nil_r, <- !app_assoc.
  - intros o k Hin. destruct (Hadd o k Hin) as [|[_ Hp]]; [done|]. by apply elem_of_nil in Hp.
Qed.
End Builder.

(** ** Runs in pieces *)
Lemma ordered_app off cs ds : ordered off (cs ++ ds) <-> ordered off cs /\ ordered (start_after off cs) ds.
Proof.
  revert off. induction cs as [|[o|k] cs IH]; intros off; cbn [ordered start_after app]; [tauto|rewrite IH; tauto|rewrite IH; tauto].
Qed.

Lemma added_app off cs ds : added off (cs ++ ds) = added off cs ++ added (start_after off cs) ds.
Proof. revert off. induction cs as [|[o|k] cs IH]; intros off; cbn [added start_after app]; [done|apply IH|by rewrite IH]. Qed.

Lemma start_after_app off cs ds : start_after off (cs ++ ds) = start_after (start_after off cs) ds.
Proof. revert off. by induction cs as [|[o|k] cs IH]; intros off; cbn. Qed.

Lemma filter_run_app `{FilterPolicy} cs ds b : filter_run (cs ++ ds) b = let! b := filter_run cs b in filter_run ds b.
Proof.
  revert b. induction cs as [|c cs IH]; intros b; [done|]. cbn [app filter_run].
  destruct (filter_step c b); cbn [obind]; [apply IH|done|done].
Qed.

(** ** The size of a filter block *)
Section Size.
Context `{FilterPolicy} (total : nat) (m : Z) (Hm0 : 0 <= m).
Context (Hm : forall keys dst r, (length keys <= total)%nat -> CreateFilter keys dst = Ok r -> zlen r <= zlen dst + m).

Definition small (b : FilterBlockBuilder) : Prop := zlen (result_ b) <= m * zlen (filter_offsets_ b).

Lemma length_tmp_keys keys starts x : length (tmp_keys keys (starts ++ [x])) = length starts.
Proof.
  induction starts as [|s starts IH]; [done|]. cbn [app]. destruct (starts ++ [x]) as [|e rest] eqn:E; [by destruct starts|].
  cbn [tmp_keys length] in *. by rewrite IH.
Qed.

Lemma generate_small b b' : GenerateFilter b = Ok b' -> (length (start_ b) <= total)%nat -> small b ->
  small b' /\ zlen (filter_offsets_ b') = zlen (filter_offsets_ b) + 1 /\ (length (start_ b') <= length (start_ b))%nat.
Proof.
  unfold GenerateFilter, small. intros E Hl Hs. destruct (zlen (start_ b) =? 0).
  - injection E as <-. cbn [result_ filter_offsets_ start_]. rewrite zlen_app. change (zlen [_]) with 1. split; [lia|]. split; [done|lia].
  - apply obind_Ok in E as (r & Er & [= <-]). apply Hm in Er; [|by rewrite length_tmp_keys].
    cbn [result_ filter_offsets_ start_]. rewrite zlen_app. change (zlen [_]) with 1. split; [lia|]. split; [done|cbn; lia].
Qed.

Lemma generate_until_small n idx : forall b b', generate_until n idx b = Ok b' -> (length (start_ b) <= total)%nat -> small b ->
  small b' /\ (length (start_ b') <= length (start_ b))%nat.
Proof.
  induction n as [|n IH]; intros b b' E Hl Hs; [done|]. cbn [generate_until] in E. destruct (_ <? _); [|by injection E as <-].
  apply obind_Ok in E as (b1 & E1 & E). destruct (generate_small b b1 E1 Hl Hs) as (Hs1 & _ & Hl1).
  destruct (IH b1 b' E ltac:(lia) Hs1) as [? ?]. split; [done|lia].
Qed.

Lemma filter_run_small cs : forall off b b', filter_run cs b = Ok b' -> (length (start_ b) + length (added off cs) <= total)%nat -> small b ->
  small b' /\ (length (start_ b') <= length (start_ b) + length (added off cs))%nat.
Proof.
  induction cs as [|[o|k] cs IH]; intros off b b' E Hl Hs; cbn [filter_run filter_step added] in *.
  - injection E as <-. cbn in *. split; [done|lia].
  - apply obind_Ok in E as (b1 & E1 & E). unfold StartBlock, assert in E1. cbv zeta in E1. destruct (_ <=? _); [|done].
    destruct (generate_until_small _ _ b b1 E1 ltac:(lia) Hs) as [Hs1 Hl1].
    destruct (IH o b1 b' E ltac:(lia) Hs1) as [? ?]. split; [done|lia].
  - cbn [obind length] in *. destruct (IH off (AddKey k b) b' E) as [? Hl']; cbn [AddKey start_ result_ filter_offsets_] in *.
    + rewrite length_app. cbn. lia.
    + done.
    + rewrite length_app in Hl'. cbn in Hl'. split; [done|lia].
Qed.

Lemma Finish_small b r : Finish b = Ok r -> (length (start_ b) <= total)%nat -> small b ->
  zlen r <= (m + 4) * (zlen (filter_offsets_ b) + 1) + 5.
Proof.
  unfold Finish. intros E Hl Hs. apply obind_Ok in E as (b' & E' & [= <-]).
  assert (Hb' : small b' /\ zlen (filter_offsets_ b') <= zlen (filter_offsets_ b) + 1).
  { destruct (_ =? _); [injection E' as <-; split; [done|lia]|]. destruct (generate_small b b' E' Hl Hs) as (? & -> & _). split; [done|lia]. }
  destruct Hb' as [Hs' Hn]. unfold PutFixed32 at 1. rewrite put_fixed_table, !zlen_app, zlen_fixed_table.
  change (zlen [kFilterBaseLg]) with 1. change (zlen (EncodeFixed32 _)) with 4. unfold small in Hs'.
  pose proof (Z.mul_le_mono_nonneg_l _ _ m Hm0 Hn). pose proof (zlen_nonneg (filter_offsets_ b)). lia.
Qed.
End Size.

(** ** The reader *)
Section Reader.
Context `{FilterPolicy} (fs : list (list Z)).
Let table : list Z := map (wrap 32) (offsets 0 fs ++ [zlen (concat fs)]).
Let contents : list Z := concat fs ++ concat (map EncodeFixed32 table) ++ [kFilterBaseLg].
Context (Hsize : zlen contents < 2 ^ 32).

Lemma zlen_table : zlen table = zlen fs + 1.
Proof. unfold table, zlen. rewrite length_map, length_app, length_offsets. simpl. lia. Qed.

Lemma zlen_contents : zlen contents = zlen (concat fs) + 4 * zlen fs + 5.
Proof. unfold contents. rewrite !zlen_app, zlen_fixed_table, zlen_table. change (zlen [kFilterBaseLg]) with 1. lia. Qed.

Lemma reader_entry i :
  (i <= length fs)%nat ->
  DecodeFixed32 (drop (Z.to_nat (zlen (concat fs) + 4 * Z.of_nat i)) contents) =
    Ok (zlen (concat (take i fs))).
Proof.
  intros Hi. pose proof zlen_contents as Hc. pose proof (zlen_nonneg (concat fs)).
  destruct (zlen_concat_take i fs) as [Hle _]. pose proof (zlen_nonneg (concat (take i fs))).
  pose proof (zlen_nonneg fs).
  unfold contents at 1.
  replace (Z.to_nat (zlen (concat fs) + 4 * Z.of_nat i)) with (length (concat fs) + 4 * i)%nat by (unfold zlen; lia).
  rewrite <- drop_drop, drop_app_length.
  assert (Ht : table !! i = Some (wrap 32 (zlen (concat (take i fs))))).
  { unfold table. rewrite list_lookup_fmap. pose proof (offsets_lookup 0 fs i Hi) as Ho.
    rewrite !Z.add_0_l in Ho. by rewrite Ho. }
  rewrite (decode_fixed_table _ _ _ _ Ht). rewrite wrap_wrap, wrap_small by lia. done.
Qed.

Lemma new_reader : new_FilterBlockReader contents =
  Ok (mk_fbr contents (zlen (concat fs)) (zlen fs) kFilterBaseLg).
Proof.
  pose proof zlen_contents as Hc. pose proof (zlen_nonneg (concat fs)). pose proof (zlen_nonneg fs).
  unfold new_FilterBlockReader. cbv zeta. destruct (Z.ltb_spec (zlen contents) 5); [lia|].
  assert (Hlast : contents !! Z.to_nat (zlen contents - 1) = Some kFilterBaseLg).
  { replace (Z.to_nat (zlen contents - 1)) with (length contents - 1)%nat by (unfold zlen; lia).
    unfold contents. rewrite app_assoc, length_app. cbn [length].
    rewrite lookup_app_r by lia. by replace (_ + 1 - 1 - _)%nat with 0%nat by lia. }
  rewrite Hlast. cbn [or_ub obind].
  pose proof (reader_entry (length fs) ltac:(lia)) as He.
  replace (Z.to_nat (zlen contents - 5)) with (Z.to_nat (zlen (concat fs) + 4 * Z.of_nat (length fs))) by (unfold zlen in *; lia).
  rewrite He, take_ge by done. cbn [obind].
  destruct (Z.ltb_spec (zlen contents - 5) (zlen (concat fs))); [lia|].
  replace ((zlen contents - 5 - zlen (concat fs)) / 4) with (zlen fs); [done|].
  replace (zlen contents - 5 - zlen (concat fs)) with (zlen fs * 4) by lia. by rewrite Z.div_mul.
Qed.

(** The reader consults the filter of the block's range. *)
Lemma reader_filter o key f :
  0 <= o -> fs !! Z.to_nat (o / kFilterBase) = Some f ->
  FilterKeyMayMatch (mk_fbr contents (zlen (concat fs)) (zlen fs) kFilterBaseLg) o key = KeyMayMatch key f.
Proof.
  intros Ho Hf. unfold FilterKeyMayMatch. cbn [base_lg_ num_ offset_ data_].
  change (64 <=? kFilterBaseLg) with false. cbv iota. cbn [obind].
  rewrite shiftr_div by done. change (2 ^ kFilterBaseLg) with kFilterBase. set (i := o / kFilterBase) in *.
  assert (Hi : 0 <= i) by (apply Z.div_pos; done).
  pose proof (lookup_lt_Some _ _ _ Hf) as Hlt.
  destruct (Z.ltb_spec i (zlen fs)); [|unfold zlen in *; lia].
  replace (zlen (concat fs) + i * 4) with (zlen (concat fs) + 4 * Z.of_nat (Z.to_nat i)) by lia.
  rewrite reader_entry by lia. cbn [obind].
  replace (zlen (concat fs) + 4 * Z.of_nat (Z.to_nat i) + 4) with (zlen (concat fs) + 4 * Z.of_nat (S (Z.to_nat i))) by lia.
  rewrite reader_entry by lia. cbn [obind].
  destruct (zlen_concat_take (Z.to_nat i) fs) as [_ Hnext]. specialize (Hnext f Hf).
  destruct (zlen_concat_take (S (Z.to_nat i)) fs) as [Hle _]. pose proof (zlen_nonneg f).
  rewrite (proj2 (Z.leb_le _ _)) by lia. rewrite (proj2 (Z.leb_le _ _)) by lia. cbn [andb].
  rewrite Hnext. replace (Z.to_nat (_ + zlen f - _)) with (length f) by (unfold zlen; lia).
  unfold contents. by rewrite (cut_string _ _ _ _ Hf).
Qed.
End Reader.

(** Keys the policy treats alike are treated alike by the reader. *)
Lemma reader_key_ext `{FilterPolicy} r o k1 k2 :
  (forall f, KeyMayMatch k1 f = KeyMayMatch k2 f) -> FilterKeyMayMatch r o k1 = FilterKeyMayMatch r o k2.
Proof.
  intros E. unfold FilterKeyMayMatch. destruct (if 64 <=? base_lg_ r then _ else _); cbn [obind]; [|done|done].
  destruct (_ <? _); [|done]. destruct (DecodeFixed32 _); cbn [obind]; [|done|done].
  destruct (DecodeFixed32 _); cbn [obind]; [|done|done]. by rewrite E.
Qed.

(** ** What the filters guarantee

    A lookup is never told that a key is absent from a block it was added
    to. *)
(** C30: no false negatives in a Bloom filter.  For any number of bits per
    key, creating a filter for any list of keys whose filter fits in memory
    succeeds, appends to [dst], and the filter made matches each of the
    keys. *)
Theorem bloom_no_false_negative bits_per_key keys dst :
  0 <= bits_per_key -> zlen keys * bits_per_key < 2 ^ 60 -> Forall bytes keys ->
  exists filter, bloom_create (NewBloomFilterPolicy bits_per_key) keys dst = Ok (dst ++ filter) /\
    forall key, key ∈ keys -> bloom_match key filter = Ok true.
Proof.
  intros H0 Hfit Hb.
  destruct (bloom_policy_law _ (NewBloomFilterPolicy_ok bits_per_key H0) keys dst Hfit Hb)
    as (f & E & _ & Hm).
  exists f. split; [exact E|exact Hm].
Qed.

(** Matching is safe.  On any bytes, from a corrupt file or a later
    version, [KeyMayMatch] of the Bloom policy returns and reads only within
    the filter and the key. *)
Theorem bloom_match_safe key filter :
  bytes key -> bytes filter -> exists b, bloom_match key filter = Ok b.
Proof. apply bloom_match_total. Qed.

(** No false negatives in a filter block.  With any lawful policy, when
    data blocks start at offsets that do not decrease, the builder succeeds,
    and the reader opened on what it wrote matches every key added after
    [StartBlock(o)] at the block offset [o]. *)
Theorem filter_block_no_false_negative `{FilterPolicy} fits {Hlaw : LawfulPolicy fits} cs :
  ordered 0 cs ->
  (forall pend, (length pend <= length (added 0 cs))%nat -> fits pend) ->
  exists contents, build_filter_block cs = Ok contents /\
    (zlen contents < 2 ^ 32 ->
     exists r, new_FilterBlockReader contents = Ok r /\
       forall o key, (o, key) ∈ added 0 cs -> FilterKeyMayMatch r o key = Ok true).
Proof.
  intros Ho Hf. destruct (build_contents fits (fun _ => True) (length (added 0 cs)) (fun p Hp _ => Hf p Hp) cs Ho ltac:(by apply Forall_true) ltac:(lia)) as (fs & E & _ & Hm).
  eexists. split; [exact E|]. intros Hsize. eexists. split; [by apply new_reader|].
  intros o key Hin. destruct (Hm o key Hin) as (f & Hf' & Hmatch).
  rewrite (reader_filter fs Hsize o key f); [exact Hmatch| |exact Hf'].
  exact (added_nonneg cs 0 ltac:(lia) Ho o key Hin).
Qed.

(** ** Concrete runs *)
#[local] Ltac concrete_bytes := repeat (apply Forall_cons_2; [by vm_compute|]); by apply Forall_nil_2.

Lemma bloom_no_false_negative_witness :
  exists filter, bloom_create (NewBloomFilterPolicy 10) [[104; 105]; [120]] [9] = Ok ([9] ++ filter) /\
    forall key, key ∈ [[104; 105]; [120]] -> bloom_match key filter = Ok true.
Proof.
  apply (bloom_no_false_negative 10); [lia|by vm_compute|].
  repeat (apply Forall_cons_2; [concrete_bytes|]). by apply Forall_nil_2.
Defined.

Lemma bloom_match_safe_witness : exists b, bloom_match [104] [255; 0; 7] = Ok b.
Proof. apply bloom_match_safe; concrete_bytes. Defined.

(** Two data blocks in ranges of their own, with the Bloom policy. *)
Lemma filter_block_no_false_negative_witness :
  let cs := [Start 0; Add [1; 2]; Add [3]; Start 5000; Add [4]] in
  exists contents, @build_filter_block (bloom_policy (NewBloomFilterPolicy 10)) cs = Ok contents /\
    (zlen contents < 2 ^ 32 ->
     exists r, new_FilterBlockReader contents = Ok r /\
       forall o key, (o, key) ∈ added 0 cs ->
         @FilterKeyMayMatch (bloom_policy (NewBloomFilterPolicy 10)) r o key = Ok true).
Proof.
  apply (@filter_block_no_false_negative _ (bloom_fits (NewBloomFilterPolicy 10))
    (bloom_policy_law _ (NewBloomFilterPolicy_ok 10 ltac:(lia)))).
  - cbn. repeat split; try lia; concrete_bytes.
  - intros pend Hl. unfold bloom_fits. simpl in Hl. unfold zlen.
    change (bits_per_key_ _) with 10. lia.
Defined.
