(* ===== verification/Env.v ===== *)
(** * Statuses, slices and files ([leveldb/status.h, slice.h, env.h])

    What the log and the tables are written against.  The files are
    interfaces, implemented by the environment; each comes with the laws its
    documentation promises. *)
From S2P Require Import Prelude.

(** ** Status

    An error is a code and a message. *)
Inductive Code : Type :=
| kOk | kNotFound | kCorruption | kNotSupported | kInvalidArgument | kIOError.
Record Status : Type := mk_status { code : Code; state_ : string }.
Definition OK : Status := mk_status kOk "".
Definition ok (s : Status) : bool := match code s with kOk => true | _ => false end.

(** [Status::Status(code, msg, msg2)] joins the messages. *)
Definition make_status (c : Code) (msg msg2 : string) : Status :=
  mk_status c (if String.eqb msg2 "" then msg else String.append msg (String.append ": " msg2)).
Definition Corruption (msg : string) : Status := make_status kCorruption msg "".
Definition NotFound (msg : string) : Status := make_status kNotFound msg "".
Definition IOError (msg msg2 : string) : Status := make_status kIOError msg msg2.

#[global] Instance Code_eq_dec : EqDecision Code.
Proof. solve_decision. Defined.
#[global] Instance Status_eq_dec : EqDecision Status.
Proof. solve_decision. Defined.

(** ** Slice

    The value of the pointer and the bytes it designates. *)
Record Slice : Type := mk_slice { data_ : Z; contents : list Z }.
Definition size (s : Slice) : Z := zlen (contents s).
Definition clear (s : Slice) : Slice := mk_slice 0 [].
Definition remove_prefix (n : Z) (s : Slice) : outcome Slice :=
  if n <=? size s then Ok (mk_slice (data_ s + n) (drop (Z.to_nat n) (contents s)))
  else UB BadAssert.

(** ** Files written in sequence *)
Class WritableFile (F : Type) : Type := {
  Append : list Z -> F -> Status * F;
  Flush : F -> Status * F
}.

(** A file whose operations succeed, and what was written to it. *)
Class ReliableFile F `{WritableFile F} (reliable : F -> Prop) (written : F -> list Z) : Prop := {
  append_ok : forall data f, reliable f -> exists f', Append data f = (OK, f') /\
    reliable f' /\ written f' = written f ++ data;
  flush_ok : forall f, reliable f -> exists f', Flush f = (OK, f') /\
    reliable f' /\ written f' = written f
}.

(** ** Files read in sequence *)
Class SequentialFile (F : Type) : Type := {
  Read : Z -> F -> Status * list Z * F;
  Skip : Z -> F -> Status * F
}.

(** A file that can be read to its end: [unread] is what is left of it. *)
Class ReadableFile F `{SequentialFile F} (unread : F -> list Z) : Prop := {
  read_ok : forall n f, 0 <= n -> exists f', Read n f = (OK, take (Z.to_nat n) (unread f), f') /\
    unread f' = drop (Z.to_nat n) (unread f);
  skip_ok : forall n f, 0 <= n -> exists f', Skip n f = (OK, f') /\
    unread f' = drop (Z.to_nat n) (unread f)
}.

(** ** Files that are read at any offset

    [scratch] is the address of the buffer the caller provides. *)
Class RandomAccessFile (F : Type) : Type := {
  ReadAt : F -> Z -> Z -> Z -> Status * Slice
}.

(** A file whose reads succeed; the slice may be at any address. *)
Class ReadableAt F `{RandomAccessFile F} (file_bytes : F -> list Z) : Prop := {
  read_at_ok : forall f offset n scratch, 0 <= offset -> 0 <= n -> exists addr,
    ReadAt f offset n scratch = (OK, mk_slice addr (take (Z.to_nat n) (drop (Z.to_nat offset) (file_bytes f))))
}.

(** ** Files in memory *)

(** The bytes written, and how many more appends succeed, if bounded. *)
Record MemFile : Type := mk_mem { mem_bytes : list Z; mem_budget : option nat }.
#[export] Instance mem_writable : WritableFile MemFile := {
  Append data f :=
    match mem_budget f with
    | Some O => (IOError "append" "no space", f)
    | Some (S n) => (OK, mk_mem (mem_bytes f ++ data) (Some n))
    | None => (OK, mk_mem (mem_bytes f ++ data) None)
    end;
  Flush f := (OK, f)
}.
#[export] Instance mem_reliable : ReliableFile MemFile (fun f => mem_budget f = None) mem_bytes.
Proof.
  split.
  - intros data [l b] Hb. cbn in Hb. subst b. by eexists.
  - intros f Hf. by exists f.
Qed.

#[export] Instance mem_sequential : SequentialFile (list Z) := {
  Read n f := (OK, take (Z.to_nat n) f, drop (Z.to_nat n) f);
  Skip n f := (OK, drop (Z.to_nat n) f)
}.
#[export] Instance mem_readable : ReadableFile (list Z) (fun f => f).
Proof. split; intros n f _; by eexists. Qed.

#[export] Instance mem_random_access : RandomAccessFile (list Z) := {
  ReadAt f offset n scratch :=
    (OK, mk_slice scratch (if zlen f <? offset then [] else
                             take (Z.to_nat (Z.min n (zlen f))) (drop (Z.to_nat offset) f)))
}.

#[export] Instance mem_readable_at : ReadableAt (list Z) (fun f => f).
Proof.
  split. intros f offset n scratch Ho Hn. exists scratch. cbn [ReadAt mem_random_access]. do 2 f_equal.
  destruct (Z.ltb_spec (zlen f) offset) as [Hgt|Hle].
  - rewrite drop_ge by (unfold zlen in *; lia). by rewrite take_nil.
  - destruct (Z.leb_spec n (zlen f)); [by rewrite Z.min_l by lia|].
    rewrite Z.min_r by lia. rewrite !take_ge by (rewrite length_drop; unfold zlen in *; lia). done.
Qed.

(** [n] bytes at offset [off] of what a pointer designates. *)
Definition bytes_at (off n : Z) (p : list Z) : outcome (list Z) :=
  if off + n <=? zlen p then Ok (take (Z.to_nat n) (drop (Z.to_nat off) p)) else UB OverRead.

Lemma bytes_at_ok off n p :
  off + n <= zlen p -> bytes_at off n p = Ok (take (Z.to_nat n) (drop (Z.to_nat off) p)).
Proof. intros Hn. unfold bytes_at. by rewrite (proj2 (Z.leb_le _ _) Hn). Qed.
