(* ===== verification/Log.v ===== *)
(** * The log writer ([db/log_format.h, db/log_writer.cc])

    A log is a sequence of blocks of 32 KB; a record is written as one or
    more fragments, none of which crosses a block's end. *)
From S2P Require Import Prelude Coding Crc32c Env.

Definition kZeroType : Z := 0.
Definition kFullType : Z := 1.
Definition kFirstType : Z := 2.
Definition kMiddleType : Z := 3.
Definition kLastType : Z := 4.
Definition kMaxRecordType : Z := kLastType.
Definition kBlockSize : Z := 32768.
Definition kHeaderSize : Z := 4 + 2 + 1.

(** [type_crc[i] = crc32c::Value(&t, 1)] for the types up to the last one;
    [addr] is the address of [t]. *)
Fixpoint init_type_crc (addr : Z) (types : list Z) : outcome (list Z) :=
  match types with
  | [] => Ok []
  | t :: types' =>
      let! c := Value addr [t] in
      let! cs := init_type_crc addr types' in
      Ok (c :: cs)
  end.
Definition InitTypeCrc (addr : Z) : outcome (list Z) :=
  init_type_crc addr (map Z.of_nat (seq 0 (Z.to_nat (kMaxRecordType + 1)))).

Section LogWriter.
Context {F : Type} `{WritableFile F}.

Record Writer : Type := mk_writer {
  dest_ : F;
  block_offset_ : Z;
  type_crc_ : list Z
}.

Definition new_Writer (addr : Z) (dest : F) : outcome Writer :=
  let! crcs := InitTypeCrc addr in Ok (mk_writer dest 0 crcs).

(** For a log that already has [dest_length] bytes. *)
Definition new_Writer_at (addr : Z) (dest : F) (dest_length : Z) : outcome Writer :=
  let! crcs := InitTypeCrc addr in Ok (mk_writer dest (dest_length mod kBlockSize) crcs).

(** [ptr] and the [length] bytes it designates are a slice. *)
Definition EmitPhysicalRecord (t : Z) (s : Slice) (w : Writer) : outcome (Status * Writer) :=
  let length := size s in
  assert (length <=? 0xffff)
  (assert (block_offset_ w + kHeaderSize + length <=? kBlockSize)
  (let! type_crc := or_ub OverRead (type_crc_ w !! Z.to_nat t) in
   let! crc := Extend (data_ s) type_crc (contents s) in
   let crc := Mask crc in
   let buf := EncodeFixed32 crc ++ [uchar (Z.land length 0xff); uchar (Z.shiftr length 8); uchar t] in
   let (st, dest) := Append buf (dest_ w) in
   let (st, dest) :=
     if ok st then
       let (st, dest) := Append (contents s) dest in
       if ok st then Flush dest else (st, dest)
     else (st, dest) in
   Ok (st, mk_writer dest (block_offset_ w + (kHeaderSize + length)) (type_crc_ w)))).

(** The start of an iteration: the trailer is filled when no header fits.
    The status of that append is not looked at. *)
Definition switch_block (w : Writer) : outcome Writer :=
  let leftover := kBlockSize - block_offset_ w in
  assert (0 <=? leftover)
  (if leftover <? kHeaderSize then
     let dest :=
       if 0 <? leftover then snd (Append (replicate (Z.to_nat leftover) 0) (dest_ w)) else dest_ w in
     Ok (mk_writer dest 0 (type_crc_ w))
   else Ok w).

Definition fragment_type (is_begin is_end : bool) : Z :=
  if is_begin && is_end then kFullType
  else if is_begin then kFirstType
  else if is_end then kLastType
  else kMiddleType.

(** [do ... while (s.ok() && left > 0)]. *)
Fixpoint add_fragments (fuel : nat) (is_begin : bool) (s : Slice) (w : Writer) :
    outcome (Status * Writer) :=
  match fuel with
  | O => Timeout
  | S n =>
      let! w := switch_block w in
      assert (0 <=? kBlockSize - block_offset_ w - kHeaderSize)
      (let left := size s in
       let avail := kBlockSize - block_offset_ w - kHeaderSize in
       let fragment_length := if left <? avail then left else avail in
       let is_end := left =? fragment_length in
       let fragment := mk_slice (data_ s) (take (Z.to_nat fragment_length) (contents s)) in
       let! (st, w) := EmitPhysicalRecord (fragment_type is_begin is_end) fragment w in
       let s := mk_slice (data_ s + fragment_length) (drop (Z.to_nat fragment_length) (contents s)) in
       if ok st && (0 <? size s) then add_fragments n false s w else Ok (st, w))
  end.

(** At most one fragment is empty, so two iterations more than there are
    bytes are enough. *)
Definition AddRecord (s : Slice) (w : Writer) : outcome (Status * Writer) :=
  add_fragments (S (S (length (contents s)))) true s w.

(** Records added one after the other, while they succeed. *)
Fixpoint add_records (rs : list Slice) (w : Writer) : outcome (Status * Writer) :=
  match rs with
  | [] => Ok (OK, w)
  | r :: rs' =>
      let! (st, w) := AddRecord r w in
      if ok st then add_records rs' w else Ok (st, w)
  end.
End LogWriter.
Arguments Writer : clear implicits.

(** ** The log reader ([db/log_reader.cc])

    The reporter's calls are kept as the list of what was reported.  A
    fragment is the list of its bytes: the backing store it points into is
    overwritten only by the next read, after its last use. *)
(** Results of [ReadPhysicalRecord] that are no record types. *)
Definition kEof : Z := kMaxRecordType + 1.
Definition kBadRecord : Z := kMaxRecordType + 2.

(** The decimal digits [%u] prints for a 32-bit value, into a buffer that has
    room for all of them. *)
Fixpoint decimal (fuel : nat) (n : Z) (tail : string) : string :=
  match fuel with
  | O => tail
  | S f =>
      let digit := String (Ascii.ascii_of_nat (48 + Z.to_nat (n mod 10))) tail in
      if n <? 10 then digit else decimal f (n / 10) digit
  end.
Definition unknown_type (record_type : Z) : string :=
  String.append "unknown record type " (decimal 10 record_type "").

Section LogReader.
Context {F : Type} `{SequentialFile F}.

(** [backing_store_] is the address of the reader's buffer. *)
Record Reader : Type := mk_reader {
  file_ : F;
  reporter_ : option (list (Z * Status));
  checksum_ : bool;
  backing_store_ : Z;
  buffer_ : Slice;
  eof_ : bool;
  last_record_offset_ : Z;
  end_of_buffer_offset_ : Z;
  initial_offset_ : Z;
  resyncing_ : bool
}.

Definition new_Reader (file : F) (reporter : option (list (Z * Status))) (checksum : bool)
    (backing_store initial_offset : Z) : Reader :=
  mk_reader file reporter checksum backing_store (mk_slice 0 []) false 0 0 initial_offset
    (0 <? initial_offset).

(** Assignments to the members. *)
Definition set_file (x : F) (r : Reader) : Reader :=
  mk_reader x (reporter_ r) (checksum_ r) (backing_store_ r) (buffer_ r) (eof_ r)
    (last_record_offset_ r) (end_of_buffer_offset_ r) (initial_offset_ r) (resyncing_ r).
Definition set_reporter (x : option (list (Z * Status))) (r : Reader) : Reader :=
  mk_reader (file_ r) x (checksum_ r) (backing_store_ r) (buffer_ r) (eof_ r)
    (last_record_offset_ r) (end_of_buffer_offset_ r) (initial_offset_ r) (resyncing_ r).
Definition set_buffer (x : Slice) (r : Reader) : Reader :=
  mk_reader (file_ r) (reporter_ r) (checksum_ r) (backing_store_ r) x (eof_ r)
    (last_record_offset_ r) (end_of_buffer_offset_ r) (initial_offset_ r) (resyncing_ r).
Definition set_eof (x : bool) (r : Reader) : Reader :=
  mk_reader (file_ r) (reporter_ r) (checksum_ r) (backing_store_ r) (buffer_ r) x
    (last_record_offset_ r) (end_of_buffer_offset_ r) (initial_offset_ r) (resyncing_ r).
Definition set_last (x : Z) (r : Reader) : Reader :=
  mk_reader (file_ r) (reporter_ r) (checksum_ r) (backing_store_ r) (buffer_ r) (eof_ r)
    x (end_of_buffer_offset_ r) (initial_offset_ r) (resyncing_ r).
Definition set_end (x : Z) (r : Reader) : Reader :=
  mk_reader (file_ r) (reporter_ r) (checksum_ r) (backing_store_ r) (buffer_ r) (eof_ r)
    (last_record_offset_ r) x (initial_offset_ r) (resyncing_ r).
Definition set_resyncing (x : bool) (r : Reader) : Reader :=
  mk_reader (file_ r) (reporter_ r) (checksum_ r) (backing_store_ r) (buffer_ r) (eof_ r)
    (last_record_offset_ r) (end_of_buffer_offset_ r) (initial_offset_ r) x.

Definition ReportDrop (bytes : Z) (reason : Status) (r : Reader) : Reader :=
  match reporter_ r with
  | Some log =>
      if initial_offset_ r <=? wrap 64 (end_of_buffer_offset_ r - size (buffer_ r) - bytes)
      then set_reporter (Some (log ++ [(bytes, reason)])) r else r
  | None => r
  end.
Definition ReportCorruption (bytes : Z) (reason : string) (r : Reader) : Reader :=
  ReportDrop bytes (Corruption reason) r.

Definition SkipToInitialBlock (r : Reader) : bool * Reader :=
  let offset_in_block := initial_offset_ r mod kBlockSize in
  let block_start_location := initial_offset_ r - offset_in_block in
  let block_start_location :=
    if kBlockSize - 6 <? offset_in_block then wrap 64 (block_start_location + kBlockSize)
    else block_start_location in
  let r := set_end block_start_location r in
  if 0 <? block_start_location then
    let (skip_status, file) := Skip block_start_location (file_ r) in
    let r := set_file file r in
    if ok skip_status then (true, r)
    else (false, ReportDrop block_start_location skip_status r)
  else (true, r).

(** [actual_crc == expected_crc], over the type and the payload. *)
Definition check_crc (header : Slice) (length : Z) : outcome bool :=
  let! stored := DecodeFixed32 (contents header) in
  let expected_crc := Unmask stored in
  let! data := bytes_at 6 (1 + length) (contents header) in
  let! actual_crc := Value (data_ header + 6) data in
  Ok (actual_crc =? expected_crc).

(** What is done with a record of the header's type and length. *)
Definition accept_physical (type length : Z) (result : list Z) (r : Reader) :
    outcome (Z * list Z * Reader) :=
  let header := contents (buffer_ r) in
  if size (buffer_ r) <? kHeaderSize + length then
    let drop_size := size (buffer_ r) in
    let r := set_buffer (clear (buffer_ r)) r in
    if negb (eof_ r) then Ok (kBadRecord, result, ReportCorruption drop_size "bad record length" r)
    else Ok (kEof, result, r)
  else if (type =? kZeroType) && (length =? 0) then
    Ok (kBadRecord, result, set_buffer (clear (buffer_ r)) r)
  else
    let! crc_ok := (if checksum_ r then check_crc (buffer_ r) length else Ok true) in
    if negb crc_ok then
      let drop_size := size (buffer_ r) in
      let r := set_buffer (clear (buffer_ r)) r in
      Ok (kBadRecord, result, ReportCorruption drop_size "checksum mismatch" r)
    else
      let! buffer := remove_prefix (kHeaderSize + length) (buffer_ r) in
      let r := set_buffer buffer r in
      if wrap 64 (end_of_buffer_offset_ r - size (buffer_ r) - kHeaderSize - length)
         <? initial_offset_ r then Ok (kBadRecord, [], r)
      else
        let! data := bytes_at kHeaderSize length header in
        Ok (type, data, r).

(** The record in a buffer of at least a header, after the refill. *)
Definition parse_physical (result : list Z) (r : Reader) : outcome (Z * list Z * Reader) :=
  let header := contents (buffer_ r) in
  let! h4 := or_ub OverRead (header !! 4%nat) in
  let! h5 := or_ub OverRead (header !! 5%nat) in
  let! h6 := or_ub OverRead (header !! 6%nat) in
  let a := Z.land (wrap 32 (swrap 8 h4)) 0xff in
  let b := Z.land (wrap 32 (swrap 8 h5)) 0xff in
  let type := wrap 32 (swrap 8 h6) in
  let length := Z.lor a (wrap 32 (Z.shiftl b 8)) in
  accept_physical type length result r.

(** [while (true)]: the block is refilled at most once. *)
Fixpoint read_physical (fuel : nat) (result : list Z) (r : Reader) : outcome (Z * list Z * Reader) :=
  match fuel with
  | O => Timeout
  | S n =>
      if size (buffer_ r) <? kHeaderSize then
        if negb (eof_ r) then
          let '(status, data, file) := Read kBlockSize (file_ r) in
          let r := set_buffer (mk_slice (backing_store_ r) data) (set_file file r) in
          let r := set_end (wrap 64 (end_of_buffer_offset_ r + size (buffer_ r))) r in
          if negb (ok status) then
            let r := ReportDrop kBlockSize status (set_buffer (clear (buffer_ r)) r) in
            Ok (kEof, result, set_eof true r)
          else read_physical n result (if size (buffer_ r) <? kBlockSize then set_eof true r else r)
        else Ok (kEof, result, set_buffer (clear (buffer_ r)) r)
      else parse_physical result r
  end.
Definition ReadPhysicalRecord (result : list Z) (r : Reader) : outcome (Z * list Z * Reader) :=
  read_physical 3 result r.

(** [while (true)] of [ReadRecord]; [None] is the result [false]. *)
Fixpoint read_record (fuel : nat) (fragment scratch : list Z) (in_fragmented_record : bool)
    (prospective_record_offset : Z) (r : Reader) : outcome (option (list Z) * Reader) :=
  match fuel with
  | O => Timeout
  | S n =>
      let! (record_type, fragment, r) := ReadPhysicalRecord fragment r in
      let physical_record_offset :=
        wrap 64 (end_of_buffer_offset_ r - size (buffer_ r) - kHeaderSize - zlen fragment) in
      if resyncing_ r && (record_type =? kMiddleType) then
        read_record n fragment scratch in_fragmented_record prospective_record_offset r
      else if resyncing_ r && (record_type =? kLastType) then
        read_record n fragment scratch in_fragmented_record prospective_record_offset
          (set_resyncing false r)
      else
        let r := set_resyncing false r in
        let partial := in_fragmented_record && negb (zlen scratch =? 0) in
        if record_type =? kFullType then
          let r := if partial then ReportCorruption (zlen scratch) "partial record without end(1)" r
                   else r in
          Ok (Some fragment, set_last physical_record_offset r)
        else if record_type =? kFirstType then
          let r := if partial then ReportCorruption (zlen scratch) "partial record without end(2)" r
                   else r in
          read_record n fragment fragment true physical_record_offset r
        else if record_type =? kMiddleType then
          if negb in_fragmented_record then
            read_record n fragment scratch in_fragmented_record prospective_record_offset
              (ReportCorruption (zlen fragment) "missing start of fragmented record(1)" r)
          else
            read_record n fragment (scratch ++ fragment) in_fragmented_record
              prospective_record_offset r
        else if record_type =? kLastType then
          if negb in_fragmented_record then
            read_record n fragment scratch in_fragmented_record prospective_record_offset
              (ReportCorruption (zlen fragment) "missing start of fragmented record(2)" r)
          else Ok (Some (scratch ++ fragment), set_last prospective_record_offset r)
        else if record_type =? kEof then Ok (None, r)
        else if record_type =? kBadRecord then
          if in_fragmented_record then
            read_record n fragment [] false prospective_record_offset
              (ReportCorruption (zlen scratch) "error in middle of record" r)
          else read_record n fragment scratch in_fragmented_record prospective_record_offset r
        else
          read_record n fragment [] false prospective_record_offset
            (ReportCorruption (zlen fragment + (if in_fragmented_record then zlen scratch else 0))
               (unknown_type record_type) r)
  end.

Definition ReadRecord (fuel : nat) (r : Reader) : outcome (option (list Z) * Reader) :=
  let (skipped, r) :=
    if last_record_offset_ r <? initial_offset_ r then SkipToInitialBlock r else (true, r) in
  if skipped : bool then read_record fuel [] [] false 0 r else Ok (None, r).

Definition LastRecordOffset (r : Reader) : Z := last_record_offset_ r.

(** Reading until [ReadRecord] returns false: at most [n] records. *)
Fixpoint read_all (n fuel : nat) (r : Reader) : outcome (list (list Z) * Reader) :=
  match n with
  | O => Timeout
  | S n' =>
      let! (record, r) := ReadRecord fuel r in
      match record with
      | Some s => let! (rs, r) := read_all n' fuel r in Ok (s :: rs, r)
      | None => Ok ([], r)
      end
  end.
End LogReader.
Arguments Reader : clear implicits.
