(* ===== verification/LogFormat.v ===== *)
(** * The log format, and the writer's output

    The format of [doc/log_format.md] as a relation between a record and its
    bytes; the writer produces it. *)
From S2P Require Import Prelude Coding CodingProof Crc32c Crc32cProof Env Log.

(** ** The format

    A header does not start in the last six bytes of a block: these are
    zeroes, and the fragment starts in the next block. *)
Definition start (p : Z) : Z := if kBlockSize - p <? kHeaderSize then 0 else p.
Definition pad (p : Z) : list Z :=
  if kBlockSize - p <? kHeaderSize then replicate (Z.to_nat (kBlockSize - p)) 0 else [].

(** Checksum, length, type and payload. *)
Definition physical (t : Z) (s : list Z) : list Z :=
  le_bytes 4 (Mask (crc32c 0 (t :: s))) ++ le_bytes 2 (zlen s) ++ t :: s.

(** [laid_out is_begin p s bs q]: the rest [s] of a record, from the position
    [p] in a block, is stored as [bytes] and ends at the position [q]. *)
Inductive laid_out (is_begin : bool) (p : Z) : list Z -> list Z -> Z -> Prop :=
| laid_last s :
    zlen s <= kBlockSize - start p - kHeaderSize ->
    laid_out is_begin p s (pad p ++ physical (fragment_type is_begin true) s)
      (start p + kHeaderSize + zlen s)
| laid_more s1 s2 bs q :
    zlen s1 = kBlockSize - start p - kHeaderSize -> 0 < zlen s2 ->
    laid_out false kBlockSize s2 bs q ->
    laid_out is_begin p (s1 ++ s2) (pad p ++ physical (fragment_type is_begin false) s1 ++ bs) q.

(** A sequence of records. *)
Inductive log_format (p : Z) : list (list Z) -> list Z -> Z -> Prop :=
| log_nil : log_format p [] [] p
| log_cons s bs q rs bss q' :
    laid_out true p s bs q -> log_format q rs bss q' ->
    log_format p (s :: rs) (bs ++ bss) q'.

Definition in_block (p : Z) : Prop := 0 <= p <= kBlockSize.

Lemma start_range p : in_block p -> 0 <= start p <= kBlockSize - kHeaderSize.
Proof.
  intros Hp. unfold in_block, start, kBlockSize, kHeaderSize in *. destruct (Z.ltb_spec (32768 - p) (4 + 2 + 1)); lia.
Qed.

Lemma start_full : start kBlockSize = 0.
Proof. done. Qed.

Lemma fragment_type_range a b : 1 <= fragment_type a b <= 4.
Proof. unfold fragment_type, kFullType, kFirstType, kMiddleType, kLastType. destruct a, b; cbn; lia. Qed.

Lemma zlen_physical t s : zlen (physical t s) = kHeaderSize + zlen s.
Proof.
  unfold physical, kHeaderSize. rewrite !zlen_app, zlen_cons. unfold zlen at 1 2. rewrite !length_le_bytes. lia.
Qed.

Lemma physical_nonempty t s : physical t s <> [].
Proof. intros E. pose proof (zlen_physical t s) as H. rewrite E in H. pose proof (zlen_nonneg s). unfold kHeaderSize in H. rewrite zlen_nil in H. lia. Qed.

Lemma laid_out_end is_begin p s bs q : in_block p -> laid_out is_begin p s bs q -> in_block q.
Proof.
  intros Hp Hl. induction Hl as [b p s Hs|b p s1 s2 bs q H1 H2 Hl IH].
  - pose proof (start_range p Hp). pose proof (zlen_nonneg s). unfold in_block, kHeaderSize in *. lia.
  - apply IH. unfold in_block, kBlockSize. lia.
Qed.

(** ** Positions *)
Lemma zlen_to_start p : in_block p -> (p + zlen (pad p)) mod kBlockSize = start p mod kBlockSize.
Proof.
  intros [Hp1 Hp2]. unfold pad, start. destruct (Z.ltb_spec (kBlockSize - p) kHeaderSize).
  - unfold zlen. rewrite length_replicate. replace (p + _) with kBlockSize by lia. done.
  - by rewrite zlen_nil, Z.add_0_r.
Qed.

Lemma laid_out_position b p s bs q :
  in_block p -> laid_out b p s bs q -> (p + zlen bs) mod kBlockSize = q mod kBlockSize.
Proof.
  intros Hp Hl. revert Hp. induction Hl as [b p s Hs|b p s1 s2 bs q H1 H2 Hl IH]; intros Hp;
    rewrite !zlen_app, zlen_physical, Z.add_assoc, <- Zplus_mod_idemp_l, zlen_to_start, Zplus_mod_idemp_l by done.
  - f_equal. lia.
  - rewrite <- IH by (unfold in_block, kBlockSize; lia). f_equal. lia.
Qed.

Lemma log_format_position p rs bs q :
  in_block p -> log_format p rs bs q -> in_block q /\ (p + zlen bs) mod kBlockSize = q mod kBlockSize.
Proof.
  intros Hp Hl. revert Hp. induction Hl as [p|p s bs q rs bss q' Hl Hlog IH]; intros Hp.
  - by rewrite zlen_nil, Z.add_0_r.
  - destruct (IH (laid_out_end _ _ _ _ _ Hp Hl)) as [Hq E]. split; [done|].
    rewrite zlen_app, Z.add_assoc, <- Zplus_mod_idemp_l, (laid_out_position _ _ _ _ _ Hp Hl), Zplus_mod_idemp_l.
    exact E.
Qed.

Lemma log_format_app p rs1 bs1 q rs2 bs2 q' :
  log_format p rs1 bs1 q -> log_format q rs2 bs2 q' -> log_format p (rs1 ++ rs2) (bs1 ++ bs2) q'.
Proof.
  intros Hl. revert rs2 bs2 q'. induction Hl as [p|p s bs q rs bss q1 Hl Hlog IH]; intros rs2 bs2 q' Hl2; [done|].
  rewrite <- app_assoc. cbn [app]. eapply log_cons; [done|by apply IH].
Qed.

(** The end of a block is the start of the next. *)
Lemma laid_out_next b s bs q : laid_out b 0 s bs q -> laid_out b kBlockSize s bs q.
Proof. inversion 1; subst; [by apply (laid_last b kBlockSize)|by apply (laid_more b kBlockSize)]. Qed.

Lemma log_format_next q rs bs q' :
  in_block q -> log_format (q mod kBlockSize) rs bs q' -> exists q2, log_format q rs bs q2.
Proof.
  intros [Hq1 Hq2] Hl. destruct (Z.eqb_spec q kBlockSize) as [->|Hq].
  - rewrite Z.mod_same in Hl by done. inversion Hl; subst; [by eexists; constructor|].
    eexists. eapply log_cons; [by apply laid_out_next|done].
  - rewrite Z.mod_small in Hl by lia. by eexists.
Qed.

(** ** The writer *)
Definition type_crcs : list Z := map (fun t => crc32c 0 [t]) [0; 1; 2; 3; 4].

Lemma InitTypeCrc_ok addr : InitTypeCrc addr = Ok type_crcs.
Proof.
  unfold InitTypeCrc. change (map Z.of_nat _) with [0; 1; 2; 3; 4]. unfold type_crcs, Value.
  assert (Hall : bytes [0; 1; 2; 3; 4]) by (repeat (apply Forall_cons_2; [by vm_compute|]); apply Forall_nil_2).
  revert Hall. generalize [0; 1; 2; 3; 4]. intros l. induction 1 as [|t l Ht _ IH]; [done|].
  cbn [init_type_crc map]. unfold Value. rewrite Extend_spec; [|by vm_compute|by apply Forall_cons_2].
  cbn [obind]. by rewrite IH.
Qed.

Section Writer.
Context {F : Type} `{WritableFile F} {reliable : F -> Prop} {written : F -> list Z}.
Context {Hfile : ReliableFile F reliable written}.

Record writer_ok (w : Writer F) : Prop := {
  wo_file : reliable (dest_ w);
  wo_offset : in_block (block_offset_ w);
  wo_crcs : type_crc_ w = type_crcs
}.

(** [w'] is [w] after [bs] was written. *)
Definition wrote (w : Writer F) (bs : list Z) (q : Z) (w' : Writer F) : Prop :=
  writer_ok w' /\ written (dest_ w') = written (dest_ w) ++ bs /\ block_offset_ w' = q.

Lemma wrote_trans w1 bs1 q1 w2 bs2 q2 w3 :
  wrote w1 bs1 q1 w2 -> wrote w2 bs2 q2 w3 -> wrote w1 (bs1 ++ bs2) q2 w3.
Proof. intros (_ & E1 & _) (H2 & E2 & Hq). split; [done|]. by rewrite E2, E1, app_assoc. Qed.

Lemma switch_block_ok w :
  writer_ok w -> exists w', switch_block w = Ok w' /\ wrote w (pad (block_offset_ w)) (start (block_offset_ w)) w'.
Proof.
  intros [Hr [Hp1 Hp2] Hc]. unfold switch_block. cbv zeta.
  unfold assert. rewrite (proj2 (Z.leb_le _ _)) by lia. unfold pad, start.
  destruct (Z.ltb_spec (kBlockSize - block_offset_ w) kHeaderSize).
  - destruct (Z.ltb_spec 0 (kBlockSize - block_offset_ w)).
    + destruct (append_ok (replicate (Z.to_nat (kBlockSize - block_offset_ w)) 0) _ Hr) as (f & E & Hf & Ef).
      rewrite E. eexists. split; [done|]. split; [|done]. split; [done|by vm_compute|done].
    + replace (Z.to_nat (kBlockSize - block_offset_ w)) with 0%nat by lia.
      eexists. split; [done|]. split; [split; [done|by vm_compute|done]|]. cbn. by rewrite app_nil_r.
  - exists w. split; [done|]. split; [by split|]. by rewrite app_nil_r.
Qed.

Lemma EmitPhysicalRecord_ok t s w :
  writer_ok w -> 1 <= t <= 4 -> bytes (contents s) ->
  block_offset_ w + kHeaderSize + size s <= kBlockSize ->
  exists w', EmitPhysicalRecord t s w = Ok (OK, w') /\
    wrote w (physical t (contents s)) (block_offset_ w + kHeaderSize + size s) w'.
Proof.
  intros [Hr [Hp1 Hp2] Hc] Ht Hb Hsize. unfold EmitPhysicalRecord. cbv zeta.
  pose proof (zlen_nonneg (contents s)) as Hn. unfold size in *.
  unfold assert. rewrite (proj2 (Z.leb_le (zlen (contents s)) 65535)) by (unfold kBlockSize, kHeaderSize in *; lia).
  rewrite (proj2 (Z.leb_le _ _) Hsize). rewrite Hc.
  assert (Hcrc : type_crcs !! Z.to_nat t = Some (crc32c 0 [t])).
  { assert (Hcase : t = 1 \/ t = 2 \/ t = 3 \/ t = 4) by lia. by destruct Hcase as [->|[->|[->| ->]]]. }
  assert (Hbyte : bytes [t]) by (apply Forall_cons_2; [unfold is_byte; lia|apply Forall_nil_2]).
  assert (Hw0 : word 0) by by vm_compute.
  rewrite Hcrc. cbn [or_ub obind]. rewrite Extend_spec by (done || by apply crc32c_word). cbn [obind].
  rewrite crc32c_app. cbn [app].
  assert (Hbuf : EncodeFixed32 (Mask (crc32c 0 (t :: contents s))) ++
    [uchar (Z.land (zlen (contents s)) 255); uchar (Z.shiftr (zlen (contents s)) 8); uchar t] =
    le_bytes 4 (Mask (crc32c 0 (t :: contents s))) ++ le_bytes 2 (zlen (contents s)) ++ [t]).
  { rewrite EncodeFixed32_le. do 2 f_equal. cbn [le_bytes app].
    rewrite land_255, shiftr_div by lia. change (2 ^ 8) with 256.
    unfold uchar, wrap. change (2 ^ 8) with 256. rewrite Zmod_mod, (Z.mod_small t) by lia. done. }
  rewrite Hbuf. destruct (append_ok (le_bytes 4 (Mask (crc32c 0 (t :: contents s))) ++ le_bytes 2 (zlen (contents s)) ++ [t]) _ Hr) as (f1 & -> & Hr1 & E1).
  cbn [ok OK code]. destruct (append_ok (contents s) _ Hr1) as (f2 & -> & Hr2 & E2).
  cbn [ok OK code]. destruct (flush_ok _ Hr2) as (f3 & -> & Hr3 & E3).
  eexists. split; [done|]. split; [|split].
  - split; cbn; [done| |done]. unfold in_block, kHeaderSize in *. lia.
  - cbn [dest_]. rewrite E3, E2, E1. unfold physical. by rewrite <- !app_assoc.
  - cbn. lia.
Qed.

Lemma add_fragments_ok fuel is_begin s w :
  writer_ok w -> bytes (contents s) ->
  (length (contents s) + (if (block_offset_ w =? kBlockSize)%Z then 0 else 1) < fuel)%nat ->
  exists w' bs q, add_fragments fuel is_begin s w = Ok (OK, w') /\
    laid_out is_begin (block_offset_ w) (contents s) bs q /\ wrote w bs q w'.
Proof.
  revert is_begin s w. induction fuel as [|n IH]; intros is_begin s w Hw Hb Hfuel; [lia|].
  cbn [add_fragments]. destruct (switch_block_ok w Hw) as (w1 & -> & Hw1). cbn [obind].
  pose proof Hw1 as ([Hr1 Ho1 Hc1] & Ew1 & Eq1).
  pose proof (start_range _ (wo_offset _ Hw)) as Hstart. pose proof (zlen_nonneg (contents s)) as Hs.
  unfold assert. rewrite Eq1, (proj2 (Z.leb_le _ _)) by lia. cbv zeta.
  set (p := start (block_offset_ w)) in *. set (avail := kBlockSize - p - kHeaderSize) in *.
  set (len := if size s <? avail then size s else avail).
  assert (Hlen : 0 <= len <= avail /\ len <= size s /\ (len = size s \/ len = avail)).
  { unfold len, size. destruct (Z.ltb_spec (zlen (contents s)) avail); lia. }
  assert (Htake : zlen (take (Z.to_nat len) (contents s)) = len).
  { unfold zlen, size in *. rewrite length_take. unfold zlen in *. lia. }
  assert (Hdrop : zlen (drop (Z.to_nat len) (contents s)) = size s - len).
  { unfold zlen, size in *. rewrite length_drop. unfold zlen in *. lia. }
  remember (size s =? len) as is_end eqn:He.
  destruct (EmitPhysicalRecord_ok (fragment_type is_begin is_end)
    (mk_slice (data_ s) (take (Z.to_nat len) (contents s))) w1) as (w2 & -> & Hw2);
    [done|apply fragment_type_range|by apply Forall_take| |].
  { unfold size. cbn [contents]. rewrite Htake, Eq1. lia. }
  cbn [obind contents] in *. unfold size in Hw2. cbn [contents] in Hw2.
  rewrite Htake, Eq1 in Hw2. pose proof (wrote_trans _ _ _ _ _ _ _ Hw1 Hw2) as Hw12.
  change (ok OK) with true. cbn [andb]. unfold size at 1. cbn [contents]. rewrite Hdrop.
  destruct is_end; [apply eq_sym, Z.eqb_eq in He as E|apply eq_sym, Z.eqb_neq in He as E].
  - rewrite E, Z.sub_diag. cbn [Z.ltb Z.compare].
    assert (Hall : take (Z.to_nat len) (contents s) = contents s).
    { apply take_ge. unfold size, zlen in E. lia. }
    rewrite Hall in *. do 3 eexists. split; [done|]. split; [|exact Hw12].
    rewrite <- Htake. apply laid_last. fold p. fold avail. rewrite Htake. lia.
  - destruct (Z.ltb_spec 0 (size s - len)); [|lia].
    assert (Hp2 : block_offset_ w2 = kBlockSize) by (destruct Hw2 as (_ & _ & ->); lia).
    destruct (IH false (mk_slice (data_ s + len) (drop (Z.to_nat len) (contents s))) w2) as (w3 & bs & q & -> & Hl & Hw3).
    { by destruct Hw2. } { by apply Forall_drop. }
    { rewrite Hp2, Z.eqb_refl. cbn [contents]. unfold size, zlen in *.
      destruct (Z.eqb_spec (block_offset_ w) kBlockSize) as [Eb|Eb]; [|lia].
      assert (0 < len); [|lia]. destruct Hlen as (_ & _ & [?|?]); [lia|].
      unfold avail, p in *. rewrite Eb, start_full in *. unfold kBlockSize, kHeaderSize in *. lia. }
    cbn [contents] in Hl. rewrite Hp2 in Hl. do 3 eexists. split; [done|].
    pose proof (wrote_trans _ _ _ _ _ _ _ Hw12 Hw3) as Hw123. rewrite <- app_assoc in Hw123.
    split; [|exact Hw123]. rewrite <- (take_drop (Z.to_nat len) (contents s)) at 1.
    apply laid_more; [fold p; fold avail; lia|lia|done].
Qed.

Lemma AddRecord_ok s w :
  writer_ok w -> bytes (contents s) ->
  exists w' bs q, AddRecord s w = Ok (OK, w') /\
    laid_out true (block_offset_ w) (contents s) bs q /\ wrote w bs q w'.
Proof. intros Hw Hb. apply add_fragments_ok; [done|done|]. destruct (_ =? _); lia. Qed.

Lemma add_records_ok rs w :
  writer_ok w -> Forall (fun s => bytes (contents s)) rs ->
  exists w' bs q, add_records rs w = Ok (OK, w') /\
    log_format (block_offset_ w) (map contents rs) bs q /\ wrote w bs q w'.
Proof.
  revert w. induction rs as [|s rs IH]; intros w Hw Hb.
  - exists w, [], (block_offset_ w). split; [done|]. split; [constructor|]. split; [done|]. by rewrite app_nil_r.
  - inversion Hb; subst. destruct (AddRecord_ok s w) as (w1 & bs & q & E & Hl & Hw1); [done|done|].
    pose proof Hw1 as (Hok1 & _ & Hq1).
    destruct (IH w1 Hok1) as (w2 & bss & q' & E2 & Hl2 & Hw2); [done|].
    exists w2, (bs ++ bss), q'. cbn [add_records map]. rewrite E. cbn [obind ok OK code]. split; [done|].
    split; [|by eapply wrote_trans]. rewrite Hq1 in Hl2. by eapply log_cons.
Qed.

Lemma new_Writer_ok addr f :
  reliable f -> exists w, new_Writer addr f = Ok w /\ writer_ok w /\ block_offset_ w = 0 /\ dest_ w = f.
Proof.
  intros Hf. unfold new_Writer. rewrite InitTypeCrc_ok. cbn [obind]. eexists. split; [done|].
  split; [split; [done|by vm_compute|done]|done].
Qed.

Lemma new_Writer_at_ok addr f n :
  reliable f -> 0 <= n ->
  exists w, new_Writer_at addr f n = Ok w /\ writer_ok w /\ block_offset_ w = n mod kBlockSize /\ dest_ w = f.
Proof.
  intros Hf Hn. unfold new_Writer_at. rewrite InitTypeCrc_ok. cbn [obind]. eexists. split; [done|].
  split; [split; [done| |done]|done]. cbn. pose proof (Z.mod_pos_bound n kBlockSize ltac:(done)).
  unfold in_block. lia.
Qed.
End Writer.
