(* ===== verification/LogProof.v ===== *)
(** * Reading back a log, whole or cut short

    The reader, at a position of a log, returns the records the bytes that
    are left hold, and reports nothing. *)
From S2P Require Import Prelude Coding CodingProof Crc32c Crc32cProof Env Log LogFormat.

(** ** A header's fields *)
Lemma char_byte b : is_byte b -> Z.land (wrap 32 (swrap 8 b)) 0xff = b.
Proof.
  intros Hb. apply Z.eqb_eq.
  exact (range_cases 256 (fun b => Z.land (wrap 32 (swrap 8 b)) 0xff =? b) eq_refl b Hb).
Qed.

Lemma char_type t : 1 <= t <= 4 -> wrap 32 (swrap 8 t) = t.
Proof. intros Ht. rewrite swrap_small, wrap_small by lia. done. Qed.

Lemma header_length n : 0 <= n < 2 ^ 16 ->
  Z.lor (n mod 256) (wrap 32 (Z.shiftl (n / 256 mod 256) 8)) = n.
Proof.
  intros Hn. pose proof (Z.mod_pos_bound n 256 ltac:(lia)).
  assert (Hq : n / 256 mod 256 = n / 256) by (apply Z.mod_small; split; [apply Z.div_pos; lia|]; apply Z.div_lt_upper_bound; lia).
  rewrite Hq, wrap_small.
  - rewrite lor_shiftl_add by lia. change (2 ^ 8) with 256. pose proof (Z.div_mod n 256 ltac:(lia)). lia.
  - rewrite Z.shiftl_mul_pow2 by lia. pose proof (Z.div_pos n 256 ltac:(lia) ltac:(lia)).
    assert (n / 256 < 256) by (apply Z.div_lt_upper_bound; lia). lia.
Qed.

Lemma physical_cons t s : exists m0 m1 m2 m3,
  of_le [m0; m1; m2; m3] = Mask (crc32c 0 (t :: s)) /\
  forall rest, physical t s ++ rest =
    m0 :: m1 :: m2 :: m3 :: zlen s mod 256 :: zlen s / 256 mod 256 :: t :: s ++ rest.
Proof.
  pose proof (of_le_bytes 4 (Mask (crc32c 0 (t :: s)))) as E. cbn [le_bytes] in E.
  do 4 eexists. split; [|reflexivity]. rewrite E. apply Z.mod_small. exact (Mask_word _).
Qed.

Lemma check_crc_ok (checksum : bool) addr m0 m1 m2 m3 h4 h5 t s buf :
  of_le [m0; m1; m2; m3] = Mask (crc32c 0 (t :: s)) -> is_byte t -> bytes s ->
  (if checksum
   then check_crc (mk_slice addr (m0 :: m1 :: m2 :: m3 :: h4 :: h5 :: t :: s ++ buf)) (zlen s)
   else Ok true) = Ok true.
Proof.
  intros Hm Ht Hb. destruct checksum; [|done]. unfold check_crc, DecodeFixed32, kLittleEndian.
  cbn [contents data_ obind]. pose proof (zlen_nonneg buf).
  assert (Hts : bytes (t :: s)) by by apply Forall_cons_2.
  rewrite bytes_at_ok by (rewrite !zlen_cons, zlen_app; lia).
  change (drop (Z.to_nat 6) _) with (t :: s ++ buf).
  replace (Z.to_nat (1 + zlen s)) with (S (length s)) by (unfold zlen; lia).
  cbn [take obind]. rewrite take_app_length. unfold Value.
  rewrite Extend_spec by (done || by vm_compute). cbn [obind].
  rewrite Hm, Unmask_Mask by (apply crc32c_word; [by vm_compute|done]). by rewrite Z.eqb_refl.
Qed.

(** A list that begins a list of at least its length. *)
Lemma prefix_split (a b x : list Z) : zlen a <= zlen x -> x `prefix_of` a ++ b ->
  exists y, x = a ++ y /\ y `prefix_of` b.
Proof.
  intros Hl [k Hk]. apply eq_sym in Hk. apply app_eq_inv in Hk as [(y & -> & ->)|(y & -> & ->)].
  - exists y. split; [done|]. by exists k.
  - exists []. rewrite zlen_app in Hl. assert (y = []) as -> by (destruct y; [done|]; rewrite zlen_cons in Hl; pose proof (zlen_nonneg y); lia).
    rewrite !app_nil_r. split; [done|]. by exists b.
Qed.

(** ** Stored records are never empty, and determined by their record *)
Lemma laid_out_size b p s bs q : laid_out b p s bs q -> kHeaderSize <= zlen bs.
Proof.
  destruct 1 as [s Hs|s1 s2 bs q H1 H2 Hl]; rewrite !zlen_app, zlen_physical.
  - pose proof (zlen_nonneg (pad p)). pose proof (zlen_nonneg s). lia.
  - pose proof (zlen_nonneg (pad p)). pose proof (zlen_nonneg s1). pose proof (zlen_nonneg bs). lia.
Qed.

Lemma laid_out_fun b p s bs q bs' q' :
  laid_out b p s bs q -> laid_out b p s bs' q' -> bs = bs' /\ q = q'.
Proof.
  intros Hl. revert bs' q'. induction Hl as [b p s Hs|b p s1 s2 bs q H1 H2 Hl IH]; intros bs' q' Hl'.
  - inversion Hl' as [|s1 s2 ? ? H1 H2]; subst; [done|]. rewrite zlen_app in Hs. lia.
  - inversion Hl' as [? Hs|s1' s2' bs2 ? H1' H2' Hl2 E]; subst; [rewrite zlen_app in Hs; lia|].
    apply app_inj_1 in E as [-> ->]; [|unfold zlen in *; lia].
    destruct (IH _ _ Hl2) as [-> ->]. done.
Qed.

(** ** The reader at a position of a log *)
Section Reader.
Context {F : Type} `{SequentialFile F} {unread : F -> list Z}.
Context {Hfile : ReadableFile F unread}.

(** [r] is at the position [p] of a block and [tail] is what is left. *)
Record reads_from (r : Reader F) (p : Z) (tail : list Z) : Prop := {
  rf_initial : initial_offset_ r = 0;
  rf_resync : resyncing_ r = false;
  rf_tail : contents (buffer_ r) ++ unread (file_ r) = tail;
  rf_eof : if eof_ r then unread (file_ r) = [] /\ zlen (contents (buffer_ r)) <= kBlockSize - p
           else zlen (contents (buffer_ r)) = kBlockSize - p \/ p = 0 /\ contents (buffer_ r) = [];
  rf_block : in_block p;
  rf_last : 0 <= last_record_offset_ r
}.

(** The two ways reading a physical record goes. *)
Definition read_one (o : outcome (Z * list Z * Reader F)) (r : Reader F) (q t : Z)
    (s bs tail rest : list Z) : Prop :=
  (exists r' tail', o = Ok (t, s, r') /\ reads_from r' q tail' /\ tail = bs ++ tail' /\
     tail' `prefix_of` rest /\ reporter_ r' = reporter_ r) \/
  (exists r' frag, o = Ok (kEof, frag, r') /\ resyncing_ r' = false /\ zlen tail < zlen bs /\
     reporter_ r' = reporter_ r).

(** The buffer starts with a header for the type [t] and the payload [s]. *)
Definition headed (b : list Z) (t : Z) (s rest : list Z) : Prop :=
  exists m0 m1 m2 m3, of_le [m0; m1; m2; m3] = Mask (crc32c 0 (t :: s)) /\
    (forall x, physical t s ++ x = m0 :: m1 :: m2 :: m3 :: zlen s mod 256 :: zlen s / 256 mod 256 :: t :: s ++ x) /\
    b = m0 :: m1 :: m2 :: m3 :: zlen s mod 256 :: zlen s / 256 mod 256 :: t :: rest.

Lemma prefix_headed b t s x :
  kHeaderSize <= zlen b -> b `prefix_of` physical t s ++ x ->
  exists rest, headed b t s rest /\ rest `prefix_of` s ++ x /\ zlen b = kHeaderSize + zlen rest.
Proof.
  intros Hl [k Hk]. destruct (physical_cons t s) as (m0 & m1 & m2 & m3 & Hm & Ephys).
  rewrite Ephys in Hk.
  destruct b as [|b0 [|b1 [|b2 [|b3 [|b4 [|b5 [|b6 b]]]]]]];
    try (unfold zlen, kHeaderSize in Hl; cbn in Hl; lia).
  cbn [app] in Hk. injection Hk as <- <- <- <- <- <- <- Hk.
  exists b. split; [by exists m0, m1, m2, m3|]. split; [by exists k|].
  rewrite !zlen_cons. unfold kHeaderSize. lia.
Qed.

Lemma parse_header frag (r : Reader F) t s rest :
  headed (contents (buffer_ r)) t s rest -> 1 <= t <= 4 -> zlen s < 2 ^ 16 ->
  parse_physical frag r = accept_physical t (zlen s) frag r.
Proof.
  intros (m0 & m1 & m2 & m3 & _ & _ & E) Ht Hs. pose proof (zlen_nonneg s). unfold parse_physical. rewrite E.
  cbn [lookup list_lookup or_ub obind]. rewrite !char_byte by (apply Z.mod_pos_bound; lia).
  by rewrite char_type, header_length by lia.
Qed.

(** The end of a file that was cut inside the record. *)
Lemma accept_short frag r p t s tail rest :
  reads_from r p tail -> kHeaderSize <= size (buffer_ r) < kHeaderSize + zlen s ->
  zlen s <= kBlockSize - p - kHeaderSize ->
  read_one (accept_physical t (zlen s) frag r) r (p + kHeaderSize + zlen s) t s (physical t s) tail rest.
Proof.
  intros [Hi Hr Ht He Hp Hlast] Hsize Hfit. right. unfold accept_physical. cbv zeta.
  rewrite (proj2 (Z.ltb_lt _ _)) by lia. unfold size in Hsize.
  destruct (eof_ r) eqn:Eeof; cbn [set_buffer eof_]; rewrite Eeof.
  - destruct He as [Hu _]. do 2 eexists. split; [done|]. split; [done|]. split; [|done].
    rewrite <- Ht, Hu, app_nil_r, zlen_physical. lia.
  - exfalso. destruct He as [He|[_ He]]; [lia|]. rewrite He, zlen_nil in Hsize. unfold kHeaderSize in Hsize. lia.
Qed.

Lemma accept_whole frag r p t s buf tail x :
  reads_from r p tail -> headed (contents (buffer_ r)) t s (s ++ buf) ->
  1 <= t <= 4 -> bytes s -> zlen s <= kBlockSize - p - kHeaderSize ->
  buf ++ unread (file_ r) `prefix_of` x ->
  read_one (accept_physical t (zlen s) frag r) r (p + kHeaderSize + zlen s) t s (physical t s) tail x.
Proof.
  intros [Hi Hr Ht He Hp Hlast] (m0 & m1 & m2 & m3 & Hm & Ephys & Ebuf) Htype Hb Hfit Hpre. left.
  pose proof (zlen_nonneg s). pose proof (zlen_nonneg buf).
  assert (Hsize : size (buffer_ r) = kHeaderSize + zlen s + zlen buf).
  { unfold size. rewrite Ebuf, !zlen_cons, zlen_app. unfold kHeaderSize. lia. }
  assert (Hdrop : drop (Z.to_nat (kHeaderSize + zlen s)) (contents (buffer_ r)) = buf).
  { rewrite Ebuf. replace (Z.to_nat (kHeaderSize + zlen s)) with (7 + length s)%nat by (unfold zlen, kHeaderSize; lia).
    cbn [Nat.add drop]. apply drop_app_length. }
  unfold accept_physical. cbv zeta. rewrite (proj2 (Z.ltb_ge _ _)) by lia.
  destruct (Z.eqb_spec t kZeroType); [unfold kZeroType in *; lia|]. cbn [andb].
  assert (Hcrc : (if checksum_ r then check_crc (buffer_ r) (zlen s) else Ok true) = Ok true).
  { destruct (buffer_ r) as [addr b]. cbn [contents] in Ebuf. subst b.
    apply check_crc_ok; [done|unfold is_byte; lia|done]. }
  rewrite Hcrc. cbn [obind negb]. unfold remove_prefix. rewrite (proj2 (Z.leb_le _ _)) by lia.
  rewrite Hdrop. cbn [obind set_buffer initial_offset_ end_of_buffer_offset_]. rewrite Hi.
  match goal with |- context [wrap 64 ?y <? 0] => pose proof (wrap_range 64 y ltac:(lia)) end.
  match goal with |- context [?y <? 0] => destruct (Z.ltb_spec y 0); [lia|] end.
  rewrite bytes_at_ok by (fold (size (buffer_ r)); lia). rewrite Ebuf.
  change (drop (Z.to_nat kHeaderSize) _) with (s ++ buf).
  replace (Z.to_nat (zlen s)) with (length s) by (unfold zlen; lia). rewrite take_app_length. cbn [obind].
  eexists _, (buf ++ unread (file_ r)). split; [done|]. split; [|split; [|split; [done|done]]].
  - unfold size in Hsize. unfold in_block, kHeaderSize in *. split; cbn; [done|done|done| |unfold in_block; lia|done].
    destruct (eof_ r); [split; [easy|lia]|left]. destruct He as [He|[_ He]]; [lia|by rewrite Ebuf in He].
  - rewrite <- Ht, Ebuf, Ephys. cbn [app]. by rewrite <- app_assoc.
Qed.

Lemma parse_ok frag r p t s tail x :
  reads_from r p tail -> kHeaderSize <= size (buffer_ r) ->
  1 <= t <= 4 -> bytes s -> zlen s <= kBlockSize - p - kHeaderSize ->
  tail `prefix_of` physical t s ++ x ->
  read_one (parse_physical frag r) r (p + kHeaderSize + zlen s) t s (physical t s) tail x.
Proof.
  intros Hrf Hsize Ht Hb Hfit Hpre. pose proof (rf_tail _ _ _ Hrf) as Htail. pose proof (rf_block _ _ _ Hrf) as [Hp _].
  destruct Hpre as [k Hk]. rewrite <- Htail, <- app_assoc in Hk.
  destruct (prefix_headed (contents (buffer_ r)) t s x Hsize) as (rest & Hhead & Hrest & Hlen).
  { by exists (unread (file_ r) ++ k). }
  rewrite (parse_header _ _ _ _ _ Hhead) by (done || unfold kBlockSize, kHeaderSize in *; lia).
  destruct (Z.leb_spec (zlen s) (zlen rest)) as [Hle|Hlt].
  - destruct (prefix_split s x rest Hle Hrest) as (buf & -> & _).
    apply (accept_whole _ _ _ _ _ buf); try done.
    destruct Hhead as (m0 & m1 & m2 & m3 & _ & Ephys & E). rewrite E, Ephys in Hk. cbn [app] in Hk.
    injection Hk as Hk. rewrite <- app_assoc in Hk. apply app_inv_head in Hk. exists k. by rewrite <- app_assoc.
  - apply accept_short; [done|unfold size in *; lia|done].
Qed.

(** ** Reading a physical record *)
Lemma pad_room p (x : list Z) :
  in_block p -> zlen x <= kBlockSize - p -> kHeaderSize <= zlen x -> pad p = [] /\ start p = p.
Proof.
  intros Hp Hx Hh. unfold pad, start. by destruct (Z.ltb_spec (kBlockSize - p) kHeaderSize); [lia|].
Qed.

Lemma zlen_pad p : in_block p -> kBlockSize - p < kHeaderSize -> zlen (pad p) = kBlockSize - p.
Proof.
  intros [Hp1 Hp2] Hs. unfold pad. rewrite (proj2 (Z.ltb_lt _ _) Hs). unfold zlen. rewrite length_replicate. lia.
Qed.

(** What is left of a block that has no room for a header is its trailer. *)
Lemma buffer_is_pad r p tail x :
  reads_from r p tail -> size (buffer_ r) < kHeaderSize -> eof_ r = false ->
  tail `prefix_of` pad p ++ x ->
  tail = pad p ++ unread (file_ r) /\ start p = 0 /\ unread (file_ r) `prefix_of` x.
Proof.
  intros [Hi Hr Ht He Hp Hlast] Hsize Heof [k Hk]. rewrite Heof in He. unfold size in Hsize.
  rewrite <- Ht, <- app_assoc in Hk.
  assert (Hbuf : contents (buffer_ r) = pad p /\ start p = 0).
  { destruct He as [He|[-> He]]; [|by rewrite He].
    assert (Hl : zlen (contents (buffer_ r)) = zlen (pad p)) by (rewrite zlen_pad by (done || lia); lia).
    split; [|unfold start; by rewrite (proj2 (Z.ltb_lt _ _)) by lia].
    symmetry. apply (app_inj_1 _ _ x (unread (file_ r) ++ k)); [unfold zlen in Hl; lia|done]. }
  destruct Hbuf as [Hbuf Hstart]. rewrite Hbuf in *. split; [done|]. split; [done|].
  apply app_inv_head in Hk. by exists k.
Qed.

(** The reader after a block was read into its buffer. *)
Definition refilled (r : Reader F) (data : list Z) (f : F) : Reader F :=
  let r := set_buffer (mk_slice (backing_store_ r) data) (set_file f r) in
  let r := set_end (wrap 64 (end_of_buffer_offset_ r + zlen data)) r in
  if zlen data <? kBlockSize then set_eof true r else r.

Lemma read_physical_refill n frag r data f :
  size (buffer_ r) < kHeaderSize -> eof_ r = false -> Read kBlockSize (file_ r) = (OK, data, f) ->
  read_physical (S n) frag r = read_physical n frag (refilled r data f).
Proof.
  intros Hsize Heof E. cbn [read_physical]. rewrite (proj2 (Z.ltb_lt _ _) Hsize), Heof, E. done.
Qed.

(** Reading a block of a file. *)
Lemma block_read n (l : list Z) : 0 <= n ->
  zlen (take (Z.to_nat n) l) <= n /\ (zlen (take (Z.to_nat n) l) < n -> drop (Z.to_nat n) l = []).
Proof.
  intros Hn. unfold zlen. rewrite length_take. split; [lia|]. intros Hlt. apply drop_ge. lia.
Qed.

Lemma refilled_reads r data f :
  initial_offset_ r = 0 -> resyncing_ r = false -> eof_ r = false -> zlen data <= kBlockSize ->
  (zlen data < kBlockSize -> unread f = []) -> 0 <= last_record_offset_ r ->
  reads_from (refilled r data f) 0 (data ++ unread f) /\ reporter_ (refilled r data f) = reporter_ r /\
  (size (buffer_ (refilled r data f)) < kHeaderSize -> eof_ (refilled r data f) = true).
Proof.
  intros Hi Hr Heof Hle Hend Hlast. assert (H0 : in_block 0) by by unfold in_block, kBlockSize.
  unfold refilled. cbv zeta. destruct (Z.ltb_spec (zlen data) kBlockSize) as [Hlt|Hge].
  - split; [|by split]. split; cbn; [done|done|done|split; [by apply Hend|lia]|done|done].
  - split; [|split; [done|]]; [split; cbn; [done|done|done|rewrite Heof; left; lia|done|done]|].
    unfold size. cbn. unfold kBlockSize, kHeaderSize in *. lia.
Qed.

Lemma refill_ok n frag r p tail x :
  reads_from r p tail -> size (buffer_ r) < kHeaderSize -> eof_ r = false ->
  tail `prefix_of` pad p ++ x ->
  exists r' tail', read_physical (S n) frag r = read_physical n frag r' /\
    reads_from r' (start p) tail' /\ tail = pad p ++ tail' /\ tail' `prefix_of` x /\
    reporter_ r' = reporter_ r /\ (size (buffer_ r') < kHeaderSize -> eof_ r' = true).
Proof.
  intros Hrf Hsize Heof Hpre. destruct (buffer_is_pad _ _ _ _ Hrf Hsize Heof Hpre) as (-> & Hstart & Hx).
  destruct Hrf as [Hi Hr _ _ _ Hlast].
  destruct (read_ok kBlockSize (file_ r) ltac:(done)) as (f & E & Hf).
  destruct (block_read kBlockSize (unread (file_ r)) ltac:(done)) as [Hle Hend].
  rewrite <- Hf in Hend. destruct (refilled_reads r _ f Hi Hr Heof Hle Hend Hlast) as (Hrf & Hrep & Heof').
  rewrite Hf, take_drop in Hrf. rewrite Hstart.
  exists (refilled r (take (Z.to_nat kBlockSize) (unread (file_ r))) f), (unread (file_ r)).
  split; [exact (read_physical_refill n frag r _ f Hsize Heof E)|]. auto.
Qed.

(** Leaving out the trailer that was read before. *)
Lemma read_one_pad o r r1 q t s a b tail x :
  reporter_ r1 = reporter_ r -> read_one o r1 q t s b tail x -> read_one o r q t s (a ++ b) (a ++ tail) x.
Proof.
  intros Hrep [(r' & tail' & E & Hrf & -> & Hx & Hr)|(r' & frag & E & Hres & Hl & Hr)].
  - left. exists r', tail'. rewrite Hr, app_assoc. done.
  - right. exists r', frag. rewrite Hr, !zlen_app. split; [done|]. split; [done|]. split; [lia|done].
Qed.

(** At the end of the file less than a header is left. *)
Lemma read_eof n frag r p tail a q t s x :
  reads_from r p tail -> size (buffer_ r) < kHeaderSize -> eof_ r = true ->
  read_one (read_physical (S n) frag r) r q t s (a ++ physical t s) tail x.
Proof.
  intros [Hi Hr Ht He Hp Hlast] Hsize Heof. right. cbn [read_physical].
  rewrite (proj2 (Z.ltb_lt _ _) Hsize), Heof in *. do 2 eexists. split; [done|]. split; [done|]. split; [|done].
  destruct He as [Hu _]. rewrite <- Ht, Hu, app_nil_r, zlen_app, zlen_physical.
  pose proof (zlen_nonneg s). pose proof (zlen_nonneg a). unfold size in Hsize. lia.
Qed.

Lemma ReadPhysicalRecord_ok frag r p t s tail x :
  reads_from r p tail -> 1 <= t <= 4 -> bytes s -> zlen s <= kBlockSize - start p - kHeaderSize ->
  tail `prefix_of` (pad p ++ physical t s) ++ x ->
  read_one (ReadPhysicalRecord frag r) r (start p + kHeaderSize + zlen s) t s (pad p ++ physical t s) tail x.
Proof.
  intros Hrf Ht Hb Hfit Hpre. unfold ReadPhysicalRecord. rewrite <- app_assoc in Hpre.
  destruct (Z.ltb_spec (size (buffer_ r)) kHeaderSize) as [Hsize|Hsize].
  - destruct (eof_ r) eqn:Heof.
    + by apply (read_eof 2 _ _ p).
    + destruct (refill_ok 2 frag r p tail _ Hrf Hsize Heof Hpre) as (r1 & tail1 & -> & Hrf1 & -> & Hx & Hrep & Hend).
      apply (read_one_pad _ _ r1); [done|].
      destruct (Z.ltb_spec (size (buffer_ r1)) kHeaderSize) as [Hs1|Hs1].
      * apply (read_eof 1 _ _ (start p) _ []); [done|done|by apply Hend].
      * cbn [read_physical]. rewrite (proj2 (Z.ltb_ge _ _) Hs1). by apply parse_ok.
  - assert (Hroom : pad p = [] /\ start p = p).
    { destruct Hrf as [_ _ _ He Hp _]. apply (pad_room p (contents (buffer_ r))); [done| |done].
      unfold size in Hsize. destruct (eof_ r); [easy|]. destruct He as [He|[_ He]]; [lia|].
      rewrite He, zlen_nil in Hsize. unfold kHeaderSize in Hsize. lia. }
    destruct Hroom as [Hpad Hst]. rewrite Hpad, Hst in *. cbn [read_physical].
    rewrite (proj2 (Z.ltb_ge _ _) Hsize). by apply parse_ok.
Qed.

(** ** Reading a record *)
Lemma reads_from_resyncing r p tail : reads_from r p tail -> reads_from (set_resyncing false r) p tail.
Proof. by intros [? ? ? ? ? ?]. Qed.
Lemma reads_from_last n r p tail : 0 <= n -> reads_from r p tail -> reads_from (set_last n r) p tail.
Proof. by intros ? [? ? ? ? ? ?]. Qed.

(** One turn of the loop, when no resynchronisation is in progress. *)
Lemma read_record_full n frag po r s r' :
  ReadPhysicalRecord frag r = Ok (kFullType, s, r') -> resyncing_ r' = false ->
  exists po', 0 <= po' /\
    read_record (S n) frag [] false po r = Ok (Some s, set_last po' (set_resyncing false r')).
Proof.
  intros E Hr. cbn [read_record]. rewrite E. cbn [obind]. rewrite Hr. eexists. split; [|done].
  by apply wrap_range.
Qed.

Lemma read_record_first n frag po r s r' :
  ReadPhysicalRecord frag r = Ok (kFirstType, s, r') -> resyncing_ r' = false ->
  exists po', 0 <= po' /\
    read_record (S n) frag [] false po r = read_record n s s true po' (set_resyncing false r').
Proof.
  intros E Hr. cbn [read_record]. rewrite E. cbn [obind]. rewrite Hr. eexists. split; [|done].
  by apply wrap_range.
Qed.

Lemma read_record_middle n frag scratch po r s r' :
  ReadPhysicalRecord frag r = Ok (kMiddleType, s, r') -> resyncing_ r' = false ->
  read_record (S n) frag scratch true po r =
    read_record n s (scratch ++ s) true po (set_resyncing false r').
Proof. intros E Hr. cbn [read_record]. rewrite E. cbn [obind]. by rewrite Hr. Qed.

Lemma read_record_last n frag scratch po r s r' :
  ReadPhysicalRecord frag r = Ok (kLastType, s, r') -> resyncing_ r' = false ->
  read_record (S n) frag scratch true po r =
    Ok (Some (scratch ++ s), set_last po (set_resyncing false r')).
Proof. intros E Hr. cbn [read_record]. rewrite E. cbn [obind]. by rewrite Hr. Qed.

Lemma read_record_eof n frag scratch in_frag po r s r' :
  ReadPhysicalRecord frag r = Ok (kEof, s, r') -> resyncing_ r' = false ->
  read_record (S n) frag scratch in_frag po r = Ok (None, set_resyncing false r').
Proof. intros E Hr. cbn [read_record]. rewrite E. cbn [obind]. by rewrite Hr. Qed.

(** The two ways reading a logical record goes. *)
Definition read_whole (o : outcome (option (list Z) * Reader F)) (r : Reader F) (q : Z)
    (s bs tail x : list Z) : Prop :=
  (exists r' tail', o = Ok (Some s, r') /\ reads_from r' q tail' /\ tail = bs ++ tail' /\
     tail' `prefix_of` x /\ reporter_ r' = reporter_ r) \/
  (exists r', o = Ok (None, r') /\ zlen tail < zlen bs /\ reporter_ r' = reporter_ r).

Lemma read_whole_after o r r1 q s a b tail x :
  reporter_ r1 = reporter_ r -> read_whole o r1 q s b tail x ->
  read_whole o r q s (a ++ b) (a ++ tail) x.
Proof.
  intros Hrep [(r' & tail' & E & Hrf & -> & Hx & Hr)|(r' & E & Hl & Hr)].
  - left. exists r', tail'. by rewrite Hr, app_assoc.
  - right. exists r'. rewrite Hr, !zlen_app. split; [done|]. split; [lia|done].
Qed.

Lemma read_record_ok b p s bs q :
  laid_out b p s bs q -> bytes s -> in_block p ->
  forall fuel frag scratch po r tail x,
    reads_from r p tail -> tail `prefix_of` bs ++ x -> (length tail < fuel)%nat ->
    (b = true -> scratch = []) -> 0 <= po ->
    read_whole (read_record fuel frag scratch (negb b) po r) r q (scratch ++ s) bs tail x.
Proof.
  induction 1 as [b p s Hs|b p s1 s2 bs q H1 H2 Hl IH]; intros Hb Hp fuel frag scratch po r tail x Hrf Hpre Hfuel Hscratch Hpo;
    (destruct fuel as [|n]; [lia|]).
  - destruct (ReadPhysicalRecord_ok frag r p _ s tail x Hrf (fragment_type_range b true) Hb Hs Hpre)
      as [(r' & tail' & E & Hrf' & -> & Hx & Hr)|(r' & f & E & Hres & Hlt & Hr)].
    + left. pose proof (rf_resync _ _ _ Hrf') as Hres. destruct b; cbn [negb].
      * rewrite Hscratch in * by done. destruct (read_record_full n frag po r s r' E Hres) as (po' & Hpo' & ->).
        eexists _, tail'. split; [done|]. split; [by apply reads_from_last; [|apply reads_from_resyncing]|done].
      * rewrite (read_record_last n frag scratch po r s r' E Hres).
        eexists _, tail'. split; [done|]. split; [by apply reads_from_last; [|apply reads_from_resyncing]|done].
    + right. rewrite (read_record_eof _ _ _ _ _ _ _ _ E Hres). by eexists.
  - apply Forall_app in Hb as [Hb1 Hb2]. rewrite <- app_assoc in Hpre. rewrite app_assoc.
    rewrite (app_assoc (pad p)) in Hpre |- *.
    destruct (ReadPhysicalRecord_ok frag r p _ s1 tail (bs ++ x) Hrf (fragment_type_range b false) Hb1 ltac:(lia))
      as [(r' & tail' & E & Hrf' & -> & Hx & Hr)|(r' & f & E & Hres & Hlt & Hr)].
    { by rewrite <- !app_assoc in *. }
    + pose proof (rf_resync _ _ _ Hrf') as Hres. replace (start p + kHeaderSize + zlen s1) with kBlockSize in Hrf' by lia.
      assert (Hfuel' : (length tail' < n)%nat).
      { rewrite !length_app in Hfuel. pose proof (zlen_physical (fragment_type b false) s1) as Hl7.
        pose proof (zlen_nonneg s1). unfold zlen, kHeaderSize in *. lia. }
      apply (read_whole_after _ _ (set_resyncing false r')); [done|].
      destruct b; cbn [negb].
      * rewrite Hscratch by done. destruct (read_record_first n frag po r s1 r' E Hres) as (po' & Hpo' & ->). cbn [app].
        apply (IH Hb2); [done|by apply reads_from_resyncing|done|done|done|done].
      * rewrite (read_record_middle n frag scratch po r s1 r' E Hres).
        apply (IH Hb2); [done|by apply reads_from_resyncing|done|done|done|done].
    + right. rewrite (read_record_eof _ _ _ _ _ _ _ _ E Hres). eexists. split; [done|]. rewrite zlen_app.
      pose proof (zlen_nonneg bs). split; [lia|done].
Qed.

Lemma ReadRecord_ok p s bs q fuel r tail x :
  laid_out true p s bs q -> bytes s -> reads_from r p tail -> tail `prefix_of` bs ++ x ->
  (length tail < fuel)%nat ->
  read_whole (ReadRecord fuel r) r q s bs tail x.
Proof.
  intros Hl Hb Hrf Hpre Hfuel. pose proof (rf_last _ _ _ Hrf). unfold ReadRecord.
  rewrite (rf_initial _ _ _ Hrf), (proj2 (Z.ltb_ge _ _)) by lia.
  apply (read_record_ok true p s bs q Hl Hb (rf_block _ _ _ Hrf) fuel [] [] 0 r tail x); done.
Qed.

(** ** Reading a whole log *)
Lemma read_at_end p fuel r :
  reads_from r p [] -> (0 < fuel)%nat ->
  exists r', ReadRecord fuel r = Ok (None, r') /\ reporter_ r' = reporter_ r.
Proof.
  intros Hrf Hfuel. pose proof (start_range p (rf_block _ _ _ Hrf)).
  destruct (ReadRecord_ok p [] _ _ fuel r [] [] (laid_last true p [] ltac:(rewrite zlen_nil; lia))
    ltac:(by apply Forall_nil_2) Hrf ltac:(by eexists) ltac:(simpl; lia))
    as [(r' & tail' & _ & _ & Hnil & _)|(r' & E & _ & Hr)]; [|by exists r'].
  exfalso. apply eq_sym in Hnil. apply app_nil in Hnil as [Hnil _]. apply app_nil in Hnil as [_ Hnil].
  by apply physical_nonempty in Hnil.
Qed.

Lemma read_all_ok p rs bs q :
  log_format p rs bs q -> Forall bytes rs ->
  forall n fuel r tail, reads_from r p tail -> tail `prefix_of` bs ->
    (length tail < fuel)%nat -> (length tail < n)%nat ->
    exists k r', read_all n fuel r = Ok (take k rs, r') /\ reporter_ r' = reporter_ r /\
      forall j b q', log_format p (take j rs) b q' -> (j <= length rs)%nat -> zlen b <= zlen tail ->
        (j <= k)%nat.
Proof.
  induction 1 as [p|p s bs q rs bss q' Hl Hlog IH]; intros Hb n fuel r tail Hrf Hpre Hfuel Hn;
    (destruct n as [|n]; [lia|]); cbn [read_all].
  { apply prefix_nil_inv in Hpre as ->. destruct (read_at_end p fuel r Hrf) as (r' & -> & Hr); [lia|].
    exists 0%nat, r'. split; [done|]. split; [done|]. intros j b q' _ Hj _. simpl in Hj. lia. }
  inversion Hb as [|?? Hb1 Hb2]; subst.
  destruct (ReadRecord_ok p s bs q fuel r tail bss Hl Hb1 Hrf Hpre Hfuel)
    as [(r' & tail' & -> & Hrf' & -> & Hx & Hr)|(r' & -> & Hlt & Hr)]; cbn [obind].
  - pose proof (laid_out_size _ _ _ _ _ Hl) as Hsize. rewrite length_app in Hfuel, Hn.
    destruct (IH Hb2 n fuel r' tail' Hrf' Hx) as (k & r2 & -> & Hr2 & Hmax); [lia|unfold zlen, kHeaderSize in *; lia|].
    exists (S k), r2. cbn [obind take]. split; [done|]. split; [by rewrite Hr2|].
    intros [|j] b q2 Hf Hj Hz; [lia|]. cbn [take] in Hf. inversion Hf as [|? b1 q1 ? b2 ? Hl1 Hf2]; subst.
    destruct (laid_out_fun _ _ _ _ _ _ _ Hl Hl1) as [<- <-]. rewrite !zlen_app in Hz.
    enough (j <= k)%nat by lia. apply (Hmax j b2 q2 Hf2); [simpl in Hj; lia|lia].
  - exists 0%nat, r'. split; [done|]. split; [done|]. intros [|j] b q2 Hf Hj Hz; [lia|]. exfalso.
    cbn [take] in Hf. inversion Hf as [|? b1 q1 ? b2 ? Hl1 Hf2]; subst.
    destruct (laid_out_fun _ _ _ _ _ _ _ Hl Hl1) as [<- <-]. rewrite zlen_app in Hz. pose proof (zlen_nonneg b2). lia.
Qed.

Lemma new_reader_reads file reporter checksum backing :
  reads_from (new_Reader file reporter checksum backing 0) 0 (unread file).
Proof. split; cbn; [done|done|done|by right|by unfold in_block, kBlockSize|done]. Qed.

(** ** Any file *)
Definition left_over (r : Reader F) : list Z := contents (buffer_ r) ++ unread (file_ r).

(** The reader moved on, or is at the end. *)
Definition progress (r : Reader F) (t : Z) (r' : Reader F) : Prop :=
  bytes (left_over r') /\ (t = kEof \/ (length (left_over r') < length (left_over r))%nat).

Lemma report_left_over n m r : left_over (ReportCorruption n m r) = left_over r.
Proof. unfold ReportCorruption, ReportDrop. destruct (reporter_ r); [|done]. by destruct (_ <=? _). Qed.

Lemma clear_progress t r :
  bytes (left_over r) -> kHeaderSize <= size (buffer_ r) -> progress r t (set_buffer (clear (buffer_ r)) r).
Proof.
  intros Hb Hs. unfold progress, left_over in *. cbn. apply Forall_app in Hb as [_ Hb]. split; [done|].
  right. rewrite length_app. unfold size, zlen, kHeaderSize in Hs. lia.
Qed.

Lemma accept_total t n frag r :
  0 <= n -> bytes (left_over r) -> kHeaderSize <= size (buffer_ r) ->
  exists t' frag' r', accept_physical t n frag r = Ok (t', frag', r') /\ progress r t' r'.
Proof.
  intros Hn Hb Hs. unfold accept_physical. cbv zeta.
  pose proof (clear_progress kBadRecord r Hb Hs) as Hbad.
  destruct (Z.ltb_spec (size (buffer_ r)) (kHeaderSize + n)) as [|Hfit].
  { destruct (negb _); do 3 eexists; (split; [done|]); [|by apply clear_progress].
    unfold progress. by rewrite report_left_over. }
  destruct (_ && _); [by do 3 eexists|].
  assert (Hcrc : exists b, (if checksum_ r then check_crc (buffer_ r) n else Ok true) = Ok b).
  { destruct (checksum_ r); [|by eexists]. unfold left_over in Hb. apply Forall_app in Hb as [Hb _].
    unfold check_crc, size, kHeaderSize in *.
    destruct (DecodeFixed32_total (contents (buffer_ r))) as (v & -> & _); [lia|done|]. cbn [obind].
    rewrite bytes_at_ok by lia. cbn [obind]. unfold Value.
    rewrite Extend_spec; [by eexists|by vm_compute|apply Forall_take; by apply Forall_drop]. }
  destruct Hcrc as [b ->]. cbn [obind]. destruct (negb b).
  { do 3 eexists. split; [done|]. unfold progress. by rewrite report_left_over. }
  unfold remove_prefix. rewrite (proj2 (Z.leb_le _ _)) by lia. cbn [obind].
  unfold size, kHeaderSize in *. rewrite bytes_at_ok by lia. cbn [obind].
  assert (Hmove : forall t', progress r t' (set_buffer (mk_slice (data_ (buffer_ r) + (4 + 2 + 1 + n))
    (drop (Z.to_nat (4 + 2 + 1 + n)) (contents (buffer_ r)))) r)).
  { intros t'. unfold progress, left_over in *. cbn. apply Forall_app in Hb as [Hb1 Hb2].
    split; [apply Forall_app; split; [by apply Forall_drop|done]|]. right.
    rewrite !length_app, length_drop. unfold zlen in *. lia. }
  destruct (_ <? _); do 3 eexists; split; try done; apply Hmove.
Qed.

Lemma parse_total frag r :
  bytes (left_over r) -> kHeaderSize <= size (buffer_ r) ->
  exists t frag' r', parse_physical frag r = Ok (t, frag', r') /\ progress r t r'.
Proof.
  intros Hb Hs. unfold parse_physical.
  assert (Hat : forall i, (i < 7)%nat -> exists b, contents (buffer_ r) !! i = Some b).
  { intros i Hi. apply lookup_lt_is_Some. unfold size, zlen, kHeaderSize in Hs. lia. }
  destruct (Hat 4%nat) as [h4 ->]; [lia|]. destruct (Hat 5%nat) as [h5 ->]; [lia|].
  destruct (Hat 6%nat) as [h6 ->]; [lia|]. cbn [or_ub obind]. apply accept_total; [|done|done].
  apply Z.lor_nonneg. split; [apply Z.land_nonneg; right; done|]. by apply wrap_range.
Qed.

Lemma end_progress r r' : bytes (left_over r') -> progress r kEof r'.
Proof. split; [done|by left]. Qed.

Lemma progress_trans r r1 t r' :
  (length (left_over r1) <= length (left_over r))%nat -> progress r1 t r' -> progress r t r'.
Proof. intros Hl [Hb [?|?]]; (split; [done|]); [by left|right; lia]. Qed.

Lemma refilled_total r data f :
  unread (file_ r) = data ++ unread f -> bytes (left_over r) ->
  bytes (left_over (refilled r data f)) /\
  (length (left_over (refilled r data f)) <= length (left_over r))%nat /\
  (size (buffer_ (refilled r data f)) < kHeaderSize -> eof_ (refilled r data f) = true).
Proof.
  intros Hf Hb. unfold left_over in *. rewrite Hf in *. apply Forall_app in Hb as [_ Hb].
  unfold refilled. cbv zeta. destruct (Z.ltb_spec (zlen data) kBlockSize); cbn.
  - split; [done|]. split; [rewrite (length_app (contents _)); lia|done].
  - split; [done|]. split; [rewrite (length_app (contents _)); lia|].
    unfold size. cbn. unfold kBlockSize, kHeaderSize in *. lia.
Qed.

Lemma read_end_total n frag r :
  bytes (left_over r) -> size (buffer_ r) < kHeaderSize -> eof_ r = true ->
  exists t frag' r', read_physical (S n) frag r = Ok (t, frag', r') /\ progress r t r'.
Proof.
  intros Hb Hs Heof. cbn [read_physical]. rewrite (proj2 (Z.ltb_lt _ _) Hs), Heof. cbn [negb].
  do 3 eexists. split; [done|]. apply end_progress. unfold left_over in *. cbn. by apply Forall_app in Hb as [_ ?].
Qed.

Lemma ReadPhysicalRecord_total frag r :
  bytes (left_over r) ->
  exists t frag' r', ReadPhysicalRecord frag r = Ok (t, frag', r') /\ progress r t r'.
Proof.
  intros Hb. unfold ReadPhysicalRecord.
  destruct (Z.ltb_spec (size (buffer_ r)) kHeaderSize) as [Hs|Hs].
  - destruct (eof_ r) eqn:Heof; [by apply read_end_total|].
    destruct (read_ok kBlockSize (file_ r) ltac:(done)) as (f & E & Hf).
    pose proof (take_drop (Z.to_nat kBlockSize) (unread (file_ r))) as Hsplit. rewrite <- Hf in Hsplit.
    rewrite (read_physical_refill 2 frag r _ f Hs Heof E).
    destruct (refilled_total r _ f (eq_sym Hsplit) Hb) as (Hb1 & Hle & Hend). clear E Hsplit Hf.
    set (r1 := refilled _ _ _) in *. clearbody r1.
    destruct (Z.ltb_spec (size (buffer_ r1)) kHeaderSize) as [Hs1|Hs1].
    + destruct (read_end_total 1 frag r1 Hb1 Hs1 (Hend Hs1)) as (t & f' & r' & E & Hp).
      exists t, f', r'. split; [done|by eapply progress_trans].
    + destruct (parse_total frag r1 Hb1 Hs1) as (t & f' & r' & E & Hp).
      exists t, f', r'. split; [|by eapply progress_trans].
      cbn [read_physical]. by rewrite (proj2 (Z.ltb_ge _ _) Hs1).
  - destruct (parse_total frag r Hb Hs) as (t & f' & r' & E & Hp).
    exists t, f', r'. split; [|done]. cbn [read_physical]. by rewrite (proj2 (Z.ltb_ge _ _) Hs).
Qed.

Lemma read_record_total fuel frag scratch in_frag po r :
  bytes (left_over r) -> (length (left_over r) < fuel)%nat ->
  exists o r', read_record fuel frag scratch in_frag po r = Ok (o, r').
Proof.
  revert frag scratch in_frag po r. induction fuel as [|n IH]; intros frag scratch in_frag po r Hb Hfuel; [lia|].
  cbn [read_record]. destruct (ReadPhysicalRecord_total frag r Hb) as (t & f' & r' & -> & Hb' & Hp). cbn [obind].
  destruct (Z.eqb_spec t kEof) as [->|Ht].
  { cbn [Z.eqb Pos.eqb kEof kMiddleType kLastType kFullType kFirstType kMaxRecordType Z.add Pos.add Pos.succ].
    rewrite !andb_false_r. by do 2 eexists. }
  destruct Hp as [?|Hp]; [done|].
  assert (Hgo : forall f s i p r1, left_over r1 = left_over r' -> exists o r2, read_record n f s i p r1 = Ok (o, r2)).
  { intros f s i p r1 E. apply IH; rewrite E; [done|lia]. }
  assert (Hrep : forall a m (r1 : Reader F), left_over r1 = left_over r' -> left_over (ReportCorruption a m r1) = left_over r').
  { intros a m r1 E. by rewrite report_left_over. }
  repeat match goal with |- context [if ?b then _ else _] => destruct b end;
    first [by do 2 eexists | by apply Hgo | by apply Hgo, Hrep].
Qed.

Lemma ReadRecord_total fuel r :
  bytes (left_over r) -> (length (left_over r) < fuel)%nat ->
  exists o r', ReadRecord fuel r = Ok (o, r').
Proof.
  intros Hb Hfuel. unfold ReadRecord. destruct (_ <? _); [|by apply read_record_total].
  unfold SkipToInitialBlock. cbv zeta. match goal with |- context [0 <? ?x] => generalize x; intros n end.
  destruct (Z.ltb_spec 0 n); [|by apply read_record_total]. cbn [set_end file_].
  destruct (skip_ok n (file_ r) ltac:(lia)) as (f & -> & Hf). cbn [ok OK code].
  apply read_record_total; unfold left_over in *; cbn; rewrite Hf.
  - apply Forall_app in Hb as [Hb1 Hb2]. apply Forall_app. split; [done|by apply Forall_drop].
  - rewrite length_app, length_drop in *. lia.
Qed.
End Reader.
