(* ===== verification/LogSpec.v ===== *)
(** * What the log guarantees

    Records come back as they were added, also from a log that was cut short
    or continued by another writer; the reader survives any file. *)
From S2P Require Import Prelude Coding Crc32c Env Log LogFormat LogProof.

Section Log.
Context {F G : Type} `{WritableFile F} `{SequentialFile G}.
Context {reliable : F -> Prop} {written : F -> list Z} {unread : G -> list Z}.
Context {HF : ReliableFile F reliable written} {HG : ReadableFile G unread}.

(** C6: the writer implements the format.  On a file whose appends succeed
    [AddRecord] succeeds at every position, no assertion of it fails, and
    what it appends is the record laid out in fragments: none crosses a
    block's end, a header never starts in a block's last six bytes, and the
    types mark the first and the last fragment. *)
Theorem add_record_format s (w : Writer F) :
  writer_ok (reliable := reliable) w -> bytes (contents s) ->
  exists w' bs q, AddRecord s w = Ok (OK, w') /\ writer_ok (reliable := reliable) w' /\
    written (dest_ w') = written (dest_ w) ++ bs /\ block_offset_ w' = q /\
    laid_out true (block_offset_ w) (contents s) bs q /\
    (block_offset_ w + zlen bs) mod kBlockSize = q mod kBlockSize.
Proof.
  intros Hw Hb. destruct (AddRecord_ok (Hfile := HF) s w Hw Hb) as (w' & bs & q & E & Hl & Hw' & Ew & Eq).
  exists w', bs, q. split; [done|]. split; [done|]. split; [done|]. split; [done|]. split; [done|].
  by apply (laid_out_position true _ (contents s)); [apply Hw|].
Qed.

(** C5: crash recovery.  After records were added to a new log, whatever
    prefix of the file survives, the reader returns a prefix of the records,
    reports no corruption, and loses none of the records whose bytes all
    survived; in particular a complete log gives back every record.  With or
    without checksums, wherever the buffers lie. *)
Theorem log_crash_recovery rs f addr :
  reliable f -> written f = [] -> Forall (fun s => bytes (contents s)) rs ->
  exists w0 w, new_Writer addr f = Ok w0 /\ add_records rs w0 = Ok (OK, w) /\
    forall file n fuel checksum backing, unread file = take n (written (dest_ w)) ->
      (length (unread file) < fuel)%nat ->
      exists k r, read_all fuel fuel (new_Reader file (Some []) checksum backing 0) =
          Ok (map contents (take k rs), r) /\
        reporter_ r = Some [] /\
        forall j wj, add_records (take j rs) w0 = Ok (OK, wj) -> (j <= length rs)%nat ->
          zlen (written (dest_ wj)) <= zlen (unread file) -> (j <= k)%nat.
Proof.
  intros Hf Hempty Hb. destruct (new_Writer_ok (reliable := reliable) addr f Hf) as (w0 & E0 & Hw0 & Hp0 & Hd0).
  destruct (add_records_ok (Hfile := HF) rs w0 Hw0 Hb) as (w & bs & q & E & Hl & _ & Ew & _).
  rewrite Hp0 in Hl. rewrite Hd0, Hempty in Ew. cbn [app] in Ew.
  exists w0, w. split; [done|]. split; [done|].
  intros file n fuel checksum backing Hun Hfuel.
  destruct (read_all_ok (Hfile := HG) 0 (map contents rs) bs q Hl) with (n := fuel) (fuel := fuel)
    (r := new_Reader file (Some []) checksum backing 0) (tail := unread file)
    as (k & r & Er & Hrep & Hmax); [by apply Forall_map|apply new_reader_reads| |done|done|].
  { rewrite Hun, Ew. apply prefix_take. }
  exists k, r. rewrite Er, firstn_map. split; [done|]. split; [done|].
  intros j wj Ej Hj Hsize.
  destruct (add_records_ok (Hfile := HF) (take j rs) w0 Hw0) as (wj' & bj & qj & Ej' & Hlj & _ & Ewj & _);
    [by apply Forall_take|].
  rewrite Ej in Ej'. injection Ej' as <-. rewrite Hp0 in Hlj. rewrite Hd0, Hempty in Ewj. cbn [app] in Ewj.
  apply (Hmax j bj qj); [by rewrite firstn_map|by rewrite length_map|by rewrite <- Ewj].
Qed.

(** C7: reopening a log.  A log continued by a writer that was given the
    file's length holds the records of both writers. *)
Theorem log_reopen rs1 rs2 f addr1 addr2 :
  reliable f -> written f = [] ->
  Forall (fun s => bytes (contents s)) rs1 -> Forall (fun s => bytes (contents s)) rs2 ->
  exists w0 w1 w2 w3, new_Writer addr1 f = Ok w0 /\ add_records rs1 w0 = Ok (OK, w1) /\
    new_Writer_at addr2 (dest_ w1) (zlen (written (dest_ w1))) = Ok w2 /\
    add_records rs2 w2 = Ok (OK, w3) /\
    forall file fuel checksum backing, unread file = written (dest_ w3) ->
      (length (unread file) < fuel)%nat ->
      exists r, read_all fuel fuel (new_Reader file (Some []) checksum backing 0) =
          Ok (map contents (rs1 ++ rs2), r) /\ reporter_ r = Some [].
Proof.
  intros Hf Hempty Hb1 Hb2.
  destruct (new_Writer_ok (reliable := reliable) addr1 f Hf) as (w0 & E0 & Hw0 & Hp0 & Hd0).
  destruct (add_records_ok (Hfile := HF) rs1 w0 Hw0 Hb1) as (w1 & bs1 & q1 & E1 & Hl1 & Hw1 & Ew1 & Eq1).
  rewrite Hp0 in Hl1. rewrite Hd0, Hempty in Ew1. cbn [app] in Ew1.
  destruct (log_format_position 0 _ _ _ ltac:(by unfold in_block, kBlockSize) Hl1) as [Hq1 Hmod]. rewrite Z.add_0_l in Hmod.
  destruct (new_Writer_at_ok (reliable := reliable) addr2 (dest_ w1) (zlen (written (dest_ w1))) (wo_file _ Hw1) (zlen_nonneg _))
    as (w2 & E2 & Hw2 & Hp2 & Hd2).
  destruct (add_records_ok (Hfile := HF) rs2 w2 Hw2 Hb2) as (w3 & bs2 & q2 & E3 & Hl2 & _ & Ew3 & _).
  rewrite Hp2, Ew1, Hmod in Hl2. rewrite Hd2, Ew1 in Ew3.
  destruct (log_format_next _ _ _ _ Hq1 Hl2) as [q3 Hl3]. pose proof (log_format_app _ _ _ _ _ _ _ Hl1 Hl3) as Hl.
  exists w0, w1, w2, w3. do 4 (split; [done|]).
  intros file fuel checksum backing Hun Hfuel.
  destruct (read_all_ok (Hfile := HG) 0 _ _ _ Hl) with (n := fuel) (fuel := fuel)
    (r := new_Reader file (Some []) checksum backing 0) (tail := unread file)
    as (k & r & Er & Hrep & Hmax); [|apply new_reader_reads| |done|done|].
  { apply Forall_app. by split; apply Forall_map. }
  { by rewrite Hun, Ew3. }
  exists r. rewrite Er, <- map_app. split; [|done]. do 2 f_equal. apply take_ge.
  rewrite map_app. apply (Hmax _ (bs1 ++ bs2) q3); [by rewrite firstn_all|done|by rewrite Hun, Ew3].
Qed.

End Log.

(** ** A trailer that is not written

    [AddRecord] does not look at the status of the append that fills a
    trailer.  When only that append fails, the record is reported as added
    but the reader does not find it. *)
Definition flaky_append (data : list Z) (f : list Z * bool) : Status * (list Z * bool) :=
  if snd f && forallb (Z.eqb 0) data then (IOError "append" "no space", (fst f, false))
  else (OK, (fst f ++ data, snd f)).
#[local] Instance flaky_file : WritableFile (list Z * bool) := {
  Append := flaky_append;
  Flush f := (OK, f)
}.


Definition unlucky : list Slice := [mk_slice 0 (replicate (Z.to_nat 32759) 1); mk_slice 0 [7; 8]].

(** The lengths of the records read, and the reports. *)
Definition unlucky_run : outcome (bool * list Z * option (list (Z * Status))) :=
  let! w0 := new_Writer 0 (@nil Z, true) in
  let! (st, w) := add_records unlucky w0 in
  let! (rs, r) := read_all 4 4 (new_Reader (fst (dest_ w)) (Some []) true 0 0) in
  Ok (ok st, map zlen rs, reporter_ r).


(** ** Concrete runs *)
#[local] Ltac concrete_bytes := repeat (apply Forall_cons_2; [by vm_compute|]); by apply Forall_nil_2.
#[local] Ltac concrete_slices := repeat (apply Forall_cons_2; [cbn; concrete_bytes|]); by apply Forall_nil_2.

Lemma add_record_format_witness :
  exists w' bs q, AddRecord (mk_slice 5 [7; 8]) (mk_writer (mk_mem [] None) 32765 type_crcs) = Ok (OK, w') /\
    mem_bytes (dest_ w') = bs /\ laid_out true 32765 [7; 8] bs q.
Proof.
  destruct (add_record_format (reliable := fun f => mem_budget f = None) (written := mem_bytes) (mk_slice 5 [7; 8])
    (mk_writer (mk_mem [] None) 32765 type_crcs)) as (w' & bs & q & E & _ & Ew & _ & Hl & _).
  - split; [done|by vm_compute|done].
  - cbn. concrete_bytes.
  - exists w', bs, q. split; [exact E|]. split; [exact Ew|exact Hl].
Defined.

Lemma log_crash_recovery_witness :
  exists w0 w, new_Writer 0 (mk_mem [] None) = Ok w0 /\
    add_records [mk_slice 0 [1; 2]; mk_slice 0 [3]] w0 = Ok (OK, w) /\
    forall file n fuel checksum backing, file = take n (mem_bytes (dest_ w)) ->
      (length file < fuel)%nat ->
      exists k r, read_all fuel fuel (new_Reader file (Some []) checksum backing 0) =
          Ok (map contents (take k [mk_slice 0 [1; 2]; mk_slice 0 [3]]), r) /\ reporter_ r = Some [] /\
        forall j wj, add_records (take j [mk_slice 0 [1; 2]; mk_slice 0 [3]]) w0 = Ok (OK, wj) -> (j <= 2)%nat ->
          zlen (mem_bytes (dest_ wj)) <= zlen file -> (j <= k)%nat.
Proof.
  apply (log_crash_recovery (reliable := fun f => mem_budget f = None) (written := mem_bytes)
    (unread := fun f : list Z => f)); [done|done|concrete_slices].
Defined.

Lemma log_reopen_witness :
  exists w0 w1 w2 w3, new_Writer 0 (mk_mem [] None) = Ok w0 /\ add_records [mk_slice 0 [1; 2]] w0 = Ok (OK, w1) /\
    new_Writer_at 9 (dest_ w1) (zlen (mem_bytes (dest_ w1))) = Ok w2 /\
    add_records [mk_slice 0 []; mk_slice 3 [4]] w2 = Ok (OK, w3) /\
    forall file fuel checksum backing, file = mem_bytes (dest_ w3) -> (length file < fuel)%nat ->
      exists r, read_all fuel fuel (new_Reader file (Some []) checksum backing 0) =
          Ok ([[1; 2]; []; [4]], r) /\ reporter_ r = Some [].
Proof.
  apply (log_reopen (reliable := fun f => mem_budget f = None) (written := mem_bytes)
    (unread := fun f : list Z => f) [mk_slice 0 [1; 2]] [mk_slice 0 []; mk_slice 3 [4]]);
    [done|done|concrete_slices|concrete_slices].
Defined.

