(* ===== verification/Order.v ===== *)
(** * Total orders given by a three-way comparison

    Keys that compare equal need not be equal. *)
From S2P Require Import Prelude.

Class TotalOrder {K : Type} (order : K -> K -> comparison) : Prop := {
  order_antisym : forall a b, order b a = CompOpp (order a b);
  order_trans : forall a b c, order a b <> Gt -> order b c <> Gt -> order a c <> Gt
}.

Section Order.
Context {K : Type} (order : K -> K -> comparison) {Horder : TotalOrder order}.

Lemma order_refl a : order a a = Eq.
Proof. pose proof (order_antisym a a) as E. by destruct (order a a). Qed.

Lemma order_flip a b : order b a <> Gt <-> order a b <> Lt.
Proof. rewrite order_antisym. by destruct (order a b). Qed.

Lemma order_gt a b : order b a = Gt <-> order a b = Lt.
Proof. rewrite order_antisym. by destruct (order a b). Qed.

(** Equal keys are interchangeable. *)
Lemma order_eq_l a b c : order a b = Eq -> order a c = order b c.
Proof.
  intros E. assert (Hba : order b a = Eq) by (rewrite order_antisym; by rewrite E).
  assert (H1 : forall x y, order x y = Eq -> order y c <> Gt -> order x c <> Gt) by (intros x y Exy; apply order_trans; by rewrite Exy).
  assert (H2 : forall x y, order x y = Eq -> order y c <> Lt -> order x c <> Lt).
  { intros x y Exy Hyc. apply order_flip. apply order_flip in Hyc. apply (order_trans c y x); [done|].
    rewrite order_antisym. by rewrite Exy. }
  pose proof (H1 a b E). pose proof (H1 b a Hba). pose proof (H2 a b E). pose proof (H2 b a Hba).
  destruct (order a c), (order b c); naive_solver.
Qed.

Lemma order_eq_r a b c : order b c = Eq -> order a b = order a c.
Proof. intros E. rewrite (order_antisym b a), (order_antisym c a). f_equal. by apply order_eq_l. Qed.

Lemma order_lt_le a b c : order a b = Lt -> order b c <> Gt -> order a c = Lt.
Proof.
  intros Hab Hbc. pose proof (order_trans a b c ltac:(by rewrite Hab) Hbc) as Hac.
  destruct (order a c) eqn:E; [|done|done]. exfalso.
  pose proof (order_eq_l a c b E) as E2. apply Hbc. rewrite (order_antisym c b), <- E2. by rewrite Hab.
Qed.

Lemma order_le_lt a b c : order a b <> Gt -> order b c = Lt -> order a c = Lt.
Proof.
  intros Hab Hbc. pose proof (order_trans a b c Hab ltac:(by rewrite Hbc)) as Hac.
  destruct (order a c) eqn:E; [|done|done]. exfalso.
  pose proof (order_eq_r b a c E) as E2. apply Hab. rewrite (order_antisym b a), E2. by rewrite Hbc.
Qed.

Lemma order_lt_trans a b c : order a b = Lt -> order b c = Lt -> order a c = Lt.
Proof. intros H1 H2. apply (order_lt_le a b c H1). by rewrite H2. Qed.
End Order.

(** An order on what a key is part of. *)
Definition order_on {A K : Type} (f : A -> K) (order : K -> K -> comparison) (a b : A) : comparison := order (f a) (f b).

#[export] Instance order_on_total {A K} (f : A -> K) order `{!TotalOrder order} : TotalOrder (order_on f order).
Proof.
  split; unfold order_on; intros; [apply (order_antisym (order := order))|by eapply (order_trans (order := order))].
Qed.
