(* ===== verification/Comparator.v ===== *)
(** * Comparators ([leveldb/comparator.h, slice.h, util/comparator.cc])

    [Comparator] is the interface; the built-in one orders keys bytewise. *)
From S2P Require Import Prelude Order Coding.

(** The interface.  The advanced functions change a string in place: they
    return its new value. *)
Class Comparator : Type := {
  Compare : list Z -> list Z -> outcome Z;
  FindShortestSeparator : list Z -> list Z -> outcome (list Z);
  FindShortSuccessor : list Z -> outcome (list Z)
}.

(** What a comparator promises on valid keys: [Compare] decides a total order
    [order], a separator is in [start, limit), a successor is not smaller. *)
Class LawfulComparator `{Comparator} (valid : list Z -> Prop)
    (order : list Z -> list Z -> comparison) : Prop := {
  compare_law : forall a b, valid a -> valid b ->
    exists r, Compare a b = Ok r /\ (r ?= 0) = order a b;
  key_order :: TotalOrder order;
  separator_law : forall start limit, valid start -> valid limit -> order start limit <> Gt ->
    exists s, FindShortestSeparator start limit = Ok s /\ valid s /\ order start s <> Gt /\
      (order start limit = Lt -> order s limit = Lt) /\ (order start limit = Eq -> s = start);
  successor_law : forall key, valid key ->
    exists s, FindShortSuccessor key = Ok s /\ valid s /\ order key s <> Gt
}.

(** Separators and successors are never longer than the key. *)
Class ShortComparator `{Comparator} : Prop := {
  separator_short : forall start limit s, FindShortestSeparator start limit = Ok s -> zlen s <= zlen start;
  successor_short : forall key s, FindShortSuccessor key = Ok s -> zlen s <= zlen key
}.

(** Keys in groups, such as those with one user key: groups are intervals,
    and a separator that is not [start] is before the whole group of
    [limit]. *)
Class GroupedComparator `{Comparator} (valid : list Z -> Prop) (order : list Z -> list Z -> comparison)
    (group : list Z -> list Z -> Prop) : Prop := {
  group_convex : forall a b c, group a c -> order a b <> Gt -> order b c <> Gt -> group a b;
  separator_group : forall start limit s k, valid start -> valid limit -> valid k -> order start limit = Lt ->
    FindShortestSeparator start limit = Ok s -> s = start \/ (group k limit -> order s k = Lt)
}.

(** ** Bytewise comparison *)

(** The sign [memcmp] returns for [n] bytes. *)
Fixpoint memcmp (n : nat) (a b : list Z) : Z :=
  match n, a, b with
  | S n', x :: a', y :: b' =>
      if x =? y then memcmp n' a' b' else if x <? y then -1 else 1
  | _, _, _ => 0
  end.

(** [Slice::compare]. *)
Definition slice_compare (a b : list Z) : Z :=
  let min_len := if zlen a <? zlen b then zlen a else zlen b in
  let r := memcmp (Z.to_nat min_len) a b in
  if r =? 0 then
    if zlen a <? zlen b then -1 else if zlen b <? zlen a then 1 else r
  else r.

(** The loop that finds the length of the common prefix. *)
Fixpoint common_prefix (min_length : nat) (start limit : list Z) : nat :=
  match min_length, start, limit with
  | S n, x :: start', y :: limit' => if (x =? y)%Z then S (common_prefix n start' limit') else 0
  | _, _, _ => 0
  end%nat.

(** The bytes are compared as [uint8_t] and incremented as [char]. *)
Definition bytewise_separator (start limit : list Z) : outcome (list Z) :=
  let min_length := Nat.min (length start) (length limit) in
  let diff_index := common_prefix min_length start limit in
  if (min_length <=? diff_index)%nat then Ok start
  else
    let! diff_byte := or_ub OverRead (start !! diff_index) in
    let! limit_byte := or_ub OverRead (limit !! diff_index) in
    if (diff_byte <? 0xff) && (diff_byte + 1 <? limit_byte) then
      let start := take (S diff_index) (<[diff_index := uchar (diff_byte + 1)]> start) in
      assert (slice_compare start limit <? 0) (Ok start)
    else Ok start.

(** The first byte that can be incremented ends the key. *)
Fixpoint bytewise_successor (key : list Z) : list Z :=
  match key with
  | [] => []
  | byte :: key' => if negb (byte =? 0xff) then [uchar (byte + 1)] else byte :: bytewise_successor key'
  end.

Definition BytewiseComparator : Comparator := {|
  Compare a b := Ok (slice_compare a b);
  FindShortestSeparator := bytewise_separator;
  FindShortSuccessor key := Ok (bytewise_successor key)
|}.
