(* ===== verification/ComparatorProof.v ===== *)
(** * The bytewise comparator is lawful

    It decides the lexicographic order. *)
From S2P Require Import Prelude Order Coding CodingProof Comparator.

(** ** The lexicographic order *)
Fixpoint lex (a b : list Z) : comparison :=
  match a, b with
  | [], [] => Eq
  | [], _ :: _ => Lt
  | _ :: _, [] => Gt
  | x :: a', y :: b' => match x ?= y with Eq => lex a' b' | c => c end
  end.

Lemma lex_antisym a b : lex b a = CompOpp (lex a b).
Proof.
  revert b. induction a as [|x a IH]; intros [|y b]; try done. cbn [lex].
  rewrite (Z.compare_antisym x y). by destruct (x ?= y); cbn [CompOpp].
Qed.

Lemma lex_eq a b : lex a b = Eq <-> a = b.
Proof.
  revert b. induction a as [|x a IH]; intros [|y b]; try done. cbn [lex].
  destruct (Z.compare_spec x y) as [->|H|H]; [rewrite IH; split; [by intros ->|by intros [= ->]]|..];
    (split; [done|intros [= -> ->]; lia]).
Qed.

Lemma lex_trans a b c : lex a b <> Gt -> lex b c <> Gt -> lex a c <> Gt.
Proof.
  revert b c. induction a as [|x a IH]; intros [|y b] [|z c]; try done. cbn [lex].
  destruct (Z.compare_spec x y) as [->|Hxy|Hxy]; try done.
  - destruct (Z.compare_spec y z) as [->|Hyz|Hyz]; try done. by apply IH.
  - destruct (Z.compare_spec y z) as [->|Hyz|Hyz]; try done;
      by rewrite (proj2 (Z.compare_lt_iff x z)) by lia.
Qed.

#[export] Instance lex_order : TotalOrder lex.
Proof. split; [exact lex_antisym|exact lex_trans]. Qed.

Lemma lex_app p a b : lex (p ++ a) (p ++ b) = lex a b.
Proof. induction p as [|x p IH]; [done|]. cbn [app lex]. by rewrite Z.compare_refl. Qed.

(** ** [Slice::compare] *)
Definition sign (c : comparison) : Z := match c with Lt => -1 | Eq => 0 | Gt => 1 end.

Lemma slice_compare_cons x y a b :
  slice_compare (x :: a) (y :: b) =
    if x =? y then slice_compare a b else if x <? y then -1 else 1.
Proof.
  unfold slice_compare. cbv zeta. rewrite !zlen_cons.
  assert (E : (if 1 + zlen a <? 1 + zlen b then 1 + zlen a else 1 + zlen b) =
    1 + (if zlen a <? zlen b then zlen a else zlen b)).
  { destruct (Z.ltb_spec (1 + zlen a) (1 + zlen b)), (Z.ltb_spec (zlen a) (zlen b)); lia. }
  rewrite E. pose proof (zlen_nonneg a). pose proof (zlen_nonneg b).
  replace (Z.to_nat _) with (S (Z.to_nat (if zlen a <? zlen b then zlen a else zlen b)))
    by (destruct (zlen a <? zlen b); lia).
  cbn [memcmp].
  assert (L1 : (1 + zlen a <? 1 + zlen b) = (zlen a <? zlen b)) by (destruct (Z.ltb_spec (1 + zlen a) (1 + zlen b)), (Z.ltb_spec (zlen a) (zlen b)); lia).
  assert (L2 : (1 + zlen b <? 1 + zlen a) = (zlen b <? zlen a)) by (destruct (Z.ltb_spec (1 + zlen b) (1 + zlen a)), (Z.ltb_spec (zlen b) (zlen a)); lia).
  rewrite L1, L2. destruct (x =? y); [done|]. by destruct (x <? y).
Qed.

Lemma slice_compare_lex a b : slice_compare a b = sign (lex a b).
Proof.
  revert b. induction a as [|x a IH]; intros [|y b]; [done|..].
  - unfold slice_compare. cbv zeta. rewrite zlen_cons, zlen_nil. pose proof (zlen_nonneg b).
    by destruct (Z.ltb_spec 0 (1 + zlen b)); [|lia].
  - unfold slice_compare. cbv zeta. rewrite zlen_cons, zlen_nil. pose proof (zlen_nonneg a).
    destruct (Z.ltb_spec (1 + zlen a) 0); [lia|]. cbn. by destruct (Z.ltb_spec 0 (1 + zlen a)); [|lia].
  - rewrite slice_compare_cons. cbn [lex]. rewrite IH.
    destruct (Z.eqb_spec x y) as [->|Hne]; [by rewrite Z.compare_refl|].
    destruct (Z.ltb_spec x y) as [Hlt|Hge]; [by rewrite (proj2 (Z.compare_lt_iff _ _) Hlt)|].
    rewrite (proj2 (Z.compare_gt_iff _ _)) by lia. done.
Qed.

Lemma sign_compare c : (sign c ?= 0) = c.
Proof. by destruct c. Qed.

(** ** The separator and the successor *)
Lemma common_prefix_split n a b :
  (n <= length a)%nat -> (n <= length b)%nat ->
  (n <= common_prefix n a b)%nat \/
  exists p x a' y b', a = p ++ x :: a' /\ b = p ++ y :: b' /\ x <> y /\
    length p = common_prefix n a b /\ (length p < n)%nat.
Proof.
  revert a b. induction n as [|n IH]; intros a b Ha Hb; [left; lia|].
  destruct a as [|x a]; [simpl in Ha; lia|]. destruct b as [|y b]; [simpl in Hb; lia|].
  simpl in Ha, Hb. cbn [common_prefix]. destruct (Z.eqb_spec x y) as [->|Hne].
  - destruct (IH a b) as [H|(p & x & a' & z & b' & -> & -> & Hne & Hp & Hl)]; [lia|lia|left; lia|].
    right. exists (y :: p), x, a', z, b'. cbn [app length]. rewrite Hp. split; [done|]. split; [done|]. split; [done|]. lia.
  - right. exists [], x, a, y, b. cbn. split; [done|]. split; [done|]. split; [done|]. lia.
Qed.

Lemma insert_middle (p a : list Z) x y : <[length p := y]> (p ++ x :: a) = p ++ y :: a.
Proof. by rewrite <- (Nat.add_0_r (length p)), insert_app_r. Qed.

Lemma bytewise_separator_ok start limit :
  bytes start -> bytes limit -> lex start limit <> Gt ->
  exists s, bytewise_separator start limit = Ok s /\ bytes s /\ lex start s <> Gt /\
    (lex start limit = Lt -> lex s limit = Lt) /\ (lex start limit = Eq -> s = start).
Proof.
  intros Hs Hl Hord. assert (Hrefl : forall a, lex a a <> Gt) by (intros a; by rewrite (proj2 (lex_eq a a) eq_refl)).
  unfold bytewise_separator. cbv zeta. set (n := Nat.min (length start) (length limit)).
  destruct (common_prefix_split n start limit) as [Hn|(p & x & a & y & b & -> & -> & Hne & Hp & Hlt)]; [lia|lia|..].
  { rewrite (proj2 (Nat.leb_le _ _) Hn). exists start. by auto. }
  rewrite (proj2 (Nat.leb_gt _ _)) by lia. rewrite <- Hp.
  rewrite !list_lookup_middle by done. cbn [or_ub obind].
  apply Forall_app in Hs as [Hbp Hs]. inversion Hs as [|?? Hx Ha]; subst. unfold is_byte in Hx.
  destruct (Z.ltb_spec x 255); [|by eexists; repeat split; [apply Forall_app; split|..]; auto].
  destruct (Z.ltb_spec (x + 1) y); [|by eexists; repeat split; [apply Forall_app; split|..]; auto]. cbn [andb].
  rewrite insert_middle, cons_middle, app_assoc, take_app_length' by (rewrite length_app; simpl; lia).
  unfold uchar. rewrite wrap_small by lia.
  assert (H1 : lex (p ++ x :: a) (p ++ [x + 1]) = Lt).
  { rewrite lex_app. cbn [lex]. by rewrite (proj2 (Z.compare_lt_iff _ _)) by lia. }
  assert (H2 : lex (p ++ [x + 1]) (p ++ y :: b) = Lt).
  { rewrite lex_app. cbn [lex]. by rewrite (proj2 (Z.compare_lt_iff _ _)) by lia. }
  rewrite slice_compare_lex, H2. cbn [sign Z.ltb Z.compare assert].
  eexists. split; [done|]. split.
  { apply Forall_app. split; [done|]. apply Forall_cons_2; [unfold is_byte; lia|apply Forall_nil_2]. }
  split; [by rewrite H1|]. split; [done|].
  rewrite lex_app. cbn [lex]. by rewrite (proj2 (Z.compare_lt_iff x y)) by lia.
Qed.

Lemma bytewise_successor_ok key :
  bytes key -> bytes (bytewise_successor key) /\ lex key (bytewise_successor key) <> Gt.
Proof.
  induction 1 as [|x key Hx _ [IHb IH]]; [by split; [apply Forall_nil_2|]|]. cbn [bytewise_successor]. unfold is_byte in Hx.
  destruct (Z.eqb_spec x 255) as [->|Hne]; cbn [negb].
  - split; [by apply Forall_cons_2|done].
  - unfold uchar. rewrite wrap_small by lia. split.
    + apply Forall_cons_2; [unfold is_byte; lia|apply Forall_nil_2].
    + cbn [lex]. by rewrite (proj2 (Z.compare_lt_iff _ _)) by lia.
Qed.

#[export] Instance bytewise_lawful : @LawfulComparator BytewiseComparator bytes lex.
Proof.
  split.
  - intros a b _ _. exists (slice_compare a b). split; [done|]. by rewrite slice_compare_lex, sign_compare.
  - exact lex_order.
  - exact bytewise_separator_ok.
  - intros key Hk. destruct (bytewise_successor_ok key Hk). by exists (bytewise_successor key).
Qed.

#[export] Instance bytewise_short : @ShortComparator BytewiseComparator.
Proof.
  split.
  - intros start limit s. cbn [FindShortestSeparator BytewiseComparator]. unfold bytewise_separator. cbv zeta.
    destruct (_ <=? _)%nat; [by intros [= <-]|]. destruct (start !! _); [|done]. destruct (limit !! _); [|done]. cbn [or_ub obind].
    destruct (_ && _); [|by intros [= <-]]. unfold assert. destruct (_ <? 0); [|done]. intros [= <-].
    unfold zlen. rewrite length_take, length_insert. lia.
  - intros k s [= <-]. induction k as [|b k IH]; [done|]. cbn [bytewise_successor]. destruct (negb _); rewrite !zlen_cons.
    + rewrite zlen_nil. pose proof (zlen_nonneg k). lia.
    + lia.
Qed.

(** Equal keys are a group. *)
Lemma equal_grouped `{Comparator} valid order {Hlaw : LawfulComparator valid order} : GroupedComparator valid order (fun a b => order a b = Eq).
Proof.
  split.
  - intros a b c E Hab Hbc. destruct (order a b) eqn:Eab; [done| |done]. by rewrite (order_lt_le order _ _ _ Eab Hbc) in E.
  - intros start limit s k Hs Hl Hk Hlt Es. right. intros E.
    destruct (separator_law start limit Hs Hl) as (s' & Es' & _ & _ & Hs' & _); [by rewrite Hlt|].
    rewrite Es in Es'. injection Es' as <-. rewrite (order_eq_r order s k limit E). by apply Hs'.
Qed.
