(* ===== verification/DbFormat.v ===== *)
(** * Internal keys ([db/dbformat.h, db/dbformat.cc])

    An internal key is a user key followed by eight bytes, the sequence
    number and the type of an update.  The comparator and the filter policy
    for internal keys are built on those for user keys. *)
From S2P Require Import Prelude Coding Bloom Comparator.

Definition kTypeDeletion : Z := 0x0.
Definition kTypeValue : Z := 0x1.
Definition kValueTypeForSeek : Z := kTypeValue.
Definition kMaxSequenceNumber : Z := Z.shiftl 1 56 - 1.

Record ParsedInternalKey : Type := mk_parsed {
  user_key : list Z;
  sequence : Z;
  type : Z
}.

Definition InternalKeyEncodingLength (key : ParsedInternalKey) : Z := zlen (user_key key) + 8.

Definition PackSequenceAndType (seq t : Z) : outcome Z :=
  assert (seq <=? kMaxSequenceNumber)
  (assert (t <=? kValueTypeForSeek)
  (Ok (Z.lor (wrap 64 (Z.shiftl seq 8)) t))).

Definition AppendInternalKey (result : list Z) (key : ParsedInternalKey) : outcome (list Z) :=
  let! packed := PackSequenceAndType (sequence key) (type key) in
  Ok (PutFixed64 (result ++ user_key key) packed).

(** The eight bytes at [internal_key.data() + internal_key.size() - 8]. *)
Definition key_number (internal_key : list Z) : outcome Z :=
  DecodeFixed64 (drop (Z.to_nat (zlen internal_key - 8)) internal_key).

(** [None] is the result [false]. *)
Definition ParseInternalKey (internal_key : list Z) : outcome (option ParsedInternalKey) :=
  let n := zlen internal_key in
  if n <? 8 then Ok None
  else
    let! num := key_number internal_key in
    let c := Z.land num 0xff in
    let result := mk_parsed (take (Z.to_nat (n - 8)) internal_key) (Z.shiftr num 8) c in
    Ok (if c <=? kTypeValue then Some result else None).

Definition ExtractUserKey (internal_key : list Z) : outcome (list Z) :=
  assert (8 <=? zlen internal_key)
  (Ok (take (Z.to_nat (zlen internal_key - 8)) internal_key)).

(** ** Keys in memory *)
Definition new_InternalKey (user_key : list Z) (s t : Z) : outcome (list Z) :=
  AppendInternalKey [] (mk_parsed user_key s t).
Definition Encode (rep_ : list Z) : outcome (list Z) :=
  assert (negb (zlen rep_ =? 0)) (Ok rep_).

(** The array a [LookupKey] builds and where the internal key starts. *)
Record LookupKey : Type := mk_lookup { start_ : list Z; kstart_ : Z }.

(** Writes past the array are undefined behaviour. *)
Definition new_LookupKey (user_key : list Z) (s : Z) : outcome LookupKey :=
  let usize := zlen user_key in
  let needed := usize + 13 in
  let capacity := if needed <=? 200 then 200 else needed in
  let klength := EncodeVarint32 (wrap 32 (usize + 8)) in
  let! tag := PackSequenceAndType s kValueTypeForSeek in
  let array := klength ++ user_key ++ EncodeFixed64 tag in
  if capacity <? zlen array then UB OverWrite else Ok (mk_lookup array (zlen klength)).

Definition memtable_key (k : LookupKey) : list Z := start_ k.
Definition internal_key (k : LookupKey) : list Z := drop (Z.to_nat (kstart_ k)) (start_ k).
Definition lookup_user_key (k : LookupKey) : list Z :=
  take (Z.to_nat (zlen (start_ k) - kstart_ k - 8)) (drop (Z.to_nat (kstart_ k)) (start_ k)).

(** ** The comparator *)
Section InternalKeyComparator.
Context `{Comparator}.

Definition internal_compare (akey bkey : list Z) : outcome Z :=
  let! a := ExtractUserKey akey in
  let! b := ExtractUserKey bkey in
  let! r := Compare a b in
  if r =? 0 then
    let! anum := key_number akey in
    let! bnum := key_number bkey in
    Ok (if bnum <? anum then -1 else if anum <? bnum then 1 else r)
  else Ok r.

Definition internal_separator (start limit : list Z) : outcome (list Z) :=
  let! user_start := ExtractUserKey start in
  let! user_limit := ExtractUserKey limit in
  let! tmp := FindShortestSeparator user_start user_limit in
  let! shorter := (if zlen tmp <? zlen user_start then
                     let! r := Compare user_start tmp in Ok (r <? 0)
                   else Ok false) in
  if shorter : bool then
    let! packed := PackSequenceAndType kMaxSequenceNumber kValueTypeForSeek in
    let tmp := PutFixed64 tmp packed in
    let! r := internal_compare start tmp in
    assert (r <? 0)
    (let! r := internal_compare tmp limit in
     assert (r <? 0)
     (Ok tmp))
  else Ok start.

Definition internal_successor (key : list Z) : outcome (list Z) :=
  let! user_key := ExtractUserKey key in
  let! tmp := FindShortSuccessor user_key in
  let! shorter := (if zlen tmp <? zlen user_key then
                     let! r := Compare user_key tmp in Ok (r <? 0)
                   else Ok false) in
  if shorter : bool then
    let! packed := PackSequenceAndType kMaxSequenceNumber kValueTypeForSeek in
    let tmp := PutFixed64 tmp packed in
    let! r := internal_compare key tmp in
    assert (r <? 0) (Ok tmp)
  else Ok key.

Definition InternalKeyComparator : Comparator := {|
  Compare := internal_compare;
  FindShortestSeparator := internal_separator;
  FindShortSuccessor := internal_successor
|}.
End InternalKeyComparator.

(** ** The filter policy

    The code replaces the keys of the caller's array by their user parts in
    place; its only caller does not look at them again. *)
Fixpoint user_keys (keys : list (list Z)) : outcome (list (list Z)) :=
  match keys with
  | [] => Ok []
  | key :: keys' =>
      let! u := ExtractUserKey key in
      let! us := user_keys keys' in
      Ok (u :: us)
  end.

Definition InternalFilterPolicy `{FilterPolicy} : FilterPolicy := {|
  CreateFilter keys dst := let! us := user_keys keys in CreateFilter us dst;
  KeyMayMatch key f := let! u := ExtractUserKey key in KeyMayMatch u f;
  policy_Name := policy_Name
|}.
