(* ===== verification/DbFormatProof.v ===== *)
(** * Internal keys are ordered and parsed consistently *)
From S2P Require Import Prelude Order Coding CodingProof Bloom Comparator DbFormat.

(** ** The parts of an internal key *)
Definition user_part (k : list Z) : list Z := take (Z.to_nat (zlen k - 8)) k.
Definition number_part (k : list Z) : Z := of_le (drop (Z.to_nat (zlen k - 8)) k).

Lemma ExtractUserKey_ok k : 8 <= zlen k -> ExtractUserKey k = Ok (user_part k).
Proof. intros Hk. unfold ExtractUserKey, assert. by rewrite (proj2 (Z.leb_le _ _) Hk). Qed.

Lemma length_number (k : list Z) : 8 <= zlen k -> length (drop (Z.to_nat (zlen k - 8)) k) = 8%nat.
Proof. intros Hk. rewrite length_drop. unfold zlen in *. lia. Qed.

Lemma key_number_ok k : 8 <= zlen k -> key_number k = Ok (number_part k).
Proof.
  intros Hk. pose proof (length_number k Hk) as Hl. unfold key_number, DecodeFixed64, kLittleEndian.
  unfold zlen at 1. rewrite Hl. change (Z.of_nat 8 <? 8) with false. rewrite take_ge by lia. done.
Qed.

Lemma number_part_range k : 8 <= zlen k -> bytes k -> 0 <= number_part k < 2 ^ 64.
Proof.
  intros Hk Hb. pose proof (of_le_range (drop (Z.to_nat (zlen k - 8)) k) ltac:(by apply Forall_drop)) as H.
  rewrite length_number in H by done. exact H.
Qed.

Lemma parts_join k : 8 <= zlen k -> bytes k -> user_part k ++ le_bytes 8 (number_part k) = k.
Proof.
  intros Hk Hb. unfold user_part, number_part.
  pose proof (le_bytes_of_le (drop (Z.to_nat (zlen k - 8)) k) ltac:(by apply Forall_drop)) as E.
  rewrite length_number in E by done. rewrite E. apply take_drop.
Qed.

Section Join.
Context (u : list Z) (n : Z).
Lemma zlen_join : zlen (u ++ le_bytes 8 n) = zlen u + 8.
Proof. rewrite zlen_app. done. Qed.

Lemma user_part_join : user_part (u ++ le_bytes 8 n) = u.
Proof.
  unfold user_part. rewrite zlen_join. replace (Z.to_nat (zlen u + 8 - 8)) with (length u) by (unfold zlen; lia).
  apply take_app_length.
Qed.

Lemma number_part_join : number_part (u ++ le_bytes 8 n) = wrap 64 n.
Proof.
  unfold number_part. rewrite zlen_join. replace (Z.to_nat (zlen u + 8 - 8)) with (length u) by (unfold zlen; lia).
  rewrite drop_app_length. exact (of_le_bytes 8 n).
Qed.
End Join.

(** ** Packing *)
Definition type_ok (t : Z) : Prop := t = kTypeDeletion \/ t = kTypeValue.
Definition sequence_ok (s : Z) : Prop := 0 <= s <= kMaxSequenceNumber.
Definition pack (s t : Z) : Z := s * 256 + t.

Lemma PackSequenceAndType_ok s t : sequence_ok s -> type_ok t -> PackSequenceAndType s t = Ok (pack s t).
Proof.
  intros [Hs1 Hs2] Ht. unfold PackSequenceAndType, assert, pack. rewrite (proj2 (Z.leb_le _ _) Hs2).
  unfold kValueTypeForSeek, type_ok, kTypeDeletion, kTypeValue in *. change kMaxSequenceNumber with (2 ^ 56 - 1) in *.
  rewrite (proj2 (Z.leb_le _ _)) by lia. f_equal.
  rewrite wrap_small by (rewrite Z.shiftl_mul_pow2 by lia; lia).
  rewrite Z.lor_comm, lor_shiftl_add by lia. change (2 ^ 8) with 256. lia.
Qed.

Lemma pack_range s t : sequence_ok s -> type_ok t -> 0 <= pack s t < 2 ^ 64.
Proof.
  unfold sequence_ok, type_ok, pack, kTypeDeletion, kTypeValue. change kMaxSequenceNumber with (2 ^ 56 - 1). lia.
Qed.

(** The encoding of a parsed key. *)
Definition encoded (u : list Z) (s t : Z) : list Z := u ++ le_bytes 8 (pack s t).

(** An update, its internal key, and updates as the entries of an iterator. *)
Record DbEntry : Type := mk_entry { e_user : list Z; e_sequence : Z; e_type : Z; e_value : list Z }.
Definition entry_key (e : DbEntry) : list Z := encoded (e_user e) (e_sequence e) (e_type e).
Definition table_entries (es : list DbEntry) : list (list Z * list Z) := map (fun e => (entry_key e, e_value e)) es.

Lemma AppendInternalKey_ok result u s t :
  sequence_ok s -> type_ok t -> AppendInternalKey result (mk_parsed u s t) = Ok (result ++ encoded u s t).
Proof.
  intros Hs Ht. unfold AppendInternalKey. cbn [sequence type user_key]. rewrite PackSequenceAndType_ok by done.
  cbn [obind]. unfold PutFixed64, encoded. by rewrite EncodeFixed64_le, <- app_assoc.
Qed.

Lemma number_part_encoded u s t : sequence_ok s -> type_ok t -> number_part (encoded u s t) = pack s t.
Proof. intros. unfold encoded. rewrite number_part_join. by apply wrap_small, pack_range. Qed.

Lemma encoded_valid u s t : bytes u -> bytes (encoded u s t) /\ 8 <= zlen (encoded u s t).
Proof.
  intros Hu. unfold encoded. rewrite zlen_join. pose proof (zlen_nonneg u). split; [|lia].
  apply Forall_app. split; [done|apply le_bytes_bytes].
Qed.

(** The parts of a packed number. *)
Lemma unpack n : 0 <= n < 2 ^ 64 -> n = pack (Z.shiftr n 8) (Z.land n 0xff) /\ 0 <= Z.shiftr n 8 <= kMaxSequenceNumber.
Proof.
  intros Hn. rewrite land_255, shiftr_div by lia. change (2 ^ 8) with 256. unfold pack.
  change kMaxSequenceNumber with (2 ^ 56 - 1). euclid.
Qed.

Lemma pack_type s t : sequence_ok s -> type_ok t -> Z.land (pack s t) 255 = t.
Proof.
  intros Hs Ht. rewrite land_255. unfold pack. rewrite Z.add_comm, Z_mod_plus_full. apply Z.mod_small.
  unfold type_ok, kTypeDeletion, kTypeValue in Ht. lia.
Qed.

Lemma pack_sequence s t : sequence_ok s -> type_ok t -> Z.shiftr (pack s t) 8 = s.
Proof.
  intros Hs Ht. rewrite shiftr_div by lia. change (2 ^ 8) with 256. unfold pack, type_ok, kTypeDeletion, kTypeValue in *.
  rewrite Z.add_comm, Z.div_add by lia. rewrite Z.div_small by lia. lia.
Qed.

Lemma ParseInternalKey_encoded u s t :
  sequence_ok s -> type_ok t -> ParseInternalKey (encoded u s t) = Ok (Some (mk_parsed u s t)).
Proof.
  intros Hs Ht. pose proof (zlen_nonneg u). pose proof (pack_range s t Hs Ht) as Hp.
  assert (Hz : zlen (encoded u s t) = zlen u + 8) by apply zlen_join.
  unfold ParseInternalKey. rewrite (proj2 (Z.ltb_ge _ _)) by lia.
  rewrite key_number_ok by lia. cbn [obind]. fold (user_part (encoded u s t)).
  rewrite number_part_encoded by done. unfold encoded at 1. rewrite user_part_join.
  rewrite (pack_type s t Hs Ht), (pack_sequence s t Hs Ht).
  rewrite (proj2 (Z.leb_le _ _)); [done|].
  unfold type_ok, kTypeDeletion, kTypeValue in *. lia.
Qed.

Lemma ParseInternalKey_total k : bytes k ->
  exists r, ParseInternalKey k = Ok r /\
    match r with
    | Some p => k = encoded (user_key p) (sequence p) (type p) /\ sequence_ok (sequence p) /\ type_ok (type p)
    | None => zlen k < 8 \/ kTypeValue < number_part k mod 256
    end.
Proof.
  intros Hb. unfold ParseInternalKey. destruct (Z.ltb_spec (zlen k) 8); [eexists; split; [done|by left]|].
  rewrite key_number_ok by lia. cbn [obind]. fold (user_part k).
  pose proof (number_part_range k ltac:(lia) Hb) as Hn. destruct (unpack _ Hn) as [Hp Hs].
  destruct (Z.leb_spec (Z.land (number_part k) 255) kTypeValue) as [Hle|Hgt]; eexists; (split; [done|]).
  - cbn. split; [unfold encoded; rewrite <- Hp; by rewrite parts_join by (lia || done)|]. split; [done|].
    rewrite land_255 in *. pose proof (Z.mod_pos_bound (number_part k) 256 ltac:(lia)).
    unfold type_ok, kTypeDeletion, kTypeValue in *. lia.
  - right. by rewrite <- land_255.
Qed.

(** ** The comparator *)
Section Comparator.
Context `{Comparator} (valid : list Z -> Prop) (order : list Z -> list Z -> comparison).
Context {Hlaw : LawfulComparator valid order}.

Definition valid_internal (k : list Z) : Prop := 8 <= zlen k /\ bytes k /\ valid (user_part k).

(** Increasing user key, then decreasing number. *)
Definition internal_order (a b : list Z) : comparison :=
  match order (user_part a) (user_part b) with
  | Eq => number_part b ?= number_part a
  | c => c
  end.

Lemma internal_antisym a b : internal_order b a = CompOpp (internal_order a b).
Proof.
  unfold internal_order. rewrite (order_antisym (user_part a)).
  destruct (order (user_part a) (user_part b)); cbn [CompOpp]; [|done|done]. apply Z.compare_antisym.
Qed.

Lemma internal_trans a b c :
  internal_order a b <> Gt -> internal_order b c <> Gt -> internal_order a c <> Gt.
Proof.
  unfold internal_order. intros H1 H2.
  destruct (order (user_part a) (user_part b)) eqn:E1; [| |done].
  - rewrite (order_eq_l order _ _ _ E1). destruct (order (user_part b) (user_part c)); [|done|done].
    rewrite Z.compare_le_iff in *. lia.
  - destruct (order (user_part b) (user_part c)) eqn:E2; [| |done].
    + by rewrite (order_lt_le order _ _ _ E1) by (by rewrite E2).
    + by rewrite (order_lt_le order _ _ _ E1) by (by rewrite E2).
Qed.

#[export] Instance internal_total : TotalOrder internal_order.
Proof. split; [exact internal_antisym|exact internal_trans]. Qed.

Lemma internal_compare_ok a b :
  valid_internal a -> valid_internal b ->
  exists r, internal_compare a b = Ok r /\ (r ?= 0) = internal_order a b.
Proof.
  intros (Ha & _ & Hva) (Hb & _ & Hvb). unfold internal_compare, internal_order.
  rewrite !ExtractUserKey_ok by done. cbn [obind].
  destruct (compare_law _ _ Hva Hvb) as (r & -> & <-). cbn [obind].
  destruct (Z.eqb_spec r 0) as [->|Hr].
  - rewrite !key_number_ok by done. cbn [obind]. eexists. split; [done|]. cbn [Z.compare].
    destruct (Z.ltb_spec (number_part b) (number_part a)) as [Hlt|Hge].
    + by rewrite (proj2 (Z.compare_lt_iff (number_part b) (number_part a)) Hlt).
    + destruct (Z.ltb_spec (number_part a) (number_part b)) as [Hlt|Hge2].
      * by rewrite (proj2 (Z.compare_gt_iff (number_part b) (number_part a))) by lia.
      * by rewrite (proj2 (Z.compare_eq_iff (number_part b) (number_part a))) by lia.
  - exists r. split; [done|]. destruct (Z.compare_spec r 0); done.
Qed.

Lemma internal_compare_lt a b :
  valid_internal a -> valid_internal b -> internal_order a b = Lt ->
  exists r, internal_compare a b = Ok r /\ (r <? 0) = true.
Proof.
  intros Ha Hb E. destruct (internal_compare_ok a b Ha Hb) as (r & -> & Er). exists r.
  split; [done|]. apply Z.ltb_lt. apply (proj1 (Z.compare_lt_iff r 0)). by rewrite Er.
Qed.

(** The earliest key of a user key. *)
Definition earliest (u : list Z) : list Z := encoded u kMaxSequenceNumber kValueTypeForSeek.
Lemma seek_ok : sequence_ok kMaxSequenceNumber /\ type_ok kValueTypeForSeek.
Proof. by split; [|right]. Qed.
Lemma earliest_valid u : bytes u -> valid u -> valid_internal (earliest u).
Proof.
  intros Hb Hv. destruct (encoded_valid u kMaxSequenceNumber kValueTypeForSeek Hb) as [H1 H2].
  split; [done|]. split; [done|]. unfold earliest, encoded. by rewrite user_part_join.
Qed.
Lemma earliest_lt_l k u : order (user_part k) u = Lt -> internal_order k (earliest u) = Lt.
Proof. intros E. unfold internal_order, earliest, encoded. by rewrite user_part_join, E. Qed.
Lemma earliest_lt_r u k : order u (user_part k) = Lt -> internal_order (earliest u) k = Lt.
Proof. intros E. unfold internal_order, earliest, encoded. by rewrite user_part_join, E. Qed.

(** The test that the user key became shorter and larger. *)
Lemma shorter_ok u s : valid u -> valid s ->
  exists b, (if zlen s <? zlen u then let! r := Compare u s in Ok (r <? 0) else Ok false) = Ok b /\
    (b = true -> order u s = Lt).
Proof.
  intros Hu Hs. destruct (zlen s <? zlen u); [|by exists false].
  destruct (compare_law u s Hu Hs) as (r & -> & <-). cbn [obind]. exists (r <? 0). split; [done|].
  intros Hr. by apply Z.compare_lt_iff, Z.ltb_lt.
Qed.

Context (Hbytes : forall k, valid k -> bytes k).

Lemma internal_separator_ok start limit :
  valid_internal start -> valid_internal limit -> internal_order start limit <> Gt ->
  exists s, internal_separator start limit = Ok s /\ valid_internal s /\ internal_order start s <> Gt /\
    (internal_order start limit = Lt -> internal_order s limit = Lt) /\
    (internal_order start limit = Eq -> s = start).
Proof.
  intros Hs Hl Hord. pose proof Hs as (Hs8 & _ & Hvs). pose proof Hl as (Hl8 & _ & Hvl).
  unfold internal_separator. rewrite !ExtractUserKey_ok by done. cbn [obind].
  assert (Huser : order (user_part start) (user_part limit) <> Gt).
  { intros E. apply Hord. unfold internal_order. by rewrite E. }
  destruct (separator_law _ _ Hvs Hvl Huser) as (s & -> & Hv & Hle & Hlt & Heq). cbn [obind].
  destruct (shorter_ok _ _ Hvs Hv) as ([|] & -> & Hb); cbn [obind].
  - specialize (Hb eq_refl).
    assert (Hul : order (user_part start) (user_part limit) = Lt).
    { destruct (order (user_part start) (user_part limit)) eqn:E; [|done|done].
      rewrite (Heq eq_refl), (order_refl order) in Hb. done. }
    destruct seek_ok as [Hseq Hty]. rewrite PackSequenceAndType_ok by done. cbn [obind].
    unfold PutFixed64. rewrite EncodeFixed64_le. fold (encoded s kMaxSequenceNumber kValueTypeForSeek). fold (earliest s).
    pose proof (earliest_valid s (Hbytes s Hv) Hv) as Hve.
    pose proof (earliest_lt_l _ _ Hb) as E1. pose proof (earliest_lt_r _ _ (Hlt Hul)) as E2.
    destruct (internal_compare_lt _ _ Hs Hve E1) as (r1 & -> & Hr1). cbn [obind assert]. rewrite Hr1. cbn [assert].
    destruct (internal_compare_lt _ _ Hve Hl E2) as (r2 & -> & Hr2). cbn [obind]. rewrite Hr2. cbn [assert].
    eexists. split; [done|]. split; [done|]. split; [by rewrite E1|]. split; [done|].
    unfold internal_order at 1. by rewrite Hul.
  - exists start. split; [done|]. split; [done|]. split; [|done].
    unfold internal_order. by rewrite (order_refl order), Z.compare_refl.
Qed.

Lemma internal_successor_ok key :
  valid_internal key ->
  exists s, internal_successor key = Ok s /\ valid_internal s /\ internal_order key s <> Gt.
Proof.
  intros Hk. pose proof Hk as (Hk8 & _ & Hv). unfold internal_successor.
  rewrite ExtractUserKey_ok by done. cbn [obind].
  destruct (successor_law _ Hv) as (s & -> & Hvs & Hle). cbn [obind].
  destruct (shorter_ok _ _ Hv Hvs) as ([|] & -> & Hb); cbn [obind].
  - destruct seek_ok as [Hseq Hty]. rewrite PackSequenceAndType_ok by done. cbn [obind].
    unfold PutFixed64. rewrite EncodeFixed64_le. fold (encoded s kMaxSequenceNumber kValueTypeForSeek). fold (earliest s).
    pose proof (earliest_valid s (Hbytes s Hvs) Hvs) as Hve. pose proof (earliest_lt_l _ _ (Hb eq_refl)) as E1.
    destruct (internal_compare_lt _ _ Hk Hve E1) as (r1 & -> & Hr1). cbn [obind]. rewrite Hr1. cbn [assert].
    eexists. split; [done|]. split; [done|]. by rewrite E1.
  - exists key. split; [done|]. split; [done|]. unfold internal_order. by rewrite (order_refl order), Z.compare_refl.
Qed.

Lemma internal_lawful : @LawfulComparator InternalKeyComparator valid_internal internal_order.
Proof.
  split.
  - exact internal_compare_ok.
  - exact internal_total.
  - exact internal_separator_ok.
  - exact internal_successor_ok.
Qed.

(** The keys with one user key are a group. *)
Lemma internal_grouped :
  @GroupedComparator InternalKeyComparator valid_internal internal_order (fun a b => order (user_part a) (user_part b) = Eq).
Proof.
  split.
  - intros a b c E Hab Hbc. unfold internal_order in Hab, Hbc. destruct (order (user_part a) (user_part b)) eqn:Eab; [done| |done].
    rewrite (order_lt_le order (user_part a) (user_part b) (user_part c) Eab) in E; [done|]. by destruct (order (user_part b) (user_part c)).
  - intros start limit s k Hs Hl Hk Hlt. pose proof Hs as (Hs8 & _ & Hvs). pose proof Hl as (Hl8 & _ & Hvl).
    change (FindShortestSeparator start limit) with (internal_separator start limit). unfold internal_separator.
    rewrite !ExtractUserKey_ok by done. cbn [obind].
    assert (Huser : order (user_part start) (user_part limit) <> Gt).
    { intros E. unfold internal_order in Hlt. by rewrite E in Hlt. }
    destruct (separator_law _ _ Hvs Hvl Huser) as (u & -> & Hv & _ & Hult & Heq). cbn [obind].
    destruct (shorter_ok _ _ Hvs Hv) as ([|] & -> & Hb); cbn [obind]; [|intros [= <-]; by left].
    specialize (Hb eq_refl). assert (Hul : order (user_part start) (user_part limit) = Lt).
    { destruct (order (user_part start) (user_part limit)) eqn:E; [|done|done]. rewrite (Heq eq_refl), (order_refl order) in Hb. done. }
    destruct seek_ok as [Hseq Hty]. rewrite PackSequenceAndType_ok by done. cbn [obind].
    unfold PutFixed64. rewrite EncodeFixed64_le. fold (encoded u kMaxSequenceNumber kValueTypeForSeek). fold (earliest u).
    intros E. right. intros Hg. assert (s = earliest u) as ->.
    { do 2 (destruct (internal_compare _ _); cbn [obind assert] in E; [|done|done]; destruct (_ <? 0); cbn [assert] in E; [|done]).
      by injection E. }
    apply earliest_lt_r. rewrite (order_eq_r order u (user_part k) (user_part limit) Hg). by apply Hult.
Qed.

Lemma internal_order_encoded u1 s1 t1 u2 s2 t2 :
  sequence_ok s1 -> type_ok t1 -> sequence_ok s2 -> type_ok t2 ->
  internal_order (encoded u1 s1 t1) (encoded u2 s2 t2) =
    match order u1 u2 with
    | Eq => match s2 ?= s1 with Eq => t2 ?= t1 | c => c end
    | c => c
    end.
Proof.
  intros Hs1 Ht1 Hs2 Ht2. unfold internal_order. rewrite !number_part_encoded by done.
  unfold encoded. rewrite !user_part_join. destruct (order u1 u2); [|done|done].
  unfold pack. unfold type_ok, kTypeDeletion, kTypeValue in *.
  destruct (Z.compare_spec s2 s1) as [->|Hlt|Hgt].
  - destruct (Z.compare_spec t2 t1); [subst; apply Z.compare_refl|..];
      [apply Z.compare_lt_iff|apply Z.compare_gt_iff]; lia.
  - apply Z.compare_lt_iff. lia.
  - apply Z.compare_gt_iff. lia.
Qed.
End Comparator.

(** ** The filter policy *)
Lemma user_keys_ok keys : Forall (fun k => 8 <= zlen k) keys -> user_keys keys = Ok (map user_part keys).
Proof.
  induction 1 as [|k keys Hk _ IH]; [done|]. cbn [user_keys map]. rewrite ExtractUserKey_ok by done.
  cbn [obind]. by rewrite IH.
Qed.

Definition internal_fits (fits : list (list Z) -> Prop) (keys : list (list Z)) : Prop :=
  Forall (fun k => 8 <= zlen k) keys /\ fits (map user_part keys).

Lemma internal_policy_law `{FilterPolicy} fits {Hlaw : LawfulPolicy fits} :
  @LawfulPolicy InternalFilterPolicy (internal_fits fits).
Proof.
  intros keys dst [H8 Hfits] Hb. cbn [CreateFilter KeyMayMatch InternalFilterPolicy].
  rewrite user_keys_ok by done. cbn [obind].
  assert (Hbu : Forall bytes (map user_part keys)).
  { apply Forall_map. eapply Forall_impl; [exact Hb|]. intros k Hk. by apply Forall_take. }
  destruct (policy_law (map user_part keys) dst Hfits Hbu) as (f & E & Hbf & Hm).
  exists f. split; [done|]. split; [done|]. intros key Hin.
  rewrite ExtractUserKey_ok by (rewrite Forall_forall in H8; by apply H8). cbn [obind].
  apply Hm. apply list_elem_of_fmap. by exists key.
Qed.

(** ** Lookup keys *)
Lemma new_LookupKey_ok u s :
  sequence_ok s -> zlen u + 8 < 2 ^ 32 ->
  exists k, new_LookupKey u s = Ok k /\ internal_key k = encoded u s kValueTypeForSeek /\
    memtable_key k = EncodeLengthPrefixed (encoded u s kValueTypeForSeek) /\ lookup_user_key k = u.
Proof.
  intros Hs Hu. pose proof (zlen_nonneg u). unfold new_LookupKey. cbv zeta.
  rewrite PackSequenceAndType_ok by (done || by right). cbn [obind]. rewrite EncodeFixed64_le.
  fold (encoded u s kValueTypeForSeek). set (head := EncodeVarint32 (wrap 32 (zlen u + 8))).
  assert (Hhead : zlen head <= 5).
  { unfold head. rewrite EncodeVarint32_varint by (rewrite wrap_small by lia; lia). rewrite wrap_small by lia.
    apply zlen_varint32. lia. }
  assert (Hz : zlen (encoded u s kValueTypeForSeek) = zlen u + 8) by apply zlen_join.
  rewrite zlen_app, Hz.
  destruct (Z.ltb_spec (if zlen u + 13 <=? 200 then 200 else zlen u + 13) (zlen head + (zlen u + 8))).
  { exfalso. destruct (Z.leb_spec (zlen u + 13) 200); lia. }
  eexists. split; [done|]. unfold internal_key, memtable_key, lookup_user_key. cbn [start_ kstart_].
  assert (Hdrop : drop (Z.to_nat (zlen head)) (head ++ encoded u s kValueTypeForSeek) = encoded u s kValueTypeForSeek).
  { unfold zlen. rewrite Nat2Z.id. apply drop_app_length. }
  rewrite Hdrop. split; [done|]. split.
  - unfold EncodeLengthPrefixed, PutLengthPrefixedSlice, PutVarint32. by rewrite Hz.
  - rewrite zlen_app, Hz. unfold encoded. replace (Z.to_nat _) with (length u) by (unfold zlen; lia).
    apply take_app_length.
Qed.

(** ** Sizes *)
#[export] Instance internal_short `{Comparator} : @ShortComparator InternalKeyComparator.
Proof.
  assert (Hx : forall k u, ExtractUserKey k = Ok u -> zlen u + 8 = zlen k).
  { intros k u. unfold ExtractUserKey, assert. destruct (Z.leb_spec 8 (zlen k)); [|done]. intros [= <-].
    unfold zlen in *. rewrite length_take. lia. }
  assert (Hput : forall tmp v, zlen (PutFixed64 tmp v) = zlen tmp + 8) by (intros tmp v; unfold PutFixed64; rewrite zlen_app; done).
  split.
  - intros start limit s. cbn [FindShortestSeparator InternalKeyComparator]. unfold internal_separator.
    intros (us & Eu & (ul & _ & (tmp & _ & (b & Eb & E)%obind_Ok)%obind_Ok)%obind_Ok)%obind_Ok. apply Hx in Eu. destruct b.
    + destruct (Z.ltb_spec (zlen tmp) (zlen us)) as [Hl|]; [|done]. apply obind_Ok in E as (p & _ & (r & _ & E)%obind_Ok).
      unfold assert in E. destruct (r <? 0); [|done]. apply obind_Ok in E as (r' & _ & E). destruct (r' <? 0); [|done].
      injection E as <-. rewrite Hput. lia.
    + injection E as <-. lia.
  - intros k s. cbn [FindShortSuccessor InternalKeyComparator]. unfold internal_successor.
    intros (u & Eu & (tmp & _ & (b & Eb & E)%obind_Ok)%obind_Ok)%obind_Ok. apply Hx in Eu. destruct b.
    + destruct (Z.ltb_spec (zlen tmp) (zlen u)) as [Hl|]; [|done]. apply obind_Ok in E as (p & _ & (r & _ & E)%obind_Ok).
      unfold assert in E. destruct (r <? 0); [|done]. injection E as <-. rewrite Hput. lia.
    + injection E as <-. lia.
Qed.
