(* ===== verification/WriteBatch.v ===== *)
(** * Write batches ([db/write_batch.cc])

    A batch is the string [rep_]: a sequence number, a count and the encoded
    updates.  [Iterate] replays them on a handler, an interface; the one that
    inserts into a memtable is the client of another interface. *)
From S2P Require Import Prelude Coding Env DbFormat.

Definition kHeader : Z := 12.

Definition Clear (rep_ : list Z) : list Z := replicate (Z.to_nat kHeader) 0.
Definition new_WriteBatch : list Z := Clear [].
Definition ApproximateSize (rep_ : list Z) : Z := zlen rep_.

(** [rep_] is a byte string: four or eight bytes of it are read or replaced. *)
Definition Count (rep_ : list Z) : outcome Z :=
  let! n := DecodeFixed32 (drop 8 rep_) in Ok (swrap 32 n).
Definition SetCount (rep_ : list Z) (n : Z) : outcome (list Z) :=
  if zlen rep_ <? 12 then UB OverWrite else Ok (overwrite rep_ 8 (EncodeFixed32 (wrap 32 n))).
Definition Sequence (rep_ : list Z) : outcome Z := DecodeFixed64 rep_.
Definition SetSequence (rep_ : list Z) (seq : Z) : outcome (list Z) :=
  if zlen rep_ <? 8 then UB OverWrite else Ok (overwrite rep_ 0 (EncodeFixed64 seq)).
Definition SetContents (rep_ : list Z) (contents : list Z) : outcome (list Z) :=
  assert (kHeader <=? zlen contents) (Ok contents).

(** ** Updates *)
Definition Put (key value rep_ : list Z) : outcome (list Z) :=
  let! n := Count rep_ in
  let! n := int_add n 1 in
  let! rep_ := SetCount rep_ n in
  let rep_ := rep_ ++ [kTypeValue] in
  let rep_ := PutLengthPrefixedSlice rep_ key in
  Ok (PutLengthPrefixedSlice rep_ value).

Definition Delete (key rep_ : list Z) : outcome (list Z) :=
  let! n := Count rep_ in
  let! n := int_add n 1 in
  let! rep_ := SetCount rep_ n in
  let rep_ := rep_ ++ [kTypeDeletion] in
  Ok (PutLengthPrefixedSlice rep_ key).

Definition Append (dst src : list Z) : outcome (list Z) :=
  let! n := Count dst in
  let! m := Count src in
  let! n := int_add n m in
  let! dst := SetCount dst n in
  assert (kHeader <=? zlen src) (Ok (dst ++ drop (Z.to_nat kHeader) src)).

(** ** Iteration *)
Class Handler (S : Type) : Type := {
  handle_Put : list Z -> list Z -> S -> outcome S;
  handle_Delete : list Z -> S -> outcome S
}.

Section Iterate.
Context {S : Type} `{Handler S}.

(** The [while] loop; the status is [None] when the input is used up. *)
Fixpoint iterate_loop (fuel : nat) (input : list Z) (found : Z) (handler : S) :
    outcome (option Status * Z * S) :=
  match fuel with
  | O => Timeout
  | Datatypes.S n =>
      match input with
      | [] => Ok (None, found, handler)
      | tag :: input =>
          let! found := int_add found 1 in
          let tag := swrap 8 tag in
          if tag =? kTypeValue then
            match GetLengthPrefixedSlice input with
            | (Some key, input) =>
                match GetLengthPrefixedSlice input with
                | (Some value, input) =>
                    let! handler := handle_Put key value handler in
                    iterate_loop n input found handler
                | (None, _) => Ok (Some (Corruption "bad WriteBatch Put"), found, handler)
                end
            | (None, _) => Ok (Some (Corruption "bad WriteBatch Put"), found, handler)
            end
          else if tag =? kTypeDeletion then
            match GetLengthPrefixedSlice input with
            | (Some key, input) =>
                let! handler := handle_Delete key handler in
                iterate_loop n input found handler
            | (None, _) => Ok (Some (Corruption "bad WriteBatch Delete"), found, handler)
            end
          else Ok (Some (Corruption "unknown WriteBatch tag"), found, handler)
      end
  end.

Definition Iterate (rep_ : list Z) (handler : S) : outcome (Status * S) :=
  if zlen rep_ <? kHeader then Ok (Corruption "malformed WriteBatch (too small)", handler)
  else
    let input := drop (Z.to_nat kHeader) rep_ in
    let! (status, found, handler) := iterate_loop (Datatypes.S (length input)) input 0 handler in
    match status with
    | Some s => Ok (s, handler)
    | None =>
        let! n := Count rep_ in
        if negb (found =? n) then Ok (Corruption "WriteBatch has wrong count", handler)
        else Ok (OK, handler)
    end.
End Iterate.

(** ** Insertion into a memtable

    What the inserter uses of a memtable. *)
Class MemTableOps (M : Type) : Type :=
  mem_Add : Z -> Z -> list Z -> list Z -> M -> outcome M.

Section Inserter.
Context {M : Type} `{MemTableOps M}.

Record MemTableInserter : Type := mk_inserter { sequence_ : Z; mem_ : M }.

(** [mem_->Add(sequence_, type, key, value); sequence_++]. *)
Definition insert (t : Z) (key value : list Z) (h : MemTableInserter) : outcome MemTableInserter :=
  let! mem := mem_Add (sequence_ h) t key value (mem_ h) in
  Ok (mk_inserter (wrap 64 (sequence_ h + 1)) mem).

Definition inserter_handler : Handler MemTableInserter := {|
  handle_Put key value := insert kTypeValue key value;
  handle_Delete key := insert kTypeDeletion key []
|}.

Definition InsertInto (rep_ : list Z) (memtable : M) : outcome (Status * M) :=
  let! seq := Sequence rep_ in
  let! (status, h) := Iterate (H := inserter_handler) rep_ (mk_inserter seq memtable) in
  Ok (status, mem_ h).
End Inserter.
