(* ===== verification/WriteBatchProof.v ===== *)
(** * A batch holds the updates made to it *)
From S2P Require Import Prelude Coding CodingProof Env DbFormat WriteBatch.

(** ** Updates and their encoding *)
Inductive update : Type :=
| PutUpdate (key value : list Z)
| DeleteUpdate (key : list Z).

Definition encode_update (u : update) : list Z :=
  match u with
  | PutUpdate k v => kTypeValue :: EncodeLengthPrefixed k ++ EncodeLengthPrefixed v
  | DeleteUpdate k => kTypeDeletion :: EncodeLengthPrefixed k
  end.
Definition update_ok (u : update) : Prop :=
  match u with
  | PutUpdate k v => zlen k < 2 ^ 32 /\ zlen v < 2 ^ 32
  | DeleteUpdate k => zlen k < 2 ^ 32
  end.
Definition body (us : list update) : list Z := concat (map encode_update us).

(** The batch [b] with sequence number [seq] holds the updates [us]. *)
Definition holds (b : list Z) (seq : Z) (us : list update) : Prop :=
  b = le_bytes 8 seq ++ le_bytes 4 (zlen us) ++ body us.

Definition apply_update (u : update) (b : list Z) : outcome (list Z) :=
  match u with PutUpdate k v => Put k v b | DeleteUpdate k => Delete k b end.
Fixpoint apply_updates (us : list update) (b : list Z) : outcome (list Z) :=
  match us with
  | [] => Ok b
  | u :: us' => let! b := apply_update u b in apply_updates us' b
  end.

Lemma body_app a b : body (a ++ b) = body a ++ body b.
Proof. unfold body. by rewrite map_app, concat_app. Qed.

Lemma body_cons u us : body (u :: us) = encode_update u ++ body us.
Proof. done. Qed.

Lemma int_add_ok a b : - 2 ^ 31 <= a + b < 2 ^ 31 -> int_add a b = Ok (a + b).
Proof. intros Hr. unfold int_add. rewrite (proj2 (Z.leb_le _ _)), (proj2 (Z.ltb_lt _ _)) by lia. done. Qed.

(** ** The header *)
Section Header.
Context (b : list Z) (seq : Z) (us : list update) (Hb : holds b seq us).

Lemma zlen_holds : zlen b = 12 + zlen (body us).
Proof. rewrite Hb, !zlen_app. unfold zlen at 1 2. rewrite !length_le_bytes. lia. Qed.

Lemma Count_ok : zlen us < 2 ^ 31 -> Count b = Ok (zlen us).
Proof.
  intros Hu. pose proof (zlen_nonneg us). unfold Count. rewrite Hb.
  change 8%nat with (length (le_bytes 8 seq)). rewrite drop_app_length, DecodeFixed32_le by done.
  cbn [obind]. by rewrite swrap_wrap, swrap_small by lia.
Qed.

Lemma Sequence_ok : 0 <= seq < 2 ^ 64 -> Sequence b = Ok seq.
Proof. intros Hs. unfold Sequence. by rewrite Hb, DecodeFixed64_le, wrap_small. Qed.

Lemma SetCount_ok n x : zlen us < 2 ^ 31 -> 0 <= n < 2 ^ 32 ->
  SetCount b n = Ok (le_bytes 8 seq ++ le_bytes 4 n ++ body us) /\
  (n = zlen us + zlen x -> holds (le_bytes 8 seq ++ le_bytes 4 n ++ body us ++ body x) seq (us ++ x)).
Proof.
  intros Hu Hn. pose proof zlen_holds as Hz. pose proof (zlen_nonneg (body us)).
  unfold SetCount. rewrite (proj2 (Z.ltb_ge _ _)) by lia. rewrite wrap_small, EncodeFixed32_le by lia.
  split.
  - f_equal. unfold overwrite. rewrite Hb. change (8 + length (le_bytes 4 n))%nat with (length (le_bytes 8 seq ++ le_bytes 4 (zlen us))).
    rewrite (app_assoc (le_bytes 8 seq) (le_bytes 4 (zlen us))) at 2. rewrite drop_app_length.
    change 8%nat with (length (le_bytes 8 seq)) at 1. rewrite take_app_length. done.
  - intros ->. unfold holds. by rewrite zlen_app, body_app.
Qed.

Lemma SetSequence_ok seq' : exists b', SetSequence b seq' = Ok b' /\ holds b' seq' us.
Proof.
  pose proof zlen_holds as Hz. pose proof (zlen_nonneg (body us)).
  unfold SetSequence. rewrite (proj2 (Z.ltb_ge _ _)) by lia. eexists. split; [done|].
  unfold holds, overwrite. rewrite EncodeFixed64_le, Hb. cbn [take app].
  change (0 + length (le_bytes 8 seq'))%nat with (length (le_bytes 8 seq)). by rewrite drop_app_length.
Qed.

(** Adding an update, or those of another batch. *)
Lemma apply_update_ok u : zlen us + 1 < 2 ^ 31 ->
  exists b', apply_update u b = Ok b' /\ holds b' seq (us ++ [u]).
Proof.
  intros Hu. pose proof (zlen_nonneg us).
  destruct (SetCount_ok (zlen us + 1) [u]) as [Hset Hnew]; [lia|lia|]. specialize (Hnew eq_refl).
  assert (E : body [u] = encode_update u) by (unfold body; cbn; apply app_nil_r).
  destruct u as [k v|k]; cbn [apply_update]; unfold Put, Delete; rewrite Count_ok by lia; cbn [obind];
    rewrite int_add_ok by lia; cbn [obind]; rewrite Hset; cbn [obind]; eexists; (split; [done|]);
    rewrite !PutLengthPrefixedSlice_app, <- ?app_assoc; rewrite E in Hnew; exact Hnew.
Qed.

Lemma Append_ok src seq' vs : holds src seq' vs -> zlen us + zlen vs < 2 ^ 31 ->
  exists b', Append b src = Ok b' /\ holds b' seq (us ++ vs).
Proof.
  intros Hsrc Hu. pose proof (zlen_nonneg us). pose proof (zlen_nonneg vs). unfold Append.
  rewrite Count_ok by lia. cbn [obind].
  assert (Hcs : Count src = Ok (zlen vs)).
  { unfold Count. rewrite Hsrc. change 8%nat with (length (le_bytes 8 seq')).
    rewrite drop_app_length, DecodeFixed32_le by done. cbn [obind]. by rewrite swrap_wrap, swrap_small by lia. }
  rewrite Hcs. cbn [obind]. rewrite int_add_ok by lia. cbn [obind].
  destruct (SetCount_ok (zlen us + zlen vs) vs) as [-> Hnew]; [lia|lia|]. cbn [obind]. specialize (Hnew eq_refl).
  assert (Hd : drop (Z.to_nat kHeader) src = body vs /\ 12 <= zlen src).
  { rewrite Hsrc. change (Z.to_nat kHeader) with (length (le_bytes 8 seq' ++ le_bytes 4 (zlen vs))).
    rewrite app_assoc, drop_app_length. split; [done|]. rewrite zlen_app. pose proof (zlen_nonneg (body vs)).
    change (zlen (le_bytes 8 seq' ++ le_bytes 4 (zlen vs))) with 12. lia. }
  destruct Hd as [-> Hd]. unfold assert, kHeader. rewrite (proj2 (Z.leb_le _ _)) by lia.
  eexists. split; [done|]. rewrite <- !app_assoc. exact Hnew.
Qed.
End Header.

Lemma new_holds : holds new_WriteBatch 0 [].
Proof. done. Qed.

Lemma apply_updates_ok us vs b seq :
  holds b seq vs -> zlen vs + zlen us < 2 ^ 31 ->
  exists b', apply_updates us b = Ok b' /\ holds b' seq (vs ++ us).
Proof.
  revert vs b. induction us as [|u us IH]; intros vs b Hb Hl; [by exists b; rewrite app_nil_r|].
  rewrite zlen_cons in Hl. pose proof (zlen_nonneg us). cbn [apply_updates].
  destruct (apply_update_ok b seq vs Hb u) as (b1 & -> & Hb1); [lia|]. cbn [obind].
  destruct (IH (vs ++ [u]) b1 Hb1) as (b2 & -> & Hb2); [rewrite zlen_app; change (zlen [u]) with 1; lia|].
  exists b2. by rewrite <- app_assoc in Hb2.
Qed.

(** ** Replaying *)
Section Replay.
Context {S : Type} `{Handler S}.

Definition replay_one (u : update) (s : S) : outcome S :=
  match u with PutUpdate k v => handle_Put k v s | DeleteUpdate k => handle_Delete k s end.
Fixpoint replay (us : list update) (s : S) : outcome S :=
  match us with
  | [] => Ok s
  | u :: us' => let! s := replay_one u s in replay us' s
  end.

Lemma replay_app us vs s : replay (us ++ vs) s = let! s := replay us s in replay vs s.
Proof.
  revert s. induction us as [|u us IH]; intros s; [done|]. cbn [app replay].
  destruct (replay_one u s); cbn [obind]; [apply IH|done|done].
Qed.

(** The loop turns that read one update. *)
Lemma iterate_update n u rest found s :
  update_ok u -> - 2 ^ 31 <= found + 1 < 2 ^ 31 ->
  iterate_loop (Datatypes.S n) (encode_update u ++ rest) found s =
    let! s := replay_one u s in iterate_loop n rest (found + 1) s.
Proof.
  intros Hu Hf. destruct u as [k v|k]; cbn [encode_update app iterate_loop update_ok] in *;
    rewrite int_add_ok by done; cbn [obind].
  - destruct Hu as [Hk Hv]. change (swrap 8 kTypeValue =? kTypeValue) with true. cbv iota.
    rewrite <- app_assoc, (get_encode k), (get_encode v) by done. done.
  - change (swrap 8 kTypeDeletion =? kTypeValue) with false.
    change (swrap 8 kTypeDeletion =? kTypeDeletion) with true. cbv iota.
    rewrite (get_encode k) by done. done.
Qed.

Lemma length_encode_update u : (0 < length (encode_update u))%nat.
Proof. destruct u; simpl; lia. Qed.

Lemma iterate_loop_ok us fuel found s :
  Forall update_ok us -> 0 <= found -> found + zlen us < 2 ^ 31 -> (length (body us) < fuel)%nat ->
  iterate_loop fuel (body us) found s =
    let! s := replay us s in Ok (None, found + zlen us, s).
Proof.
  revert fuel found s. induction us as [|u us IH]; intros fuel found s Hok H0 Hl Hfuel;
    (destruct fuel as [|n]; [lia|]).
  - cbn. by rewrite zlen_nil, Z.add_0_r.
  - inversion Hok; subst. rewrite body_cons, length_app in *. pose proof (length_encode_update u).
    rewrite zlen_cons in *. pose proof (zlen_nonneg us). rewrite iterate_update by (done || lia). cbn [replay].
    destruct (replay_one u s) as [s'| |]; cbn [obind]; [|done|done].
    rewrite IH by (done || lia). destruct (replay us s'); cbn [obind]; [|done|done].
    do 3 f_equal. lia.
Qed.

Lemma Iterate_ok b seq us s :
  holds b seq us -> Forall update_ok us -> zlen us < 2 ^ 31 ->
  Iterate b s = let! s := replay us s in Ok (OK, s).
Proof.
  intros Hb Hok Hl. pose proof (zlen_holds b seq us Hb) as Hz. pose proof (zlen_nonneg (body us)).
  unfold Iterate, kHeader. rewrite (proj2 (Z.ltb_ge _ _)) by lia.
  assert (Hd : drop (Z.to_nat 12) b = body us).
  { rewrite Hb. change (Z.to_nat 12) with (length (le_bytes 8 seq ++ le_bytes 4 (zlen us))).
    by rewrite app_assoc, drop_app_length. }
  rewrite Hd. cbv zeta. rewrite iterate_loop_ok by (done || lia). rewrite Z.add_0_l.
  destruct (replay us s); cbn [obind]; [|done|done].
  rewrite (Count_ok b seq us Hb Hl). cbn [obind]. by rewrite Z.eqb_refl.
Qed.

(** ** Any bytes *)
Context (Hput : forall k v s, exists s', handle_Put k v s = Ok s').
Context (Hdelete : forall k s, exists s', handle_Delete k s = Ok s').

Lemma slice_shrinks input s rest :
  bytes input -> GetLengthPrefixedSlice input = (Some s, rest) ->
  (length rest < length input)%nat /\ bytes rest.
Proof.
  intros Hb E. destruct (GetLengthPrefixedSlice_reads input s rest Hb E) as (p & -> & Hp & _).
  rewrite !length_app. split; [unfold zlen in Hp; lia|]. apply Forall_app in Hb as [_ Hb]. by apply Forall_app in Hb as [_ Hb].
Qed.

(** The loop replayed [us]; it read everything, or found an error. *)
Definition loop_result (found : Z) (s : S) (o : outcome (option Status * Z * S)) : Prop :=
  exists st us found' s', o = Ok (st, found', s') /\ replay us s = Ok s' /\
    match st with None => found' = found + zlen us | Some e => e <> OK end.

Lemma loop_corrupt m found found' s : loop_result found s (Ok (Some (Corruption m), found', s)).
Proof. exists (Some (Corruption m)), [], found', s. done. Qed.

Lemma loop_step u found s s1 o :
  replay_one u s = Ok s1 -> loop_result (found + 1) s1 o -> loop_result found s o.
Proof.
  intros E1 (st & us & found' & s' & -> & E & Hst). exists st, (u :: us), found', s'. cbn [replay].
  rewrite E1. split; [done|]. split; [done|]. destruct st; [done|]. rewrite zlen_cons. lia.
Qed.

Lemma iterate_loop_total fuel input found s :
  bytes input -> (length input < fuel)%nat -> 0 <= found -> found + zlen input < 2 ^ 31 ->
  loop_result found s (iterate_loop fuel input found s).
Proof.
  revert input found s. induction fuel as [|n IH]; intros input found s Hb Hfuel H0 Hl; [lia|].
  destruct input as [|tag input].
  { exists None, [], found, s. rewrite zlen_nil, Z.add_0_r. done. }
  inversion Hb as [|?? _ Hbi]; subst. rewrite zlen_cons in Hl. cbn [length] in Hfuel. pose proof (zlen_nonneg input).
  assert (IH' : forall rest s1, bytes rest -> (length rest < length input)%nat ->
    loop_result (found + 1) s1 (iterate_loop n rest (found + 1) s1)).
  { intros rest s1 Hr Hlen. apply IH; [done|lia|lia|unfold zlen in *; lia]. }
  cbn [iterate_loop]. rewrite int_add_ok by lia. cbn [obind]. destruct (_ =? _).
  - destruct (GetLengthPrefixedSlice input) as [[k|] i1] eqn:E1; [|apply loop_corrupt].
    destruct (slice_shrinks _ _ _ Hbi E1) as [Hl1 Hb1].
    destruct (GetLengthPrefixedSlice i1) as [[v|] i2] eqn:E2; [|apply loop_corrupt].
    destruct (slice_shrinks _ _ _ Hb1 E2) as [Hl2 Hb2]. destruct (Hput k v s) as [s1 Ep]. rewrite Ep. cbn [obind].
    apply (loop_step (PutUpdate k v) _ _ s1); [done|]. apply IH'; [done|lia].
  - destruct (_ =? _); [|apply loop_corrupt].
    destruct (GetLengthPrefixedSlice input) as [[k|] i1] eqn:E1; [|apply loop_corrupt].
    destruct (slice_shrinks _ _ _ Hbi E1) as [Hl1 Hb1]. destruct (Hdelete k s) as [s1 Ep]. rewrite Ep. cbn [obind].
    apply (loop_step (DeleteUpdate k) _ _ s1); [done|]. by apply IH'.
Qed.

Lemma Iterate_total b s : bytes b -> zlen b < 2 ^ 31 ->
  exists st us s', Iterate b s = Ok (st, s') /\ replay us s = Ok s' /\
    (st = OK -> Count b = Ok (zlen us)).
Proof.
  intros Hb Hl. unfold Iterate, kHeader. destruct (Z.ltb_spec (zlen b) 12) as [|Hge].
  { by exists (Corruption "malformed WriteBatch (too small)"), [], s. }
  cbv zeta. destruct (iterate_loop_total (Datatypes.S (length (drop (Z.to_nat 12) b))) (drop (Z.to_nat 12) b) 0 s)
    as (st & us & found & s' & -> & E & Hst); [by apply Forall_drop|lia|lia|unfold zlen in *; rewrite length_drop; lia|].
  cbn [obind]. destruct st as [st|]; [by exists st, us, s'|].
  assert (Hc : exists n, Count b = Ok n).
  { unfold Count. destruct (DecodeFixed32_total (drop 8 b)) as (v & -> & _); [unfold zlen in *; rewrite length_drop; lia|by apply Forall_drop|].
    by eexists. }
  destruct Hc as [n Hn]. rewrite Hn. cbn [obind]. destruct (Z.eqb_spec found n) as [->|]; cbn [negb].
  - exists OK, us, s'. split; [done|]. split; [done|]. intros _. rewrite Hst. by rewrite Z.add_0_l.
  - by exists (Corruption "WriteBatch has wrong count"), us, s'.
Qed.
End Replay.

(** ** Insertion *)
Section Insert.
Context {M : Type} `{MemTableOps M}.

(** Each update is added under the next sequence number. *)
Fixpoint add_updates (seq : Z) (us : list update) (m : M) : outcome M :=
  match us with
  | [] => Ok m
  | u :: us' =>
      let! m := match u with
                | PutUpdate k v => mem_Add seq kTypeValue k v m
                | DeleteUpdate k => mem_Add seq kTypeDeletion k [] m
                end in
      add_updates (seq + 1) us' m
  end.

Lemma replay_inserter us seq m :
  0 <= seq -> seq + zlen us < 2 ^ 64 ->
  replay (H := inserter_handler) us (mk_inserter seq m) =
    let! m := add_updates seq us m in Ok (mk_inserter (seq + zlen us) m).
Proof.
  revert seq m. induction us as [|u us IH]; intros seq m H0 Hl; [cbn; by rewrite zlen_nil, Z.add_0_r|].
  rewrite zlen_cons in Hl |- *. pose proof (zlen_nonneg us). cbn [replay add_updates].
  destruct u as [k v|k]; cbn [replay_one handle_Put handle_Delete inserter_handler]; unfold insert;
    cbn [sequence_ mem_];
    (destruct (mem_Add _ _ _ _ m) as [m1| |]; cbn [obind]; [|done|done]);
    rewrite wrap_small, IH by lia; (destruct (add_updates _ _ _); cbn [obind]; [|done|done]); do 2 f_equal; lia.
Qed.

Lemma InsertInto_ok b seq us m :
  holds b seq us -> Forall update_ok us -> zlen us < 2 ^ 31 -> 0 <= seq -> seq + zlen us < 2 ^ 64 ->
  InsertInto b m = let! m := add_updates seq us m in Ok (OK, m).
Proof.
  intros Hb Hok Hl H0 Hs. pose proof (zlen_nonneg us). unfold InsertInto.
  rewrite (Sequence_ok b seq us Hb) by lia. cbn [obind].
  rewrite (Iterate_ok b seq us _ Hb Hok Hl), replay_inserter by done.
  by destruct (add_updates seq us m).
Qed.
End Insert.
