(* ===== verification/DbSpec.v ===== *)
(** * What internal keys and write batches guarantee

    Comparators are total orders whose separators lie where they should;
    internal keys parse back and are found by lookups; a batch is replayed as
    it was made. *)
From S2P Require Import Prelude Coding CodingProof Bloom BloomProof FilterBlock FilterBlockProof Env.
From S2P Require Import Order Comparator ComparatorProof DbFormat DbFormatProof WriteBatch WriteBatchProof.

(** ** Comparators *)

(** The bytewise comparator.  It decides the lexicographic order, in
    which only equal keys compare equal; a separator of [start <= limit] lies
    in [start, limit) when they differ, a successor is not smaller than its
    key, and the assertion in the code never fails. *)
Theorem bytewise_comparator_lawful :
  @LawfulComparator BytewiseComparator bytes lex /\ forall a b, lex a b = Eq <-> a = b.
Proof. split; [exact bytewise_lawful|exact lex_eq]. Qed.

(** C24: the internal key comparator.  On top of any lawful comparator it is
    lawful again: a total order on internal keys, separators and successors
    that respect it, and no assertion fails.  On encoded keys the order is by
    user key, then by decreasing sequence number, then by decreasing type. *)
Theorem internal_comparator_lawful `{Comparator} valid order {Hlaw : LawfulComparator valid order} :
  (forall k, valid k -> bytes k) ->
  @LawfulComparator InternalKeyComparator (valid_internal valid) (internal_order order) /\
  forall u1 s1 t1 u2 s2 t2,
    sequence_ok s1 -> type_ok t1 -> sequence_ok s2 -> type_ok t2 ->
    internal_order order (encoded u1 s1 t1) (encoded u2 s2 t2) =
      match order u1 u2 with
      | Eq => match s2 ?= s1 with Eq => t2 ?= t1 | c => c end
      | c => c
      end.
Proof. intros Hb. split; [by apply internal_lawful|intros; by apply internal_order_encoded]. Qed.

(** ** Internal keys *)

(** Parsing internal keys.  An appended key parses back to its parts,
    and its user key is extracted; on any bytes parsing returns, and when it
    succeeds the key is the encoding of the parts it found. *)
Theorem internal_key_roundtrip u s t k :
  sequence_ok s -> type_ok t -> bytes k ->
  (exists e, AppendInternalKey [] (mk_parsed u s t) = Ok e /\
     ParseInternalKey e = Ok (Some (mk_parsed u s t)) /\ ExtractUserKey e = Ok u /\
     zlen e = InternalKeyEncodingLength (mk_parsed u s t)) /\
  exists r, ParseInternalKey k = Ok r /\
    forall p, r = Some p -> AppendInternalKey [] p = Ok k.
Proof.
  intros Hs Ht Hk. split.
  - exists (encoded u s t). pose proof (zlen_nonneg u). assert (Hz : zlen (encoded u s t) = zlen u + 8) by apply zlen_join.
    rewrite AppendInternalKey_ok, ParseInternalKey_encoded, ExtractUserKey_ok by (done || lia).
    split; [done|]. split; [done|]. split; [|done]. f_equal. apply user_part_join.
  - destruct (ParseInternalKey_total k Hk) as (r & E & Hr). exists r. split; [done|].
    intros [u' s' t'] ->. destruct Hr as (-> & Hs' & Ht'). by apply AppendInternalKey_ok.
Qed.

(** C25: lookup keys.  Building one writes within its array; its three views
    are the length-prefixed internal key, the internal key and the user key;
    and that internal key is in front of exactly the versions of the user key
    that are visible at its sequence number. *)
Theorem lookup_key_seek `{Comparator} valid order {Hlaw : LawfulComparator valid order} u s :
  sequence_ok s -> zlen u + 8 < 2 ^ 32 ->
  exists k, new_LookupKey u s = Ok k /\ lookup_user_key k = u /\
    memtable_key k = EncodeLengthPrefixed (internal_key k) /\
    forall s' t', sequence_ok s' -> type_ok t' ->
      (internal_order order (internal_key k) (encoded u s' t') <> Gt <-> s' <= s).
Proof.
  intros Hs Hu. destruct (new_LookupKey_ok u s Hs Hu) as (k & E & Ei & Em & Eu).
  exists k. split; [done|]. split; [done|]. rewrite Ei. split; [done|].
  intros s' t' Hs' Ht'. rewrite internal_order_encoded by (done || by right).
  rewrite (order_refl order).
  destruct (Z.compare_spec s' s) as [->|Hlt|Hgt]; [|split; [lia|done]|split; [done|lia]].
  split; [lia|]. intros _. unfold type_ok, kTypeDeletion, kTypeValue in Ht'. unfold kValueTypeForSeek, kTypeValue.
  rewrite Z.compare_le_iff. lia.
Qed.


(** C29: filters of internal keys.  A filter block built through
    [InternalFilterPolicy] from internal keys, with any lawful policy for user
    keys, matches at the data block's offset every version of each user key
    that was added, whatever sequence number and type are looked up. *)
Theorem internal_filter_no_false_negative `{FilterPolicy} fits {Hlaw : LawfulPolicy fits} cs :
  ordered 0 cs -> Forall (fun p => 8 <= zlen p.2) (added 0 cs) ->
  (forall pend, (length pend <= length (added 0 cs))%nat -> fits pend) ->
  exists contents, @build_filter_block InternalFilterPolicy cs = Ok contents /\
    (zlen contents < 2 ^ 32 ->
     exists r, new_FilterBlockReader contents = Ok r /\
       forall o key s t, (o, key) ∈ added 0 cs ->
         @FilterKeyMayMatch InternalFilterPolicy r o (encoded (user_part key) s t) = Ok true).
Proof.
  intros Ho H8 Hf. pose proof (internal_policy_law fits) as Hlaw'.
  assert (Hf' : forall pend : list (list Z), (length pend <= length (added 0 cs))%nat ->
    Forall (fun k => 8 <= zlen k) pend -> internal_fits fits pend).
  { intros pend Hp Hq. split; [done|]. apply Hf. by rewrite length_map. }
  destruct (@build_contents InternalFilterPolicy (internal_fits fits) Hlaw' (fun k => 8 <= zlen k) (length (added 0 cs)) Hf' cs Ho H8 ltac:(lia))
    as (fs & E & _ & Hm).
  eexists. split; [exact E|]. intros Hsize. eexists. split; [by apply new_reader|].
  intros o key s t Hin. destruct (Hm o key Hin) as (f & Hf2 & Hmatch).
  rewrite (@reader_key_ext InternalFilterPolicy _ o _ key).
  - rewrite (@reader_filter InternalFilterPolicy fs Hsize o key f); [exact Hmatch| |exact Hf2].
    exact (added_nonneg cs 0 ltac:(lia) Ho o key Hin).
  - intros g. cbn [KeyMayMatch InternalFilterPolicy]. rewrite Forall_forall in H8. pose proof (H8 _ Hin) as Hk.
    cbn [snd] in Hk. unfold encoded. pose proof (zlen_nonneg (user_part key)).
    rewrite !ExtractUserKey_ok by (done || (rewrite zlen_join; lia)). by rewrite user_part_join.
Qed.

(** ** Write batches *)

(** C26: replaying a batch.  Updates made to a new batch, and the updates of
    another batch appended to it, are replayed by [Iterate] on any handler in
    the order they were made, each once; the status is OK and [Count] is
    their number. *)
Theorem batch_replay {S} `{Handler S} us vs (s : S) :
  Forall update_ok us -> Forall update_ok vs -> zlen us + zlen vs < 2 ^ 31 ->
  exists a b c, apply_updates us new_WriteBatch = Ok a /\ apply_updates vs new_WriteBatch = Ok b /\
    Append a b = Ok c /\ Count c = Ok (zlen us + zlen vs) /\
    Iterate c s = let! s := replay us s in let! s := replay vs s in Ok (OK, s).
Proof.
  intros Hu Hv Hl. pose proof (zlen_nonneg us). pose proof (zlen_nonneg vs).
  destruct (apply_updates_ok us [] _ _ new_holds) as (a & Ea & Ha); [rewrite zlen_nil; lia|].
  destruct (apply_updates_ok vs [] _ _ new_holds) as (b & Eb & Hb); [rewrite zlen_nil; lia|]. cbn [app] in *.
  destruct (Append_ok a 0 us Ha b 0 vs Hb Hl) as (c & Ec & Hc).
  exists a, b, c. split; [done|]. split; [done|]. split; [done|]. split.
  - rewrite (Count_ok c 0 (us ++ vs) Hc), zlen_app by (rewrite zlen_app; lia). done.
  - rewrite (Iterate_ok c 0 (us ++ vs) s Hc) by (by apply Forall_app || (rewrite zlen_app; lia)).
    rewrite replay_app. by destruct (replay us s).
Qed.

(** C27: iterating over anything.  On any bytes read back from a log,
    [Iterate] returns a status, has replayed some updates on the handler, and
    if the status is OK their number is the batch's count. *)
Theorem batch_iterate_total {S} `{Handler S} b (s : S) :
  (forall k v s, exists s', handle_Put k v s = Ok s') ->
  (forall k s, exists s', handle_Delete k s = Ok s') ->
  bytes b -> zlen b < 2 ^ 31 ->
  exists st us s', Iterate b s = Ok (st, s') /\ replay us s = Ok s' /\
    (st = OK -> Count b = Ok (zlen us)).
Proof. intros Hp Hd. by apply Iterate_total. Qed.

(** Inserting a batch.  [InsertInto] adds the updates to the memtable in
    order, under consecutive sequence numbers from the batch's own. *)
Theorem batch_insert {M} `{MemTableOps M} us seq (m : M) :
  Forall update_ok us -> zlen us < 2 ^ 31 -> 0 <= seq -> seq + zlen us < 2 ^ 64 ->
  exists a b, apply_updates us new_WriteBatch = Ok a /\ SetSequence a seq = Ok b /\
    Sequence b = Ok seq /\ InsertInto b m = let! m := add_updates seq us m in Ok (OK, m).
Proof.
  intros Hu Hl H0 Hs. pose proof (zlen_nonneg us).
  destruct (apply_updates_ok us [] _ _ new_holds) as (a & Ea & Ha); [rewrite zlen_nil; lia|]. cbn [app] in Ha.
  destruct (SetSequence_ok a 0 us Ha seq) as (b & Eb & Hb).
  exists a, b. split; [done|]. split; [done|]. split; [apply (Sequence_ok b seq us Hb); lia|].
  by apply (InsertInto_ok b seq us m).
Qed.

(** ** Concrete runs *)
#[local] Ltac concrete_bytes := repeat (apply Forall_cons_2; [by vm_compute|]); by apply Forall_nil_2.

Lemma internal_comparator_lawful_witness :
  @LawfulComparator (@InternalKeyComparator BytewiseComparator) (valid_internal bytes) (internal_order lex) /\
  internal_order lex (encoded [7] 5 kTypeValue) (encoded [7] 4 kTypeValue) = Lt.
Proof.
  destruct (@internal_comparator_lawful BytewiseComparator bytes lex bytewise_lawful (fun k H => H)) as [H1 H2].
  split; [exact H1|]. rewrite H2; [reflexivity|by vm_compute|by right|by vm_compute|by right].
Defined.

Lemma internal_key_roundtrip_witness :
  exists e, AppendInternalKey [] (mk_parsed [7; 8] 5 kTypeValue) = Ok e /\
    ParseInternalKey e = Ok (Some (mk_parsed [7; 8] 5 kTypeValue)).
Proof.
  destruct (internal_key_roundtrip [7; 8] 5 kTypeValue [1] ltac:(by vm_compute) ltac:(by right) ltac:(concrete_bytes))
    as [(e & E1 & E2 & _) _]. by exists e.
Defined.

Lemma lookup_key_seek_witness :
  exists k, new_LookupKey [7] 5 = Ok k /\
    internal_order lex (internal_key k) (encoded [7] 5 kTypeValue) <> Gt.
Proof.
  destruct (@lookup_key_seek BytewiseComparator bytes lex bytewise_lawful [7] 5 ltac:(by vm_compute) ltac:(by vm_compute))
    as (k & E & _ & _ & H). exists k. split; [exact E|].
  apply (H 5 kTypeValue); [by vm_compute|by right|lia].
Defined.

Lemma internal_filter_no_false_negative_witness :
  let policy := bloom_policy (NewBloomFilterPolicy 10) in
  let cs := [Start 0; Add (encoded [1; 2] 3 1); Start 5000; Add (encoded [4] 9 0)] in
  exists contents, @build_filter_block (@InternalFilterPolicy policy) cs = Ok contents /\
    (zlen contents < 2 ^ 32 ->
     exists r, new_FilterBlockReader contents = Ok r /\
       forall o key s t, (o, key) ∈ added 0 cs ->
         @FilterKeyMayMatch (@InternalFilterPolicy policy) r o (encoded (user_part key) s t) = Ok true).
Proof.
  apply (@internal_filter_no_false_negative _ (bloom_fits (NewBloomFilterPolicy 10))
    (bloom_policy_law _ (NewBloomFilterPolicy_ok 10 ltac:(lia)))).
  - cbn. repeat split; try lia; concrete_bytes.
  - cbn. repeat (apply Forall_cons_2; [by vm_compute|]). apply Forall_nil_2.
  - intros pend Hl. unfold bloom_fits. simpl in Hl. unfold zlen. change (bits_per_key_ _) with 10. lia.
Defined.

(** A handler that records the keys it was given. *)
#[local] Instance recorder : Handler (list (list Z)) := {
  handle_Put k v s := Ok (s ++ [k]);
  handle_Delete k s := Ok (s ++ [k])
}.

Lemma batch_replay_witness :
  exists a b c, apply_updates [PutUpdate [1] [2; 3]; DeleteUpdate [4]] new_WriteBatch = Ok a /\
    apply_updates [PutUpdate [5] []] new_WriteBatch = Ok b /\
    Append a b = Ok c /\ Count c = Ok 3 /\ Iterate c [] = Ok (OK, [[1]; [4]; [5]]).
Proof.
  destruct (batch_replay (H := recorder) [PutUpdate [1] [2; 3]; DeleteUpdate [4]] [PutUpdate [5] []] [])
    as (a & b & c & Ea & Eb & Ec & En & Ei);
    [repeat (apply Forall_cons_2; [by vm_compute|]); apply Forall_nil_2..|by vm_compute|].
  exists a, b, c. rewrite En, Ei. auto.
Defined.

Lemma batch_iterate_total_witness :
  exists st us s', Iterate [0; 0; 0; 0; 0; 0; 0; 0; 1; 0; 0; 0; 1; 1; 9; 200] [] = Ok (st, s') /\
    replay us [] = Ok s' /\ (st = OK -> Count [0; 0; 0; 0; 0; 0; 0; 0; 1; 0; 0; 0; 1; 1; 9; 200] = Ok (zlen us)).
Proof.
  apply (batch_iterate_total (H := recorder) [0; 0; 0; 0; 0; 0; 0; 0; 1; 0; 0; 0; 1; 1; 9; 200] []);
    [intros; by eexists|intros; by eexists|concrete_bytes|by vm_compute].
Defined.

(** A memtable that lists what was added. *)
#[local] Instance list_memtable : MemTableOps (list (Z * Z * list Z * list Z)) :=
  fun s t k v m => Ok (m ++ [(s, t, k, v)]).

Lemma batch_insert_witness :
  exists a b, apply_updates [PutUpdate [1] [2; 3]; DeleteUpdate [4]] new_WriteBatch = Ok a /\
    SetSequence a 40 = Ok b /\ Sequence b = Ok 40 /\
    InsertInto b [] = Ok (OK, [(40, 1, [1], [2; 3]); (41, 0, [4], [])]).
Proof.
  destruct (batch_insert (H := list_memtable) [PutUpdate [1] [2; 3]; DeleteUpdate [4]] 40 [])
    as (a & b & Ea & Eb & Es & Ei);
    [repeat (apply Forall_cons_2; [by vm_compute|]); apply Forall_nil_2|by vm_compute|lia|by vm_compute|].
  exists a, b. rewrite Ei. auto.
Defined.
