(* ===== verification/SkipList.v ===== *)
(** * The skip list ([db/skiplist.h, util/random.h])

    Nodes live in an arena and are never freed: a pointer to a node is its
    index there, [nullptr] is [None].  A node's links are an array of its
    height, uninitialised until they are stored.  The list is written for any
    key type and comparison. *)
From S2P Require Import Prelude.

(** ** The random numbers *)
Definition new_Random (s : Z) : Z :=
  let seed_ := Z.land s 0x7fffffff in
  if (seed_ =? 0) || (seed_ =? 2147483647) then 1 else seed_.

(** The number drawn is the new seed. *)
Definition Random_Next (seed_ : Z) : Z :=
  let M := 2147483647 in
  let A := 16807 in
  let product := wrap 64 (seed_ * A) in
  let seed_ := wrap 32 (Z.shiftr product 31 + Z.land product M) in
  if M <? seed_ then wrap 32 (seed_ - M) else seed_.

Definition kMaxHeight : nat := 12.
Definition kBranching : Z := 4.

(** [while (height < kMaxHeight && ((rnd_.Next() % kBranching) == 0))]. *)
Fixpoint height_loop (fuel height : nat) (rnd_ : Z) : outcome (nat * Z) :=
  match fuel with
  | O => Timeout
  | S n =>
      if (height <? kMaxHeight)%nat then
        let rnd_ := Random_Next rnd_ in
        if rnd_ mod kBranching =? 0 then height_loop n (S height) rnd_ else Ok (height, rnd_)
      else Ok (height, rnd_)
  end.
Definition RandomHeight (rnd_ : Z) : outcome (nat * Z) :=
  let! (height, rnd_) := height_loop kMaxHeight 1 rnd_ in
  assert (0 <? height)%nat (assert (height <=? kMaxHeight)%nat (Ok (height, rnd_))).

Definition ptr : Type := option nat.

Section SkipList.
Context {K : Type} (compare_ : K -> K -> outcome Z).

(** ** The list *)

(** The key of the head is never looked at. *)
Record Node : Type := mk_node { node_key : option K; next_ : list (option ptr) }.
Record SkipList : Type := mk_list {
  nodes : list Node;
  max_height_ : nat;
  rnd_ : Z
}.
Definition head_ : nat := 0.

Definition set_nodes (l : list Node) (s : SkipList) : SkipList := mk_list l (max_height_ s) (rnd_ s).
Definition set_max_height (n : nat) (s : SkipList) : SkipList := mk_list (nodes s) n (rnd_ s).
Definition set_rnd (r : Z) (s : SkipList) : SkipList := mk_list (nodes s) (max_height_ s) r.

(** [NewNode] leaves the links uninitialised. *)
Definition NewNode (key : option K) (height : nat) (s : SkipList) : nat * SkipList :=
  (length (nodes s), set_nodes (nodes s ++ [mk_node key (replicate height None)]) s).

(** The loads and stores of a link, with or without a barrier. *)
Definition node_Next (x level : nat) (s : SkipList) : outcome ptr :=
  let! node := or_ub BadAccess (nodes s !! x) in
  let! link := or_ub OverRead (next_ node !! level) in
  or_ub BadAccess link.
Definition node_SetNext (x level : nat) (p : ptr) (s : SkipList) : outcome SkipList :=
  let! node := or_ub BadAccess (nodes s !! x) in
  if (level <? length (next_ node))%nat then
    Ok (set_nodes (<[x := mk_node (node_key node) (<[level := Some p]> (next_ node))]> (nodes s)) s)
  else UB OverWrite.
Definition get_key (x : nat) (s : SkipList) : outcome K :=
  let! node := or_ub BadAccess (nodes s !! x) in or_ub BadAccess (node_key node).

(** The links of the head are set to [nullptr] one by one. *)
Fixpoint clear_links (levels : list nat) (s : SkipList) : outcome SkipList :=
  match levels with
  | [] => Ok s
  | i :: levels' => let! s := node_SetNext head_ i None s in clear_links levels' s
  end.
Definition new_SkipList : outcome SkipList :=
  let (_, s) := NewNode None kMaxHeight (mk_list [] 1 (new_Random 0xdeadbeef)) in
  clear_links (seq 0 kMaxHeight) s.

Definition Equal (a b : K) : outcome bool := let! r := compare_ a b in Ok (r =? 0).

(** A null node is considered infinite. *)
Definition KeyIsAfterNode (key : K) (n : ptr) (s : SkipList) : outcome bool :=
  match n with
  | None => Ok false
  | Some y => let! k := get_key y s in let! r := compare_ k key in Ok (r <? 0)
  end.

(** ** Searching *)

(** One turn of the loop of [FindGreaterOrEqual]: the link that is followed,
    and whether the key is after it. *)
Definition look (key : K) (s : SkipList) (x level : nat) : outcome (bool * ptr) :=
  let! next := node_Next x level s in
  let! after := KeyIsAfterNode key next s in
  Ok (after, next).

(** Other threads may insert while the search runs: turn [t] of the loop sees
    the list [view t].  [prev] is the caller's array, or one that nobody
    reads. *)
Fixpoint find_ge (fuel : nat) (key : K) (view : nat -> SkipList) (t x level : nat) (prev : list (option nat)) :
    outcome (ptr * list (option nat)) :=
  match fuel with
  | O => Timeout
  | S n =>
      let! (after, next) := look key (view t) x level in
      if after then
        match next with
        | Some y => find_ge n key view (S t) y level prev
        | None => UB BadAccess
        end
      else
        let prev := <[level := Some x]> prev in
        match level with
        | O => Ok (next, prev)
        | S level' => find_ge n key view (S t) x level' prev
        end
  end.

Definition no_prev : list (option nat) := replicate kMaxHeight None.
Definition search_fuel (s : SkipList) : nat := S (length (nodes s) + max_height_ s).
Definition FindGreaterOrEqual_while (fuel : nat) (key : K) (view : nat -> SkipList) :
    outcome (ptr * list (option nat)) :=
  find_ge fuel key view 0 head_ (max_height_ (view 0%nat) - 1) no_prev.
Definition FindGreaterOrEqual (key : K) (s : SkipList) : outcome (ptr * list (option nat)) :=
  FindGreaterOrEqual_while (search_fuel s) key (fun _ => s).

Fixpoint find_lt (fuel : nat) (key : K) (s : SkipList) (x level : nat) : outcome nat :=
  match fuel with
  | O => Timeout
  | S n =>
      let! before := (if (x =? head_)%nat then Ok true
                      else let! k := get_key x s in let! r := compare_ k key in Ok (r <? 0)) in
      assert before
      (let! next := node_Next x level s in
       let! stop := match next with
                    | None => Ok true
                    | Some y => let! k := get_key y s in let! r := compare_ k key in Ok (0 <=? r)
                    end in
       if stop : bool then
         match level with
         | O => Ok x
         | S level' => find_lt n key s x level'
         end
       else match next with Some y => find_lt n key s y level | None => UB BadAccess end)
  end.
Definition FindLessThan (key : K) (s : SkipList) : outcome nat :=
  find_lt (search_fuel s) key s head_ (max_height_ s - 1).

Fixpoint find_last (fuel : nat) (s : SkipList) (x level : nat) : outcome nat :=
  match fuel with
  | O => Timeout
  | S n =>
      let! next := node_Next x level s in
      match next with
      | None =>
          match level with
          | O => Ok x
          | S level' => find_last n s x level'
          end
      | Some y => find_last n s y level
      end
  end.
Definition FindLast (s : SkipList) : outcome nat :=
  find_last (search_fuel s) s head_ (max_height_ s - 1).

Definition Contains (key : K) (s : SkipList) : outcome bool :=
  let! (x, _) := FindGreaterOrEqual key s in
  match x with
  | Some y => let! k := get_key y s in Equal key k
  | None => Ok false
  end.

(** ** Insertion

    Other threads may read the list between any two stores: the states they
    can see are collected, the last first, from the one at the call on. *)

(** [for (i = ...) { x->NoBarrier_SetNext(...); prev[i]->SetNext(i, x); }]. *)
Fixpoint link_levels (levels : list nat) (prev : list (option nat)) (x : nat) (s : SkipList)
    (seen : list SkipList) : outcome (SkipList * list SkipList) :=
  match levels with
  | [] => Ok (s, seen)
  | i :: levels' =>
      let! p := or_ub OverRead (prev !! i) in
      let! p := or_ub BadAccess p in
      let! next := node_Next p i s in
      let! s1 := node_SetNext x i next s in
      let! s2 := node_SetNext p i (Some x) s1 in
      link_levels levels' prev x s2 (s2 :: s1 :: seen)
  end.

(** [for (i = GetMaxHeight(); i < height; i++) prev[i] = head_]. *)
Definition raise_prev (from height : nat) (prev : list (option nat)) : list (option nat) :=
  foldl (fun prev i => <[i := Some head_]> prev) prev (seq from (height - from)).

Definition insert_traced (key : K) (s : SkipList) : outcome (SkipList * list SkipList) :=
  let! (x, prev) := FindGreaterOrEqual key s in
  let! fresh := match x with
                | None => Ok true
                | Some y => let! k := get_key y s in let! e := Equal key k in Ok (negb e)
                end in
  assert fresh
  (let! (height, rnd) := RandomHeight (rnd_ s) in
   let seen := [s] in
   let s := set_rnd rnd s in
   let '(s, prev, seen) :=
     if (max_height_ s <? height)%nat then
       let prev := raise_prev (max_height_ s) height prev in
       let s := set_max_height height s in
       (s, prev, s :: seen)
     else (s, prev, seen) in
   let (x, s) := NewNode (Some key) height s in
   link_levels (seq 0 height) prev x s (s :: seen)).

Definition Insert (key : K) (s : SkipList) : outcome SkipList :=
  let! (s, _) := insert_traced key s in Ok s.

(** ** Iterators: [node_] of an iterator on the list *)
Definition iter_Valid (node_ : ptr) : bool := match node_ with Some _ => true | None => false end.
Definition iter_key (node_ : ptr) (s : SkipList) : outcome K :=
  match node_ with Some x => get_key x s | None => UB BadAssert end.
Definition iter_Next (node_ : ptr) (s : SkipList) : outcome ptr :=
  match node_ with Some x => node_Next x 0 s | None => UB BadAssert end.
Definition unless_head (x : nat) : ptr := if (x =? head_)%nat then None else Some x.
Definition iter_Prev (node_ : ptr) (s : SkipList) : outcome ptr :=
  match node_ with
  | Some x => let! k := get_key x s in let! y := FindLessThan k s in Ok (unless_head y)
  | None => UB BadAssert
  end.
Definition iter_Seek (target : K) (s : SkipList) : outcome ptr :=
  let! (x, _) := FindGreaterOrEqual target s in Ok x.
Definition iter_SeekToFirst (s : SkipList) : outcome ptr := node_Next head_ 0 s.
Definition iter_SeekToLast (s : SkipList) : outcome ptr :=
  let! x := FindLast s in Ok (unless_head x).
End SkipList.
Arguments SkipList : clear implicits.
Arguments Node : clear implicits.
