(* ===== verification/SkipListProof.v ===== *)
(** * The skip list is a sorted set

    The invariant describes the list by the nodes of each level, each level
    sorted and part of the one below.  It also holds in the states between the
    stores of an insertion, when the new node is linked on some levels only. *)
From Stdlib Require Import Sorting.Sorted.
From S2P Require Import Prelude Order SkipList.

(** ** Sorted lists *)
Lemma sorted_lookup {A} (R : A -> A -> Prop) l i j x y :
  StronglySorted R l -> l !! i = Some x -> l !! j = Some y -> (i < j)%nat -> R x y.
Proof.
  intros Hs. revert i j. induction Hs as [|z l Hs IH Hf]; intros [|i] [|j] Hx Hy Hij; try done; try lia.
  - cbn in *. injection Hx as ->. rewrite Forall_forall in Hf. apply Hf. by eapply list_elem_of_lookup_2.
  - cbn in *. apply (IH i j); [done|done|lia].
Qed.

Lemma sorted_insert {A} (R : A -> A -> Prop) l1 n l2 :
  StronglySorted R (l1 ++ l2) -> Forall (fun x => R x n) l1 -> Forall (R n) l2 ->
  StronglySorted R (l1 ++ n :: l2).
Proof.
  induction l1 as [|x l1 IH]; intros Hs H1 H2; [by constructor|].
  cbn [app] in *. inversion Hs as [|? ? Hs' Hf]; inversion H1; subst. constructor; [by apply IH|].
  apply Forall_app in Hf as [Hf1 Hf2]. apply Forall_app. split; [done|]. by constructor.
Qed.

Lemma sorted_impl {A} (R S : A -> A -> Prop) l :
  StronglySorted R l -> (forall x y, R x y -> S x y) -> StronglySorted S l.
Proof.
  intros Hs HRS. induction Hs as [|x l Hs IH Hf]; [constructor|]. constructor; [done|].
  eapply Forall_impl; [exact Hf|]. intros y. apply HRS.
Qed.

Lemma filter_shrinks {A} (f g : A -> bool) (l : list A) y :
  (forall z, g z = true -> f z = true) -> y ∈ l -> f y = true -> g y = false ->
  (length (List.filter g l) < length (List.filter f l))%nat.
Proof.
  intros Hgf Hy Hf Hg.
  assert (Hle : forall l', (length (List.filter g l') <= length (List.filter f l'))%nat).
  { induction l' as [|z l' IH]; [done|]. cbn. destruct (g z) eqn:Ez; [rewrite (Hgf z Ez); simpl; lia|].
    destruct (f z); simpl; lia. }
  induction Hy as [z l|z z' l Hy IH]; cbn.
  - rewrite Hf, Hg. pose proof (Hle l). simpl; lia.
  - specialize (IH Hf Hg). destruct (g z') eqn:Ez; [rewrite (Hgf z' Ez); simpl; lia|]. destruct (f z'); simpl; lia.
Qed.

Lemma filter_le {A} (f : A -> bool) (l : list A) : (length (List.filter f l) <= length l)%nat.
Proof. induction l as [|x l IH]; [done|]. cbn. destruct (f x); simpl; lia. Qed.

Lemma filter_all {A} (f : A -> bool) (l : list A) : Forall (fun x => f x = true) l -> List.filter f l = l.
Proof. induction 1 as [|x l Hx _ IH]; [done|]. cbn. by rewrite Hx, IH. Qed.

Lemma filter_none {A} (f : A -> bool) (l : list A) : Forall (fun x => f x = false) l -> List.filter f l = [].
Proof. induction 1 as [|x l Hx _ IH]; [done|]. cbn. by rewrite Hx. Qed.

Section Proof.
Context {K : Type} (compare_ : K -> K -> outcome Z) (order : K -> K -> comparison) {Horder : TotalOrder order}.
Context (valid : K -> Prop).
Context (Hcompare : forall a b, valid a -> valid b -> exists r, compare_ a b = Ok r /\ (r ?= 0) = order a b).
Implicit Types (s : SkipList K) (levels : nat -> list nat).

Definition key_of s (x : nat) : option K := nodes s !! x ≫= node_key.
Definition klt s (x y : nat) : Prop :=
  exists a b, key_of s x = Some a /\ key_of s y = Some b /\ order a b = Lt.

(** [before s key x]: the node's key is smaller; the head is before all. *)
Definition before s (key : K) (x : nat) : bool :=
  match key_of s x with
  | Some a => match order a key with Lt => true | _ => false end
  | None => true
  end.

Record wf s levels : Prop := {
  wf_head : exists l, nodes s !! 0%nat = Some (mk_node None l);
  wf_max : (1 <= max_height_ s <= kMaxHeight)%nat;
  wf_above : forall i, (max_height_ s <= i)%nat -> levels i = [];
  wf_key : forall i x, x ∈ levels i -> exists k, key_of s x = Some k /\ valid k;
  wf_incl : forall i x, x ∈ levels (S i) -> x ∈ levels i;
  wf_sorted : forall i, StronglySorted (klt s) (levels i);
  wf_links : forall i r x, (i < kMaxHeight)%nat -> (0%nat :: levels i) !! r = Some x ->
    node_Next x i s = Ok (levels i !! r)
}.

(** [r] splits a level into what is smaller than the key and what is not. *)
Definition splits s key (l : list nat) (r : nat) : Prop :=
  Forall (fun x => before s key x = true) (take r l) /\
  Forall (fun x => before s key x = false) (drop r l).

Lemma klt_irrefl s x : ~ klt s x x.
Proof. intros (a & b & Ha & Hb & E). rewrite Ha in Hb. injection Hb as <-. by rewrite (order_refl order) in E. Qed.

Lemma before_mono s key x y : klt s x y -> before s key y = true -> before s key x = true.
Proof.
  intros (a & b & Ha & Hb & E). unfold before. rewrite Ha, Hb. destruct (order b key) eqn:E2; try done.
  by rewrite (order_lt_trans order _ _ _ E E2).
Qed.

Lemma before_compare s key x k : key_of s x = Some k -> valid k -> valid key ->
  exists r, compare_ k key = Ok r /\ (r <? 0) = before s key x.
Proof.
  intros Hk Hv Hkey. destruct (Hcompare k key Hv Hkey) as (r & E & Er). exists r. split; [done|].
  unfold before. rewrite Hk, <- Er. unfold Z.ltb. by destruct (r ?= 0).
Qed.

Lemma get_key_ok s x k : key_of s x = Some k -> get_key x s = Ok k.
Proof. unfold key_of, get_key. destruct (nodes s !! x); [|done]. cbn. by intros ->. Qed.

Section Search.
Context (s : SkipList K) (levels : nat -> list nat) (Hwf : wf s levels) (key : K) (Hkey : valid key).

Lemma head_key : key_of s 0%nat = None.
Proof. destruct (wf_head _ _ Hwf) as [l E]. unfold key_of. by rewrite E. Qed.

Lemma level_zero i x : x ∈ levels i -> x ∈ levels 0%nat.
Proof. induction i as [|i IH]; [done|]. intros Hx. by apply IH, (wf_incl _ _ Hwf). Qed.

Lemma level_down i x : x ∈ 0%nat :: levels (S i) -> x ∈ 0%nat :: levels i.
Proof. intros [->|Hx]%elem_of_cons; apply elem_of_cons; [by left|right]. by apply (wf_incl _ _ Hwf). Qed.

Lemma KeyIsAfterNode_ok i p : (forall y, p = Some y -> y ∈ levels i) ->
  KeyIsAfterNode compare_ key p s = Ok (match p with Some y => before s key y | None => false end).
Proof.
  intros Hp. destruct p as [y|]; [|done]. destruct (wf_key _ _ Hwf i y (Hp y eq_refl)) as (k & Hk & Hv).
  cbn [KeyIsAfterNode]. rewrite (get_key_ok _ _ _ Hk). cbn [obind].
  destruct (before_compare s key y k Hk Hv Hkey) as (r & -> & Hr). cbn [obind]. by rewrite Hr.
Qed.

Lemma look_ok i r x : (i < kMaxHeight)%nat -> (0%nat :: levels i) !! r = Some x ->
  look compare_ key s x i =
    Ok (match levels i !! r with Some y => before s key y | None => false end, levels i !! r).
Proof.
  intros Hi Hx. unfold look. rewrite (wf_links _ _ Hwf i r x Hi Hx). cbn [obind].
  rewrite (KeyIsAfterNode_ok i); [done|]. intros y Hy. by eapply list_elem_of_lookup_2.
Qed.

(** Where a search stops on a level. *)
Lemma stop_splits i r x :
  (0%nat :: levels i) !! r = Some x -> before s key x = true ->
  (forall y, levels i !! r = Some y -> before s key y = false) -> splits s key (levels i) r.
Proof.
  intros Hx Hb Hn. pose proof (wf_sorted _ _ Hwf i) as Hs. split; apply Forall_lookup.
  - intros j z Hz. apply lookup_take_Some in Hz as [Hz Hj]. destruct r as [|r]; [lia|]. change (levels i !! r = Some x) in Hx.
    destruct (decide (j = r)) as [->|]; [congruence|].
    apply (before_mono s key z x); [|done]. by apply (sorted_lookup _ _ j r _ _ Hs); [| |lia].
  - intros j z Hz. rewrite lookup_drop in Hz.
    assert (Hlt : (r < length (levels i))%nat) by (apply lookup_lt_Some in Hz; lia).
    destruct (lookup_lt_is_Some_2 _ _ Hlt) as [y Hy]. specialize (Hn y Hy).
    destruct (decide (j = 0%nat)) as [->|]; [rewrite Nat.add_0_r in Hz; congruence|].
    destruct (before s key z) eqn:Ez; [|done].
    rewrite (before_mono s key y z) in Hn; [done| |done]. by apply (sorted_lookup _ _ r (r + j) _ _ Hs); [| |lia].
Qed.

(** What is still ahead of the search. *)
Definition ahead (f : nat -> bool) (x : nat) : list nat :=
  List.filter (fun y => f y &&
    match key_of s x, key_of s y with
    | Some a, Some b => match order a b with Lt => true | _ => false end
    | _, _ => true
    end) (levels 0%nat).

(** Going right on a level. *)
Definition right_of (x y : nat) : Prop := key_of s x = None \/ klt s x y.

Lemma ahead_right f x y : right_of x y -> y ∈ levels 0%nat -> f y = true ->
  (length (ahead f y) < length (ahead f x))%nat.
Proof.
  intros Hxy Hy Hf. destruct (wf_key _ _ Hwf 0%nat y Hy) as (b & Hkb & _).
  assert (Hlt : match key_of s x with Some a => order a b = Lt | None => True end).
  { destruct Hxy as [->|(a & b' & -> & Hb' & E)]; [done|congruence]. }
  apply (filter_shrinks _ _ _ y); [|done| |].
  - intros z. rewrite Hkb. destruct (f z); [|done]. cbn.
    destruct (key_of s x) as [a|]; [|done]. destruct (key_of s z) as [c|]; [|done].
    destruct (order b c) eqn:E; try done. by rewrite (order_lt_trans order a b c Hlt E).
  - rewrite Hf, Hkb. cbn. destruct (key_of s x) as [a|]; [|done]. by rewrite Hlt.
  - rewrite Hkb, Hf. cbn. by rewrite (order_refl order).
Qed.

Lemma level_right i r x y : (0%nat :: levels i) !! r = Some x -> levels i !! r = Some y -> right_of x y.
Proof.
  intros Hx Hy. destruct r as [|r]; [injection Hx as <-; left; apply head_key|]. right.
  change (levels i !! r = Some x) in Hx. apply (sorted_lookup _ _ r (S r) x y (wf_sorted _ _ Hwf i) Hx Hy). lia.
Qed.

Lemma ahead_moves f i r x y :
  (0%nat :: levels i) !! r = Some x -> levels i !! r = Some y -> f y = true ->
  (length (ahead f y) < length (ahead f x))%nat.
Proof.
  intros Hx Hy Hf. apply ahead_right; [by apply (level_right i r)| |done].
  apply (level_zero i). by eapply list_elem_of_lookup_2.
Qed.

(** The nodes a search found on the levels it went through. *)
Definition found_prev (level : nat) (prev prev' : list (option nat)) : Prop :=
  length prev' = length prev /\
  (forall j, (j <= level)%nat -> exists r, splits s key (levels j) r /\
     prev' !! j = Some ((0%nat :: levels j) !! r) /\ (r <= length (levels j))%nat) /\
  forall j, (level < j)%nat -> prev' !! j = prev !! j.

Lemma find_ge_ok fuel t level x prev :
  (level < kMaxHeight)%nat -> x ∈ 0%nat :: levels level -> before s key x = true ->
  (length (ahead (before s key) x) + level < fuel)%nat -> length prev = kMaxHeight ->
  exists r prev', find_ge compare_ fuel key (fun _ => s) t x level prev = Ok (levels 0%nat !! r, prev') /\
    splits s key (levels 0%nat) r /\ (r <= length (levels 0%nat))%nat /\ found_prev level prev prev'.
Proof.
  revert t level x prev. induction fuel as [|n IH]; intros t level x prev Hl Hx Hb Hfuel Hprev; [lia|].
  apply list_elem_of_lookup_1 in Hx as [r Hr]. cbn [find_ge]. rewrite (look_ok level r x Hl Hr). cbn [obind].
  destruct (match levels level !! r with Some y => before s key y | None => false end) eqn:Eafter.
  - destruct (levels level !! r) as [y|] eqn:Ey; [|done].
    pose proof (ahead_moves (before s key) level r x y Hr Ey Eafter).
    apply IH; [done| |done|lia|done]. apply elem_of_cons. right. by eapply list_elem_of_lookup_2.
  - assert (Hsp : splits s key (levels level) r).
    { apply (stop_splits level r x Hr Hb). intros y Hy. by rewrite Hy in Eafter. }
    assert (Hlen : (r <= length (levels level))%nat) by (apply lookup_lt_Some in Hr; simpl in Hr; lia).
    assert (Hput : <[level:=Some x]> prev !! level = Some ((0%nat :: levels level) !! r)).
    { rewrite list_lookup_insert_eq by (rewrite Hprev; lia). by rewrite Hr. }
    destruct level as [|level].
    + exists r, (<[0%nat:=Some x]> prev). split; [done|]. split; [done|]. split; [done|].
      split; [by rewrite length_insert|]. split.
      * intros j Hj. replace j with 0%nat by lia. by exists r.
      * intros j Hj. by rewrite list_lookup_insert_ne by lia.
    + destruct (IH (S t) level x (<[S level:=Some x]> prev)) as (r' & prev' & E & Hsp' & Hle' & Hlen' & Hlow & Hhigh);
        [lia|apply level_down; by eapply list_elem_of_lookup_2|done|lia|by rewrite length_insert|].
      exists r', prev'. split; [done|]. split; [done|]. split; [done|]. rewrite length_insert in Hlen'. split; [done|]. split.
      * intros j Hj. destruct (decide (j = S level)) as [->|]; [|apply Hlow; lia].
        exists r. rewrite Hhigh by lia. done.
      * intros j Hj. rewrite Hhigh by lia. by rewrite list_lookup_insert_ne by lia.
Qed.

(** ** The searches of the code *)
Lemma level_nodup i : NoDup (levels i).
Proof.
  pose proof (wf_sorted _ _ Hwf i) as Hs. apply NoDup_alt. intros a b x Ha Hb.
  destruct (lt_eq_lt_dec a b) as [[Hlt|Heq]|Hlt]; [|done|]; exfalso; apply (klt_irrefl s x).
  - by apply (sorted_lookup _ _ _ _ _ _ Hs Ha Hb).
  - by apply (sorted_lookup _ _ _ _ _ _ Hs Hb Ha).
Qed.

Lemma level_length i : (length (levels i) <= length (nodes s))%nat.
Proof.
  rewrite <- (length_seq (length (nodes s)) 0) at 1. apply NoDup_incl_length; [apply NoDup_ListNoDup, level_nodup|].
  intros x Hx%list_elem_of_In. apply list_elem_of_In, elem_of_seq.
  destruct (wf_key _ _ Hwf i x Hx) as (k & Hk & _). unfold key_of in Hk.
  destruct (nodes s !! x) eqn:E; [|done]. apply lookup_lt_Some in E. lia.
Qed.

Lemma ahead_length f x : (length (ahead f x) <= length (nodes s))%nat.
Proof.
  unfold ahead. pose proof (level_length 0%nat) as Hl.
  match goal with |- context [List.filter ?f ?l] => pose proof (filter_le f l) end. lia.
Qed.

Lemma search_fuel_enough f x : (length (ahead f x) + (max_height_ s - 1) < search_fuel s)%nat.
Proof. unfold search_fuel. pose proof (ahead_length f x). pose proof (wf_max _ _ Hwf). lia. Qed.

Lemma head_first i : (0%nat : nat) ∈ 0%nat :: levels i.
Proof. apply elem_of_cons. by left. Qed.

Lemma head_before : before s key 0%nat = true.
Proof. unfold before. by rewrite head_key. Qed.

Lemma FindGreaterOrEqual_ok :
  exists r prev, FindGreaterOrEqual compare_ key s = Ok (levels 0%nat !! r, prev) /\
    splits s key (levels 0%nat) r /\ (r <= length (levels 0%nat))%nat /\ found_prev (max_height_ s - 1) no_prev prev.
Proof.
  pose proof (wf_max _ _ Hwf). unfold FindGreaterOrEqual.
  apply find_ge_ok; [lia|apply head_first|exact head_before|apply search_fuel_enough|done].
Qed.

Lemma level_key i x : x ∈ levels i -> exists k, get_key x s = Ok k /\ valid k /\
  (exists r, compare_ k key = Ok r /\ (r <? 0) = before s key x) /\ (x =? head_)%nat = false.
Proof.
  intros Hx. destruct (wf_key _ _ Hwf i x Hx) as (k & Hk & Hv). exists k. split; [by apply get_key_ok|].
  split; [done|]. split; [by apply before_compare|]. apply Nat.eqb_neq. intros E. change (x = 0%nat) in E. subst x. by rewrite head_key in Hk.
Qed.

Lemma find_lt_ok fuel level x :
  (level < kMaxHeight)%nat -> x ∈ 0%nat :: levels level -> before s key x = true ->
  (length (ahead (before s key) x) + level < fuel)%nat ->
  exists r y, find_lt compare_ fuel key s x level = Ok y /\ (0%nat :: levels 0%nat) !! r = Some y /\
    splits s key (levels 0%nat) r /\ (r <= length (levels 0%nat))%nat.
Proof.
  revert level x. induction fuel as [|m IH]; intros level x Hl Hx Hb Hfuel; [lia|].
  cbn [find_lt].
  assert (Eb : (if (x =? head_)%nat then Ok true
    else let! k := get_key x s in let! r := compare_ k key in Ok (r <? 0)) = Ok true).
  { apply elem_of_cons in Hx as [->|Hx]; [done|]. destruct (level_key level x Hx) as (k & -> & _ & (q & Eq & Hq) & ->).
    cbn [obind]. rewrite Eq. cbn [obind]. by rewrite Hq, Hb. }
  rewrite Eb. cbn [obind]. unfold assert.
  apply list_elem_of_lookup_1 in Hx as [r Hr]. rewrite (wf_links _ _ Hwf level r x Hl Hr). cbn [obind].
  assert (Hlen : (r <= length (levels level))%nat) by (apply lookup_lt_Some in Hr; simpl in Hr; lia).
  assert (Hnext : match levels level !! r with
      | None => Ok true
      | Some y => let! k := get_key y s in let! q := compare_ k key in Ok (0 <=? q)
      end = Ok (match levels level !! r with None => true | Some y => negb (before s key y) end)).
  { destruct (levels level !! r) as [y|] eqn:Ey; [|done].
    destruct (level_key level y) as (k & -> & _ & (q & Eq & <-) & _); [by eapply list_elem_of_lookup_2|].
    cbn [obind]. rewrite Eq. cbn [obind]. f_equal. destruct (Z.ltb_spec q 0), (Z.leb_spec 0 q); (done || lia). }
  rewrite Hnext. cbn [obind]. destruct (levels level !! r) as [y|] eqn:Ey.
  - destruct (before s key y) eqn:Eby; cbn [negb].
    + pose proof (ahead_moves (before s key) level r x y Hr Ey Eby).
      apply IH; [done| |done|lia]. apply elem_of_cons. right. by eapply list_elem_of_lookup_2.
    + destruct level as [|level].
      * exists r, x. split; [done|]. split; [done|]. split; [|done]. apply (stop_splits 0 r x Hr Hb). congruence.
      * apply IH; [lia|apply level_down; by eapply list_elem_of_lookup_2|done|lia].
  - destruct level as [|level].
    + exists r, x. split; [done|]. split; [done|]. split; [|done]. apply (stop_splits 0 r x Hr Hb). congruence.
    + apply IH; [lia|apply level_down; by eapply list_elem_of_lookup_2|done|lia].
Qed.

Lemma FindLessThan_ok :
  exists r y, FindLessThan compare_ key s = Ok y /\ (0%nat :: levels 0%nat) !! r = Some y /\
    splits s key (levels 0%nat) r /\ (r <= length (levels 0%nat))%nat.
Proof.
  pose proof (wf_max _ _ Hwf). apply find_lt_ok; [lia|apply head_first|exact head_before|apply search_fuel_enough].
Qed.

Lemma find_last_ok fuel level x :
  (level < kMaxHeight)%nat -> x ∈ 0%nat :: levels level ->
  (length (ahead (fun _ => true) x) + level < fuel)%nat ->
  exists y, find_last fuel s x level = Ok y /\ last (0%nat :: levels 0%nat) = Some y.
Proof.
  revert level x. induction fuel as [|m IH]; intros level x Hl Hx Hfuel; [lia|].
  cbn [find_last]. apply list_elem_of_lookup_1 in Hx as [r Hr].
  rewrite (wf_links _ _ Hwf level r x Hl Hr). cbn [obind]. destruct (levels level !! r) as [y|] eqn:Ey.
  - pose proof (ahead_moves (fun _ => true) level r x y Hr Ey eq_refl).
    apply IH; [done| |lia]. apply elem_of_cons. right. by eapply list_elem_of_lookup_2.
  - destruct level as [|level].
    + exists x. split; [done|]. rewrite last_lookup. cbn [length pred].
      apply lookup_ge_None in Ey. assert (Hlt := lookup_lt_Some _ _ _ Hr). cbn [length] in Hlt.
      by replace (length (levels 0%nat)) with r by lia.
    + apply IH; [lia|apply level_down; by eapply list_elem_of_lookup_2|lia].
Qed.

Lemma FindLast_ok : exists y, FindLast s = Ok y /\ last (0%nat :: levels 0%nat) = Some y.
Proof.
  pose proof (wf_max _ _ Hwf). apply find_last_ok; [lia|apply head_first|apply search_fuel_enough].
Qed.
End Search.

(** ** Storing a link *)
Lemma node_Next_inv s x i p : node_Next x i s = Ok p ->
  exists n, nodes s !! x = Some n /\ next_ n !! i = Some (Some p).
Proof.
  unfold node_Next. destruct (nodes s !! x) as [n|]; [|done]. cbn [or_ub obind].
  destruct (next_ n !! i) as [[q|]|] eqn:E; cbn [or_ub obind]; [|done|done]. intros [= ->]. by exists n.
Qed.

(** The node [x] has an array of links that reaches level [i]. *)
Definition tall s (x i : nat) : Prop := exists n, nodes s !! x = Some n /\ (i < length (next_ n))%nat.

Lemma node_Next_tall s x i p : node_Next x i s = Ok p -> tall s x i.
Proof. intros (n & Hn & Hl)%node_Next_inv. exists n. split; [done|]. by apply lookup_lt_Some in Hl. Qed.

Lemma node_SetNext_ok s x i p : tall s x i ->
  exists s', node_SetNext x i p s = Ok s' /\ max_height_ s' = max_height_ s /\ rnd_ s' = rnd_ s /\
    (forall y, key_of s' y = key_of s y) /\ (forall y j, tall s y j -> tall s' y j) /\
    (forall y j, node_Next y j s' = if decide (y = x /\ j = i) then Ok p else node_Next y j s) /\
    (forall l, nodes s !! 0%nat = Some (mk_node None l) -> exists l', nodes s' !! 0%nat = Some (mk_node None l')).
Proof.
  intros (n & Hn & Hi). unfold node_SetNext. rewrite Hn. cbn [or_ub obind].
  rewrite (proj2 (Nat.ltb_lt _ _) Hi). eexists. split; [done|]. split; [done|]. split; [done|].
  assert (Hx : (x < length (nodes s))%nat) by by apply lookup_lt_Some in Hn.
  assert (Hlook : forall y, <[x:=mk_node (node_key n) (<[i:=Some p]> (next_ n))]> (nodes s) !! y =
    if decide (y = x) then Some (mk_node (node_key n) (<[i:=Some p]> (next_ n))) else nodes s !! y).
  { intros y. case_decide as E; [subst; by apply list_lookup_insert_eq|by apply list_lookup_insert_ne]. }
  split; [|split; [|split]].
  - intros y. unfold key_of. cbn [nodes set_nodes]. rewrite Hlook. case_decide as E; [subst; by rewrite Hn|done].
  - intros y j (m & Hm & Hj). unfold tall. cbn [nodes set_nodes]. rewrite Hlook. case_decide as E; [|by exists m].
    subst. rewrite Hn in Hm. injection Hm as ->. eexists. split; [done|]. cbn. by rewrite length_insert.
  - intros y j. unfold node_Next. cbn [nodes set_nodes]. rewrite Hlook. case_decide as E.
    + subst. cbn [or_ub obind next_]. rewrite Hn. cbn [or_ub obind]. case_decide as E2.
      * destruct E2 as [_ ->]. by rewrite list_lookup_insert_eq by done.
      * rewrite list_lookup_insert_ne by (intros ->; by apply E2). done.
    + case_decide as E2; [by destruct E2|done].
  - intros l Hl. cbn [nodes set_nodes]. rewrite Hlook. case_decide as E; [|by exists l]. subst.
    rewrite Hn in Hl. injection Hl as ->. by eexists.
Qed.

(** A state with the same keys and links. *)
Lemma wf_same s s' levels :
  wf s levels -> (exists l, nodes s' !! 0%nat = Some (mk_node None l)) ->
  (max_height_ s <= max_height_ s' <= kMaxHeight)%nat ->
  (forall i x, x ∈ levels i -> key_of s' x = key_of s x) ->
  (forall i r x, (i < kMaxHeight)%nat -> (0%nat :: levels i) !! r = Some x -> node_Next x i s' = node_Next x i s) ->
  wf s' levels.
Proof.
  intros [Hh Hm Ha Hk Hi Hs Hl] Hh' Hm' Hk' Hl'. split; [done|lia| | |done| |].
  - intros i Hlt. apply Ha. lia.
  - intros i x Hx. rewrite (Hk' i x Hx). by apply (Hk i).
  - intros i. specialize (Hs i). specialize (Hk' i). revert Hk'. induction Hs as [|x l Hs IH Hf]; intros Hk'; [constructor|].
    constructor; [apply IH; intros y Hy; apply Hk'; by apply elem_of_cons; right|].
    rewrite Forall_forall in Hf |- *. intros y Hy. destruct (Hf y Hy) as (a & b & Hka & Hkb & E).
    exists a, b. rewrite !Hk'; [done|by apply elem_of_cons; right|by apply elem_of_cons; left].
  - intros i r x Hlt Hx. rewrite (Hl' i r x Hlt Hx). by apply (Hl i r x).
Qed.

Lemma wf_ext s (levels levels' : nat -> list nat) : wf s levels -> (forall i, levels' i = levels i) -> wf s levels'.
Proof.
  intros [Hh Hm Ha Hk Hi Hs Hl] E.
  split; [done|done|intros i|intros i|intros i x|intros i|intros i q x]; rewrite ?E;
    [apply Ha|apply Hk|apply Hi|apply Hs|apply Hl].
Qed.

(** ** How the list grows

    Nodes are never unlinked and their keys never change. *)
Lemma wf_unique s (levels levels' : nat -> list nat) i : wf s levels -> wf s levels' -> levels i = levels' i.
Proof.
  intros Hwf Hwf'. destruct (decide (i < kMaxHeight)%nat) as [Hi|Hi].
  - assert (Hr : forall r, levels i !! r = levels' i !! r); [|by apply list_eq].
    induction r as [|r IH].
    + pose proof (wf_links _ _ Hwf i 0%nat 0%nat Hi eq_refl) as E.
      rewrite (wf_links _ _ Hwf' i 0%nat 0%nat Hi eq_refl) in E. by injection E.
    + destruct (levels i !! r) as [x|] eqn:Ex.
      * pose proof (wf_links _ _ Hwf i (S r) x Hi Ex) as E.
        rewrite (wf_links _ _ Hwf' i (S r) x Hi (eq_sym IH)) in E. by injection E.
      * apply lookup_ge_None in Ex. symmetry in IH. apply lookup_ge_None in IH.
        rewrite !lookup_ge_None_2 by lia. done.
  - rewrite (wf_above _ _ Hwf), (wf_above _ _ Hwf'); [done|pose proof (wf_max _ _ Hwf')|pose proof (wf_max _ _ Hwf)]; lia.
Qed.

Definition extends s (levels : nat -> list nat) s' (levels' : nat -> list nat) : Prop :=
  wf s levels /\ wf s' levels' /\ forall i x, x ∈ levels i -> x ∈ levels' i /\ key_of s' x = key_of s x.
Definition grows s s' : Prop := exists levels levels', extends s levels s' levels'.

Lemma grows_intro s levels s' : wf s levels -> grows s s' ->
  exists levels', wf s' levels' /\ forall i x, x ∈ levels i -> x ∈ levels' i /\ key_of s' x = key_of s x.
Proof.
  intros Hwf (l & l' & Hl & Hl' & H). exists l'. split; [done|]. intros i x.
  rewrite (wf_unique s levels l i Hwf Hl). apply H.
Qed.

Lemma grows_trans s1 s2 s3 : grows s1 s2 -> grows s2 s3 -> grows s1 s3.
Proof.
  intros (l1 & l2 & H1 & H2 & H12) H23. destruct (grows_intro s2 l2 s3 H2 H23) as (l3 & H3 & H23').
  exists l1, l3. split; [done|]. split; [done|]. intros i x Hx. destruct (H12 i x Hx) as [Hx2 E12].
  destruct (H23' i x Hx2) as [Hx3 E23]. split; [done|congruence].
Qed.

Lemma grows_self s levels : wf s levels -> grows s s.
Proof. intros Hwf. by exists levels, levels. Qed.

(** What has been seen between the states [s] and [t], the last first. *)
Definition growing (s t : SkipList K) (seen : list (SkipList K)) : Prop :=
  StronglySorted (fun newer older => grows older newer) seen /\
  Forall (fun u => grows s u /\ grows u t) seen /\ grows s t.

Lemma growing_step s t t' seen : growing s t seen -> grows t t' -> grows t' t' -> growing s t' (t' :: seen).
Proof.
  intros (Hs & Hf & Hst) Htt' Hrefl.
  assert (Hf' : Forall (fun u => grows s u /\ grows u t') seen).
  { eapply Forall_impl; [exact Hf|]. intros u [Hsu Hut]. split; [done|by apply (grows_trans u t t')]. }
  assert (Hst' : grows s t') by by apply (grows_trans s t t').
  split; [|split; [by constructor|done]]. constructor; [done|]. eapply Forall_impl; [exact Hf'|]. by intros u [_ H].
Qed.

Lemma growing_app s t u new old : growing s t old -> growing t u new -> growing s u (new ++ old).
Proof.
  intros (Ho & Hfo & Hst) (Hn & Hfn & Htu).
  assert (Hou : Forall (fun x => grows s x /\ grows x u) old).
  { eapply Forall_impl; [exact Hfo|]. intros x [Hsx Hxt]. split; [done|by apply (grows_trans x t u)]. }
  split; [|split; [|by apply (grows_trans s t u)]].
  - clear Hou. induction Hn as [|x new Hn IH Hx]; [done|]. inversion Hfn as [|? ? [Htx Hxu] Hfn']; subst.
    constructor; [by apply IH|]. apply Forall_app. split; [done|]. eapply Forall_impl; [exact Hfo|].
    intros y [_ Hyt]. by apply (grows_trans y t x).
  - apply Forall_app. split; [|done]. eapply Forall_impl; [exact Hfn|]. intros x [Htx Hxu].
    split; [by apply (grows_trans s t x)|done].
Qed.

(** ** Linking a new node *)
Section Link.
Context (s : SkipList K) (levels : nat -> list nat) (Hwf : wf s levels) (key : K) (Hkey : valid key).
(** Nothing in the list compares equal to the key. *)
Context (Hfresh : forall x k, x ∈ levels 0%nat -> key_of s x = Some k -> order k key <> Eq).
Context (r : nat -> nat) (height : nat).
Context (Hheight : (height <= kMaxHeight)%nat).
Context (Hsplit : forall i, (i < height)%nat -> splits s key (levels i) (r i)).
Let n : nat := length (nodes s).

(** The levels when the new node is linked on those below [j]. *)
Definition linked (j i : nat) : list nat :=
  if decide (i < j)%nat then take (r i) (levels i) ++ n :: drop (r i) (levels i) else levels i.

(** A state in which that is so. *)
Record link_inv (j : nat) (t : SkipList K) : Prop := {
  li_wf : wf t (linked j);
  li_max : (height <= max_height_ t)%nat;
  li_tall : forall i, (i < height)%nat -> tall t n i;
  li_new : key_of t n = Some key;
  li_keys : forall x, x <> n -> key_of t x = key_of s x
}.

Lemma old_node i x : x ∈ 0%nat :: levels i -> x <> n.
Proof.
  intros Hx ->. assert (E : nodes s !! n = None) by (apply lookup_ge_None; done).
  apply elem_of_cons in Hx as [E0|Hx].
  - destruct (wf_head _ _ Hwf) as [l El]. rewrite E0, El in E. done.
  - destruct (wf_key _ _ Hwf i n Hx) as (k & Hk & _). unfold key_of in Hk. by rewrite E in Hk.
Qed.

Lemma linked_old j i x : x ∈ linked j i -> x = n \/ x ∈ levels i.
Proof.
  unfold linked. case_decide; [|by right]. intros Hx. rewrite <- (take_drop (r i) (levels i)).
  apply elem_of_app in Hx as [Hx|[->|Hx]%elem_of_cons]; [right; apply elem_of_app; by left|by left|].
  right. apply elem_of_app. by right.
Qed.

Lemma old_linked j i x : x ∈ levels i -> x ∈ linked j i.
Proof.
  unfold linked. case_decide; [|done]. intros Hx. rewrite <- (take_drop (r i) (levels i)) in Hx.
  apply elem_of_app in Hx as [Hx|Hx]; apply elem_of_app; [by left|right; by apply elem_of_cons; right].
Qed.

Lemma linked_next j i : i <> j -> linked (S j) i = linked j i.
Proof. intros Hne. unfold linked. repeat case_decide; (done || lia). Qed.

Lemma linked_self j : linked j j = levels j.
Proof. unfold linked. case_decide; [lia|done]. Qed.

Lemma linked_new j : linked (S j) j = take (r j) (levels j) ++ n :: drop (r j) (levels j).
Proof. unfold linked. case_decide; [done|lia]. Qed.

Lemma linked_incl j i x : x ∈ linked j (S i) -> x ∈ linked j i.
Proof.
  intros Hx. destruct (linked_old _ _ _ Hx) as [->|Ho].
  - unfold linked in *. repeat case_decide; try lia.
    + apply elem_of_app. right. apply elem_of_cons. by left.
    + exfalso. apply (old_node (S i) n); [|done]. apply elem_of_cons. by right.
    + exfalso. apply (old_node (S i) n); [|done]. apply elem_of_cons. by right.
  - apply old_linked. by apply (wf_incl _ _ Hwf).
Qed.

(** Keys are compared alike in all states. *)
Lemma old_key j t x : link_inv j t -> forall i, x ∈ levels i -> key_of t x = key_of s x.
Proof. intros Hli i Hx. apply (li_keys _ _ Hli). apply (old_node i). apply elem_of_cons. by right. Qed.

Lemma linked_sorted j t : (j < height)%nat -> link_inv j t -> forall u,
  (forall y, key_of u y = key_of t y) -> StronglySorted (klt u) (linked (S j) j).
Proof.
  intros Hj Hli u Hu. rewrite linked_new.
  assert (Hkl : forall a b, klt t a b -> klt u a b) by (intros a b; unfold klt; by rewrite !Hu).
  assert (Hold : forall a b x y, key_of t x = Some a -> key_of t y = Some b -> order a b = Lt -> klt u x y).
  { intros a b x y Ha Hb E. apply Hkl. by exists a, b. }
  destruct (Hsplit j Hj) as [Hlo Hhi]. apply sorted_insert.
  - rewrite take_drop. pose proof (wf_sorted _ _ (li_wf _ _ Hli) j) as Hs. rewrite linked_self in Hs.
    by eapply sorted_impl.
  - apply Forall_forall. intros x Hx. rewrite Forall_forall in Hlo. specialize (Hlo x Hx).
    assert (Hxl : x ∈ levels j) by (by eapply elem_of_take in Hx as (? & ? & _); eapply list_elem_of_lookup_2).
    destruct (wf_key _ _ Hwf j x Hxl) as (a & Ha & _). unfold before in Hlo. rewrite Ha in Hlo.
    apply (Hold a key); [by rewrite (old_key j t x Hli j Hxl)|apply Hli|by destruct (order a key)].
  - apply Forall_forall. intros y Hy. rewrite Forall_forall in Hhi. specialize (Hhi y Hy).
    assert (Hyl : y ∈ levels j) by (rewrite <- (take_drop (r j) (levels j)); apply elem_of_app; by right).
    destruct (wf_key _ _ Hwf j y Hyl) as (b & Hb & _). unfold before in Hhi. rewrite Hb in Hhi.
    pose proof (Hfresh y b (level_zero s levels Hwf j y Hyl) Hb) as Hne.
    apply (Hold key b); [apply Hli|by rewrite (old_key j t y Hli j Hyl)|].
    apply (order_gt order). by destruct (order b key).
Qed.

(** The new links of a level. *)
Lemma insert_links (l : list nat) (q : nat) (p : nat) (next : nat -> outcome ptr) :
  (q <= length l)%nat -> NoDup (0%nat :: l) -> n ∉ 0%nat :: l -> (0%nat :: l) !! q = Some p ->
  next p = Ok (Some n) -> next n = Ok (l !! q) ->
  (forall a x, x <> p -> x <> n -> (0%nat :: l) !! a = Some x -> next x = Ok (l !! a)) ->
  forall a x, (0%nat :: take q l ++ n :: drop q l) !! a = Some x ->
    next x = Ok ((take q l ++ n :: drop q l) !! a).
Proof.
  intros Hq Hnd Hn Hp Hnp Hnn Hrest a x Hx.
  assert (Hlt : length (take q l) = q) by (rewrite length_take; lia).
  assert (Hother : forall b y, (0%nat :: l) !! b = Some y -> b <> q -> next y = Ok (l !! b)).
  { intros b y Hy Hb. apply Hrest; [| |done].
    - intros ->. apply Hb. by apply (NoDup_lookup _ _ _ _ Hnd Hy Hp).
    - intros ->. apply Hn. by eapply list_elem_of_lookup_2. }
  assert (Hlow : forall b, (b < q)%nat -> (take q l ++ n :: drop q l) !! b = l !! b).
  { intros b Hb. rewrite lookup_app_l by lia. by rewrite lookup_take_lt by lia. }
  assert (Hhigh : forall b, (q < b)%nat -> (take q l ++ n :: drop q l) !! b = l !! (b - 1)%nat).
  { intros b Hb. rewrite lookup_app_r, Hlt by lia. replace (b - q)%nat with (S (b - q - 1)) by lia.
    change (drop q l !! (b - q - 1)%nat = l !! (b - 1)%nat). rewrite lookup_drop. f_equal. lia. }
  assert (Hat : (take q l ++ n :: drop q l) !! q = Some n).
  { rewrite lookup_app_r by lia. by rewrite Hlt, Nat.sub_diag. }
  destruct (lt_eq_lt_dec a q) as [[Ha|Ha]|Ha].
  - rewrite Hlow by done. apply (Hother a x); [|lia]. destruct a as [|a]; [done|].
    change ((take q l ++ n :: drop q l) !! a = Some x) in Hx. by rewrite Hlow in Hx by lia.
  - subst a. rewrite Hat. assert (Hxp : (0%nat :: l) !! q = Some x); [|congruence].
    destruct q as [|q]; [done|]. change ((take (S q) l ++ n :: drop (S q) l) !! q = Some x) in Hx.
    by rewrite Hlow in Hx by lia.
  - destruct a as [|a]; [lia|]. change ((take q l ++ n :: drop q l) !! a = Some x) in Hx.
    rewrite Hhigh by lia. replace (S a - 1)%nat with a by lia. destruct (decide (a = q)) as [->|Hne]; [congruence|].
    apply (Hother a x); [|done]. destruct a as [|a]; [lia|].
    rewrite Hhigh in Hx by lia. by replace (S a - 1)%nat with a in Hx by lia.
Qed.

Lemma level_nodup_head i : NoDup (0%nat :: levels i).
Proof.
  apply NoDup_cons. split; [|by apply (level_nodup s)]. intros Hin.
  destruct (wf_key _ _ Hwf i 0%nat Hin) as (k & Hk & _). rewrite (head_key s levels Hwf) in Hk. done.
Qed.

Lemma level_no_new i : n ∉ 0%nat :: levels i.
Proof. intros Hin. by apply (old_node i n Hin). Qed.

(** The stores of one level. *)
Lemma link_step j t p : (j < height)%nat -> (r j <= length (levels j))%nat ->
  (0%nat :: levels j) !! r j = Some p -> link_inv j t ->
  exists t1 t2, node_Next p j t = Ok (levels j !! r j) /\ node_SetNext n j (levels j !! r j) t = Ok t1 /\
    node_SetNext p j (Some n) t1 = Ok t2 /\ link_inv j t1 /\ link_inv (S j) t2.
Proof.
  intros Hj Hr Hp Hli. pose proof (li_wf _ _ Hli) as Hwt.
  assert (Hlinks : forall i a x, (i < kMaxHeight)%nat -> (0%nat :: linked j i) !! a = Some x ->
    node_Next x i t = Ok (linked j i !! a)) by exact (wf_links _ _ Hwt).
  assert (Hpn : node_Next p j t = Ok (levels j !! r j)).
  { rewrite (Hlinks j (r j) p); rewrite ?linked_self; [done|lia|done]. }
  destruct (wf_head _ _ Hwt) as [l0 Hl0]. pose proof (wf_max _ _ Hwt) as Hmax. pose proof (li_max _ _ Hli) as Hmax2.
  destruct (node_SetNext_ok t n j (levels j !! r j) (li_tall _ _ Hli j Hj))
    as (t1 & E1 & Em1 & _ & Ek1 & Et1 & En1 & Eh1).
  assert (Hli1 : link_inv j t1).
  { split; [|lia|intros i Hi; by apply Et1, Hli|rewrite Ek1; by apply Hli|intros x Hx; rewrite Ek1; by apply Hli].
    apply (wf_same t); [done|by apply (Eh1 l0)|lia|intros; by rewrite Ek1|].
    intros i a x Hi Hx. rewrite En1. case_decide as E; [|done]. destruct E as [-> ->]. rewrite linked_self in Hx.
    exfalso. apply (level_no_new j). by eapply list_elem_of_lookup_2. }
  destruct (Eh1 l0 Hl0) as [l1 Hl1].
  assert (Hpne : p <> n) by (intros ->; apply (level_no_new j); by eapply list_elem_of_lookup_2).
  assert (Hpn1 : node_Next p j t1 = Ok (levels j !! r j)) by (rewrite En1; case_decide as E; [by destruct E|done]).
  destruct (node_SetNext_ok t1 p j (Some n) (node_Next_tall _ _ _ _ Hpn1))
    as (t2 & E2 & Em2 & _ & Ek2 & Et2 & En2 & Eh2).
  exists t1, t2. split; [done|]. split; [done|]. split; [done|]. split; [done|].
  assert (Hkey2 : forall y, key_of t2 y = key_of t y) by (intros y; by rewrite Ek2, Ek1).
  split; [|lia|intros i Hi; by apply Et2, Et1, Hli|rewrite Hkey2; by apply Hli|intros x Hx; rewrite Hkey2; by apply Hli].
  split.
  - by apply (Eh2 l1).
  - lia.
  - intros i Hi. rewrite linked_next by lia. apply (wf_above _ _ Hwt). lia.
  - intros i x Hx. rewrite Hkey2. destruct (linked_old _ _ _ Hx) as [->|Ho].
    + exists key. split; [by apply Hli|done].
    + apply (wf_key _ _ Hwt i). by apply old_linked.
  - intros i x. apply linked_incl.
  - intros i. destruct (decide (i = j)) as [->|Hne]; [by apply (linked_sorted j t)|].
    rewrite linked_next by done. eapply sorted_impl; [exact (wf_sorted _ _ Hwt i)|].
    intros a b (ka & kb & Ha & Hb & E). exists ka, kb. by rewrite !Hkey2.
  - intros i a x Hi Hx. destruct (decide (i = j)) as [->|Hne].
    + rewrite linked_new in *. apply (insert_links (levels j) (r j) p (fun y => node_Next y j t2)); [done| | |done| | | |done].
      * apply level_nodup_head.
      * apply level_no_new.
      * cbn beta. rewrite En2. by rewrite decide_True by done.
      * cbn beta. rewrite En2, decide_False by (intros [? _]; congruence). rewrite En1. by rewrite decide_True by done.
      * intros b y Hyp Hyn Hy. cbn beta. rewrite En2, decide_False by (intros [? _]; congruence).
        rewrite En1, decide_False by (intros [? _]; congruence). specialize (Hlinks j b y Hi).
        rewrite linked_self in Hlinks. by apply Hlinks.
    + rewrite linked_next in Hx |- * by done. rewrite En2, decide_False by (intros [_ ?]; congruence).
      rewrite En1, decide_False by (intros [_ ?]; congruence). by apply Hlinks.
Qed.

Lemma linked_mono j j' i x : (j <= j')%nat -> x ∈ linked j i -> x ∈ linked j' i.
Proof.
  intros Hj. unfold linked. repeat case_decide; try done; try lia. intros Hx.
  rewrite <- (take_drop (r i) (levels i)) in Hx. apply elem_of_app in Hx as [Hx|Hx]; apply elem_of_app; [by left|].
  right. apply elem_of_cons. by right.
Qed.

Lemma link_grows j j' t t' : (j <= j')%nat -> link_inv j t -> link_inv j' t' -> grows t t'.
Proof.
  intros Hj Ht Ht'. exists (linked j), (linked j'). split; [apply Ht|]. split; [apply Ht'|].
  intros i x Hx. split; [by apply (linked_mono j)|]. destruct (decide (x = n)) as [->|Hne].
  - by rewrite (li_new _ _ Ht), (li_new _ _ Ht').
  - by rewrite (li_keys _ _ Ht), (li_keys _ _ Ht').
Qed.

(** All the stores: every state seen has the new node on some lower levels. *)
Lemma link_levels_ok (P : SkipList K -> Prop) prev m : (forall j t, link_inv j t -> P t) -> forall j t seen,
  (j + m = height)%nat ->
  (forall i, (i < height)%nat -> (r i <= length (levels i))%nat /\ prev !! i = Some ((0%nat :: levels i) !! r i)) ->
  link_inv j t -> Forall P seen -> growing s t seen ->
  exists t' seen', link_levels (seq j m) prev n t seen = Ok (t', seen') /\
    link_inv height t' /\ Forall P seen' /\ growing s t' seen'.
Proof.
  intros HP. induction m as [|m IH]; intros j t seen Hjm Hprev Hli Hseen Hgrow.
  - exists t, seen. split; [done|]. assert (j = height) as -> by lia. done.
  - destruct (Hprev j ltac:(lia)) as [Hr Hpj].
    assert (Hlt : (r j < length (0%nat :: levels j))%nat) by (simpl; lia).
    destruct (lookup_lt_is_Some_2 _ _ Hlt) as [p Hp].
    destruct (link_step j t p ltac:(lia) Hr Hp Hli) as (t1 & t2 & En & E1 & E2 & H1 & H2).
    change (seq j (S m)) with (j :: seq (S j) m). cbn [link_levels]. rewrite Hpj, Hp. cbn [or_ub obind].
    rewrite En. cbn [obind]. rewrite E1. cbn [obind]. rewrite E2. cbn [obind].
    apply IH; [lia|done|done| |].
    + constructor; [by apply (HP (S j))|]. constructor; [by apply (HP j)|done].
    + apply (growing_step s t1); [apply (growing_step s t)| |]; [done|..].
      all: (eapply link_grows; [|eassumption..]; lia).
Qed.
End Link.

(** ** Random heights *)
Lemma height_loop_ok fuel : forall h rnd, (1 <= h <= kMaxHeight)%nat -> (kMaxHeight < fuel + h)%nat ->
  exists h' rnd', height_loop fuel h rnd = Ok (h', rnd') /\ (1 <= h' <= kMaxHeight)%nat.
Proof.
  induction fuel as [|n IH]; intros h rnd Hh Hfuel; [lia|]. cbn [height_loop].
  destruct (h <? kMaxHeight)%nat eqn:E; [|by eauto].
  destruct (_ =? 0); [apply IH; apply Nat.ltb_lt in E; lia|by eauto].
Qed.

Lemma RandomHeight_ok rnd : exists h rnd', RandomHeight rnd = Ok (h, rnd') /\ (1 <= h <= kMaxHeight)%nat.
Proof.
  destruct (height_loop_ok kMaxHeight 1 rnd) as (h & rnd' & E & Hh); [unfold kMaxHeight; lia..|].
  exists h, rnd'. split; [|done]. unfold RandomHeight. rewrite E. cbn [obind]. unfold assert.
  rewrite (proj2 (Nat.ltb_lt 0 h)), (proj2 (Nat.leb_le h kMaxHeight)) by lia. done.
Qed.

Lemma raise_prev_lookup from height prev i :
  (height <= length prev)%nat ->
  raise_prev from height prev !! i = if decide (from <= i < height)%nat then Some (Some head_) else prev !! i.
Proof.
  intros Hlen. unfold raise_prev. remember (height - from)%nat as m eqn:Em.
  revert from prev Hlen Em. induction m as [|m IH]; intros from prev Hlen Em.
  - cbn. by rewrite decide_False by lia.
  - cbn [seq foldl]. rewrite IH by (rewrite ?length_insert; lia).
    repeat case_decide; try done; try lia.
    + assert (i = from) as -> by lia. by rewrite list_lookup_insert_eq by lia.
    + by rewrite list_lookup_insert_ne by lia.
    + by rewrite list_lookup_insert_ne by lia.
Qed.

(** ** Insertion *)
Definition fresh_key s (levels : nat -> list nat) (key : K) : Prop :=
  forall x k, x ∈ levels 0%nat -> key_of s x = Some k -> order k key <> Eq.

Lemma NewNode_key s k h x : x <> length (nodes s) -> key_of (NewNode (Some k) h s).2 x = key_of s x.
Proof.
  intros Hx. unfold key_of. cbn. destruct (decide (x < length (nodes s))%nat) as [Hlt|Hge].
  - by rewrite lookup_app_l.
  - rewrite !lookup_ge_None_2; [done| |]; rewrite ?length_app; simpl; lia.
Qed.

Lemma NewNode_Next s k h x i p : node_Next x i s = Ok p -> node_Next x i (NewNode (Some k) h s).2 = Ok p.
Proof.
  intros E. destruct (node_Next_inv _ _ _ _ E) as (m & Hm & Hl). unfold node_Next. cbn.
  rewrite lookup_app_l by (by apply lookup_lt_Some in Hm). rewrite Hm. cbn. by rewrite Hl.
Qed.

(** Before the first store: the new node exists and is on no level. *)
Lemma link_start s s0 levels key r height :
  wf s levels -> valid key -> nodes s0 = nodes s -> (height <= max_height_ s0)%nat ->
  (max_height_ s <= max_height_ s0 <= kMaxHeight)%nat ->
  link_inv s levels key r height 0 (NewNode (Some key) height s0).2.
Proof.
  intros Hwf Hkey Hn Hh Hmax.
  assert (Hk : forall x, x <> length (nodes s) -> key_of (NewNode (Some key) height s0).2 x = key_of s x).
  { intros x Hx. rewrite NewNode_key by (by rewrite Hn). unfold key_of. by rewrite Hn. }
  assert (Hlast : nodes (NewNode (Some key) height s0).2 !! length (nodes s) = Some (mk_node (Some key) (replicate height None))).
  { cbn. rewrite Hn, lookup_app_r by lia. by rewrite Nat.sub_diag. }
  split; [|done| | |done].
  - apply (wf_ext _ levels); [|intros i; unfold linked; case_decide; [lia|done]]. apply (wf_same s _ levels).
    + done.
    + destruct (wf_head _ _ Hwf) as [l El]. exists l. cbn. rewrite Hn.
      rewrite lookup_app_l by (by apply lookup_lt_Some in El). done.
    + done.
    + intros i x Hx. apply Hk. apply (old_node s levels Hwf i). apply elem_of_cons. by right.
    + intros i a x Hi Hx. rewrite (wf_links _ _ Hwf i a x Hi Hx). apply NewNode_Next.
      unfold node_Next. rewrite Hn. exact (wf_links _ _ Hwf i a x Hi Hx).
  - intros i Hi. eexists. split; [exact Hlast|]. cbn. by rewrite length_replicate.
  - unfold key_of. by rewrite Hlast.
Qed.

(** The place of a key on a level. *)
Definition rank s (key : K) (l : list nat) : nat := length (List.filter (before s key) l).

Lemma splits_rank s key l r : splits s key l r -> (r <= length l)%nat -> rank s key l = r.
Proof.
  intros [Hlo Hhi] Hr. unfold rank. rewrite <- (take_drop r l) at 1. rewrite List.filter_app, length_app.
  rewrite (filter_none _ (drop r l)), Nat.add_0_r by done. rewrite filter_all by done. rewrite length_take. lia.
Qed.

Lemma splits_nil s key r : splits s key [] r.
Proof. split; [by rewrite take_nil|by rewrite drop_nil]. Qed.

(** The keys in the list, in order, with their nodes. *)
Definition holds s (ns : list nat) (ks : list K) : Prop :=
  exists levels, wf s levels /\ levels 0%nat = ns /\ Forall2 (fun x k => key_of s x = Some k) ns ks.

Definition insert_at {A} (r : nat) (x : A) (l : list A) : list A := take r l ++ x :: drop r l.

Lemma link_inv_holds s levels key r height j t ks :
  wf s levels -> Forall2 (fun x k => key_of s x = Some k) (levels 0%nat) ks ->
  link_inv s levels key r height j t ->
  holds t (if (0 <? j)%nat then insert_at (r 0%nat) (length (nodes s)) (levels 0%nat) else levels 0%nat)
          (if (0 <? j)%nat then insert_at (r 0%nat) key ks else ks).
Proof.
  intros Hwf Hks Hli. exists (linked s levels r j). split; [apply Hli|].
  assert (Hks' : Forall2 (fun x k => key_of t x = Some k) (levels 0%nat) ks).
  { rewrite Forall2_lookup in Hks |- *. intros i. specialize (Hks i).
    destruct (levels 0%nat !! i) as [x|] eqn:Ex; inversion Hks; subst; constructor.
    rewrite (old_key s levels Hwf key r height j t x Hli 0%nat); [done|by eapply list_elem_of_lookup_2]. }
  unfold linked, insert_at. destruct j as [|j]; cbn; [done|]. case_decide; [|lia]. split; [done|].
  apply Forall2_app; [by apply Forall2_take|]. constructor; [apply Hli|by apply Forall2_drop].
Qed.

Lemma Equal_ok a b : valid a -> valid b ->
  Equal compare_ a b = Ok (match order a b with Eq => true | _ => false end).
Proof.
  intros Ha Hb. unfold Equal. destruct (Hcompare a b Ha Hb) as (r & -> & <-). cbn [obind]. f_equal.
  unfold Z.eqb. by destruct r.
Qed.

Lemma fresh_passes s levels key r : wf s levels -> valid key -> fresh_key s levels key ->
  match levels 0%nat !! r with
  | None => Ok true
  | Some y => let! k := get_key y s in let! e := Equal compare_ key k in Ok (negb e)
  end = Ok true.
Proof.
  intros Hwf Hkey Hfresh. destruct (levels 0%nat !! r) as [y|] eqn:Ey; [|done].
  assert (Hy : y ∈ levels 0%nat) by by eapply list_elem_of_lookup_2.
  destruct (wf_key _ _ Hwf 0%nat y Hy) as (k & Hk & Hv). rewrite (get_key_ok _ _ _ Hk). cbn [obind].
  rewrite Equal_ok by done. cbn [obind]. pose proof (Hfresh y k Hy Hk) as Hne.
  rewrite (order_antisym k key). by destruct (order k key).
Qed.

(** The store of [max_height_] and the new seed change no key and no link. *)
Lemma raised_wf s s0 levels : wf s levels ->
  nodes s0 = nodes s -> (max_height_ s <= max_height_ s0 <= kMaxHeight)%nat ->
  wf s0 levels /\ forall x, key_of s0 x = key_of s x.
Proof.
  intros Hwf Hn Hmax.
  assert (Hk : forall x, key_of s0 x = key_of s x) by (intros x; unfold key_of; by rewrite Hn).
  split; [|done].
  apply (wf_same s _ levels); [done| |done|by intros; apply Hk|intros; unfold node_Next; by rewrite Hn].
  rewrite Hn. exact (wf_head _ _ Hwf).
Qed.

Lemma start_growing s s0 levels key r height N (raised : bool) : wf s levels ->
  nodes s0 = nodes s -> (max_height_ s <= max_height_ s0 <= kMaxHeight)%nat ->
  link_inv s levels key r height 0 N -> growing s N (N :: if raised then [s0; s] else [s]).
Proof.
  intros Hwf Hn Hmax Hli. destruct (raised_wf s s0 levels Hwf Hn Hmax) as [Hwf0 Hk].
  assert (Hss : grows s s) by by apply (grows_self s levels).
  assert (Hs0 : grows s s0) by (exists levels, levels; split_and!; [done|done|intros i x Hx; by rewrite Hk]).
  assert (Hold : forall u, wf u levels -> (forall x, key_of u x = key_of s x) -> grows u N).
  { intros u Hu Eu. exists levels, (linked s levels r 0). split; [done|]. split; [apply Hli|].
    intros i x Hx. split; [by apply old_linked|]. rewrite Eu. by apply (old_key s levels Hwf key r height 0 N x Hli i). }
  assert (HNN : grows N N) by (eapply grows_self, Hli).
  assert (H1 : growing s s [s]) by (split; [|split]; repeat constructor; done).
  destruct raised.
  - apply (growing_step s s0); [|by apply Hold|done]. apply (growing_step s s); [done|done|by apply (grows_self s0 levels)].
  - apply (growing_step s s); [done|by apply Hold|done].
Qed.

(** The nodes [prev] ends up with, the head on the levels that were not used. *)
Lemma raised_prev s levels key prev h i : wf s levels -> (i < h <= kMaxHeight)%nat ->
  found_prev s levels key (max_height_ s - 1) no_prev prev ->
  splits s key (levels i) (rank s key (levels i)) /\ (rank s key (levels i) <= length (levels i))%nat /\
  raise_prev (max_height_ s) h prev !! i = Some ((0%nat :: levels i) !! rank s key (levels i)).
Proof.
  intros Hwf Hi (Hlen & Hlow & _). pose proof (wf_max _ _ Hwf).
  rewrite raise_prev_lookup by (rewrite Hlen; unfold no_prev; rewrite length_replicate; lia).
  case_decide as Hd.
  - rewrite (wf_above _ _ Hwf i) by lia. split; [apply splits_nil|done].
  - destruct (Hlow i) as (r' & Hsp & Hp & Hle); [lia|]. by rewrite (splits_rank _ _ _ _ Hsp Hle).
Qed.

Theorem insert_traced_ok s levels key ks :
  wf s levels -> Forall2 (fun x k => key_of s x = Some k) (levels 0%nat) ks -> valid key -> fresh_key s levels key ->
  let q := rank s key (levels 0%nat) in let ns' := insert_at q (length (nodes s)) (levels 0%nat) in
  splits s key (levels 0%nat) q /\ (q <= length (levels 0%nat))%nat /\
  exists t seen, insert_traced compare_ key s = Ok (t, seen) /\ holds t ns' (insert_at q key ks) /\
    Forall (fun u => holds u (levels 0%nat) ks \/ holds u ns' (insert_at q key ks)) seen /\ growing s t seen.
Proof.
  intros Hwf Hks Hkey Hfresh q ns'. subst q ns'.
  destruct (FindGreaterOrEqual_ok s levels Hwf key Hkey) as (r0 & prev & EF & _ & _ & Hprev).
  pose proof (wf_max _ _ Hwf) as Hmax. pose (r := fun i => rank s key (levels i)).
  assert (Hr : forall h i, (i < h <= kMaxHeight)%nat -> splits s key (levels i) (r i) /\
    (r i <= length (levels i))%nat /\ raise_prev (max_height_ s) h prev !! i = Some ((0%nat :: levels i) !! r i)).
  { intros h i Hi. by apply raised_prev. }
  fold (r 0%nat). destruct (Hr 1%nat 0%nat) as (Hs0 & Hl0 & _); [unfold kMaxHeight; lia|].
  split; [done|]. split; [done|].
  unfold insert_traced. rewrite EF. cbn [obind]. rewrite (fresh_passes s levels key r0 Hwf Hkey Hfresh). cbn [obind assert].
  destruct (RandomHeight_ok (rnd_ s)) as (h & rnd & -> & Hh). cbn [obind].
  set (s0 := if (max_height_ s <? h)%nat then set_max_height h (set_rnd rnd s) else set_rnd rnd s).
  set (seen0 := if (max_height_ s <? h)%nat then [s0; s] else [s]).
  assert (Es : (if (max_height_ (set_rnd rnd s) <? h)%nat
     then (set_max_height h (set_rnd rnd s), raise_prev (max_height_ (set_rnd rnd s)) h prev, [set_max_height h (set_rnd rnd s); s])
     else (set_rnd rnd s, prev, [s])) = (s0, raise_prev (max_height_ s) h prev, seen0)).
  { subst s0 seen0. cbn [max_height_ set_rnd]. destruct (max_height_ s <? h)%nat eqn:E; [done|].
    apply Nat.ltb_ge in E. unfold raise_prev. by replace (h - max_height_ s)%nat with 0%nat by lia. }
  cbn zeta. rewrite Es. clear Es.
  assert (Hs0' : nodes s0 = nodes s /\ (h <= max_height_ s0)%nat /\ (max_height_ s <= max_height_ s0 <= kMaxHeight)%nat).
  { subst s0. destruct (max_height_ s <? h)%nat eqn:E; cbn; [apply Nat.ltb_lt in E|apply Nat.ltb_ge in E]; split_and!; (done || lia). }
  destruct Hs0' as (Hn & Hh0 & Hm0).
  pose proof (link_start s s0 levels key r h Hwf Hkey Hn Hh0 Hm0) as Hli.
  assert (Hview : forall j u, link_inv s levels key r h j u -> holds u (levels 0%nat) ks \/
    holds u (insert_at (r 0%nat) (length (nodes s)) (levels 0%nat)) (insert_at (r 0%nat) key ks)).
  { intros j u Hu. pose proof (link_inv_holds _ _ _ _ _ _ _ _ Hwf Hks Hu) as H. destruct (0 <? j)%nat; [by right|by left]. }
  rewrite (surjective_pairing (NewNode (Some key) h s0)). change (NewNode (Some key) h s0).1 with (length (nodes s0)). rewrite Hn.
  destruct (link_levels_ok s levels Hwf key Hkey Hfresh r h (proj2 Hh) (fun i Hi => proj1 (Hr h i (conj Hi (proj2 Hh))))
    (fun u => holds u (levels 0%nat) ks \/ holds u (insert_at (r 0%nat) (length (nodes s)) (levels 0%nat)) (insert_at (r 0%nat) key ks))
    (raise_prev (max_height_ s) h prev) h Hview 0%nat (NewNode (Some key) h s0).2 ((NewNode (Some key) h s0).2 :: seen0))
    as (t & seen & E & Ht & Hseen & Hgrow).
  - done.
  - intros i Hi. apply Hr. lia.
  - done.
  - constructor; [by apply (Hview 0%nat)|]. subst seen0.
    assert (Hs : holds s (levels 0%nat) ks) by by exists levels.
    destruct (max_height_ s <? h)%nat; [|by constructor; [left|]].
    constructor; [left|by constructor; [left|]]. destruct (raised_wf s s0 levels Hwf Hn Hm0) as [Hw0 Hk].
    exists levels. split; [done|]. split; [done|]. eapply Forall2_impl; [exact Hks|]. intros x k Hx. by rewrite Hk.
  - by apply (start_growing s s0 levels key r h).
  - exists t, seen. split; [exact E|]. split; [|done].
    pose proof (link_inv_holds _ _ _ _ _ _ _ _ Hwf Hks Ht) as H. rewrite (proj2 (Nat.ltb_lt 0 h)) in H by lia. exact H.
Qed.
End Proof.
