(* ===== verification/SkipListSet.v ===== *)
(** * What the skip list does to the sorted list of its keys

    [holds s ns ks]: the list has the keys [ks], in order, at the nodes [ns].
    Every operation is described by [ks] and [ns] alone. *)
From Stdlib Require Import Sorting.Sorted.
From S2P Require Import Prelude Order SkipList SkipListProof.

Section Set_.
Context {K : Type} (compare_ : K -> K -> outcome Z) (order : K -> K -> comparison) {Horder : TotalOrder order}.
Context (valid : K -> Prop).
Context (Hcompare : forall a b, valid a -> valid b -> exists r, compare_ a b = Ok r /\ (r ?= 0) = order a b).

Definition less (a b : K) : bool := match order a b with Lt => true | _ => false end.
Definition same (a b : K) : bool := match order a b with Eq => true | _ => false end.

(** How many of the keys are smaller. *)
Definition place (key : K) (ks : list K) : nat := length (List.filter (fun k => less k key) ks).

Definition sorted (ks : list K) : Prop := StronglySorted (fun a b => order a b = Lt) ks.

(** Insertion in a sorted list, and membership. *)
Fixpoint insert_key (key : K) (ks : list K) : list K :=
  match ks with
  | [] => [key]
  | k :: ks' => if less k key then k :: insert_key key ks' else key :: ks
  end.
Definition mem (key : K) (ks : list K) : bool := existsb (same key) ks.

(** The keys from the first one that is not smaller. *)
Fixpoint not_before (key : K) (ks : list K) : list K :=
  match ks with
  | [] => []
  | k :: ks' => if less k key then not_before key ks' else ks
  end.

Lemma place_zero x key ks : Forall (fun k => order x k = Lt) ks -> order x key <> Lt -> place key ks = 0%nat.
Proof.
  intros Hf Hx. unfold place. rewrite filter_none; [done|]. eapply Forall_impl; [exact Hf|]. cbn.
  intros k Hk. unfold less. destruct (order k key) eqn:E; [done| |done].
  by destruct (Hx (order_lt_trans order _ _ _ Hk E)).
Qed.

Lemma place_cons k key ks : sorted (k :: ks) ->
  place key (k :: ks) = if less k key then S (place key ks) else 0%nat.
Proof.
  intros Hs. inversion Hs as [|? ? Hs' Hf]; subst. unfold place. cbn. destruct (less k key) eqn:E; [done|].
  apply (place_zero k key ks Hf). unfold less in E. by destruct (order k key).
Qed.

Lemma insert_key_at key ks : sorted ks -> insert_at (place key ks) key ks = insert_key key ks.
Proof.
  induction ks as [|k ks IH]; [done|]. intros Hs. rewrite place_cons by done. cbn [insert_key].
  destruct (less k key); [|done]. inversion Hs; subst. rewrite <- IH by done. done.
Qed.

Lemma drop_place key ks : sorted ks -> drop (place key ks) ks = not_before key ks.
Proof.
  induction ks as [|k ks IH]; [done|]. intros Hs. rewrite place_cons by done. cbn [not_before].
  destruct (less k key); [|done]. inversion Hs; subst. by apply IH.
Qed.

Lemma mem_at_place key ks : sorted ks ->
  mem key ks = match ks !! place key ks with Some k => same key k | None => false end.
Proof.
  induction ks as [|k ks IH]; [done|]. intros Hs. rewrite place_cons by done. unfold mem. cbn [existsb].
  unfold less. destruct (order k key) eqn:E; inversion Hs as [|? ? Hs' Hf]; subst.
  - cbn. unfold same at 1 3. by rewrite order_antisym, E.
  - unfold same at 1. rewrite order_antisym, E. exact (IH Hs').
  - cbn. replace (existsb (same key) ks) with false; [by rewrite orb_false_r|]. symmetry.
    apply not_true_is_false. intros (k' & Hin%list_elem_of_In & Hk')%existsb_exists.
    rewrite Forall_forall in Hf. specialize (Hf k' Hin).
    unfold same in Hk'. rewrite (order_lt_trans order key k k') in Hk'; [done| |done]. by apply (order_gt order).
Qed.

(** ** Sorting *)
Definition sort (keys : list K) : list K := foldl (fun ks key => insert_key key ks) [] keys.

Lemma sort_snoc ks key : sort (ks ++ [key]) = insert_key key (sort ks).
Proof. unfold sort. by rewrite foldl_app. Qed.

Lemma mem_insert k key ks : mem k (insert_key key ks) = same k key || mem k ks.
Proof.
  unfold mem. induction ks as [|k' ks IH]; [done|]. cbn [insert_key]. destruct (less k' key); [|done].
  cbn [existsb]. rewrite IH. by destruct (same k k'), (same k key).
Qed.

Lemma length_sort keys : length (sort keys) = length keys.
Proof.
  induction keys as [|key keys IH] using rev_ind; [done|]. rewrite sort_snoc, length_app, <- IH. clear IH.
  induction (sort keys) as [|k ks IH]; [done|]. cbn. destruct (less k key); cbn; [|lia]. rewrite IH. cbn. lia.
Qed.

Lemma same_sym a b : same a b = same b a.
Proof. unfold same. rewrite (order_antisym b a). by destruct (order b a). Qed.

Lemma elem_of_insert x key ks : x ∈ insert_key key ks <-> x = key \/ x ∈ ks.
Proof.
  induction ks as [|k ks IH]; cbn [insert_key]; [rewrite list_elem_of_singleton, elem_of_nil; tauto|].
  destruct (less k key); rewrite ?elem_of_cons; [rewrite IH|]; tauto.
Qed.

Lemma elem_of_sort x keys : x ∈ sort keys <-> x ∈ keys.
Proof.
  induction keys as [|key keys IH] using rev_ind; [done|]. rewrite sort_snoc, elem_of_insert, IH, elem_of_app, list_elem_of_singleton.
  tauto.
Qed.

(** What is at the place of a key. *)
Lemma at_place key ks : sorted ks ->
  match ks !! place key ks with
  | Some k => k ∈ ks /\ order k key <> Lt /\ forall k', k' ∈ ks -> order k' key <> Lt -> order k k' <> Gt
  | None => forall k', k' ∈ ks -> order k' key = Lt
  end.
Proof.
  induction ks as [|k ks IH]; [by intros _ k' H%elem_of_nil|]. intros Hs. rewrite place_cons by done.
  inversion Hs as [|? ? Hs' Hf]; subst. specialize (IH Hs'). unfold less. destruct (order k key) eqn:E.
  2:{ change ((k :: ks) !! S (place key ks)) with (ks !! place key ks). destruct (ks !! place key ks) as [k0|].
      - destruct IH as (Hin & Hge & Hmin). split; [by apply elem_of_cons; right|]. split; [done|].
        intros k' [->|Hk']%elem_of_cons Hnl; [done|by apply Hmin].
      - intros k' [->|Hk']%elem_of_cons; [done|by apply IH]. }
  all: cbn; split; [apply elem_of_cons; by left|]; split; [by rewrite E|].
  all: intros k' [->|Hk']%elem_of_cons _; [by rewrite (order_refl order)|].
  all: rewrite Forall_forall in Hf; by rewrite (Hf k' Hk').
Qed.

Lemma place_unique key ks i : sorted ks -> (i <= length ks)%nat ->
  (forall m k, (m < i)%nat -> ks !! m = Some k -> order k key = Lt) ->
  (forall k, ks !! i = Some k -> order k key <> Lt) -> place key ks = i.
Proof.
  revert i. induction ks as [|k ks IH]; intros i Hs Hi Hlo Hhi; [cbn in *; lia|]. rewrite place_cons by done. unfold less.
  inversion Hs; subst. destruct i as [|i].
  - specialize (Hhi k eq_refl). by destruct (order k key).
  - rewrite (Hlo 0%nat k ltac:(lia) eq_refl). f_equal. apply IH; [done|cbn in Hi; lia| |done].
    intros m k' Hm Hk'. apply (Hlo (S m) k'); [lia|done].
Qed.

(** ** The list and its keys *)
Lemma holds_keys s ns ks : holds order valid s ns ks -> sorted ks /\ Forall valid ks /\ length ns = length ks.
Proof.
  intros (levels & Hwf & <- & Hks). split; [|split; [|by eapply Forall2_length]].
  - pose proof (wf_sorted _ _ _ _ Hwf 0%nat) as Hs. clear -Hs Hks. induction Hks as [|x k ns ks Hx Hks IH]; [constructor|].
    inversion Hs as [|? ? Hs' Hf]; subst. constructor; [by apply IH|].
    clear -Hf Hks Hx. induction Hks as [|y k' ns ks Hy Hks IH]; [constructor|].
    inversion Hf as [|? ? (a & b & Ha & Hb & E) Hf']; subst. constructor; [congruence|by apply IH].
  - assert (Hv : forall x, x ∈ levels 0%nat -> exists k, key_of s x = Some k /\ valid k) by apply (wf_key _ _ _ _ Hwf 0%nat).
    clear -Hv Hks. induction Hks as [|x k ns ks Hx Hks IH]; [constructor|]. constructor.
    + destruct (Hv x) as (k' & Hk & Hv'); [apply elem_of_cons; by left|congruence].
    + apply IH. intros y Hy. apply Hv, elem_of_cons. by right.
Qed.

Lemma rank_place s key ns ks : Forall2 (fun x k => key_of s x = Some k) ns ks ->
  rank order s key ns = place key ks.
Proof.
  unfold rank, place. induction 1 as [|x k ns ks Hx _ IH]; [done|]. cbn. unfold before at 1. rewrite Hx.
  unfold less. by destruct (order k key); cbn; rewrite IH.
Qed.

Lemma holds_key_at s ns ks i x : holds order valid s ns ks -> ns !! i = Some x ->
  exists k, ks !! i = Some k /\ get_key x s = Ok k /\ valid k.
Proof.
  intros (levels & Hwf & <- & Hks) Hx. rewrite Forall2_lookup in Hks. specialize (Hks i). rewrite Hx in Hks.
  inversion Hks as [? k Hk E1 E2|]; subst. exists k. split; [done|]. split; [by apply get_key_ok|].
  destruct (wf_key _ _ _ _ Hwf 0%nat x) as (k' & Hk' & Hv); [by eapply list_elem_of_lookup_2|congruence].
Qed.

(** ** Iterators *)
Lemma place_seek_ok s ns ks key : holds order valid s ns ks -> valid key ->
  iter_Seek compare_ key s = Ok (ns !! place key ks).
Proof.
  intros (levels & Hwf & <- & Hks) Hkey. unfold iter_Seek.
  destruct (FindGreaterOrEqual_ok compare_ order valid Hcompare s levels Hwf key Hkey) as (r & prev & -> & Hsp & Hr & _).
  cbn [obind]. rewrite <- (rank_place s key (levels 0%nat) ks Hks). by rewrite (splits_rank _ _ _ _ _ Hsp Hr).
Qed.

Lemma first_ok s ns ks : holds order valid s ns ks -> iter_SeekToFirst s = Ok (ns !! 0%nat).
Proof.
  intros (levels & Hwf & <- & _). apply (wf_links _ _ _ _ Hwf 0%nat 0%nat 0%nat); [unfold kMaxHeight; lia|done].
Qed.

Lemma next_ok s ns ks i x : holds order valid s ns ks -> ns !! i = Some x -> iter_Next (Some x) s = Ok (ns !! S i).
Proof.
  intros (levels & Hwf & <- & _) Hx. apply (wf_links _ _ _ _ Hwf 0%nat (S i) x); [unfold kMaxHeight; lia|done].
Qed.

Lemma not_head s ns ks i x : holds order valid s ns ks -> ns !! i = Some x -> unless_head x = Some x.
Proof.
  intros (levels & Hwf & <- & Hks) Hx. unfold unless_head. destruct (x =? head_)%nat eqn:E; [|done].
  apply Nat.eqb_eq in E. change (x = 0%nat) in E. subst x.
  destruct (wf_key _ _ _ _ Hwf 0%nat 0%nat) as (k & Hk & _); [by eapply list_elem_of_lookup_2|].
  by rewrite (head_key _ _ _ _ Hwf) in Hk.
Qed.

Lemma last_ok s ns ks : holds order valid s ns ks -> iter_SeekToLast s = Ok (last ns).
Proof.
  intros Hh. destruct (id Hh) as (levels & Hwf & Hns & _). unfold iter_SeekToLast.
  destruct (FindLast_ok order valid s levels Hwf) as (y & -> & Hy). cbn [obind]. rewrite Hns in Hy.
  rewrite last_cons in Hy. destruct (last ns) as [z|] eqn:Ez; injection Hy as <-; [|done].
  rewrite last_lookup in Ez. by rewrite (not_head s ns ks _ _ Hh Ez).
Qed.

(** Stepping back searches again from the head. *)
Lemma sorted_place ks i k : sorted ks -> ks !! i = Some k -> place k ks = i.
Proof.
  revert i. induction ks as [|k' ks IH]; intros i Hs Hi; [done|]. rewrite place_cons by done.
  inversion Hs as [|? ? Hs' Hf]; subst. unfold less. destruct i as [|i].
  - injection Hi as ->. by rewrite (order_refl order).
  - change (ks !! i = Some k) in Hi. rewrite Forall_forall in Hf.
    rewrite (Hf k) by (by eapply list_elem_of_lookup_2). by rewrite (IH i Hs' Hi).
Qed.

Lemma prev_ok s ns ks i x : holds order valid s ns ks -> ns !! i = Some x ->
  iter_Prev compare_ (Some x) s = Ok (match i with O => None | S j => ns !! j end).
Proof.
  intros Hh Hx. destruct (holds_key_at _ _ _ _ _ Hh Hx) as (k & Hk & Eg & Hv). unfold iter_Prev. rewrite Eg. cbn [obind].
  destruct (holds_keys _ _ _ Hh) as (Hs & _ & _). destruct (id Hh) as (levels & Hwf & Hns & Hks).
  destruct (FindLessThan_ok compare_ order valid Hcompare s levels Hwf k Hv) as (r & y & -> & Hy & Hsp & Hr). cbn [obind].
  pose proof (splits_rank _ _ _ _ _ Hsp Hr) as Erank. subst ns.
  rewrite (rank_place s k _ ks Hks), (sorted_place ks i k Hs Hk) in Erank. subst r.
  destruct i as [|j]; [by injection Hy as <-|]. change (levels 0%nat !! j = Some y) in Hy.
  rewrite (not_head s _ ks j y Hh Hy). by rewrite Hy.
Qed.

(** ** Membership and insertion *)
Lemma contains_ok s ns ks key : holds order valid s ns ks -> valid key ->
  Contains compare_ key s = Ok (mem key ks).
Proof.
  intros Hh Hkey. destruct (holds_keys _ _ _ Hh) as (Hs & _ & Hlen). unfold Contains.
  pose proof (place_seek_ok _ _ _ key Hh Hkey) as E. unfold iter_Seek in E.
  destruct (FindGreaterOrEqual compare_ key s) as [[x prev]| |]; cbn [obind] in *; try done.
  injection E as ->. rewrite mem_at_place by done. destruct (ns !! place key ks) as [y|] eqn:Ey.
  - destruct (holds_key_at _ _ _ _ _ Hh Ey) as (k & -> & -> & Hv). cbn [obind].
    by apply (Equal_ok compare_ order valid Hcompare).
  - apply lookup_ge_None in Ey. rewrite lookup_ge_None_2 by lia. done.
Qed.

Lemma mem_fresh s levels ks key : Forall2 (fun x k => key_of s x = Some k) (levels 0%nat) ks ->
  mem key ks = false -> fresh_key order s levels key.
Proof.
  intros Hks Hm x k (i & Hi)%list_elem_of_lookup_1 Hk E. rewrite Forall2_lookup in Hks. specialize (Hks i).
  rewrite Hi in Hks. inversion Hks as [? k' Hk' E1 E2|]; subst.
  assert (mem key ks = true); [|congruence]. unfold mem. apply existsb_exists. exists k'. split.
  - apply list_elem_of_In. by eapply list_elem_of_lookup_2.
  - unfold same. assert (k' = k) as -> by congruence. by rewrite order_antisym, E.
Qed.

(** The states the other threads can see hold the old or the new keys. *)
Lemma insert_ok s ns ks key : holds order valid s ns ks -> valid key -> mem key ks = false ->
  let ns' := insert_at (place key ks) (length (nodes s)) ns in
  exists t seen, insert_traced compare_ key s = Ok (t, seen) /\ holds order valid t ns' (insert_key key ks) /\
    Forall (fun u => holds order valid u ns ks \/ holds order valid u ns' (insert_key key ks)) seen /\
    growing order valid s t seen.
Proof.
  intros Hh Hkey Hm ns'. destruct (holds_keys _ _ _ Hh) as (Hs & _ & _). destruct (id Hh) as (levels & Hwf & Hns & Hks).
  subst ns. pose proof (insert_traced_ok compare_ order valid Hcompare s levels key ks Hwf Hks Hkey
    (mem_fresh _ _ _ _ Hks Hm)) as (_ & _ & H). rewrite (rank_place s key _ ks Hks), (insert_key_at key ks Hs) in H. exact H.
Qed.

(** A key that compares equal to one in the list stops at the assertion. *)
Lemma insert_duplicate s ns ks key : holds order valid s ns ks -> valid key -> mem key ks = true ->
  Insert compare_ key s = UB BadAssert.
Proof.
  intros Hh Hkey Hm. destruct (holds_keys _ _ _ Hh) as (Hs & _ & Hlen). unfold Insert, insert_traced.
  pose proof (place_seek_ok _ _ _ key Hh Hkey) as E. unfold iter_Seek in E.
  destruct (FindGreaterOrEqual compare_ key s) as [[x prev]| |]; cbn [obind] in *; try done.
  injection E as ->. rewrite mem_at_place in Hm by done. destruct (ns !! place key ks) as [y|] eqn:Ey.
  - destruct (holds_key_at _ _ _ _ _ Hh Ey) as (k & Hk & -> & Hv). cbn [obind]. rewrite Hk in Hm.
    rewrite (Equal_ok compare_ order valid Hcompare) by done. cbn [obind]. unfold same in Hm. by destruct (order key k).
  - apply lookup_ge_None in Ey. rewrite lookup_ge_None_2 in Hm by lia. done.
Qed.

(** ** An empty list *)
Lemma empty_ok : exists s, @new_SkipList K = Ok s /\ holds order valid s [] [].
Proof.
  eexists. split; [vm_compute; reflexivity|]. exists (fun _ => []). split; [|done]. split; cbn; try done.
  - by eexists.
  - unfold kMaxHeight. lia.
  - intros i x Hx. by apply elem_of_nil in Hx.
  - intros i. constructor.
  - intros i r x Hi Hx. destruct r as [|r]; [|done]. injection Hx as <-. unfold kMaxHeight in Hi.
    do 12 (destruct i as [|i]; [done|]). lia.
Qed.
End Set_.
