(* ===== verification/SkipListSpec.v ===== *)
(** * Searching the skip list while it grows

    A reader takes no lock: turn [t] of its loop sees the state [view t], and
    the writer may have stored links in between. *)
From Stdlib Require Import Sorting.Sorted.
From S2P Require Import Prelude Order SkipList SkipListProof SkipListSet.

Section Reader.
Context {K : Type} (compare_ : K -> K -> outcome Z) (order : K -> K -> comparison) {Horder : TotalOrder order}.
Context (valid : K -> Prop).
Context (Hcompare : forall a b, valid a -> valid b -> exists r, compare_ a b = Ok r /\ (r ?= 0) = order a b).
Context (key : K) (Hkey : valid key).

Lemma extends_node s levels s' levels' i x : extends order valid s levels s' levels' -> x ∈ 0%nat :: levels i ->
  x ∈ 0%nat :: levels' i /\ key_of s' x = key_of s x.
Proof.
  intros (Hs & Hs' & H) [->|Hx]%elem_of_cons; split.
  - apply elem_of_cons. by left.
  - by rewrite (head_key _ _ _ _ Hs), (head_key _ _ _ _ Hs').
  - apply elem_of_cons. right. by apply H.
  - by apply (H i).
Qed.

Lemma before_same s s' x : key_of s' x = key_of s x -> before order s' key x = before order s key x.
Proof. unfold before. by intros ->. Qed.

Section View.
Context (view : nat -> SkipList K) (final : SkipList K) (last_levels : nat -> list nat).
Context (Hstep : forall t, grows order valid (view t) (view (S t))).
Context (Hfinal : forall t, grows order valid (view t) final) (Hlast : wf order valid final last_levels).

(** What lies ahead of a node shrinks with every step to the right, whatever
    was inserted meanwhile. *)
Lemma ahead_final t levels i r x y : wf order valid (view t) levels ->
  (0%nat :: levels i) !! r = Some x -> levels i !! r = Some y -> before order (view t) key y = true ->
  (length (ahead order final last_levels (before order final key) y) <
   length (ahead order final last_levels (before order final key) x))%nat.
Proof.
  intros Hwf Hx Hy Hb. destruct (grows_intro order valid _ _ _ Hwf (Hfinal t)) as (l & Hl & Hext).
  assert (Hexts : extends order valid (view t) levels final l) by done.
  destruct (extends_node _ _ _ _ i x Hexts) as [_ Ex]; [by eapply list_elem_of_lookup_2|].
  destruct (Hext i y) as [Hyl Ey]; [by eapply list_elem_of_lookup_2|].
  apply (ahead_right order valid final last_levels Hlast).
  - destruct (level_right order valid _ _ Hwf i r x y Hx Hy) as [E|(a & b & Ha & Hb' & E)]; [left; congruence|].
    right. exists a, b. by rewrite Ex, Ey.
  - rewrite (wf_unique order valid final last_levels l 0 Hlast Hl). by apply (level_zero order valid final l Hl i).
  - by rewrite (before_same (view t) final y Ey).
Qed.

(** The answer is that of a search of one of the states that were seen. *)
Lemma find_ge_while_ok fuel : forall t levels level x prev,
  wf order valid (view t) levels -> (level < kMaxHeight)%nat -> x ∈ 0%nat :: levels level ->
  before order (view t) key x = true ->
  (length (ahead order final last_levels (before order final key) x) + level < fuel)%nat ->
  exists k levels' r prev', find_ge compare_ fuel key view t x level prev = Ok (levels' 0%nat !! r, prev') /\
    wf order valid (view k) levels' /\ splits order (view k) key (levels' 0%nat) r /\ (r <= length (levels' 0%nat))%nat.
Proof.
  induction fuel as [|n IH]; intros t levels level x prev Hwf Hl Hx Hb Hfuel; [lia|].
  apply list_elem_of_lookup_1 in Hx as [r Hr]. cbn [find_ge].
  rewrite (look_ok compare_ order valid Hcompare (view t) levels Hwf key Hkey level r x Hl Hr). cbn [obind].
  destruct (grows_intro order valid _ _ _ Hwf (Hstep t)) as (levels2 & Hwf2 & Hext).
  assert (Hexts : extends order valid (view t) levels (view (S t)) levels2) by done.
  assert (Hstay : forall z i, z ∈ 0%nat :: levels i -> before order (view t) key z = true ->
    z ∈ 0%nat :: levels2 i /\ before order (view (S t)) key z = true).
  { intros z i Hz Hbz. destruct (extends_node _ _ _ _ i z Hexts Hz) as [Hz2 Ez].
    split; [done|]. by rewrite (before_same _ _ z Ez). }
  destruct (match levels level !! r with Some y => before order (view t) key y | None => false end) eqn:Eafter.
  - destruct (levels level !! r) as [y|] eqn:Ey; [|done].
    pose proof (ahead_final t levels level r x y Hwf Hr Ey Eafter).
    destruct (Hstay y level) as [Hy2 Hb2]; [apply elem_of_cons; right; by eapply list_elem_of_lookup_2|done|].
    apply (IH (S t) levels2); [done..|lia].
  - assert (Hlen : (r <= length (levels level))%nat) by (apply lookup_lt_Some in Hr; simpl in Hr; lia).
    destruct level as [|level].
    + exists t, levels, r, (<[0%nat:=Some x]> prev). split; [done|]. split; [done|]. split; [|done].
      apply (stop_splits order valid (view t) levels Hwf key 0 r x Hr Hb). intros y Hy. by rewrite Hy in Eafter.
    + destruct (Hstay x level) as [Hx2 Hb2]; [|done|apply (IH (S t) levels2); [done|lia|done|done|lia]].
      apply (level_down order valid (view t) levels Hwf). by eapply list_elem_of_lookup_2.
Qed.

Lemma FindGreaterOrEqual_while_ok fuel : (length (nodes final) + kMaxHeight < fuel)%nat ->
  exists k p prev, FindGreaterOrEqual_while compare_ fuel key view = Ok (p, prev) /\
    iter_Seek compare_ key (view k) = Ok p.
Proof.
  intros Hfuel. destruct (Hstep 0) as (levels & _ & (Hwf & _)).
  pose proof (wf_max _ _ _ _ Hwf) as H0.
  pose proof (ahead_length order valid final last_levels Hlast (before order final key) 0) as Hf.
  destruct (find_ge_while_ok fuel 0 levels (max_height_ (view 0) - 1) 0 no_prev) as (k & l & r & prev & E & Hk & Hsp & Hr);
    [done|lia|apply head_first|exact (head_before order valid _ _ Hwf key)|lia|].
  exists k, (l 0%nat !! r), prev. split; [exact E|]. unfold iter_Seek.
  destruct (FindGreaterOrEqual_ok compare_ order valid Hcompare (view k) l Hk key Hkey) as (r' & prev' & -> & Hsp' & Hr' & _).
  cbn [obind]. do 2 f_equal. rewrite <- (splits_rank _ _ _ _ _ Hsp Hr). symmetry. by apply splits_rank.
Qed.
End View.
End Reader.

(** ** What the skip list guarantees

    It is a sorted set whose readers need no lock. *)
Section Spec.
Context {K : Type} (compare_ : K -> K -> outcome Z) (order : K -> K -> comparison) {Horder : TotalOrder order}.
Context (valid : K -> Prop).

(** The comparison decides the order. *)
Definition decides : Prop :=
  forall a b, valid a -> valid b -> exists r, compare_ a b = Ok r /\ (r ?= 0) = order a b.

(** No key of the list compares equal to an earlier one. *)
Fixpoint distinct (ks : list K) : bool :=
  match ks with
  | [] => true
  | k :: ks' => negb (mem order k ks') && distinct ks'
  end.

(** The insertions one after the other, and all that can be seen meanwhile. *)
Fixpoint insert_all (keys : list K) (s : SkipList K) (seen : list (SkipList K)) :
    outcome (SkipList K * list (SkipList K)) :=
  match keys with
  | [] => Ok (s, seen)
  | key :: keys' =>
      let! (s', new) := insert_traced compare_ key s in
      insert_all keys' s' (new ++ seen)
  end.

(** The keys an iterator yields from a node on, in either direction. *)
Fixpoint walk (fuel : nat) (step : ptr -> outcome ptr) (p : ptr) (s : SkipList K) : outcome (list K) :=
  match fuel with
  | O => Timeout
  | S n =>
      if iter_Valid p then
        let! k := iter_key p s in
        let! p := step p in
        let! ks := walk n step p s in
        Ok (k :: ks)
      else Ok []
  end.

Section Laws.
Context (Hcompare : decides).

Lemma walk_forward s ns ks i fuel : holds order valid s ns ks -> (i <= length ns)%nat -> (length ns < fuel + i)%nat ->
  walk fuel (fun p => iter_Next p s) (ns !! i) s = Ok (drop i ks).
Proof.
  intros Hh. destruct (holds_keys order valid s ns ks Hh) as (_ & _ & Hlen). revert i.
  induction fuel as [|n IH]; intros i Hi Hfuel; [lia|]. cbn [walk].
  destruct (ns !! i) as [x|] eqn:Ex.
  - destruct (holds_key_at order valid s ns ks i x Hh Ex) as (k & Hk & Eg & _). cbn [iter_Valid iter_key]. rewrite Eg. cbn [obind].
    rewrite (next_ok order valid s ns ks i x Hh Ex). cbn [obind]. apply lookup_lt_Some in Ex.
    rewrite IH by lia. cbn [obind]. by rewrite (drop_S ks k i Hk).
  - cbn. apply lookup_ge_None in Ex. by rewrite drop_ge by lia.
Qed.

Lemma walk_backward s ns ks i fuel : holds order valid s ns ks -> (i <= length ns)%nat -> (i < fuel)%nat ->
  walk fuel (fun p => iter_Prev compare_ p s) (match i with O => None | S j => ns !! j end) s = Ok (rev (take i ks)).
Proof.
  intros Hh. destruct (holds_keys order valid s ns ks Hh) as (_ & _ & Hlen). revert i.
  induction fuel as [|n IH]; intros i Hi Hfuel; [lia|]. cbn [walk]. destruct i as [|j]; [done|].
  destruct (lookup_lt_is_Some_2 ns j Hi) as [x Ex]. rewrite Ex.
  destruct (holds_key_at order valid s ns ks j x Hh Ex) as (k & Hk & Eg & _). cbn [iter_Valid iter_key]. rewrite Eg. cbn [obind].
  rewrite (prev_ok compare_ order valid Hcompare s ns ks j x Hh Ex). cbn [obind].
  rewrite IH by lia. cbn [obind]. by rewrite (take_S_r ks j k Hk), rev_app_distr.
Qed.

Lemma mem_fresh_next key keys ks k : mem order key keys = false -> k ∈ keys -> mem order k ks = false ->
  mem order k (insert_key order key ks) = false.
Proof.
  intros Hkey Hk Hm. rewrite mem_insert, Hm, orb_false_r, (same_sym order). destruct (same order key k) eqn:E; [|done].
  assert (mem order key keys = true); [|congruence]. apply existsb_exists. exists k. by rewrite <- list_elem_of_In.
Qed.

(** All the states seen have the keys of some of the insertions, and grow. *)
Lemma insert_all_ok : forall keys s0 s seen ns done_ks,
  holds order valid s ns (sort order done_ks) -> Forall valid keys ->
  (forall k, k ∈ keys -> mem order k (sort order done_ks) = false) -> distinct keys = true ->
  growing order valid s0 s seen ->
  Forall (fun u => exists m ns', holds order valid u ns' (sort order (take m (done_ks ++ keys)))) seen ->
  exists t seen' ns', insert_all keys s seen = Ok (t, seen') /\
    holds order valid t ns' (sort order (done_ks ++ keys)) /\ growing order valid s0 t seen' /\
    Forall (fun u => exists m ns', holds order valid u ns' (sort order (take m (done_ks ++ keys)))) seen'.
Proof.
  induction keys as [|key keys IH]; intros s0 s seen ns done_ks Hh Hv Hfresh Hd Hg Hf.
  - rewrite app_nil_r in *. by exists s, seen, ns.
  - inversion Hv as [|? ? Hkey Hv']; subst. cbn [distinct] in Hd. apply andb_true_iff in Hd as [Hnew Hd].
    apply negb_true_iff in Hnew.
    pose proof (insert_ok compare_ order valid Hcompare s ns (sort order done_ks) key Hh Hkey
      (Hfresh key ltac:(apply elem_of_cons; by left))) as (t & new & E & Ht & Hf' & Hg').
    cbn [insert_all]. rewrite E. cbn [obind]. rewrite <- sort_snoc in Ht, Hf'.
    replace (done_ks ++ key :: keys) with ((done_ks ++ [key]) ++ keys) in Hf |- * by by rewrite <- app_assoc.
    apply (IH s0 t _ _ (done_ks ++ [key]) Ht); [done| |done|by apply (growing_app order valid s0 s)|].
    + intros k Hk. rewrite sort_snoc. apply (mem_fresh_next key keys); [done|done|].
      apply Hfresh, elem_of_cons. by right.
    + apply Forall_app. split; [|done]. eapply Forall_impl; [exact Hf'|]. intros u [Hu|Hu].
      * exists (length done_ks), ns. by rewrite <- app_assoc, take_app_length.
      * exists (length (done_ks ++ [key])). eexists. rewrite take_app_length. exact Hu.
Qed.

(** The run from an empty list. *)
Lemma insertions keys : Forall valid keys -> distinct keys = true ->
  exists s0 t seen ns, @new_SkipList K = Ok s0 /\ insert_all keys s0 [] = Ok (t, seen) /\
    holds order valid t ns (sort order keys) /\ growing order valid s0 t seen /\
    Forall (fun u => exists m ns', holds order valid u ns' (sort order (take m keys))) seen.
Proof.
  intros Hv Hd. destruct (@empty_ok K order valid) as (s0 & E0 & H0).
  assert (Hg : growing order valid s0 s0 []).
  { split; [constructor|]. split; [constructor|]. destruct H0 as (l & Hwf & _). by apply (grows_self order valid s0 l). }
  destruct (insert_all_ok keys s0 s0 [] [] [] H0 Hv (fun _ _ => eq_refl) Hd Hg (Forall_nil_2 _)) as (t & seen & ns & E & Ht & Hgt & Hf).
  by exists s0, t, seen, ns.
Qed.
End Laws.

(** C13: the skip list is a sorted set.  Distinct keys inserted in any order
    into a new list succeed; walking forward from the first node yields them
    sorted, walking backward from the last in reverse, walking from where a
    seek stops those that are not before its target; membership is exact; and
    a second insertion of a key stops at the assertion. *)
Theorem skiplist_sorted_set keys :
  decides -> Forall valid keys -> distinct keys = true ->
  exists s0 t seen, @new_SkipList K = Ok s0 /\ insert_all keys s0 [] = Ok (t, seen) /\
    let fuel := S (length keys) in
    (let! p := iter_SeekToFirst t in walk fuel (fun p => iter_Next p t) p t) = Ok (sort order keys) /\
    (let! p := iter_SeekToLast t in walk fuel (fun p => iter_Prev compare_ p t) p t) = Ok (rev (sort order keys)) /\
    forall key, valid key ->
      (let! p := iter_Seek compare_ key t in walk fuel (fun p => iter_Next p t) p t) = Ok (not_before order key (sort order keys)) /\
      Contains compare_ key t = Ok (mem order key (sort order keys)) /\
      (mem order key (sort order keys) = true -> Insert compare_ key t = UB BadAssert).
Proof.
  intros Hc Hv Hd. destruct (insertions Hc keys Hv Hd) as (s0 & t & seen & ns & E0 & E & Ht & _).
  destruct (holds_keys order valid t ns _ Ht) as (Hs & _ & Hlen).
  exists s0, t, seen. split; [done|]. split; [done|]. cbn zeta.
  assert (Hfuel : length ns = length keys) by (rewrite Hlen; apply length_sort).
  split; [|split].
  - rewrite (first_ok order valid t ns _ Ht). cbn [obind]. by rewrite (walk_forward t ns _ 0 _ Ht) by lia.
  - rewrite (last_ok order valid t ns _ Ht). cbn [obind].
    pose proof (walk_backward Hc t ns _ (length ns) (S (length keys)) Ht ltac:(lia) ltac:(lia)) as Hw.
    rewrite take_ge in Hw by lia. rewrite <- Hw. rewrite last_lookup. by destruct ns.
  - intros key Hkey. split; [|split].
    + rewrite (place_seek_ok compare_ order valid Hc t ns _ key Ht Hkey). cbn [obind].
      rewrite (walk_forward t ns _ _ _ Ht); [by rewrite drop_place| |lia].
      rewrite Hlen. apply filter_le.
    + by apply (contains_ok compare_ order valid Hc t ns).
    + by apply (insert_duplicate compare_ order valid Hc t ns).
Qed.

(** C12: readers need no lock.  Whatever part of the insertions each turn of a
    search sees, as long as it never goes back in time, the search returns,
    and its answer is that of an atomic search: in the state [view n] of one
    of its turns the list has some of the insertions, [take m keys], and the
    keys from the answer on are those of them that are not before the
    target. *)
Theorem skiplist_lock_free_read keys target :
  decides -> Forall valid keys -> distinct keys = true -> valid target ->
  exists s0 t seen, @new_SkipList K = Ok s0 /\ insert_all keys s0 [] = Ok (t, seen) /\
    forall (view : nat -> SkipList K) (place_of : nat -> nat) fuel,
      (forall n, seen !! place_of n = Some (view n)) -> (forall n, (place_of (S n) <= place_of n)%nat) ->
      (length (nodes t) + kMaxHeight < fuel)%nat ->
      exists p prev n m, FindGreaterOrEqual_while compare_ fuel target view = Ok (p, prev) /\
        let next := fun p => iter_Next p (view n) in
        (let! first := iter_SeekToFirst (view n) in walk (S (length keys)) next first (view n)) = Ok (sort order (take m keys)) /\
        walk (S (length keys)) next p (view n) = Ok (not_before order target (sort order (take m keys))).
Proof.
  intros Hc Hv Hd Htarget. destruct (insertions Hc keys Hv Hd) as (s0 & t & seen & ns & E0 & E & Ht & (Hsorted & Hgrow & _) & Hseen).
  exists s0, t, seen. split; [done|]. split; [done|]. intros view place_of fuel Hview Hplace Hfuel.
  rewrite Forall_lookup in Hgrow, Hseen. destruct (id Ht) as (last_levels & Hlast & _).
  destruct (FindGreaterOrEqual_while_ok compare_ order valid Hc target Htarget view t last_levels) with (fuel := fuel)
    as (n & p & prev & Ef & Es).
  - intros n. destruct (decide (place_of (S n) = place_of n)) as [Eq|Hne].
    + assert (view (S n) = view n) as ->; [pose proof (Hview (S n)); pose proof (Hview n); congruence|].
      destruct (Hgrow _ _ (Hview n)) as [(l & l' & _ & Hwf & _) _]. by apply (grows_self order valid _ l').
    + apply (sorted_lookup _ seen (place_of (S n)) (place_of n) _ _ Hsorted (Hview _) (Hview _)).
      pose proof (Hplace n). lia.
  - intros n. by apply (Hgrow _ _ (Hview n)).
  - done.
  - done.
  - destruct (Hseen _ _ (Hview n)) as (m & ns' & Hn). exists p, prev, n, m. split; [done|]. cbn zeta.
    destruct (holds_keys order valid (view n) ns' _ Hn) as (Hs & _ & Hlen).
    assert (Hle : (length ns' <= length keys)%nat) by (rewrite Hlen, length_sort, length_take; lia). split.
    + rewrite (first_ok order valid (view n) ns' _ Hn). cbn [obind]. by rewrite (walk_forward (view n) ns' _ 0 _ Hn) by lia.
    + rewrite (place_seek_ok compare_ order valid Hc (view n) ns' _ target Hn Htarget) in Es. injection Es as <-.
      rewrite (walk_forward (view n) ns' _ _ _ Hn); [by rewrite drop_place| |lia]. rewrite Hlen. apply filter_le.
Qed.
End Spec.

(** ** Concrete runs: integers in their order *)
#[local] Definition compare_int (a b : Z) : outcome Z := Ok (a - b).

#[local] Instance int_order : TotalOrder Z.compare.
Proof.
  split; [intros; apply Z.compare_antisym|]. intros a b c. rewrite !Z.compare_le_iff. lia.
Qed.

#[local] Lemma int_decides : decides compare_int Z.compare (fun _ => True).
Proof.
  intros a b _ _. exists (a - b). split; [done|]. destruct (Z.compare_spec a b); destruct (Z.compare_spec (a - b) 0); (done || lia).
Qed.

Lemma skiplist_sorted_set_witness :
  exists s0 t seen, @new_SkipList Z = Ok s0 /\ insert_all compare_int [5; 1; 9] s0 [] = Ok (t, seen) /\
    (let! p := iter_Seek compare_int 4 t in walk 4 (fun p => iter_Next p t) p t) = Ok [5; 9] /\
    Contains compare_int 9 t = Ok true.
Proof.
  destruct (skiplist_sorted_set compare_int Z.compare (fun _ => True) [5; 1; 9] int_decides
    ltac:(repeat apply Forall_cons_2; done) eq_refl) as (s0 & t & seen & E0 & E & _ & _ & H).
  exists s0, t, seen. split; [exact E0|]. split; [exact E|]. split.
  - destruct (H 4 I) as [Hw _]. exact Hw.
  - destruct (H 9 I) as (_ & Hm & _). exact Hm.
Defined.

(** The first turn sees the first insertion only, the others all of them. *)
Lemma skiplist_lock_free_read_witness :
  exists s0 t seen, @new_SkipList Z = Ok s0 /\ insert_all compare_int [5; 1; 9] s0 [] = Ok (t, seen) /\
    exists p prev n m,
      FindGreaterOrEqual_while compare_int 100 4 (fun i => if (i =? 0)%nat then nth 9 seen s0 else nth 0 seen s0) = Ok (p, prev) /\
      walk 4 (fun p => iter_Next p (if (n =? 0)%nat then nth 9 seen s0 else nth 0 seen s0)) p
        (if (n =? 0)%nat then nth 9 seen s0 else nth 0 seen s0) = Ok (not_before Z.compare 4 (sort Z.compare (take m [5; 1; 9]))).
Proof.
  destruct (skiplist_lock_free_read compare_int Z.compare (fun _ => True) [5; 1; 9] 4 int_decides
    ltac:(repeat apply Forall_cons_2; done) eq_refl I) as (s0 & t & seen & E0 & E & H).
  exists s0, t, seen. split; [exact E0|]. split; [exact E|].
  assert (E0' := E0). vm_compute in E0'. injection E0' as <-.
  assert (E' := E). vm_compute in E'. injection E' as <- <-.
  match goal with |- context [nth 9 ?l ?d] => set (seen := l) in *; set (s0 := d) in * end.
  destruct (H (fun i => if (i =? 0)%nat then nth 9 seen s0 else nth 0 seen s0) (fun i => if (i =? 0)%nat then 9%nat else 0%nat) 100%nat)
    as (p & prev & n & m & Hf & _ & Hw).
  - intros [|i]; reflexivity.
  - intros [|i]; cbn; lia.
  - vm_compute. lia.
  - exists p, prev, n, m. split; [exact Hf|exact Hw].
Defined.
