(* ===== verification/Arena.v ===== *)
(** * The arena ([util/arena.h, util/arena.cc])

    Memory is cut off the front of blocks that [new] returned and is freed
    all at once.  A pointer into the arena is the index of its block and an
    offset; the addresses of the blocks are a parameter. *)
From S2P Require Import Prelude.

Definition kBlockSize : Z := 4096.
Definition size_t (n : Z) : Z := wrap 64 n.

(** [nullptr] is [None]. *)
Definition address : Type := option (nat * Z).

Record Arena : Type := mk_arena {
  alloc_ptr_ : address;
  alloc_bytes_remaining_ : Z;
  blocks_ : list Z;      (* the sizes of the blocks *)
  memory_usage_ : Z
}.

Definition new_Arena : Arena := mk_arena None 0 [] 0.
Definition MemoryUsage (a : Arena) : Z := memory_usage_ a.

(** Advancing a pointer. *)
Definition move_ptr (p : address) (n : Z) : address :=
  match p with Some (b, off) => Some (b, off + n) | None => None end.

(** [alloc_ptr_ += n; alloc_bytes_remaining_ -= n]. *)
Definition cut (n : Z) (a : Arena) : Arena :=
  mk_arena (move_ptr (alloc_ptr_ a) n) (alloc_bytes_remaining_ a - n) (blocks_ a) (memory_usage_ a).

Definition AllocateNewBlock (block_bytes : Z) (a : Arena) : address * Arena :=
  (Some (length (blocks_ a), 0),
   mk_arena (alloc_ptr_ a) (alloc_bytes_remaining_ a) (blocks_ a ++ [block_bytes])
     (size_t (memory_usage_ a + (block_bytes + 8)))).

Definition AllocateFallback (bytes : Z) (a : Arena) : address * Arena :=
  if kBlockSize / 4 <? bytes then AllocateNewBlock bytes a
  else
    let (p, a) := AllocateNewBlock kBlockSize a in
    let a := mk_arena p kBlockSize (blocks_ a) (memory_usage_ a) in
    (p, cut bytes a).

Definition Allocate (bytes : Z) (a : Arena) : outcome (address * Arena) :=
  assert (0 <? bytes)
  (Ok (if bytes <=? alloc_bytes_remaining_ a then (alloc_ptr_ a, cut bytes a) else AllocateFallback bytes a)).

Section Aligned.
(** The address of each block. *)
Context (block_address : nat -> Z).

Definition uintptr (p : address) : Z :=
  match p with Some (b, off) => block_address b + off | None => 0 end.

Definition align : Z := 8.

Definition AllocateAligned (bytes : Z) (a : Arena) : outcome (address * Arena) :=
  let current_mod := Z.land (uintptr (alloc_ptr_ a)) (align - 1) in
  let slop := if current_mod =? 0 then 0 else align - current_mod in
  let needed := size_t (bytes + slop) in
  let (result, a) :=
    if needed <=? alloc_bytes_remaining_ a then (move_ptr (alloc_ptr_ a) slop, cut needed a)
    else AllocateFallback bytes a in
  assert (Z.land (uintptr result) (align - 1) =? 0) (Ok (result, a)).
End Aligned.

(** ** What the arena guarantees

    The memory it hands out lies in its blocks, no two pieces overlap, and
    aligned requests get aligned addresses. *)
(** A request, and the pieces of memory handed out so far. *)
Inductive request : Type := Plain (bytes : Z) | Aligned (bytes : Z).
Definition request_size (r : request) : Z := match r with Plain n | Aligned n => n end.
Definition piece : Type := nat * Z * Z.

Definition disjoint_pieces (p q : piece) : Prop :=
  let '(b, off, n) := p in let '(b', off', n') := q in b <> b' \/ off + n <= off' \/ off' + n' <= off.
Definition inside (blocks : list Z) (p : piece) : Prop :=
  let '(b, off, n) := p in exists size, blocks !! b = Some size /\ 0 <= off /\ 0 < n /\ off + n <= size.

Section Spec.
Context (block_address : nat -> Z).

Definition serve (r : request) (a : Arena) : outcome (address * Arena) :=
  match r with Plain n => Allocate n a | Aligned n => AllocateAligned block_address n a end.

Fixpoint serve_all (rs : list request) (a : Arena) : outcome (list piece * Arena) :=
  match rs with
  | [] => Ok ([], a)
  | r :: rs' =>
      let! (p, a) := serve r a in
      let! (b, off) := or_ub BadAccess p in
      let! (ps, a) := serve_all rs' a in
      Ok ((b, off, request_size r) :: ps, a)
  end.

(** What the blocks take, each with its entry in [blocks_]. *)
Definition total (bs : list Z) : Z := foldr Z.add 0 (map (fun n => n + 8) bs).

(** The pieces are behind the free part of the current block. *)
Record arena_inv (a : Arena) (ps : list piece) : Prop := {
  inv_inside : Forall (inside (blocks_ a)) ps;
  inv_free : 0 <= alloc_bytes_remaining_ a;
  inv_ptr : 0 < alloc_bytes_remaining_ a -> exists b off size, alloc_ptr_ a = Some (b, off) /\
    blocks_ a !! b = Some size /\ 0 <= off /\ off + alloc_bytes_remaining_ a <= size /\
    Forall (fun p => p.1.1 = b -> p.1.2 + p.2 <= off) ps;
  inv_usage : memory_usage_ a = total (blocks_ a) /\ 0 <= memory_usage_ a
}.

Lemma total_app bs n : total (bs ++ [n]) = total bs + (n + 8).
Proof. unfold total. induction bs as [|m bs IH]; cbn in *; [lia|]. rewrite IH. lia. Qed.

Lemma inside_app bs n p : inside bs p -> inside (bs ++ [n]) p.
Proof.
  destruct p as [[b off] m]. intros (size & E & H). exists size. split; [|done].
  rewrite lookup_app_l by (by apply lookup_lt_Some in E). done.
Qed.

Lemma inside_block bs p : inside bs p -> (p.1.1 < length bs)%nat.
Proof. destruct p as [[b off] m]. intros (size & E & _). by apply lookup_lt_Some in E. Qed.

(** Cutting from the current block, after some slop. *)
Lemma cut_ok a ps slop n : arena_inv a ps -> 0 <= slop -> 0 < n -> slop + n <= alloc_bytes_remaining_ a ->
  exists b off, move_ptr (alloc_ptr_ a) slop = Some (b, off) /\ arena_inv (cut (slop + n) a) ((b, off, n) :: ps) /\
    Forall (disjoint_pieces (b, off, n)) ps.
Proof.
  intros [Hin Hfree Hptr Hu] Hs Hn Hle. destruct (Hptr ltac:(lia)) as (b & off & size & Ep & Eb & Ho & Hsz & Hps).
  exists b, (off + slop). rewrite Ep. split; [done|]. split.
  - split; cbn; [|lia| |done].
    + constructor; [|done]. exists size. split; [done|]. lia.
    + intros Hrest. exists b, (off + (slop + n)), size. rewrite Ep. split; [done|]. split; [done|]. split; [lia|]. split; [lia|].
      constructor; [cbn; lia|]. eapply Forall_impl; [exact Hps|]. cbn. intros p Hp E. specialize (Hp E). lia.
  - eapply Forall_impl; [exact Hps|]. intros [[b' off'] n'] Hp. cbn in *.
    destruct (decide (b = b')) as [->|]; [right; right; specialize (Hp eq_refl); lia|by left].
Qed.

Lemma new_block_disjoint bs ps n : Forall (inside bs) ps -> Forall (disjoint_pieces (length bs, 0, n)) ps.
Proof.
  intros H. eapply Forall_impl; [exact H|]. intros [[b off] m] Hp. apply inside_block in Hp. cbn in *. left. lia.
Qed.

Lemma new_block_ok a ps n : arena_inv a ps -> 0 <= n -> memory_usage_ a + n + 8 < 2 ^ 64 ->
  let a' := (AllocateNewBlock n a).2 in
  blocks_ a' = blocks_ a ++ [n] /\ memory_usage_ a' = memory_usage_ a + n + 8 /\ arena_inv a' ps.
Proof.
  intros [Hin Hfree Hptr [Hu H0]] Hn Hm. cbn. unfold size_t. rewrite wrap_small by lia.
  split; [done|]. split; [lia|]. split; cbn [AllocateNewBlock snd blocks_ memory_usage_ alloc_ptr_ alloc_bytes_remaining_]; [|done| |rewrite total_app; lia].
  - eapply Forall_impl; [exact Hin|]. intros p. apply inside_app.
  - intros Hr. destruct (Hptr Hr) as (b & off & size & Ep & Eb & H). exists b, off, size. split; [done|]. split; [|done].
    rewrite lookup_app_l by (by apply lookup_lt_Some in Eb). done.
Qed.

Lemma fallback_ok a ps n : arena_inv a ps -> 0 < n -> memory_usage_ a + (n + kBlockSize + 8) < 2 ^ 64 ->
  let r := AllocateFallback n a in let p := (length (blocks_ a), 0, n) in
  r.1 = Some (length (blocks_ a), 0) /\ arena_inv r.2 (p :: ps) /\ Forall (disjoint_pieces p) ps /\
  memory_usage_ r.2 <= memory_usage_ a + (n + kBlockSize + 8).
Proof.
  intros Hinv Hn Hm. pose proof (inv_inside _ _ Hinv) as Hin. pose proof (new_block_disjoint (blocks_ a) ps n Hin) as Hd.
  unfold AllocateFallback, kBlockSize in *. change (4096 / 4) with 1024. destruct (Z.ltb_spec 1024 n) as [Hbig|Hsmall]; cbn zeta.
  - destruct (new_block_ok a ps n Hinv ltac:(lia) ltac:(lia)) as (Eb & Eu & [Hin' Hfree Hptr Hu]).
    split; [done|]. split; [|split; [done|lia]]. split; [|done| |done].
    + constructor; [|done]. exists n. rewrite Eb, lookup_app_r, Nat.sub_diag by lia. split; [done|lia].
    + intros Hr. destruct (Hptr Hr) as (b & off & size & Ep & Ebs & Ho & Hsz & Hps). exists b, off, size.
      do 4 (split; [done|]). constructor; [|done]. cbn. intros <-. exfalso.
      destruct (inv_ptr _ _ Hinv Hr) as (b' & off' & size' & Ep' & Eb' & _). cbn in Ep. rewrite Ep' in Ep.
      injection Ep as -> ->. apply lookup_lt_Some in Eb'. lia.
  - destruct (new_block_ok a ps 4096 Hinv ltac:(lia) ltac:(lia)) as (Eb & Eu & Hinv').
    cbn [fst snd]. change (AllocateNewBlock 4096 a) with (Some (length (blocks_ a), 0), (AllocateNewBlock 4096 a).2). cbv iota beta.
    set (a1 := (AllocateNewBlock 4096 a).2) in *. clearbody a1.
    destruct (cut_ok (mk_arena (Some (length (blocks_ a), 0)) 4096 (blocks_ a1) (memory_usage_ a1)) ps 0 n)
      as (b & off & Eadv & Hcut & _); [|lia|lia|cbn; lia|].
    + split; cbn; [apply Hinv'|lia| |apply Hinv']. intros _. exists (length (blocks_ a)), 0, 4096.
      rewrite Eb, lookup_app_r, Nat.sub_diag by lia. split; [done|]. split; [done|]. split; [lia|]. split; [lia|].
      eapply Forall_impl; [exact Hin|]. intros p Hp E. apply inside_block in Hp. lia.
    + cbn in Eadv. injection Eadv as <- <-. split; [done|]. split; [exact Hcut|]. split; [done|]. cbn. lia.
Qed.

(** One request.  The pointer is aligned when that was asked for. *)
Definition aligned (r : request) (p : piece) : Prop :=
  match r with Plain _ => True | Aligned _ => (block_address p.1.1 + p.1.2) mod 8 = 0 end.

Context (Haligned : forall b, block_address b mod 8 = 0).

Lemma current_mod p : Z.land p (align - 1) = p mod 8.
Proof. unfold align. change (8 - 1) with (Z.ones 3). by rewrite Z.land_ones. Qed.

Lemma slop_range p : let m := p mod 8 in let slop := if m =? 0 then 0 else align - m in
  0 <= slop < 8 /\ (p + slop) mod 8 = 0.
Proof.
  cbn zeta. unfold align. destruct (Z.eqb_spec (p mod 8) 0) as [E|E]; split; euclid.
Qed.

Lemma serve_ok r a ps : arena_inv a ps -> 0 < request_size r ->
  memory_usage_ a + (request_size r + kBlockSize + 8) < 2 ^ 63 ->
  exists b off a', serve r a = Ok (Some (b, off), a') /\ arena_inv a' ((b, off, request_size r) :: ps) /\
    Forall (disjoint_pieces (b, off, request_size r)) ps /\ aligned r (b, off, request_size r) /\
    memory_usage_ a' <= memory_usage_ a + (request_size r + kBlockSize + 8).
Proof.
  intros Hinv Hn Hm. destruct (fallback_ok a ps (request_size r) Hinv Hn ltac:(lia)) as (Ef & Hf & Hd & Hu).
  pose proof (inv_usage _ _ Hinv). destruct r as [n|n]; cbn [request_size serve aligned] in *.
  - unfold Allocate, assert. rewrite (proj2 (Z.ltb_lt _ _) Hn). destruct (Z.leb_spec n (alloc_bytes_remaining_ a)) as [Hle|Hgt].
    + destruct (cut_ok a ps 0 n Hinv ltac:(lia) Hn ltac:(lia)) as (b & off & Ep & Hc & Hdc).
      exists b, off, (cut n a). split; [|split; [exact Hc|split; [exact Hdc|split; [done|cbn; unfold kBlockSize; lia]]]].
      do 2 f_equal. rewrite <- Ep. destruct (alloc_ptr_ a) as [[b' off']|]; [|done]. cbn. by rewrite Z.add_0_r.
    + exists (length (blocks_ a)), 0, (AllocateFallback n a).2. rewrite (surjective_pairing (AllocateFallback n a)), Ef.
      split_and!; done.
  - unfold AllocateAligned. rewrite !current_mod. destruct (slop_range (uintptr block_address (alloc_ptr_ a))) as [Hs Hmod].
    cbn zeta in Hs, Hmod. set (slop := if _ =? 0 then 0 else _) in *. clearbody slop.
    unfold size_t. rewrite wrap_small by (unfold kBlockSize in *; lia).
    destruct (Z.leb_spec (n + slop) (alloc_bytes_remaining_ a)) as [Hle|Hgt].
    + destruct (cut_ok a ps slop n Hinv ltac:(lia) Hn ltac:(lia)) as (b & off & Ep & Hc & Hdc).
      rewrite Ep, current_mod. cbn [uintptr].
      assert (E : (block_address b + off) mod 8 = 0).
      { destruct (alloc_ptr_ a) as [[b' off']|]; [|done]. cbn in Ep. injection Ep as -> <-.
        rewrite <- Hmod. cbn [uintptr]. f_equal. lia. }
      rewrite E. cbn [Z.eqb assert]. exists b, off, (cut (n + slop) a). rewrite Z.add_comm. split_and!; try done.
      cbn. unfold kBlockSize. lia.
    + exists (length (blocks_ a)), 0, (AllocateFallback n a).2. rewrite (surjective_pairing (AllocateFallback n a)), Ef.
      cbn [uintptr fst snd]. rewrite current_mod, Z.add_0_r, Haligned. cbn [Z.eqb assert]. split_and!; done.
Qed.

Definition wanted (rs : list request) : Z := foldr Z.add 0 (map (fun r => request_size r + kBlockSize + 8) rs).

Lemma serve_all_ok rs : forall a ps, arena_inv a ps -> Forall (fun r => 0 < request_size r) rs ->
  memory_usage_ a + wanted rs < 2 ^ 63 ->
  exists new a' all, serve_all rs a = Ok (new, a') /\ arena_inv a' all /\ (forall p, p ∈ new -> p ∈ all) /\
    Forall2 (fun r p => aligned r p /\ p.2 = request_size r) rs new /\
    (forall i p q, new !! i = Some p -> q ∈ drop (S i) new ++ ps -> disjoint_pieces p q) /\ (forall p, p ∈ ps -> p ∈ all).
Proof.
  induction rs as [|r rs IH]; intros a ps Hinv Hpos Hw.
  - exists [], a, ps. split_and!; [done|done|intros p Hp; by apply elem_of_nil in Hp|constructor|done|done].
  - inversion Hpos as [|? ? Hr Hpos']; subst. unfold wanted in *. cbn [map foldr] in Hw. fold (wanted rs) in *.
    assert (Hw0 : 0 <= wanted rs).
    { clear -Hpos'. unfold wanted. induction Hpos' as [|r rs Hr _ IH]; cbn; [lia|]. unfold kBlockSize in *. lia. }
    destruct (serve_ok r a ps Hinv Hr ltac:(lia)) as (b & off & a1 & E & Hinv1 & Hd & Hal & Hu).
    destruct (IH a1 ((b, off, request_size r) :: ps) Hinv1 Hpos' ltac:(lia)) as (new & a' & all & E2 & Hinv' & Hin & Hal2 & Hdis & Hold).
    cbn [serve_all]. rewrite E. cbn [obind or_ub]. rewrite E2. cbn [obind].
    assert (Hhead : (b, off, request_size r) ∈ all) by (apply Hold, elem_of_cons; by left).
    exists ((b, off, request_size r) :: new), a', all. split; [done|]. split; [done|]. split; [|split; [|split]].
    + intros p [->|Hp]%elem_of_cons; [done|by apply Hin].
    + by constructor.
    + intros [|i] p q Hp Hq.
      * injection Hp as <-. change (q ∈ new ++ ps) in Hq. apply elem_of_app in Hq as [Hq|Hq].
        -- apply list_elem_of_lookup_1 in Hq as [j Hj].
           assert (Hpq := Hdis j q (b, off, request_size r) Hj). destruct q as [[b' off'] n'].
           cbn in *. destruct Hpq as [H|H]; [|left; congruence|lia].
           apply elem_of_app. right. apply elem_of_cons. by left.
        -- rewrite Forall_forall in Hd. by apply Hd.
      * apply (Hdis i p q Hp). change (q ∈ drop (S i) new ++ ps) in Hq.
        apply elem_of_app in Hq as [Hq|Hq]; apply elem_of_app; [by left|right; apply elem_of_cons; by right].
    + intros p Hp. apply Hold, elem_of_cons. by right.
Qed.

(** C32: arena allocation.  Any requests of at least one byte are served; each
    piece of memory lies in one block, no two overlap, an aligned request
    gets an aligned address when the blocks have one, as [new] promises, and
    the memory usage is that of all the blocks. *)
Theorem arena_disjoint rs :
  Forall (fun r => 0 < request_size r) rs -> wanted rs < 2 ^ 63 ->
  exists ps a, serve_all rs new_Arena = Ok (ps, a) /\ Forall (inside (blocks_ a)) ps /\
    Forall2 (fun r p => aligned r p /\ p.2 = request_size r) rs ps /\
    (forall i j p q, i <> j -> ps !! i = Some p -> ps !! j = Some q -> disjoint_pieces p q) /\
    MemoryUsage a = total (blocks_ a).
Proof.
  intros Hpos Hw. assert (Hinv : arena_inv new_Arena []) by (split; cbn; [constructor|lia|lia|done]).
  destruct (serve_all_ok rs new_Arena [] Hinv Hpos) as (ps & a & all & E & Ha & Hin & Hal & Hd & _); [cbn; lia|].
  exists ps, a. split; [done|]. split.
  - apply Forall_forall. intros p Hp. pose proof (inv_inside _ _ Ha) as Hall. rewrite Forall_forall in Hall. by apply Hall, Hin.
  - split; [done|]. split; [|apply Ha].
    assert (Hlt : forall i j p q, (i < j)%nat -> ps !! i = Some p -> ps !! j = Some q -> disjoint_pieces p q).
    { intros i j p q Hij Hp Hq. apply (Hd i p q Hp). rewrite app_nil_r.
      apply (list_elem_of_lookup_2 _ (j - S i)). rewrite lookup_drop. by replace (S i + (j - S i))%nat with j by lia. }
    intros i j p q Hne Hp Hq. destruct (lt_eq_lt_dec i j) as [[Hij|Hij]|Hij]; [by apply (Hlt i j)|done|].
    pose proof (Hlt j i q p Hij Hq Hp) as H. destruct p as [[b off] n], q as [[b' off'] n']. cbn in *.
    destruct H as [H|H]; [left; congruence|lia].
Qed.
End Spec.

Lemma arena_disjoint_witness :
  exists ps a, serve_all (fun b => 65536 * Z.of_nat b) [Plain 13; Aligned 24; Plain 5000; Aligned 8] new_Arena = Ok (ps, a) /\
    ps = [(0%nat, 0, 13); (0%nat, 16, 24); (1%nat, 0, 5000); (0%nat, 40, 8)] /\ MemoryUsage a = 4096 + 8 + (5000 + 8).
Proof.
  destruct (arena_disjoint (fun b => 65536 * Z.of_nat b)) with (rs := [Plain 13; Aligned 24; Plain 5000; Aligned 8])
    as (ps & a & E & _ & _ & _ & Hu).
  - intros b. rewrite Z.mul_comm. change 65536 with (8192 * 8). rewrite Z.mul_assoc. apply Z_mod_mult.
  - repeat (apply Forall_cons_2; [by vm_compute|]). apply Forall_nil_2.
  - by vm_compute.
  - exists ps, a. split; [exact E|]. vm_compute in E. injection E as <- <-. split; [reflexivity|exact Hu].
Defined.
