(* ===== verification/Iterator.v ===== *)
(** * Iterators ([leveldb/iterator.h, table/iterator.cc])

    The interface, and what an iterator over a sorted list of entries
    promises: it has a position, the length of the list when it is not valid,
    and every operation moves the position as its comment says. *)
From Stdlib Require Import Sorting.Sorted.
From S2P Require Import Prelude Env Order SkipListProof SkipListSet.

(** The operations that move the iterator return its new state. *)
Class Iterator (S : Type) : Type := {
  Valid : S -> outcome bool;
  SeekToFirst : S -> outcome S;
  SeekToLast : S -> outcome S;
  Seek : list Z -> S -> outcome S;
  Next : S -> outcome S;
  Prev : S -> outcome S;
  key : S -> outcome (list Z);
  value : S -> outcome (list Z);
  status : S -> outcome Status
}.

(** ** The empty iterator, with a status *)
Definition EmptyIterator : Type := Status.
Definition NewEmptyIterator : EmptyIterator := OK.
Definition NewErrorIterator (s : Status) : EmptyIterator := s.
#[export] Instance empty_iterator : Iterator EmptyIterator := {
  Valid _ := Ok false;
  SeekToFirst s := Ok s;
  SeekToLast s := Ok s;
  Seek _ s := Ok s;
  Next s := UB BadAssert;
  Prev s := UB BadAssert;
  key s := UB BadAssert;
  value s := UB BadAssert;
  status s := Ok s
}.

(** ** What an iterator promises *)
Definition entries : Type := list (list Z * list Z).
Definition keys_of (es : entries) : list (list Z) := map fst es.

(** [usable s]: the functions that position the iterator may be called;
    [at_ s i]: it is positioned at entry [i]. *)
Class LawfulIterator S `{Iterator S} (order : list Z -> list Z -> comparison) (valid : list Z -> Prop)
    (es : entries) (usable : S -> Prop) (at_ : S -> nat -> Prop) : Prop := {
  at_usable : forall s i, at_ s i -> usable s /\ (i <= length es)%nat;
  first_law : forall s, usable s -> exists s', SeekToFirst s = Ok s' /\ at_ s' 0%nat;
  last_law : forall s, usable s -> exists s', SeekToLast s = Ok s' /\ at_ s' (length es - 1)%nat;
  seek_law : forall s target, usable s -> valid target ->
    exists s', Seek target s = Ok s' /\ at_ s' (place order target (keys_of es));
  next_law : forall s i, at_ s i -> (i < length es)%nat -> exists s', Next s = Ok s' /\ at_ s' (i + 1)%nat;
  prev_law : forall s i, at_ s i -> (i < length es)%nat ->
    exists s', Prev s = Ok s' /\ at_ s' (match i with O => length es | Datatypes.S j => j end);
  valid_law : forall s i, at_ s i -> Valid s = Ok (i <? length es)%nat;
  entry_law : forall s i k v, at_ s i -> es !! i = Some (k, v) -> key s = Ok k /\ value s = Ok v;
  status_law : forall s i, at_ s i -> status s = Ok OK
}.

(** ** An iterator inside a larger state *)
Section Lift.
Context {S T : Type} `{Iterator S} (inner : T -> S) (update : S -> T -> T).

Definition lift_move (f : S -> outcome S) (t : T) : outcome T := let! s := f (inner t) in Ok (update s t).
Definition lift_iterator : Iterator T := {|
  Valid t := Valid (inner t);
  SeekToFirst := lift_move SeekToFirst;
  SeekToLast := lift_move SeekToLast;
  Seek target := lift_move (Seek target);
  Next := lift_move Next;
  Prev := lift_move Prev;
  key t := key (inner t);
  value t := value (inner t);
  status t := status (inner t)
|}.

Context (order : list Z -> list Z -> comparison) (valid : list Z -> Prop) (es : entries) (usable : S -> Prop) (at_ : S -> nat -> Prop).
Context {Hlaw : LawfulIterator S order valid es usable at_} (Hinner : forall s t, inner (update s t) = s).

#[local] Ltac lifted H :=
  let s := fresh "s" in let E := fresh "E" in let Hat := fresh "Hat" in
  destruct H as (s & E & Hat); cbn; unfold lift_move; rewrite E; cbn [obind]; eexists; split; [done|by rewrite Hinner].

Lemma lift_lawful : @LawfulIterator T lift_iterator order valid es (fun t => usable (inner t)) (fun t => at_ (inner t)).
Proof.
  split.
  - intros t i. apply at_usable.
  - intros t Hu. lifted (first_law (inner t) Hu).
  - intros t Hu. lifted (last_law (inner t) Hu).
  - intros t target Hu Ht. lifted (seek_law (inner t) target Hu Ht).
  - intros t i Hat Hi. lifted (next_law (inner t) i Hat Hi).
  - intros t i Hat Hi. lifted (prev_law (inner t) i Hat Hi).
  - intros t i. apply (valid_law (inner t)).
  - intros t i. apply (entry_law (inner t)).
  - intros t i. apply (status_law (inner t)).
Qed.
End Lift.

(** ** Walking with an iterator *)
Section Walk.
Context {S : Type} `{Iterator S}.

(** The entries met by repeating a step until the iterator is not valid. *)
Fixpoint walk_entries (fuel : nat) (step : S -> outcome S) (s : S) : outcome entries :=
  match fuel with
  | O => Timeout
  | Datatypes.S n =>
      let! valid := Valid s in
      if valid : bool then
        let! k := key s in
        let! v := value s in
        let! s := step s in
        let! es := walk_entries n step s in
        Ok ((k, v) :: es)
      else Ok []
  end.

Context (order : list Z -> list Z -> comparison) (valid : list Z -> Prop) (es : entries) (usable : S -> Prop) (at_ : S -> nat -> Prop).
Context {Hlaw : LawfulIterator S order valid es usable at_}.

Lemma walk_next fuel : forall s i, at_ s i -> (length es < fuel + i)%nat ->
  walk_entries fuel Next s = Ok (drop i es).
Proof.
  induction fuel as [|n IH]; intros s i Hat Hfuel; destruct (at_usable s i Hat) as [Hu Hi]; [lia|]. cbn [walk_entries].
  rewrite (valid_law s i Hat). cbn [obind]. destruct (Nat.ltb_spec i (length es)) as [Hlt|Hge].
  - destruct (lookup_lt_is_Some_2 es i Hlt) as [[k v] E]. destruct (entry_law s i k v Hat E) as [-> ->]. cbn [obind].
    destruct (next_law s i Hat Hlt) as (s' & -> & Hat'). cbn [obind]. rewrite (IH s' (i + 1)%nat Hat') by lia.
    cbn [obind]. rewrite Nat.add_1_r. by rewrite (drop_S es (k, v) i E).
  - by rewrite drop_ge by lia.
Qed.

Lemma walk_prev fuel : forall s i, at_ s i -> (i < length es)%nat -> (i < fuel - 1)%nat ->
  walk_entries fuel Prev s = Ok (rev (take (i + 1) es)).
Proof.
  induction fuel as [|n IH]; intros s i Hat Hi Hfuel; [lia|]. cbn [walk_entries].
  rewrite (valid_law s i Hat). cbn [obind]. rewrite (proj2 (Nat.ltb_lt _ _) Hi).
  destruct (lookup_lt_is_Some_2 es i Hi) as [[k v] E]. destruct (entry_law s i k v Hat E) as [-> ->]. cbn [obind].
  destruct (prev_law s i Hat Hi) as (s' & -> & Hat'). cbn [obind].
  rewrite Nat.add_1_r, (take_S_r es i (k, v) E), rev_app_distr. destruct i as [|j].
  - destruct n as [|n]; [lia|]. cbn [walk_entries]. rewrite (valid_law s' _ Hat'), Nat.ltb_irrefl. done.
  - rewrite (IH s' j Hat') by lia. cbn [obind]. by rewrite Nat.add_1_r.
Qed.

(** From where [SeekToLast] stops. *)
Lemma walk_last s : at_ s (length es - 1)%nat -> walk_entries (Datatypes.S (length es)) Prev s = Ok (rev es).
Proof.
  intros Hat. destruct (decide (length es = 0%nat)) as [E|Hne].
  - rewrite E in *. cbn [walk_entries]. rewrite (valid_law s _ Hat). cbn [obind]. rewrite E. by destruct es.
  - rewrite (walk_prev _ s _ Hat) by lia. by rewrite take_ge by lia.
Qed.

(** From any usable iterator, all that can be walked. *)
Lemma lawful_walks s fuel : usable s -> (length es < fuel)%nat ->
  (exists f, SeekToFirst s = Ok f /\ walk_entries fuel Next f = Ok es) /\
  (exists f, SeekToLast s = Ok f /\ walk_entries fuel Prev f = Ok (rev es)) /\
  (forall target, valid target -> exists f, Seek target s = Ok f /\
    let i := place order target (keys_of es) in
    walk_entries fuel Next f = Ok (drop i es) /\
    ((i < length es)%nat -> walk_entries fuel Prev f = Ok (rev (take (i + 1) es)))).
Proof.
  intros Hu Hfuel. split; [|split].
  - destruct (first_law s Hu) as (f & Ef & Hat). exists f. split; [done|]. apply (walk_next fuel f 0 Hat). lia.
  - destruct (last_law s Hu) as (f & Ef & Hat). exists f. split; [done|]. destruct (decide (length es = 0%nat)) as [E0|Hne].
    + destruct fuel as [|n]; [lia|]. cbn [walk_entries]. rewrite (valid_law f _ Hat). cbn [obind]. rewrite E0. by destruct es.
    + rewrite (walk_prev fuel f _ Hat) by lia. by rewrite take_ge by lia.
  - intros target Ht. destruct (seek_law s target Hu Ht) as (f & Ef & Hat). exists f. split; [done|]. split; [apply (walk_next fuel f _ Hat); lia|].
    intros Hi. apply (walk_prev fuel f _ Hat); lia.
Qed.
End Walk.

(** ** Iterators that remember their state ([table/iterator_wrapper.h])

    The wrapper caches [Valid()] and [key()] of the iterator it owns, which
    may be none. *)
Section IteratorWrapper.
Context {S : Type} `{Iterator S}.

Record IteratorWrapper : Type := mk_wrapper { iter_ : option S; valid_ : bool; key_ : list Z }.

(** [Update()], on the iterator after a move. *)
Definition Update (s : S) (w : IteratorWrapper) : outcome IteratorWrapper :=
  let! valid := Valid s in
  if valid : bool then let! k := key s in Ok (mk_wrapper (Some s) true k)
  else Ok (mk_wrapper (Some s) false (key_ w)).

Definition wrapper_Set (iter : option S) (w : IteratorWrapper) : outcome IteratorWrapper :=
  match iter with
  | None => Ok (mk_wrapper None false (key_ w))
  | Some s => Update s w
  end.
Definition new_IteratorWrapper (iter : option S) : outcome IteratorWrapper :=
  wrapper_Set iter (mk_wrapper None false []).

Definition wrapper_key (w : IteratorWrapper) : outcome (list Z) := assert (valid_ w) (Ok (key_ w)).
Definition wrapper_value (w : IteratorWrapper) : outcome (list Z) :=
  assert (valid_ w) (match iter_ w with Some s => value s | None => UB BadPointer end).

(** The functions that need an iterator. *)
Definition wrapper_status (w : IteratorWrapper) : outcome Status :=
  match iter_ w with Some s => status s | None => UB BadAssert end.
Definition wrapper_move (f : S -> outcome S) (w : IteratorWrapper) : outcome IteratorWrapper :=
  match iter_ w with
  | Some s => let! s := f s in Update s w
  | None => UB BadAssert
  end.
Definition wrapper_Next : IteratorWrapper -> outcome IteratorWrapper := wrapper_move Next.
Definition wrapper_Prev : IteratorWrapper -> outcome IteratorWrapper := wrapper_move Prev.
Definition wrapper_Seek (k : list Z) : IteratorWrapper -> outcome IteratorWrapper := wrapper_move (Seek k).
Definition wrapper_SeekToFirst : IteratorWrapper -> outcome IteratorWrapper := wrapper_move SeekToFirst.
Definition wrapper_SeekToLast : IteratorWrapper -> outcome IteratorWrapper := wrapper_move SeekToLast.

Lemma Update_iter s w w' : Update s w = Ok w' -> iter_ w' = Some s.
Proof.
  unfold Update. destruct (Valid s) as [[]| |]; cbn [obind]; try discriminate; [|by intros [= <-]].
  destruct (key s); cbn [obind]; try discriminate. by intros [= <-].
Qed.

Lemma wrapper_move_inv f w w' : wrapper_move f w = Ok w' -> exists s s', iter_ w = Some s /\ f s = Ok s' /\ iter_ w' = Some s'.
Proof.
  unfold wrapper_move. destruct (iter_ w) as [s|]; [|done]. intros (s' & E & Eu)%obind_Ok. exists s, s'.
  split; [done|]. split; [done|]. by eapply Update_iter.
Qed.
End IteratorWrapper.
Arguments IteratorWrapper : clear implicits.

(** ** Around a lawful iterator *)
Section Lawful.
Context {S : Type} `{Iterator S} {order : list Z -> list Z -> comparison} {valid : list Z -> Prop} {es : entries}.
Context {usable : S -> Prop} {at_ : S -> nat -> Prop} {Hlaw : LawfulIterator S order valid es usable at_}.

(** The wrapper has an iterator, at entry [i]. *)
Record wraps (w : IteratorWrapper S) (i : nat) : Prop := {
  wraps_at : exists s, iter_ w = Some s /\ at_ s i;
  wraps_valid : valid_ w = (i <? length es)%nat;
  wraps_key : forall k v, es !! i = Some (k, v) -> key_ w = k
}.

Lemma Update_ok s i w : at_ s i -> exists w', Update s w = Ok w' /\ wraps w' i.
Proof.
  intros Hat. unfold Update. rewrite (valid_law s i Hat). cbn [obind]. destruct (Nat.ltb_spec i (length es)) as [Hlt|Hge].
  - destruct (lookup_lt_is_Some_2 es i Hlt) as [[k v] E]. destruct (entry_law s i k v Hat E) as [-> _]. cbn [obind].
    eexists. split; [done|]. split; cbn [iter_ valid_ key_]; [by exists s|symmetry; by apply Nat.ltb_lt|]. intros k' v' E'. pose proof (eq_trans (eq_sym E) E') as E2. by injection E2 as -> _.
  - eexists. split; [done|]. split; cbn [iter_ valid_ key_]; [by exists s|symmetry; by apply Nat.ltb_ge|].
    intros k v E. apply lookup_lt_Some in E. lia.
Qed.

Lemma wraps_le w i : wraps w i -> (i <= length es)%nat.
Proof. intros [(s & _ & Hat) _ _]. exact (proj2 (at_usable s i Hat)). Qed.

Lemma wraps_next w i : wraps w i -> (i < length es)%nat -> exists w', wrapper_Next w = Ok w' /\ wraps w' (i + 1).
Proof.
  intros [(s & Es & Hat) _ _] Hi. destruct (next_law s i Hat Hi) as (s' & E & Hat').
  unfold wrapper_Next, wrapper_move. rewrite Es, E. by apply Update_ok.
Qed.

Lemma wraps_prev w i : wraps w i -> (i < length es)%nat ->
  exists w', wrapper_Prev w = Ok w' /\ wraps w' (match i with O => length es | Datatypes.S j => j end).
Proof.
  intros [(s & Es & Hat) _ _] Hi. destruct (prev_law s i Hat Hi) as (s' & E & Hat').
  unfold wrapper_Prev, wrapper_move. rewrite Es, E. by apply Update_ok.
Qed.

(** From any usable iterator. *)
Definition has_usable (w : IteratorWrapper S) : Prop := exists s, iter_ w = Some s /\ usable s.

Lemma wraps_usable w i : wraps w i -> has_usable w.
Proof. intros [(s & Es & Hat) _ _]. exists s. split; [done|]. by apply (proj1 (at_usable s i Hat)). Qed.

Lemma wraps_first w : has_usable w -> exists w', wrapper_SeekToFirst w = Ok w' /\ wraps w' 0.
Proof.
  intros (s & Es & Hu). destruct (first_law s Hu) as (s' & E & Hat).
  unfold wrapper_SeekToFirst, wrapper_move. rewrite Es, E. by apply Update_ok.
Qed.

Lemma wraps_last w : has_usable w -> exists w', wrapper_SeekToLast w = Ok w' /\ wraps w' (length es - 1).
Proof.
  intros (s & Es & Hu). destruct (last_law s Hu) as (s' & E & Hat).
  unfold wrapper_SeekToLast, wrapper_move. rewrite Es, E. by apply Update_ok.
Qed.

Lemma wraps_seek w k : has_usable w -> valid k ->
  exists w', wrapper_Seek k w = Ok w' /\ wraps w' (SkipListSet.place order k (keys_of es)).
Proof.
  intros (s & Es & Hu) Hk. destruct (seek_law s k Hu Hk) as (s' & E & Hat).
  unfold wrapper_Seek, wrapper_move. rewrite Es, E. by apply Update_ok.
Qed.

Lemma wraps_entry w i k v : wraps w i -> es !! i = Some (k, v) -> wrapper_key w = Ok k /\ wrapper_value w = Ok v.
Proof.
  intros [(s & Es & Hat) Hv Hk] E. unfold wrapper_key, wrapper_value. rewrite Hv, Es.
  rewrite (proj2 (Nat.ltb_lt _ _) (lookup_lt_Some _ _ _ E)). cbn [assert]. rewrite (Hk k v E).
  split; [done|]. apply (entry_law s i k v Hat E).
Qed.

Lemma wraps_status w i : wraps w i -> wrapper_status w = Ok OK.
Proof. intros [(s & Es & Hat) _ _]. unfold wrapper_status. rewrite Es. by apply (status_law s i). Qed.
End Lawful.
Arguments wraps {S} es at_ w i.
Arguments has_usable {S} usable w.
