(* ===== verification/MemTable.v ===== *)
(** * The memtable ([db/memtable.h, db/memtable.cc])

    A skip list of entries, each a length-prefixed internal key followed by a
    length-prefixed value.  The table's keys are pointers to entries in the
    arena, whose bytes never change: a pointer is the bytes from it on. *)
From S2P Require Import Prelude Coding Env Comparator DbFormat SkipList WriteBatch Iterator.

(** [GetVarint32Ptr(p, p + 5, &len)]: the number and what follows it. *)
Definition varint_at (data : list Z) : outcome (Z * list Z) :=
  let limited := take 5 data in
  match GetVarint32Ptr limited with
  | None => UB BadAccess
  | Some (len, rest) => Ok (len, drop (length limited - length rest) data)
  end.

(** [GetLengthPrefixedSlice(data)]: the slice and what follows it. *)
Definition slice_at (data : list Z) : outcome (list Z * list Z) :=
  let! (len, p) := varint_at data in
  if zlen p <? len then UB OverRead
  else Ok (take (Z.to_nat len) p, drop (Z.to_nat len) p).

(** The key in the form of the table's entries. *)
Definition EncodeKey (target : list Z) : list Z :=
  PutVarint32 [] (wrap 32 (zlen target)) ++ target.

Record MemTable : Type := mk_memtable { refs_ : Z; table_ : SkipList (list Z) }.

Section MemTable.
Context `{Comparator}.

Definition KeyComparator (aptr bptr : list Z) : outcome Z :=
  let! (a, _) := slice_at aptr in
  let! (b, _) := slice_at bptr in
  internal_compare a b.

Definition new_MemTable : outcome MemTable :=
  let! table := new_SkipList in Ok (mk_memtable 0 table).

Definition Ref (m : MemTable) : outcome MemTable :=
  let! refs := int_add (refs_ m) 1 in Ok (mk_memtable refs (table_ m)).

(** [None] when the last reference is gone and the table is deleted. *)
Definition Unref (m : MemTable) : outcome (option MemTable) :=
  let! refs := int_add (refs_ m) (-1) in
  assert (0 <=? refs)
  (if refs <=? 0 then assert (refs =? 0) (Ok None) else Ok (Some (mk_memtable refs (table_ m)))).

(** [buf] is filled from the front. *)
Definition Add (s type : Z) (key value : list Z) (m : MemTable) : outcome MemTable :=
  let key_size := zlen key in
  let val_size := zlen value in
  let internal_key_size := wrap 64 (key_size + 8) in
  let encoded_len := wrap 64 (VarintLength internal_key_size + internal_key_size + VarintLength val_size + val_size) in
  let buf := EncodeVarint32 (wrap 32 internal_key_size) ++ key
             ++ EncodeFixed64 (Z.lor (wrap 64 (Z.shiftl s 8)) type)
             ++ EncodeVarint32 (wrap 32 val_size) ++ value in
  if encoded_len <? zlen buf then UB OverWrite
  else assert (zlen buf =? encoded_len)
    (let! table := Insert KeyComparator buf (table_ m) in
     Ok (mk_memtable (refs_ m) table)).

#[global] Instance memtable_ops : MemTableOps MemTable := Add.

(** The result and what is left in [*value] and [*s]. *)
Definition Get (key : LookupKey) (value : list Z) (s : Status) (m : MemTable) : outcome (bool * list Z * Status) :=
  let memkey := memtable_key key in
  let! iter := iter_Seek KeyComparator memkey (table_ m) in
  if iter_Valid iter then
    let! entry := iter_key iter (table_ m) in
    let! (key_length, key_ptr) := varint_at entry in
    let user_size := wrap 32 (key_length - 8) in
    if zlen key_ptr <? user_size then UB OverRead
    else
      let! r := Compare (take (Z.to_nat user_size) key_ptr) (lookup_user_key key) in
      if r =? 0 then
        let! tag := DecodeFixed64 (drop (Z.to_nat (key_length - 8)) key_ptr) in
        let t := Z.land tag 0xff in
        if t =? kTypeValue then
          let! (v, _) := slice_at (drop (Z.to_nat key_length) key_ptr) in
          Ok (true, v, s)
        else if t =? kTypeDeletion then Ok (true, value, NotFound "")
        else Ok (false, value, s)
      else Ok (false, value, s)
  else Ok (false, value, s).

(** ** [MemTableIterator]

    An iterator on a table that does not change while it is used; its scratch
    string [tmp_] has no other use than to hold what [EncodeKey] returns. *)
Definition mem_iter_Seek (k : list Z) (m : MemTable) : outcome ptr :=
  SkipList.iter_Seek KeyComparator (EncodeKey k) (table_ m).
Definition mem_iter_key (iter_ : ptr) (m : MemTable) : outcome (list Z) :=
  let! entry := SkipList.iter_key iter_ (table_ m) in
  let! (k, _) := slice_at entry in Ok k.
Definition mem_iter_value (iter_ : ptr) (m : MemTable) : outcome (list Z) :=
  let! entry := SkipList.iter_key iter_ (table_ m) in
  let! (_, rest) := slice_at entry in
  let! (v, _) := slice_at rest in Ok v.

Record MemTableIterator : Type := mk_mem_iter { mem_table : MemTable; mem_node : ptr }.
Definition NewIterator (m : MemTable) : MemTableIterator := mk_mem_iter m None.

Definition mem_iter_move (f : SkipList (list Z) -> outcome ptr) (i : MemTableIterator) : outcome MemTableIterator :=
  let! node := f (table_ (mem_table i)) in Ok (mk_mem_iter (mem_table i) node).

#[export] Instance mem_iterator : Iterator MemTableIterator := {
  Valid i := Ok (iter_Valid (mem_node i));
  SeekToFirst := mem_iter_move iter_SeekToFirst;
  SeekToLast := mem_iter_move iter_SeekToLast;
  Seek k i := let! node := mem_iter_Seek k (mem_table i) in Ok (mk_mem_iter (mem_table i) node);
  Next i := mem_iter_move (iter_Next (mem_node i)) i;
  Prev i := mem_iter_move (iter_Prev KeyComparator (mem_node i)) i;
  key i := mem_iter_key (mem_node i) (mem_table i);
  value i := mem_iter_value (mem_node i) (mem_table i);
  status _ := Ok OK
}.
End MemTable.
