(* ===== verification/MemTableSpec.v ===== *)
(** * The memtable holds the updates made to it *)
From S2P Require Import Prelude Base128 Coding CodingProof Env Order Comparator ComparatorProof DbFormat DbFormatProof WriteBatch WriteBatchProof SkipList SkipListProof.
From S2P Require Import SkipListSet MemTable.

(** ** Reading entries *)
Lemma varint_at_encode v rest : 0 <= v < 2 ^ 32 -> varint_at (EncodeVarint32 v ++ rest) = Ok (v, rest).
Proof.
  intros Hv. unfold varint_at. rewrite EncodeVarint32_varint by done.
  pose proof (zlen_varint32 v Hv) as Hl. unfold zlen in Hl.
  rewrite take_app_ge by lia. rewrite GetVarint32Ptr_varint by done.
  rewrite length_app. replace (_ - _)%nat with (length (varint v)) by lia. by rewrite drop_app_length.
Qed.

Lemma slice_at_encode s rest : zlen s < 2 ^ 32 -> slice_at (EncodeLengthPrefixed s ++ rest) = Ok (s, rest).
Proof.
  intros Hs. pose proof (zlen_nonneg s). pose proof (zlen_nonneg rest).
  unfold slice_at, EncodeLengthPrefixed, PutLengthPrefixedSlice, PutVarint32. rewrite wrap_small, app_nil_l, <- app_assoc by lia.
  rewrite varint_at_encode by lia. cbn [obind]. rewrite zlen_app, (proj2 (Z.ltb_ge _ _)) by lia.
  unfold zlen. by rewrite Nat2Z.id, take_app_length, drop_app_length.
Qed.

(** ** Updates *)
Definition entry_bytes (e : DbEntry) : list Z :=
  EncodeLengthPrefixed (entry_key e) ++ EncodeLengthPrefixed (e_value e).

Section Proof.
Context `{Comparator} (valid : list Z -> Prop) (order : list Z -> list Z -> comparison).
Context {Hlaw : LawfulComparator valid order} (Hbytes : forall k, valid k -> bytes k).

Definition entry_ok (e : DbEntry) : Prop :=
  sequence_ok (e_sequence e) /\ type_ok (e_type e) /\ valid (e_user e) /\ zlen (e_user e) + 8 < 2 ^ 32 /\ zlen (e_value e) < 2 ^ 32.

(** The table's order is that of the internal keys in front of the entries. *)
Definition key_in (data : list Z) : list Z := match slice_at data with Ok (k, _) => k | _ => [] end.
Definition table_order : list Z -> list Z -> comparison := order_on key_in (internal_order order).
Definition table_valid (data : list Z) : Prop :=
  exists k rest, slice_at data = Ok (k, rest) /\ valid_internal valid k.

Lemma table_compare a b : table_valid a -> table_valid b ->
  exists r, KeyComparator a b = Ok r /\ (r ?= 0) = table_order a b.
Proof.
  intros (ka & ra & Ea & Ha) (kb & rb & Eb & Hb). unfold KeyComparator, table_order, order_on, key_in.
  rewrite Ea, Eb. cbn [obind]. by apply (internal_compare_ok valid order).
Qed.

Lemma entry_key_ok e : entry_ok e -> valid_internal valid (entry_key e) /\ zlen (entry_key e) < 2 ^ 32.
Proof.
  intros (Hs & Ht & Hv & Hk & _). unfold entry_key. destruct (encoded_valid (e_user e) (e_sequence e) (e_type e) (Hbytes _ Hv)) as [Hb H8].
  split; [split_and!; [done|done|unfold encoded; by rewrite user_part_join]|]. unfold encoded. by rewrite zlen_join.
Qed.

Lemma entry_slice e : entry_ok e -> slice_at (entry_bytes e) = Ok (entry_key e, EncodeLengthPrefixed (e_value e)).
Proof. intros He. destruct (entry_key_ok e He) as [_ Hl]. by apply slice_at_encode. Qed.

Lemma entry_valid e : entry_ok e -> table_valid (entry_bytes e).
Proof. intros He. eexists _, _. split; [by apply entry_slice|by apply entry_key_ok]. Qed.

Lemma entry_order e e' : entry_ok e -> entry_ok e' ->
  table_order (entry_bytes e) (entry_bytes e') =
    match order (e_user e) (e_user e') with
    | Eq => match e_sequence e' ?= e_sequence e with Eq => e_type e' ?= e_type e | c => c end
    | c => c
    end.
Proof.
  intros He He'. unfold table_order, order_on, key_in. rewrite !entry_slice by done.
  destruct He as (Hs & Ht & _), He' as (Hs' & Ht' & _). by apply (internal_order_encoded order).
Qed.

(** ** The memtable of some updates *)
Definition entries_of (m : MemTable) (es : list DbEntry) : Prop :=
  exists ns, holds table_order table_valid (table_ m) ns (sort table_order (map entry_bytes es)).

Definition newer_seq (es : list DbEntry) (e : DbEntry) : Prop := forall e', e' ∈ es -> e_sequence e' <> e_sequence e.

Lemma new_MemTable_ok : exists m, new_MemTable = Ok m /\ entries_of m [].
Proof.
  destruct (@empty_ok (list Z) table_order table_valid) as (s & E & Hs). unfold new_MemTable. rewrite E. cbn [obind].
  eexists. split; [done|]. by exists [].
Qed.

Lemma fresh_entry es e : Forall entry_ok es -> entry_ok e -> newer_seq es e ->
  mem table_order (entry_bytes e) (sort table_order (map entry_bytes es)) = false.
Proof.
  intros Hes He Hnew. apply not_true_is_false. intros (x & Hx%list_elem_of_In & Hs)%existsb_exists.
  apply elem_of_sort, list_elem_of_fmap in Hx as (e' & -> & He'). rewrite Forall_forall in Hes.
  unfold same in Hs. rewrite entry_order in Hs by (done || by apply Hes).
  destruct (order (e_user e) (e_user e')); try done. destruct (Z.compare_spec (e_sequence e') (e_sequence e)) as [E| |]; try done.
  by apply (Hnew e' He').
Qed.

(** The buffer that is built is the encoded entry, and has the right size. *)
Lemma EncodeVarint32_size n : 0 <= n < 2 ^ 32 -> VarintLength n = zlen (EncodeVarint32 n).
Proof. intros Hn. rewrite VarintLength_varint by lia. by rewrite EncodeVarint32_varint. Qed.

Lemma entry_buffer e : entry_ok e ->
  EncodeVarint32 (wrap 32 (wrap 64 (zlen (e_user e) + 8))) ++ e_user e
    ++ EncodeFixed64 (Z.lor (wrap 64 (Z.shiftl (e_sequence e) 8)) (e_type e))
    ++ EncodeVarint32 (wrap 32 (zlen (e_value e))) ++ e_value e = entry_bytes e.
Proof.
  intros (Hs & Ht & _ & Hk & _). pose proof (zlen_nonneg (e_user e)).
  pose proof (PackSequenceAndType_ok _ _ Hs Ht) as Hp. unfold PackSequenceAndType, assert in Hp.
  destruct (_ <=? _) in Hp; [|done]. destruct (_ <=? _) in Hp; [|done]. injection Hp as ->.
  rewrite EncodeFixed64_le. unfold entry_bytes, EncodeLengthPrefixed, PutLengthPrefixedSlice, PutVarint32, entry_key, encoded.
  rewrite zlen_join, (wrap_small 64) by lia. by rewrite !app_nil_l, <- !app_assoc.
Qed.

Lemma entry_size e : entry_ok e ->
  wrap 64 (VarintLength (wrap 64 (zlen (e_user e) + 8)) + wrap 64 (zlen (e_user e) + 8)
    + VarintLength (zlen (e_value e)) + zlen (e_value e)) = zlen (entry_bytes e).
Proof.
  intros (_ & _ & _ & Hk & Hval). pose proof (zlen_nonneg (e_user e)). pose proof (zlen_nonneg (e_value e)).
  rewrite (wrap_small 64 (zlen (e_user e) + 8)), !EncodeVarint32_size by lia.
  unfold entry_bytes, EncodeLengthPrefixed, PutLengthPrefixedSlice, PutVarint32.
  unfold entry_key, encoded. rewrite !app_nil_l, !zlen_app. change (zlen (le_bytes 8 _)) with 8.
  rewrite (wrap_small 32 (zlen (e_user e) + 8)), (wrap_small 32 (zlen (e_value e))) by lia.
  pose proof (zlen_varint32 (zlen (e_user e) + 8) ltac:(lia)). pose proof (zlen_varint32 (zlen (e_value e)) ltac:(lia)).
  rewrite !EncodeVarint32_varint by lia. rewrite wrap_small; [lia|].
  pose proof (zlen_nonneg (varint (zlen (e_user e) + 8))). pose proof (zlen_nonneg (varint (zlen (e_value e)))). lia.
Qed.

Lemma Add_ok m es e : Forall entry_ok es -> entry_ok e -> newer_seq es e -> entries_of m es ->
  exists m', Add (e_sequence e) (e_type e) (e_user e) (e_value e) m = Ok m' /\ entries_of m' (es ++ [e]).
Proof.
  intros Hes He Hnew (ns & Hh). unfold Add. cbv zeta.
  rewrite (entry_buffer e He), (entry_size e He), Z.ltb_irrefl, Z.eqb_refl. cbn [assert].
  destruct (insert_ok KeyComparator table_order table_valid table_compare (table_ m) ns _ (entry_bytes e) Hh
    (entry_valid e He) (fresh_entry es e Hes He Hnew)) as (t & seen & E & Ht' & _).
  unfold Insert. rewrite E. cbn [obind]. eexists. split; [done|].
  exists (insert_at (place table_order (entry_bytes e) (sort table_order (map entry_bytes es))) (length (nodes (table_ m))) ns).
  cbn [table_]. rewrite map_app. change (map entry_bytes [e]) with [entry_bytes e]. by rewrite sort_snoc.
Qed.

(** ** Looking a key up *)
Definition visible (u : list Z) (s : Z) (e : DbEntry) : Prop := order (e_user e) u = Eq /\ e_sequence e <= s.

(** The entry the search stops at. *)
Lemma seek_entry m es key : entries_of m es -> Forall entry_ok es -> table_valid key ->
  match iter_Seek KeyComparator key (table_ m) with
  | Ok None => forall e, e ∈ es -> table_order (entry_bytes e) key = Lt
  | Ok (Some x) => exists e, e ∈ es /\ get_key x (table_ m) = Ok (entry_bytes e) /\
      table_order (entry_bytes e) key <> Lt /\
      forall e', e' ∈ es -> table_order (entry_bytes e') key <> Lt -> table_order (entry_bytes e) (entry_bytes e') <> Gt
  | _ => False
  end.
Proof.
  intros (ns & Hh) Hes Hkey. rewrite (place_seek_ok KeyComparator table_order table_valid table_compare (table_ m) ns _ key Hh Hkey).
  destruct (holds_keys table_order table_valid _ _ _ Hh) as (Hs & _ & Hlen).
  pose proof (at_place table_order key _ Hs) as Hat.
  assert (Hin : forall e, e ∈ es -> entry_bytes e ∈ sort table_order (map entry_bytes es)).
  { intros e He. apply elem_of_sort, list_elem_of_fmap. by exists e. }
  destruct (ns !! place table_order key (sort table_order (map entry_bytes es))) as [x|] eqn:Ex.
  - destruct (holds_key_at table_order table_valid _ _ _ _ _ Hh Ex) as (k & Hk & Eg & _). rewrite Hk in Hat.
    destruct Hat as (Hkin & Hge & Hmin). apply elem_of_sort, list_elem_of_fmap in Hkin as (e & -> & He).
    exists e. split; [done|]. split; [done|]. split; [done|]. intros e' He'. by apply Hmin, Hin.
  - apply lookup_ge_None in Ex. rewrite lookup_ge_None_2 in Hat by lia. intros e He. by apply Hat, Hin.
Qed.

(** The key a search for [u] at [s] starts from. *)
Definition seek_key (u : list Z) (s : Z) : list Z := EncodeLengthPrefixed (encoded u s kValueTypeForSeek).

Lemma seek_key_valid u s : valid u -> zlen u + 8 < 2 ^ 32 ->
  table_valid (seek_key u s) /\ key_in (seek_key u s) = encoded u s kValueTypeForSeek.
Proof.
  intros Hu Hl. pose proof (slice_at_encode (encoded u s kValueTypeForSeek) []) as E. rewrite app_nil_r in E.
  fold (seek_key u s) in E. specialize (E ltac:(unfold encoded; rewrite zlen_join; lia)).
  destruct (encoded_valid u s kValueTypeForSeek (Hbytes _ Hu)) as [Hb H8]. split.
  - exists (encoded u s kValueTypeForSeek), []. split; [done|].
    split_and!; [done|done|unfold encoded; by rewrite user_part_join].
  - unfold key_in. by rewrite E.
Qed.

Lemma seek_order e u s : entry_ok e -> valid u -> zlen u + 8 < 2 ^ 32 -> sequence_ok s ->
  (table_order (entry_bytes e) (seek_key u s) = Lt <-> order (e_user e) u = Lt \/ (order (e_user e) u = Eq /\ s < e_sequence e)).
Proof.
  intros He Hu Hl Hs. destruct (seek_key_valid u s Hu Hl) as [_ Ek]. unfold table_order, order_on.
  rewrite Ek. unfold key_in. rewrite (entry_slice e He). destruct He as (Hes & Het & _).
  unfold entry_key. rewrite (internal_order_encoded order) by (done || by right).
  destruct (order (e_user e) u); [|intuition done|intuition (try done; lia)].
  destruct (Z.compare_spec s (e_sequence e)) as [->|Hlt|Hgt]; [|by intuition|by split; [|intros [|[_ ?]]; [|lia]]].
  unfold type_ok, kTypeDeletion, kValueTypeForSeek, kTypeValue in *.
  split; [|intros [|[_ ?]]; [done|lia]]. intros Hc%(proj1 (Z.compare_lt_iff 1 (e_type e))). lia.
Qed.

(** What [Get] does with the entry it found. *)
Lemma read_entry e u value st : entry_ok e -> valid u ->
  (let! (key_length, key_ptr) := varint_at (entry_bytes e) in
   let user_size := wrap 32 (key_length - 8) in
   if zlen key_ptr <? user_size then UB OverRead
   else
     let! r := Compare (take (Z.to_nat user_size) key_ptr) u in
     if r =? 0 then
       let! tag := DecodeFixed64 (drop (Z.to_nat (key_length - 8)) key_ptr) in
       let t := Z.land tag 0xff in
       if t =? kTypeValue then
         let! (v, _) := slice_at (drop (Z.to_nat key_length) key_ptr) in
         Ok (true, v, st)
       else if t =? kTypeDeletion then Ok (true, value, NotFound "")
       else Ok (false, value, st)
     else Ok (false, value, st)) =
  Ok (match order (e_user e) u with
      | Eq => if e_type e =? kTypeValue then (true, e_value e, st) else (true, value, NotFound "")
      | _ => (false, value, st)
      end).
Proof.
  intros He Hu. pose proof He as (Hs & Ht & Hv & Hk & Hval). destruct (entry_key_ok e He) as [_ Hl].
  pose proof (zlen_nonneg (e_user e)). pose proof (zlen_nonneg (entry_key e)). pose proof (zlen_nonneg (EncodeLengthPrefixed (e_value e))).
  assert (Hz : zlen (entry_key e) = zlen (e_user e) + 8) by apply zlen_join.
  unfold entry_bytes. unfold EncodeLengthPrefixed at 1, PutLengthPrefixedSlice, PutVarint32.
  rewrite wrap_small, app_nil_l, <- app_assoc, varint_at_encode by lia. cbn [obind]. cbv zeta.
  rewrite zlen_app, wrap_small by lia. rewrite Hz at 1. rewrite (proj2 (Z.ltb_ge _ _)) by lia.
  assert (Huser : Z.to_nat (zlen (entry_key e) - 8) = length (e_user e)) by (unfold zlen in *; lia).
  assert (Hend : Z.to_nat (zlen (entry_key e)) = length (entry_key e)) by (unfold zlen; lia).
  rewrite Huser, Hend, drop_app_length.
  unfold entry_key, encoded. rewrite <- app_assoc, take_app_length, drop_app_length.
  destruct (compare_law (e_user e) u Hv Hu) as (r & -> & <-). cbn [obind].
  destruct r; cbn [Z.eqb Z.compare]; [|done|done].
  pose proof (pack_range _ _ Hs Ht). rewrite DecodeFixed64_le, wrap_small by lia. cbn [obind].
  rewrite (pack_type _ _ Hs Ht). pose proof (slice_at_encode (e_value e) [] Hval) as E. rewrite app_nil_r in E. rewrite E.
  cbn [obind]. unfold type_ok, kTypeValue, kTypeDeletion in *. by destruct Ht as [-> | ->].
Qed.

(** The version a read at [s] is to find, if any. *)
Definition newest (es : list DbEntry) (u : list Z) (s : Z) (e : DbEntry) : Prop :=
  e ∈ es /\ visible u s e /\ forall e', e' ∈ es -> visible u s e' -> e_sequence e' <= e_sequence e.

Lemma Get_ok m es u s k value st :
  entries_of m es -> Forall entry_ok es -> valid u -> sequence_ok s -> zlen u + 8 < 2 ^ 32 -> new_LookupKey u s = Ok k ->
  (exists e, newest es u s e /\
     Get k value st m = Ok (if e_type e =? kTypeValue then (true, e_value e, st) else (true, value, NotFound ""))) \/
  ((forall e, e ∈ es -> ~ visible u s e) /\ Get k value st m = Ok (false, value, st)).
Proof.
  intros Hm Hes Hu Hs Hl Ek. destruct (new_LookupKey_ok u s Hs Hl) as (k' & Ek' & _ & Emem & Euser).
  rewrite Ek in Ek'. injection Ek' as <-. unfold Get. rewrite Emem, Euser. fold (seek_key u s).
  pose proof (seek_entry m es (seek_key u s) Hm Hes (proj1 (seek_key_valid u s Hu Hl))) as Hseek.
  rewrite Forall_forall in Hes.
  assert (Hvis : forall e, e ∈ es -> visible u s e -> table_order (entry_bytes e) (seek_key u s) <> Lt).
  { intros e He [Ev Hle] Hlt. apply seek_order in Hlt as [E|[_ Hgt]]; [congruence|lia|by apply Hes|done..]. }
  destruct (iter_Seek KeyComparator (seek_key u s) (table_ m)) as [[x|]| |]; [| |done|done]; cbn [obind iter_Valid].
  - destruct Hseek as (e & He & Eg & Hge & Hmin). cbn [iter_key]. rewrite Eg. cbn [obind].
    pose proof (read_entry e u value st (Hes e He) Hu) as Er. cbn [obind] in Er. cbv zeta in Er |- *. rewrite Er. clear Er.
    assert (Hfirst : forall e', e' ∈ es -> visible u s e' -> table_order (entry_bytes e) (entry_bytes e') <> Gt)
      by (intros e' He' Hv; apply Hmin; [done|by apply Hvis]).
    destruct (order (e_user e) u) eqn:Eu.
    + left. exists e. split; [|done]. split; [done|].
      assert (Hse : e_sequence e <= s).
      { apply Z.nlt_ge. intros Hgt. apply Hge, seek_order; [by apply Hes|done|done|done|by right]. }
      split; [done|]. intros e' He' Hv. specialize (Hfirst e' He' Hv). rewrite entry_order in Hfirst by by apply Hes.
      destruct Hv as [Ev _]. rewrite (order_eq_l order _ _ _ Eu), (order_antisym (e_user e') u), Ev in Hfirst. cbn [CompOpp] in Hfirst.
      destruct (Z.compare_spec (e_sequence e') (e_sequence e)); [lia|lia|done].
    + exfalso. apply Hge, seek_order; [by apply Hes|done|done|done|by left].
    + right. split; [|done]. intros e' He' Hv. specialize (Hfirst e' He' Hv). rewrite entry_order in Hfirst by by apply Hes.
      destruct Hv as [Ev _]. rewrite (order_eq_r order (e_user e) (e_user e') u Ev), Eu in Hfirst. done.
  - right. split; [|done]. intros e He Hv. by apply (Hvis e He Hv), Hseek.
Qed.
End Proof.

(** ** What the memtable guarantees

    A lookup finds the newest visible version of its key, also when the
    updates came in through a write batch. *)
Section Spec.
Context `{Comparator} (valid : list Z -> Prop) (order : list Z -> list Z -> comparison).
Context {Hlaw : LawfulComparator valid order} (Hbytes : forall k, valid k -> bytes k).

Fixpoint add_all (es : list DbEntry) (m : MemTable) : outcome MemTable :=
  match es with
  | [] => Ok m
  | e :: es' => let! m := Add (e_sequence e) (e_type e) (e_user e) (e_value e) m in add_all es' m
  end.

Fixpoint seqs_distinct (es : list DbEntry) : Prop :=
  match es with [] => True | e :: es' => newer_seq es' e /\ seqs_distinct es' end.

Lemma add_all_ok es : forall done_es m, Forall (entry_ok valid) (done_es ++ es) ->
  (forall e, e ∈ es -> newer_seq done_es e) -> seqs_distinct es -> entries_of valid order m done_es ->
  exists m', add_all es m = Ok m' /\ entries_of valid order m' (done_es ++ es).
Proof.
  induction es as [|e es IH]; intros done_es m Hok Hnew Hd Hm.
  - rewrite app_nil_r. by exists m.
  - destruct Hd as [Hne Hd]. apply Forall_app in Hok as [Hdone [He Hes]%Forall_cons].
    destruct (Add_ok valid order Hbytes m done_es e Hdone He (Hnew e ltac:(apply elem_of_cons; by left)) Hm) as (m1 & E & Hm1).
    cbn [add_all]. rewrite E. cbn [obind].
    replace (done_es ++ e :: es) with ((done_es ++ [e]) ++ es) by by rewrite <- app_assoc.
    apply IH; [|intros e' He' e'' Hin|done|done].
    + rewrite <- app_assoc. apply Forall_app. split; [done|]. by constructor.
    + apply elem_of_app in Hin as [Hin|Hin%list_elem_of_singleton].
      * apply (Hnew e'); [apply elem_of_cons; by right|done].
      * subst e''. intros E'. by apply (Hne e').
Qed.

(** C11: lookups.  After updates with distinct sequence numbers, in any order,
    every insertion succeeds, and a lookup of a user key at a sequence number
    finds the newest of its versions that are not later: its value, or
    [NotFound] for a deletion; it finds nothing exactly when there is no such
    version.  What it does not set it leaves alone. *)
Theorem memtable_get es :
  Forall (entry_ok valid) es -> seqs_distinct es ->
  exists m0 m, new_MemTable = Ok m0 /\ add_all es m0 = Ok m /\
    forall u s value st, valid u -> sequence_ok s -> zlen u + 8 < 2 ^ 32 ->
      exists k, new_LookupKey u s = Ok k /\
        ((exists e, newest order es u s e /\
            Get k value st m = Ok (if e_type e =? kTypeValue then (true, e_value e, st) else (true, value, NotFound ""))) \/
         ((forall e, e ∈ es -> ~ visible order u s e) /\ Get k value st m = Ok (false, value, st))).
Proof.
  intros Hok Hd. destruct (new_MemTable_ok valid order) as (m0 & E0 & H0).
  destruct (add_all_ok es [] m0 Hok) as (m & E & Hm); [by intros e _ e' H'%elem_of_nil|done|done|].
  exists m0, m. split; [done|]. split; [done|]. intros u s value st Hu Hs Hl.
  destruct (new_LookupKey_ok u s Hs Hl) as (k & Ek & _). exists k. split; [done|].
  by apply (Get_ok valid order Hbytes m es u s k value st Hm).
Qed.

(** ** Batches *)

(** The entries of updates under consecutive sequence numbers. *)
Definition entry_of (seq : Z) (u : update) : DbEntry :=
  match u with
  | PutUpdate k v => mk_entry k seq kTypeValue v
  | DeleteUpdate k => mk_entry k seq kTypeDeletion []
  end.
Fixpoint entries_from (seq : Z) (us : list update) : list DbEntry :=
  match us with [] => [] | u :: us' => entry_of seq u :: entries_from (seq + 1) us' end.

(** The last update of a key that is not later than [s]. *)
Fixpoint last_update (seq : Z) (us : list update) (key : list Z) (s : Z) : option update :=
  match us with
  | [] => None
  | u :: us' =>
      match last_update (seq + 1) us' key s with
      | Some x => Some x
      | None => if (seq <=? s) && same order (e_user (entry_of seq u)) key then Some u else None
      end
  end.

Definition update_valid (u : update) : Prop :=
  valid (e_user (entry_of 0 u)) /\ zlen (e_user (entry_of 0 u)) + 8 < 2 ^ 32 /\ zlen (e_value (entry_of 0 u)) < 2 ^ 32.

Lemma entry_of_seq q u : e_sequence (entry_of q u) = q.
Proof. by destruct u. Qed.

Lemma entries_from_seq us : forall seq e, e ∈ entries_from seq us -> seq <= e_sequence e < seq + zlen us.
Proof.
  induction us as [|u us IH]; intros seq e He; [by apply elem_of_nil in He|]. rewrite zlen_cons. pose proof (zlen_nonneg us).
  cbn [entries_from] in He. apply elem_of_cons in He as [E|He]; [|specialize (IH _ _ He); lia].
  rewrite E, entry_of_seq. lia.
Qed.

Lemma entries_from_ok us : forall seq, Forall update_valid us -> 0 <= seq -> seq + zlen us <= kMaxSequenceNumber + 1 ->
  Forall (entry_ok valid) (entries_from seq us) /\ seqs_distinct (entries_from seq us).
Proof.
  induction us as [|u us IH]; intros seq Hu H0 Hs; [by split|]. inversion Hu as [|? ? (Hv & Hk & Hval) Hu']; subst.
  rewrite zlen_cons in Hs. pose proof (zlen_nonneg us). destruct (IH (seq + 1) Hu' ltac:(lia) ltac:(lia)) as [Hok Hd]. split.
  - constructor; [|done]. unfold entry_ok, sequence_ok. (split; [rewrite entry_of_seq; lia|split; [destruct u; by (left + right)|by destruct u]]).
  - split; [|done]. intros e He. apply entries_from_seq in He. rewrite entry_of_seq. lia.
Qed.

Lemma add_updates_all us : forall seq m,
  add_updates (H := memtable_ops) seq us m = add_all (entries_from seq us) m.
Proof.
  induction us as [|u us IH]; intros seq m; [done|]. cbn [add_updates entries_from add_all].
  destruct u; cbn [entry_of e_sequence e_type e_user e_value]; unfold mem_Add, memtable_ops; destruct (Add _ _ _ _ m); cbn [obind]; done.
Qed.

(** The last update is the newest entry. *)
Lemma last_update_newest us : forall seq key s,
  match last_update seq us key s with
  | Some u => exists q, newest order (entries_from seq us) key s (entry_of q u)
  | None => forall e, e ∈ entries_from seq us -> ~ visible order key s e
  end.
Proof.
  induction us as [|u us IH]; intros seq key s; [by intros e He%elem_of_nil|]. cbn [last_update entries_from].
  specialize (IH (seq + 1) key s). destruct (last_update (seq + 1) us key s) as [x|].
  - destruct IH as (q & Hin & Hv & Hmax). exists q. split; [apply elem_of_cons; by right|]. split; [done|].
    intros e' [->|He']%elem_of_cons Hv'; [|by apply Hmax]. apply entries_from_seq in Hin.
    rewrite !entry_of_seq in *. lia.
  - destruct ((seq <=? s) && same order (e_user (entry_of seq u)) key) eqn:E.
    + apply andb_true_iff in E as [Hle%Z.leb_le Hsame]. exists seq. split; [apply elem_of_cons; by left|].
      split; [split; [unfold same in Hsame; by destruct (order _ _)|by rewrite entry_of_seq]|].
      intros e' [->|He']%elem_of_cons Hv'; [done|]. by destruct (IH e' He').
    + intros e [->|He]%elem_of_cons; [|by apply IH]. intros [Hk Hs]. rewrite entry_of_seq in Hs.
      rewrite (proj2 (Z.leb_le _ _) Hs) in E. unfold same in E. by rewrite Hk in E.
Qed.

Lemma seqs_distinct_eq es e e' : seqs_distinct es -> e ∈ es -> e' ∈ es -> e_sequence e = e_sequence e' -> e = e'.
Proof.
  induction es as [|e0 es IH]; [by intros _ He%elem_of_nil|]. intros [Hne Hd] [->|He]%elem_of_cons [->|He']%elem_of_cons E.
  - done.
  - by destruct (Hne e' He').
  - by destruct (Hne e He).
  - by apply IH.
Qed.

(** C10: a batch becomes visible.  A batch of updates inserted into a new
    memtable at a sequence number succeeds; a lookup then finds, at any
    sequence number, the last update of its key that is not later: its value
    if it is a put, [NotFound] if it is a deletion. *)
Theorem batch_visible us seq :
  Forall update_valid us -> zlen us < 2 ^ 31 -> 0 <= seq -> seq + zlen us <= kMaxSequenceNumber + 1 ->
  exists a b m0 m, apply_updates us new_WriteBatch = Ok a /\ SetSequence a seq = Ok b /\ new_MemTable = Ok m0 /\
    InsertInto (H := memtable_ops) b m0 = Ok (OK, m) /\
    forall u s value st, valid u -> sequence_ok s -> zlen u + 8 < 2 ^ 32 ->
      exists k, new_LookupKey u s = Ok k /\
        Get k value st m =
          Ok (match last_update seq us u s with
              | Some (PutUpdate _ v) => (true, v, st)
              | Some (DeleteUpdate _) => (true, value, NotFound "")
              | None => (false, value, st)
              end).
Proof.
  intros Hu Hl H0 Hs. pose proof (zlen_nonneg us).
  assert (Hok : Forall update_ok us).
  { eapply Forall_impl; [exact Hu|]. intros [k v|k] (_ & Hk & Hv); cbn in Hk, Hv |- *; lia. }
  destruct (apply_updates_ok us [] _ _ new_holds) as (a & Ea & Ha); [rewrite zlen_nil; lia|]. cbn [app] in Ha.
  destruct (SetSequence_ok a 0 us Ha seq) as (b & Eb & Hb).
  destruct (new_MemTable_ok valid order) as (m0 & E0 & Hm0).
  destruct (entries_from_ok us seq Hu H0 Hs) as [Hes Hd].
  destruct (add_all_ok (entries_from seq us) [] m0 Hes) as (m & E & Hm); [by intros e _ e' H'%elem_of_nil|done|done|].
  exists a, b, m0, m. split; [done|]. split; [done|]. split; [done|]. split.
  - rewrite (InsertInto_ok b seq us m0 Hb) by (done || (change (kMaxSequenceNumber + 1) with (2 ^ 56) in Hs; lia)).
    by rewrite add_updates_all, E.
  - intros u s value st Hvu Hvs Hvl. destruct (new_LookupKey_ok u s Hvs Hvl) as (k & Ek & _). exists k. split; [done|].
    pose proof (last_update_newest us seq u s) as Hlast.
    destruct (Get_ok valid order Hbytes m _ u s k value st Hm Hes Hvu Hvs Hvl Ek) as [(e & He & ->)|[Hnone ->]].
    + destruct (last_update seq us u s) as [x|]; [|by destruct (Hlast e); apply He].
      destruct Hlast as (q & Hx). assert (e = entry_of q x) as ->; [|by destruct x].
      destruct He as (Hin & Hv & Hmax), Hx as (Hin' & Hv' & Hmax'). apply (seqs_distinct_eq _ _ _ Hd Hin Hin').
      specialize (Hmax _ Hin' Hv'). specialize (Hmax' _ Hin Hv). lia.
    + destruct (last_update seq us u s) as [x|]; [|done]. destruct Hlast as (q & Hin & Hv & _). by destruct (Hnone _ Hin).
Qed.
End Spec.

(** ** Concrete runs *)
#[local] Ltac concrete_list := repeat (apply Forall_cons_2; [by vm_compute|]); by apply Forall_nil_2.

#[local] Lemma small_bytes l : forallb (fun b => (0 <=? b) && (b <? 256)) l = true -> bytes l.
Proof.
  intros Hl. apply Forall_forall. intros b Hb%list_elem_of_In. rewrite forallb_forall in Hl. specialize (Hl b Hb).
  unfold is_byte. lia.
Qed.

Lemma batch_visible_witness :
  exists a b m0 m k k', apply_updates [PutUpdate [1] [2; 3]; PutUpdate [4] [9]; DeleteUpdate [1]] new_WriteBatch = Ok a /\
    SetSequence a 40 = Ok b /\ @new_MemTable = Ok m0 /\
    InsertInto (H := @memtable_ops BytewiseComparator) b m0 = Ok (OK, m) /\
    new_LookupKey [1] 41 = Ok k /\ @Get BytewiseComparator k [] OK m = Ok (true, [2; 3], OK) /\
    new_LookupKey [1] 42 = Ok k' /\ @Get BytewiseComparator k' [] OK m = Ok (true, [], NotFound "").
Proof.
  destruct (@batch_visible BytewiseComparator bytes lex bytewise_lawful (fun k H => H)
    [PutUpdate [1] [2; 3]; PutUpdate [4] [9]; DeleteUpdate [1]] 40)
    as (a & b & m0 & m & Ea & Eb & E0 & Em & H).
  - repeat (apply Forall_cons_2; [split; [by apply small_bytes|by split]|]). apply Forall_nil_2.
  - by vm_compute.
  - lia.
  - by vm_compute.
  - destruct (H [1] 41 [] OK ltac:(by apply small_bytes) ltac:(by vm_compute) ltac:(by vm_compute)) as (k & Ek & Eg).
    destruct (H [1] 42 [] OK ltac:(by apply small_bytes) ltac:(by vm_compute) ltac:(by vm_compute)) as (k' & Ek' & Eg').
    exists a, b, m0, m, k, k'. auto 10.
Defined.

Lemma memtable_get_witness :
  exists m0 m k, @new_MemTable = Ok m0 /\
    @add_all BytewiseComparator [mk_entry [1] 7 kTypeValue [5]; mk_entry [1] 3 kTypeValue [6]] m0 = Ok m /\
    new_LookupKey [1] 6 = Ok k /\ exists e, newest lex [mk_entry [1] 7 kTypeValue [5]; mk_entry [1] 3 kTypeValue [6]] [1] 6 e /\
      @Get BytewiseComparator k [] OK m = Ok (if e_type e =? kTypeValue then (true, e_value e, OK) else (true, [], NotFound "")).
Proof.
  destruct (@memtable_get BytewiseComparator bytes lex bytewise_lawful (fun k H => H)
    [mk_entry [1] 7 kTypeValue [5]; mk_entry [1] 3 kTypeValue [6]]) as (m0 & m & E0 & E & H).
  - repeat (apply Forall_cons_2; [split_and!; [by vm_compute|by right|by apply small_bytes|by vm_compute|by vm_compute]|]).
    apply Forall_nil_2.
  - split; [|split; [by intros e' H'%elem_of_nil|done]]. intros e' [->|H'%elem_of_nil]%elem_of_cons; done.
  - destruct (H [1] 6 [] OK ltac:(by apply small_bytes) ltac:(by vm_compute) ltac:(by vm_compute)) as (k & Ek & [(e & He & Eg)|[Hno _]]).
    + exists m0, m, k. split; [exact E0|]. split; [exact E|]. split; [exact Ek|]. by exists e.
    + exfalso. apply (Hno (mk_entry [1] 3 kTypeValue [6])); [apply elem_of_cons; right; apply elem_of_cons; by left|].
      split; [by vm_compute|cbn; lia].
Defined.
