(* ===== verification/Block.v ===== *)
(** * Blocks of a table ([table/block_builder.cc, table/block.cc])

    Entries share a prefix of their key with the entry before, except at the
    restart points, whose offsets end the block. *)
From S2P Require Import Prelude Coding Env Comparator Iterator.

(** ** Building *)
Section BlockBuilder.
Context `{Comparator} (block_restart_interval : Z).

Record BlockBuilder : Type := mk_builder {
  buffer_ : list Z;
  restarts_ : list Z;
  counter_ : Z;
  finished_ : bool;
  last_key_ : list Z
}.

Definition new_BlockBuilder : outcome BlockBuilder :=
  assert (1 <=? block_restart_interval) (Ok (mk_builder [] [0] 0 false [])).
Definition Reset (b : BlockBuilder) : BlockBuilder := mk_builder [] [0] 0 false [].
Definition empty (b : BlockBuilder) : bool := zlen (buffer_ b) =? 0.
Definition CurrentSizeEstimate (b : BlockBuilder) : Z :=
  wrap 64 (wrap 64 (zlen (buffer_ b) + zlen (restarts_ b) * 4) + 4).

(** The contents and the builder. *)
Definition Finish (b : BlockBuilder) : list Z * BlockBuilder :=
  let buffer := fold_left PutFixed32 (restarts_ b) (buffer_ b) in
  let buffer := PutFixed32 buffer (wrap 32 (zlen (restarts_ b))) in
  (buffer, mk_builder buffer (restarts_ b) (counter_ b) true (last_key_ b)).

(** The loop that counts the shared bytes is that of [common_prefix]. *)
Definition Add (key value : list Z) (b : BlockBuilder) : outcome BlockBuilder :=
  let last_key_piece := last_key_ b in
  assert (negb (finished_ b))
  (assert (counter_ b <=? block_restart_interval)
  (let! larger := (if empty b then Ok true
                   else let! r := Compare key last_key_piece in Ok (0 <? r)) in
   assert larger
   (let '(shared, restarts, counter) :=
      if counter_ b <? block_restart_interval then
        let min_length := Nat.min (length last_key_piece) (length key) in
        (common_prefix min_length last_key_piece key, restarts_ b, counter_ b)
      else (0%nat, restarts_ b ++ [wrap 32 (zlen (buffer_ b))], 0) in
    let non_shared := zlen key - Z.of_nat shared in
    let buffer := PutVarint32 (buffer_ b) (wrap 32 (Z.of_nat shared)) in
    let buffer := PutVarint32 buffer (wrap 32 non_shared) in
    let buffer := PutVarint32 buffer (wrap 32 (zlen value)) in
    let buffer := buffer ++ drop shared key ++ value in
    let last_key := take shared last_key_piece ++ drop shared key in
    assert (bool_decide (last_key = key))
    (let! counter := int_add counter 1 in
     Ok (mk_builder buffer restarts counter (finished_ b) last_key))))).
End BlockBuilder.

(** ** Reading *)

(** [restart_offset_] is not set when [size_] is 0, nor used. *)
Record Block : Type := mk_block { data_ : list Z; size_ : Z; restart_offset_ : Z }.

Definition NumRestarts (data : list Z) (size : Z) : outcome Z :=
  assert (4 <=? size) (DecodeFixed32 (drop (Z.to_nat (size - 4)) data)).

Definition new_Block (contents : list Z) : outcome Block :=
  let size := zlen contents in
  if size <? 4 then Ok (mk_block contents 0 0)
  else
    let max_restarts_allowed := (size - 4) / 4 in
    let! n := NumRestarts contents size in
    if max_restarts_allowed <? n then Ok (mk_block contents 0 0)
    else Ok (mk_block contents size (wrap 32 (size - wrap 32 (1 + n) * 4))).

(** The three numbers in front of an entry, each in one byte when all are
    small, and what follows them. *)
Definition entry_header (p : list Z) : option (Z * Z * Z * list Z) :=
  match p with
  | b0 :: b1 :: b2 :: fast =>
      if Z.lor (Z.lor b0 b1) b2 <? 128 then Some (b0, b1, b2, fast)
      else
        match GetVarint32Ptr p with
        | None => None
        | Some (shared, p) =>
            match GetVarint32Ptr p with
            | None => None
            | Some (non_shared, p) =>
                match GetVarint32Ptr p with
                | None => None
                | Some (value_length, p) => Some (shared, non_shared, value_length, p)
                end
            end
        end
  | _ => None
  end.

(** [p] is what is left up to [limit]; the result has the rest of it from the
    key delta on. *)
Definition DecodeEntry (p : list Z) : option (Z * Z * Z * list Z) :=
  match entry_header p with
  | None => None
  | Some (shared, non_shared, value_length, p) =>
      if wrap 32 (zlen p) <? wrap 32 (non_shared + value_length) then None
      else Some (shared, non_shared, value_length, p)
  end.

Section Iter.
Context `{Comparator} (data_ : list Z) (restarts_ num_restarts_ : Z).

(** [value_] is where the slice starts in [data_] and its size, [None] when
    it is the empty slice of no block. *)
Record Iter : Type := mk_iter {
  current_ : Z;
  restart_index_ : Z;
  key_ : list Z;
  value_ : option (Z * Z);
  status_ : Status
}.

(** [size] bytes of the block from an offset on. *)
Definition bytes_at (offset size : Z) : outcome (list Z) :=
  if zlen data_ <? offset + size then UB OverRead
  else Ok (take (Z.to_nat size) (drop (Z.to_nat offset) data_)).

Definition NextEntryOffset (it : Iter) : outcome Z :=
  match value_ it with
  | Some (offset, size) => Ok (wrap 32 (offset + size))
  | None => UB BadAccess
  end.

Definition GetRestartPoint (index : Z) : outcome Z :=
  assert (index <? num_restarts_) (DecodeFixed32 (drop (Z.to_nat (restarts_ + index * 4)) data_)).

Definition SeekToRestartPoint (index : Z) (it : Iter) : outcome Iter :=
  let! offset := GetRestartPoint index in
  Ok (mk_iter (current_ it) index [] (Some (offset, 0)) (status_ it)).

Definition new_Iter : outcome Iter :=
  assert (0 <? num_restarts_) (Ok (mk_iter restarts_ num_restarts_ [] None OK)).

Definition iter_Valid (it : Iter) : bool := current_ it <? restarts_.
Definition iter_key (it : Iter) : outcome (list Z) := assert (iter_Valid it) (Ok (key_ it)).
Definition iter_value (it : Iter) : outcome (list Z) :=
  assert (iter_Valid it)
  (match value_ it with Some (offset, size) => bytes_at offset size | None => Ok [] end).

Definition CorruptionError (it : Iter) : Iter :=
  mk_iter restarts_ num_restarts_ [] None (Corruption "bad entry in block").

(** [while (restart_index_ + 1 < num_restarts_ && ...) ++restart_index_]. *)
Fixpoint restart_loop (fuel : nat) (restart_index current : Z) : outcome Z :=
  match fuel with
  | O => Timeout
  | S n =>
      if wrap 32 (restart_index + 1) <? num_restarts_ then
        let! point := GetRestartPoint (wrap 32 (restart_index + 1)) in
        if point <? current then restart_loop n (wrap 32 (restart_index + 1)) current else Ok restart_index
      else Ok restart_index
  end.

Definition ParseNextKey (it : Iter) : outcome (bool * Iter) :=
  let! current := NextEntryOffset it in
  if restarts_ <=? current then
    Ok (false, mk_iter restarts_ num_restarts_ (key_ it) (value_ it) (status_ it))
  else
    match DecodeEntry (drop (Z.to_nat current) (take (Z.to_nat restarts_) data_)) with
    | None => Ok (false, CorruptionError it)
    | Some (shared, non_shared, value_length, rest) =>
        if zlen (key_ it) <? shared then Ok (false, CorruptionError it)
        else
          let p := restarts_ - zlen rest in
          let! delta := bytes_at p non_shared in
          let key := take (Z.to_nat shared) (key_ it) ++ delta in
          let! index := restart_loop (S (Z.to_nat num_restarts_)) (restart_index_ it) current in
          Ok (true, mk_iter current index key (Some (p + non_shared, value_length)) (status_ it))
    end.

Definition iter_Next (it : Iter) : outcome Iter :=
  assert (iter_Valid it) (let! (_, it) := ParseNextKey it in Ok it).

Definition iter_SeekToFirst (it : Iter) : outcome Iter :=
  let! it := SeekToRestartPoint 0 it in let! (_, it) := ParseNextKey it in Ok it.

(** [while (ParseNextKey() && NextEntryOffset() < end)], with or without a
    first turn of [do]. *)
Fixpoint parse_until (fuel : nat) (end_ : Z) (it : Iter) : outcome Iter :=
  match fuel with
  | O => Timeout
  | S n =>
      let! (more, it) := ParseNextKey it in
      if more : bool then
        let! next := NextEntryOffset it in
        if next <? end_ then parse_until n end_ it else Ok it
      else Ok it
  end.

(** A block of [n] bytes has fewer than [n] entries. *)
Definition iter_fuel : nat := S (length data_).

Definition iter_SeekToLast (it : Iter) : outcome Iter :=
  let! it := SeekToRestartPoint (wrap 32 (num_restarts_ - 1)) it in parse_until iter_fuel restarts_ it.

(** Scan backwards to a restart point before [original]; [None] when there is
    none. *)
Fixpoint scan_back (fuel : nat) (original index : Z) : outcome (option Z) :=
  match fuel with
  | O => Timeout
  | S n =>
      let! point := GetRestartPoint index in
      if original <=? point then
        if index =? 0 then Ok None else scan_back n original (index - 1)
      else Ok (Some index)
  end.

Definition iter_Prev (it : Iter) : outcome Iter :=
  assert (iter_Valid it)
  (let original := current_ it in
   let! index := scan_back (S (Z.to_nat num_restarts_)) original (restart_index_ it) in
   match index with
   | None => Ok (mk_iter restarts_ num_restarts_ (key_ it) (value_ it) (status_ it))
   | Some index =>
       let! it := SeekToRestartPoint index it in
       parse_until iter_fuel original it
   end).

(** The binary search; [None] when an entry is corrupt. *)
Fixpoint search_restarts (fuel : nat) (target : list Z) (left right : Z) : outcome (option Z) :=
  match fuel with
  | O => Timeout
  | S n =>
      if left <? right then
        let mid := wrap 32 (left + right + 1) / 2 in
        let! region_offset := GetRestartPoint mid in
        match DecodeEntry (drop (Z.to_nat region_offset) (take (Z.to_nat restarts_) data_)) with
        | None => Ok None
        | Some (shared, non_shared, _, rest) =>
            if negb (shared =? 0) then Ok None
            else
              let! mid_key := bytes_at (restarts_ - zlen rest) non_shared in
              let! r := Compare mid_key target in
              if r <? 0 then search_restarts n target mid right else search_restarts n target left (mid - 1)
        end
      else Ok (Some left)
  end.

Fixpoint seek_linear (fuel : nat) (target : list Z) (it : Iter) : outcome Iter :=
  match fuel with
  | O => Timeout
  | S n =>
      let! (more, it) := ParseNextKey it in
      if more : bool then
        let! r := Compare (key_ it) target in
        if 0 <=? r then Ok it else seek_linear n target it
      else Ok it
  end.

Definition iter_Seek (target : list Z) (it : Iter) : outcome Iter :=
  let! found := search_restarts (S (Z.to_nat num_restarts_)) target 0 (wrap 32 (num_restarts_ - 1)) in
  match found with
  | None => Ok (CorruptionError it)
  | Some index =>
      let! it := SeekToRestartPoint index it in
      seek_linear iter_fuel target it
  end.

#[global] Instance block_iterator : Iterator Iter := {
  Valid it := Ok (iter_Valid it);
  SeekToFirst := iter_SeekToFirst;
  SeekToLast := iter_SeekToLast;
  Seek := iter_Seek;
  Next := iter_Next;
  Prev := iter_Prev;
  key := iter_key;
  value := iter_value;
  status it := Ok (status_ it)
}.
End Iter.

(** The iterator of a block: an empty one, with its status, or one on the
    data with the offset and the number of the restart points. *)
Inductive BlockIterator : Type :=
| NoEntries (it : EmptyIterator)
| Entries (data : list Z) (restarts num_restarts : Z) (it : Iter).

Definition NewIterator (b : Block) : outcome BlockIterator :=
  if size_ b <? 4 then Ok (NoEntries (NewErrorIterator (Corruption "bad block contents")))
  else
    let! num_restarts := NumRestarts (data_ b) (size_ b) in
    if num_restarts =? 0 then Ok (NoEntries NewEmptyIterator)
    else
      let! it := new_Iter (restart_offset_ b) num_restarts in
      Ok (Entries (data_ b) (restart_offset_ b) num_restarts it).

(** The operations of whichever it is. *)
Section BlockIterator.
Context `{Comparator}.

Definition on_block {A} (empty_case : EmptyIterator -> outcome A) (f : list Z -> Z -> Z -> Iter -> outcome A) (b : BlockIterator) :
    outcome A :=
  match b with
  | NoEntries e => empty_case e
  | Entries data restarts num it => f data restarts num it
  end.
Definition block_move (f : EmptyIterator -> outcome EmptyIterator) (g : list Z -> Z -> Z -> Iter -> outcome Iter) :
    BlockIterator -> outcome BlockIterator :=
  on_block (fun e => let! e := f e in Ok (NoEntries e))
    (fun data restarts num it => let! it := g data restarts num it in Ok (Entries data restarts num it)).

#[export] Instance any_block_iterator : Iterator BlockIterator := {
  Valid := on_block Valid (fun _ restarts _ it => Ok (iter_Valid restarts it));
  SeekToFirst := block_move SeekToFirst iter_SeekToFirst;
  SeekToLast := block_move SeekToLast iter_SeekToLast;
  Seek target := block_move (Seek target) (fun data restarts num => iter_Seek data restarts num target);
  Next := block_move Next iter_Next;
  Prev := block_move Prev iter_Prev;
  key := on_block key (fun _ restarts _ => iter_key restarts);
  value := on_block value (fun data restarts _ => iter_value data restarts);
  status := on_block status (fun _ _ _ it => Ok (status_ it))
}.
End BlockIterator.
