(* ===== verification/BlockProof.v ===== *)
(** * What a block holds

    A block is described by its pieces: each entry with the number of bytes
    its key shares with the key before. *)
From S2P Require Import Prelude Base128 Order Coding CodingProof Env Comparator ComparatorProof Iterator Block.

(** ** The layout *)
Record piece : Type := mk_piece { shared : nat; piece_key : list Z; piece_value : list Z }.
Definition entry_of (p : piece) : list Z * list Z := (piece_key p, piece_value p).

Definition header (p : piece) : list Z :=
  varint (Z.of_nat (shared p)) ++ varint (zlen (piece_key p) - Z.of_nat (shared p)) ++ varint (zlen (piece_value p)).
Definition piece_bytes (p : piece) : list Z :=
  header p ++ drop (shared p) (piece_key p) ++ piece_value p.
Definition body (ps : list piece) : list Z := concat (map piece_bytes ps).
Definition offset (ps : list piece) (i : nat) : Z := zlen (body (take i ps)).
Definition prev_key (ps : list piece) (i : nat) : list Z :=
  match i with O => [] | S j => match ps !! j with Some p => piece_key p | None => [] end end.

(** What a piece shares, and nothing at a restart point. *)
Record shares (I : nat) (ps : list piece) : Prop := {
  shares_prefix : forall i p, ps !! i = Some p -> (shared p <= length (piece_key p))%nat /\
    (shared p <= length (prev_key ps i))%nat /\ take (shared p) (prev_key ps i) = take (shared p) (piece_key p);
  shares_restart : forall j p, ps !! (j * I)%nat = Some p -> shared p = 0%nat
}.

(** The restart points: the offsets of every [I]-th piece. *)
Definition restart_points (I : nat) (ps : list piece) (rs : list Z) : Prop :=
  (0 < length rs)%nat /\ forall j, (j < length rs)%nat -> rs !! j = Some (offset ps (j * I)) /\ (j <> 0 -> j * I < length ps)%nat.

Lemma block_body_app ps qs : body (ps ++ qs) = body ps ++ body qs.
Proof. unfold body. by rewrite map_app, concat_app. Qed.

Lemma body_split ps i p : ps !! i = Some p -> body ps = body (take i ps) ++ piece_bytes p ++ body (drop (S i) ps).
Proof. intros E. rewrite <- (take_drop_middle ps i p E) at 1. by rewrite block_body_app. Qed.

Lemma header_min p : 3 <= zlen (header p).
Proof.
  unfold header. rewrite !zlen_app. pose proof (varint_nonempty (Z.of_nat (shared p))).
  pose proof (varint_nonempty (zlen (piece_key p) - Z.of_nat (shared p))). pose proof (varint_nonempty (zlen (piece_value p))). lia.
Qed.

Lemma zlen_piece p : zlen (piece_bytes p) = zlen (header p) + zlen (drop (shared p) (piece_key p)) + zlen (piece_value p).
Proof. unfold piece_bytes. rewrite !zlen_app. lia. Qed.

Lemma piece_min p : 3 <= zlen (piece_bytes p).
Proof.
  rewrite zlen_piece. pose proof (header_min p). pose proof (zlen_nonneg (drop (shared p) (piece_key p))).
  pose proof (zlen_nonneg (piece_value p)). lia.
Qed.

Lemma offset_S ps i p : ps !! i = Some p -> offset ps (S i) = offset ps i + zlen (piece_bytes p).
Proof.
  intros E. unfold offset. rewrite (take_S_r ps i p E), block_body_app, zlen_app. do 2 f_equal. unfold body. cbn. apply app_nil_r.
Qed.

Lemma offset_app ps qs i : (i <= length ps)%nat -> offset (ps ++ qs) i = offset ps i.
Proof. intros Hi. unfold offset. by rewrite take_app_le. Qed.

Lemma offset_all ps i : (length ps <= i)%nat -> offset ps i = zlen (body ps).
Proof. intros Hi. unfold offset. by rewrite take_ge. Qed.

Lemma offset_mono ps i j : (i < j)%nat -> (j <= length ps)%nat -> offset ps i + 3 <= offset ps j.
Proof.
  intros Hij. induction Hij as [|j Hij IH]; intros Hj.
  - destruct (lookup_lt_is_Some_2 ps i) as [p E]; [lia|]. rewrite (offset_S ps i p E). pose proof (piece_min p). lia.
  - destruct (lookup_lt_is_Some_2 ps j) as [p E]; [lia|]. rewrite (offset_S ps j p E). pose proof (piece_min p).
    specialize (IH ltac:(lia)). lia.
Qed.

Lemma offset_le ps i j : (i <= j)%nat -> (j <= length ps)%nat -> 0 <= offset ps i <= offset ps j.
Proof.
  intros Hij Hj. split; [apply zlen_nonneg|]. destruct (decide (i = j)) as [->|]; [lia|].
  pose proof (offset_mono ps i j ltac:(lia) Hj). lia.
Qed.

Lemma offset_count ps i : (i <= length ps)%nat -> Z.of_nat i <= offset ps i.
Proof.
  induction i as [|i IH]; intros Hi; [done|]. destruct (lookup_lt_is_Some_2 ps i) as [p E]; [lia|].
  rewrite (offset_S ps i p E). pose proof (piece_min p). specialize (IH ltac:(lia)). lia.
Qed.

(** ** The builder *)
Section Builder.
Context `{Comparator} (valid : list Z -> Prop) (order : list Z -> list Z -> comparison) {Hlaw : LawfulComparator valid order}.
Context (I : nat) (HI : (1 <= I)%nat) (HI31 : Z.of_nat I < 2 ^ 31 - 1).

Record built (b : BlockBuilder) (ps : list piece) : Prop := {
  built_buffer : buffer_ b = body ps;
  built_last : last_key_ b = prev_key ps (length ps);
  built_open : finished_ b = false;
  built_shares : shares I ps;
  built_restarts : restart_points I ps (restarts_ b);
  built_counter : exists c, counter_ b = Z.of_nat c /\ (c <= I)%nat /\ length ps = ((length (restarts_ b) - 1) * I + c)%nat
}.

Lemma new_built : exists b, new_BlockBuilder (Z.of_nat I) = Ok b /\ built b [].
Proof.
  unfold new_BlockBuilder, assert. rewrite (proj2 (Z.leb_le 1 (Z.of_nat I))) by lia. eexists. split; [done|].
  split; [done|done|done| | |].
  - by split.
  - split; [cbn; lia|]. intros [|j] Hj; [done|cbn in Hj; lia].
  - exists 0%nat. split_and!; [done|lia|done].
Qed.

Lemma common_prefix_ok n a b : (n <= length a)%nat -> (n <= length b)%nat ->
  (common_prefix n a b <= n)%nat /\ take (common_prefix n a b) a = take (common_prefix n a b) b.
Proof.
  revert a b. induction n as [|n IH]; intros a b Ha Hb; [done|].
  destruct a as [|x a]; [simpl in Ha; lia|]. destruct b as [|y b]; [simpl in Hb; lia|].
  simpl in Ha, Hb. cbn [common_prefix]. destruct (Z.eqb_spec x y) as [->|Hne]; [|split; [lia|done]].
  destruct (IH a b) as [H1 H2]; [lia|lia|]. split; [lia|]. cbn [take]. by rewrite H2.
Qed.

Lemma prev_key_app ps qs i : (i <= length ps)%nat -> prev_key (ps ++ qs) i = prev_key ps i.
Proof. intros Hi. destruct i as [|j]; [done|]. cbn [prev_key]. by rewrite lookup_app_l by lia. Qed.

Lemma shares_snoc ps p : shares I ps -> (shared p <= length (piece_key p))%nat ->
  (shared p <= length (prev_key ps (length ps)))%nat ->
  take (shared p) (prev_key ps (length ps)) = take (shared p) (piece_key p) ->
  (forall j, length ps = (j * I)%nat -> shared p = 0%nat) -> shares I (ps ++ [p]).
Proof.
  intros [Hp Hr] H1 H2 H3 H4. split.
  - intros i q Hq. apply lookup_app_Some in Hq as [Hq|[Hge Hq]].
    + rewrite prev_key_app by (apply lookup_lt_Some in Hq; lia). by apply Hp.
    + assert (i = length ps) as -> by (apply lookup_lt_Some in Hq; simpl in Hq; lia).
      rewrite Nat.sub_diag in Hq. injection Hq as <-. by rewrite prev_key_app by lia.
  - intros j q Hq. apply lookup_app_Some in Hq as [Hq|[Hge Hq]]; [by apply (Hr j)|].
    assert (E : (j * I)%nat = length ps) by (apply lookup_lt_Some in Hq; simpl in Hq; lia).
    rewrite E, Nat.sub_diag in Hq. injection Hq as <-. by apply (H4 j).
Qed.

Lemma restart_points_app ps qs rs : restart_points I ps rs -> restart_points I (ps ++ qs) rs.
Proof.
  intros [H0 Hr]. split; [done|]. intros j Hj. destruct (Hr j Hj) as [E Hlt]. rewrite offset_app.
  - split; [done|]. intros Hne. specialize (Hlt Hne). rewrite length_app. lia.
  - destruct (decide (j = 0%nat)) as [->|Hne]; [lia|]. specialize (Hlt Hne). lia.
Qed.

Lemma restart_points_snoc ps p rs : restart_points I ps rs -> length ps = (length rs * I)%nat ->
  restart_points I (ps ++ [p]) (rs ++ [zlen (body ps)]).
Proof.
  intros Hr Hlen. pose proof (restart_points_app ps [p] rs Hr) as [H0 Hr']. unfold restart_points. rewrite length_app. split; [lia|].
  intros j Hj. cbn [length] in Hj. destruct (decide (j < length rs)%nat) as [Hlt|Hge].
  - rewrite lookup_app_l by done. by apply Hr'.
  - assert (j = length rs) as -> by lia. rewrite lookup_app_r, Nat.sub_diag, <- Hlen by lia.
    rewrite offset_app, offset_all by lia. split; [done|]. intros _. rewrite length_app. cbn. lia.
Qed.

(** The key counts, in 32 bits, of an entry. *)
Lemma put_header buffer p rest : (shared p <= length (piece_key p))%nat -> zlen (piece_key p) < 2 ^ 32 -> zlen (piece_value p) < 2 ^ 32 ->
  PutVarint32 (PutVarint32 (PutVarint32 buffer (wrap 32 (Z.of_nat (shared p))))
    (wrap 32 (zlen (piece_key p) - Z.of_nat (shared p)))) (wrap 32 (zlen (piece_value p))) ++ rest
  = buffer ++ header p ++ rest.
Proof.
  intros Hs Hk Hv. pose proof (zlen_nonneg (piece_value p)). unfold PutVarint32, header.
  assert (Z.of_nat (shared p) <= zlen (piece_key p)) by (unfold zlen; lia).
  rewrite !wrap_small by lia. rewrite !EncodeVarint32_varint by lia. by rewrite <- !app_assoc.
Qed.

(** Appending a piece, once it is known what it shares. *)
Lemma built_snoc b ps p rs c : built b ps -> shares I (ps ++ [p]) -> restart_points I (ps ++ [p]) rs ->
  (c <= I)%nat -> S (length ps) = ((length rs - 1) * I + c)%nat ->
  built (mk_builder (buffer_ b ++ header p ++ drop (shared p) (piece_key p) ++ piece_value p) rs (Z.of_nat c) false (piece_key p)) (ps ++ [p]).
Proof.
  intros [Hb Hl Ho Hs Hr Hc] Hs' Hr' Hcn Hlen. split; cbn; [|  |done|done|done|].
  - rewrite Hb, block_body_app. unfold body at 3. cbn. by rewrite app_nil_r.
  - rewrite length_app, Nat.add_1_r. cbn [prev_key]. by rewrite lookup_app_r, Nat.sub_diag by lia.
  - exists c. rewrite length_app. cbn. split_and!; [done|done|lia].
Qed.

(** What the code decides about a new entry. *)
Lemma choose_sharing b ps k v : built b ps -> zlen (body ps) < 2 ^ 32 ->
  let last := last_key_ b in
  exists s rs c,
    (if counter_ b <? Z.of_nat I then
       (common_prefix (Nat.min (length last) (length k)) last k, restarts_ b, counter_ b)
     else (0%nat, restarts_ b ++ [wrap 32 (zlen (buffer_ b))], 0)) = (s, rs, Z.of_nat c) /\
    (s <= length k)%nat /\ take s last = take s k /\ shares I (ps ++ [mk_piece s k v]) /\
    restart_points I (ps ++ [mk_piece s k v]) rs /\ (c < I)%nat /\ length ps = ((length rs - 1) * I + c)%nat.
Proof.
  intros [Hbuf Hlast Hopen Hsh Hrs (c & Hc & HcI & Hlen)] Hsize last. rewrite Hc. subst last. rewrite Hlast.
  set (last := prev_key ps (length ps)). pose proof Hrs as [H0 Hr].
  destruct (Z.ltb_spec (Z.of_nat c) (Z.of_nat I)) as [Hlt|Hge].
  - set (s := common_prefix (Nat.min (length last) (length k)) last k).
    destruct (common_prefix_ok (Nat.min (length last) (length k)) last k ltac:(lia) ltac:(lia)) as [Hs1 Hs2]. fold s in Hs1, Hs2.
    exists s, (restarts_ b), c. split_and!; [done|lia|done| |by apply restart_points_app|lia|done].
    apply shares_snoc; cbn [shared piece_key]; [done|lia|fold last; lia|done|].
    intros j Hj. assert (Hps : length ps = 0%nat); [|subst last s; destruct ps; [done|done]].
    destruct (decide (length (restarts_ b) = 1)%nat) as [E1|E1].
    + rewrite E1 in Hlen. destruct j as [|j]; [lia|]. nia.
    + destruct (Hr (length (restarts_ b) - 1)%nat ltac:(lia)) as [_ Hlast']. specialize (Hlast' ltac:(lia)).
      exfalso. assert (j = (length (restarts_ b) - 1)%nat \/ (j < length (restarts_ b) - 1)%nat \/ (length (restarts_ b) <= j)%nat) as [->|[Hj'|Hj']] by lia; nia.
  - assert (c = I) as -> by lia. assert (El : length ps = (length (restarts_ b) * I)%nat) by nia.
    exists 0%nat, (restarts_ b ++ [zlen (body ps)]), 0%nat. rewrite Hbuf. pose proof (zlen_nonneg (body ps)).
    rewrite wrap_small by lia. split_and!; [done|lia|done| |by apply restart_points_snoc|lia|].
    + apply shares_snoc; cbn [shared piece_key]; (done || lia).
    + rewrite length_app. cbn [length]. replace (length (restarts_ b) + 1 - 1)%nat with (length (restarts_ b)) by lia. lia.
Qed.

Lemma block_Add_ok b ps k v : built b ps -> (ps <> [] -> order (prev_key ps (length ps)) k = Lt) ->
  valid k -> (ps <> [] -> valid (prev_key ps (length ps))) ->
  zlen (body ps) < 2 ^ 32 -> zlen k < 2 ^ 32 -> zlen v < 2 ^ 32 ->
  exists b' s, Add (Z.of_nat I) k v b = Ok b' /\ built b' (ps ++ [mk_piece s k v]).
Proof.
  intros Hb Hord Hk Hprev Hsize Hkl Hvl. pose proof Hb as [Hbuf Hlast Hopen Hsh Hrs (c & Hc & HcI & Hlen)].
  unfold Add. rewrite Hopen. cbn [negb assert]. rewrite (proj2 (Z.leb_le (counter_ b) (Z.of_nat I))) by lia. cbn [assert].
  assert (El : (if empty b then Ok true else let! r := Compare k (last_key_ b) in Ok (0 <? r)) = Ok true).
  { unfold empty. rewrite Hbuf, Hlast. destruct ps as [|p0 ps0]; [done|].
    rewrite <- (offset_all (p0 :: ps0) (length (p0 :: ps0))) by lia.
    pose proof (offset_mono (p0 :: ps0) 0 (length (p0 :: ps0)) ltac:(cbn; lia) ltac:(lia)) as Hoff.
    change (offset (p0 :: ps0) 0) with 0 in Hoff. rewrite (proj2 (Z.eqb_neq _ _)) by lia.
    destruct (compare_law k _ Hk (Hprev ltac:(done))) as (r & -> & Hr). cbn [obind]. f_equal. apply Z.ltb_lt.
    rewrite (order_antisym (prev_key (p0 :: ps0) (length (p0 :: ps0))) k), Hord in Hr by done. cbn [CompOpp] in Hr.
    apply (proj1 (Z.compare_gt_iff r 0)) in Hr. lia. }
  rewrite El. cbn [obind assert]. clear El.
  destruct (choose_sharing b ps k v Hb Hsize) as (s & rs & c' & E & Hs & Htake & Hsh' & Hrs' & Hc' & Hlen').
  cbv zeta. rewrite E. clear E.
  pose proof (put_header (buffer_ b) (mk_piece s k v) (drop s k ++ v) Hs Hkl Hvl) as Hput. cbn [shared piece_key piece_value] in Hput.
  rewrite Hput, Htake, take_drop, bool_decide_eq_true_2 by done. cbn [assert].
  unfold int_add. rewrite (proj2 (Z.leb_le _ _)), (proj2 (Z.ltb_lt _ _)) by lia. cbn [andb obind].
  eexists _, s. split; [done|]. replace (Z.of_nat c' + 1) with (Z.of_nat (S c')) by lia.
  apply (built_snoc b ps (mk_piece s k v) rs (S c') Hb Hsh' Hrs'); lia.
Qed.
End Builder.

(** ** Decoding *)
Lemma lor_ge x y : 0 <= x -> 0 <= y -> x <= Z.lor x y.
Proof.
  intros Hx Hy. apply (Z.ldiff_le x (Z.lor x y)); [by apply Z.lor_nonneg|].
  apply Z.bits_inj'. intros n _. rewrite Z.ldiff_spec, Z.lor_spec, Z.bits_0. by destruct (Z.testbit x n), (Z.testbit y n).
Qed.

Lemma varint_first v : 0 <= v -> (v < 128 /\ varint v = [v]) \/ exists b l, varint v = b :: l /\ 128 <= b.
Proof.
  intros Hv. unfold varint. rewrite varint_n_cons. destruct (Z.ltb_spec v 128); [by left|right].
  eexists _, _. split; [done|]. euclid.
Qed.

Lemma varint_nonneg v : 0 <= v < 2 ^ 32 -> Forall (fun x => 0 <= x) (varint v).
Proof.
  intros Hv. destruct (varint_n_shape 10 v ltac:(lia)) as (l & b & E & Hl & Hb & _).
  { change (2 ^ (7 * Z.of_nat 10)) with (2 ^ 70). lia. }
  unfold varint. rewrite E. apply Forall_app. split; [eapply Forall_impl; [exact Hl|]; intros x Hx; cbn in Hx; lia|].
  apply Forall_cons_2; [lia|apply Forall_nil_2].
Qed.

(** Either all three numbers take one byte, or one of the first three bytes
    has its high bit set. *)
Lemma header_bytes a b c rest x y z r : 0 <= a < 2 ^ 32 -> 0 <= b < 2 ^ 32 -> 0 <= c < 2 ^ 32 ->
  varint a ++ varint b ++ varint c ++ rest = x :: y :: z :: r ->
  (x = a /\ y = b /\ z = c /\ r = rest) \/ 128 <= Z.lor (Z.lor x y) z.
Proof.
  intros Ha Hb Hc E.
  assert (Hnn : Forall (fun x => 0 <= x) (take 3 (varint a ++ varint b ++ varint c))).
  { apply Forall_take, Forall_app; split; [by apply varint_nonneg|]. apply Forall_app; split; by apply varint_nonneg. }
  assert (E3 : take 3 (varint a ++ varint b ++ varint c) = [x; y; z]).
  { rewrite !app_assoc in E. rewrite <- (take_app_le _ rest).
    - rewrite <- !app_assoc in E |- *. by rewrite E.
    - pose proof (varint_nonempty a). pose proof (varint_nonempty b). pose proof (varint_nonempty c).
      unfold zlen in *. rewrite !length_app. lia. }
  rewrite E3 in Hnn. inversion Hnn as [|? ? Hx Hnn']; subst. inversion Hnn' as [|? ? Hy Hnn'']; subst. inversion Hnn'' as [|? ? Hz _]; subst.
  pose proof (proj2 (Z.lor_nonneg x y) (conj Hx Hy)) as Hxy.
  pose proof (lor_ge x y Hx Hy). pose proof (lor_ge y x Hy Hx) as Hyx. rewrite Z.lor_comm in Hyx.
  pose proof (lor_ge (Z.lor x y) z Hxy Hz). pose proof (lor_ge z (Z.lor x y) Hz Hxy) as Hzxy. rewrite Z.lor_comm in Hzxy.
  destruct (varint_first a) as [[Has Ea]|(b0 & l & Ea & Hb0)]; [lia| |rewrite Ea in E; injection E as -> _; right; lia].
  destruct (varint_first b) as [[Hbs Eb]|(b0 & l & Eb & Hb0)]; [lia| |rewrite Ea, Eb in E; injection E as _ -> _; right; lia].
  destruct (varint_first c) as [[Hcs Ec]|(b0 & l & Ec & Hb0)]; [lia| |rewrite Ea, Eb, Ec in E; injection E as _ _ -> _; right; lia].
  left. rewrite Ea, Eb, Ec in E. by injection E as -> -> -> ->.
Qed.

Lemma entry_header_ok a b c rest : 0 <= a < 2 ^ 32 -> 0 <= b < 2 ^ 32 -> 0 <= c < 2 ^ 32 ->
  entry_header (varint a ++ varint b ++ varint c ++ rest) = Some (a, b, c, rest).
Proof.
  intros Ha Hb Hc.
  assert (Hslow : match GetVarint32Ptr (varint a ++ varint b ++ varint c ++ rest) with
    | None => None
    | Some (shared, p) => match GetVarint32Ptr p with
      | None => None
      | Some (non_shared, p) => match GetVarint32Ptr p with
        | None => None
        | Some (value_length, p) => Some (shared, non_shared, value_length, p) end end end = Some (a, b, c, rest))
    by (by rewrite !GetVarint32Ptr_varint).
  pose proof (zlen_nonneg rest) as Hr. pose proof (varint_nonempty a). pose proof (varint_nonempty b). pose proof (varint_nonempty c).
  assert (Hlen : 3 <= zlen (varint a ++ varint b ++ varint c ++ rest)) by (rewrite !zlen_app; lia).
  pose proof (header_bytes a b c rest) as Hbytes. unfold entry_header.
  destruct (varint a ++ varint b ++ varint c ++ rest) as [|x [|y [|z r]]] eqn:E; [done..|].
  destruct (Hbytes x y z r Ha Hb Hc eq_refl) as [(-> & -> & -> & ->)|Hge].
  - by destruct (_ <? 128).
  - by rewrite (proj2 (Z.ltb_ge _ _) Hge).
Qed.
