(* ===== verification/BlockIterProof.v ===== *)
(** * The block iterator walks over the pieces of its block *)
From S2P Require Import Prelude Base128 Order Coding CodingProof Env Comparator ComparatorProof Iterator Block BlockProof.
From S2P Require Import SkipListProof SkipListSet.

Section Reader.
Context (I : nat) (HI : (1 <= I)%nat) (ps : list piece) (rs : list Z).
Context (Hsh : shares I ps) (Hrs : restart_points I ps rs).

(** The block: the pieces, the restart points and their number. *)
Definition contents : list Z := body ps ++ concat (map EncodeFixed32 (rs ++ [zlen rs])).
Context (Hsize : zlen contents < 2 ^ 32) (Hkeys : Forall (fun p => zlen (piece_key p) < 2 ^ 32) ps).
Let R : Z := zlen (body ps).
Let N : Z := zlen rs.

Lemma zlen_block : zlen contents = R + 4 * N + 4.
Proof. unfold contents. rewrite zlen_app, zlen_fixed_table, zlen_app, zlen_cons, zlen_nil. unfold R, N. lia. Qed.

Lemma sizes : 0 <= R /\ 1 <= N /\ R + 4 * N + 4 < 2 ^ 32.
Proof.
  pose proof zlen_block as E. destruct Hrs as [H0 _]. unfold R, N, zlen in *. lia.
Qed.

Lemma take_pieces : take (Z.to_nat R) contents = body ps.
Proof. unfold contents, R, zlen. by rewrite Nat2Z.id, take_app_length. Qed.

Lemma GetRestartPoint_ok j : (j < length rs)%nat -> GetRestartPoint contents R N (Z.of_nat j) = Ok (offset ps (j * I)).
Proof.
  intros Hj. destruct Hrs as [H0 Hr]. destruct (Hr j Hj) as [E Hlt]. unfold GetRestartPoint, assert.
  rewrite (proj2 (Z.ltb_lt _ _)) by (unfold N, zlen; lia).
  replace (Z.to_nat (R + Z.of_nat j * 4)) with (length (body ps) + 4 * j)%nat by (unfold R, zlen; lia).
  unfold contents. rewrite <- drop_drop, drop_app_length, <- (app_nil_r (concat _)).
  rewrite (decode_fixed_table (rs ++ [zlen rs]) j (offset ps (j * I)) []) by (rewrite lookup_app_l by lia; done).
  f_equal. apply wrap_small. pose proof sizes. unfold R in *.
  assert (Hle : (j * I <= length ps)%nat) by (destruct (decide (j = 0%nat)) as [->|Hne]; [lia|specialize (Hlt Hne); lia]).
  pose proof (offset_le ps (j * I) (length ps) Hle ltac:(lia)) as Ho. rewrite (offset_all ps (length ps)) in Ho by lia. lia.
Qed.

(** ** One entry *)
Section Entry.
Context (i : nat) (p : piece) (Hp : ps !! i = Some p).
Let s : nat := shared p.
Let rest : list Z := drop s (piece_key p) ++ piece_value p ++ body (drop (S i) ps).

Lemma entry_shared : (s <= length (piece_key p))%nat.
Proof. by apply (shares_prefix I ps Hsh i p). Qed.

Lemma entry_at : drop (Z.to_nat (offset ps i)) (body ps) = header p ++ rest.
Proof.
  rewrite (body_split ps i p Hp) at 1. unfold offset, zlen. rewrite Nat2Z.id, drop_app_length.
  unfold piece_bytes, rest. by rewrite <- !app_assoc.
Qed.

Lemma entry_offset : offset ps i + zlen (header p) + zlen rest = R.
Proof.
  unfold R. rewrite (body_split ps i p Hp), !zlen_app. unfold rest. rewrite zlen_piece, !zlen_app. unfold offset, s. lia.
Qed.

Lemma zlen_delta : zlen (drop s (piece_key p)) = zlen (piece_key p) - Z.of_nat s.
Proof. pose proof entry_shared. unfold zlen. rewrite length_drop. lia. Qed.

Lemma entry_sizes : 0 <= zlen (piece_key p) < 2 ^ 32 /\ 0 <= zlen (piece_value p) < 2 ^ 32 /\
  0 <= Z.of_nat s <= zlen (piece_key p) /\ 0 <= offset ps i /\ 3 <= zlen (header p).
Proof.
  pose proof entry_offset as E. pose proof sizes. pose proof entry_shared. pose proof zlen_delta as Ed.
  unfold rest in E. rewrite !zlen_app, Ed in E.
  pose proof (header_min p). pose proof (zlen_nonneg (body (drop (S i) ps))).
  pose proof (zlen_nonneg (piece_value p)). pose proof (zlen_nonneg (body (take i ps))). unfold offset in *.
  rewrite Forall_lookup in Hkeys. pose proof (Hkeys i p Hp) as Hk. unfold zlen in *. lia.
Qed.

Lemma DecodeEntry_ok :
  DecodeEntry (drop (Z.to_nat (offset ps i)) (take (Z.to_nat R) contents)) =
    Some (Z.of_nat s, zlen (piece_key p) - Z.of_nat s, zlen (piece_value p), rest).
Proof.
  destruct entry_sizes as (Hk & Hv & Hs & Ho & Hh). pose proof entry_offset as E. pose proof sizes.
  rewrite take_pieces, entry_at. unfold DecodeEntry, header. rewrite <- !app_assoc. fold s.
  rewrite entry_header_ok by lia.
  assert (Hle : zlen (piece_key p) - Z.of_nat s + zlen (piece_value p) <= zlen rest).
  { unfold rest. rewrite !zlen_app, zlen_delta. pose proof (zlen_nonneg (body (drop (S i) ps))). lia. }
  rewrite !wrap_small by lia. by rewrite (proj2 (Z.ltb_ge _ _)) by lia.
Qed.

Lemma bytes_in pre mid post : contents = pre ++ mid ++ post -> bytes_at contents (zlen pre) (zlen mid) = Ok mid.
Proof.
  intros ->. unfold bytes_at. rewrite !zlen_app. pose proof (zlen_nonneg post).
  rewrite (proj2 (Z.ltb_ge _ _)) by lia. unfold zlen. by rewrite !Nat2Z.id, drop_app_length, take_app_length.
Qed.

(** The table behind the pieces. *)
Let tail : list Z := concat (map EncodeFixed32 (rs ++ [zlen rs])).

Lemma contents_split : contents = (body (take i ps) ++ header p) ++ drop s (piece_key p) ++ piece_value p ++ body (drop (S i) ps) ++ tail.
Proof.
  unfold contents. rewrite (body_split ps i p Hp) at 1. unfold piece_bytes, tail, s. by rewrite <- !app_assoc.
Qed.

Lemma delta_ok : bytes_at contents (R - zlen rest) (zlen (piece_key p) - Z.of_nat s) = Ok (drop s (piece_key p)).
Proof.
  rewrite <- zlen_delta. pose proof entry_offset as E. replace (R - zlen rest) with (zlen (body (take i ps) ++ header p)).
  - exact (bytes_in _ _ _ contents_split).
  - rewrite zlen_app. unfold offset in E. lia.
Qed.

(** Where the value is. *)
Definition value_offset : Z := offset ps (S i) - zlen (piece_value p).

Lemma value_place : R - zlen rest + (zlen (piece_key p) - Z.of_nat s) = value_offset.
Proof.
  unfold value_offset. rewrite (offset_S ps i p Hp), zlen_piece. fold s. rewrite zlen_delta. pose proof entry_offset. lia.
Qed.

Lemma value_ok : bytes_at contents value_offset (zlen (piece_value p)) = Ok (piece_value p).
Proof.
  rewrite <- value_place, <- zlen_delta. pose proof entry_offset as E.
  replace (R - zlen rest + zlen (drop s (piece_key p))) with (zlen ((body (take i ps) ++ header p) ++ drop s (piece_key p))).
  - apply (bytes_in _ _ (body (drop (S i) ps) ++ tail)). rewrite contents_split. by rewrite <- !app_assoc.
  - rewrite !zlen_app. unfold offset in E. lia.
Qed.

Lemma entry_offsets : 0 <= offset ps i < R /\ offset ps i + 3 <= offset ps (S i) <= R /\ offset ps i + 3 <= value_offset.
Proof.
  pose proof (lookup_lt_Some _ _ _ Hp) as Hi. pose proof (offset_mono ps i (S i) ltac:(lia) ltac:(lia)).
  pose proof (offset_le ps (S i) (length ps) ltac:(lia) ltac:(lia)) as Hle. rewrite (offset_all ps (length ps)) in Hle by lia. fold R in Hle.
  destruct entry_sizes as (Hk & Hv & Hs & Ho & Hh).
  pose proof (offset_S ps i p Hp) as E. rewrite zlen_piece in E. fold s in E. rewrite zlen_delta in E. unfold value_offset. lia.
Qed.
End Entry.

(** ** Positions *)
Definition at_restart (it : Iter) (i : nat) : Prop :=
  exists j, restart_index_ it = Z.of_nat j /\ (j < length rs)%nat /\ (j * I <= i)%nat.

(** The next entry to parse is entry [i]. *)
Record ready (it : Iter) (i : nat) : Prop := {
  ready_offset : NextEntryOffset it = Ok (offset ps i);
  ready_key : forall p, ps !! i = Some p -> (shared p <= length (key_ it))%nat /\ take (shared p) (key_ it) = take (shared p) (piece_key p);
  ready_restart : at_restart it i;
  ready_status : status_ it = OK
}.

Record on_entry (it : Iter) (i : nat) (p : piece) : Prop := {
  on_piece : ps !! i = Some p;
  on_current : current_ it = offset ps i;
  on_key : key_ it = piece_key p;
  on_value : value_ it = Some (value_offset i p, zlen (piece_value p));
  on_restart : at_restart it i;
  on_status : status_ it = OK
}.

Definition at_end (it : Iter) : Prop := current_ it = R /\ status_ it = OK.

Definition position (it : Iter) (i : nat) : Prop :=
  (exists p, on_entry it i p) \/ (i = length ps /\ at_end it).

Lemma next_of it i p : on_entry it i p -> NextEntryOffset it = Ok (offset ps (S i)).
Proof.
  intros [Hp _ _ Hv _ _]. unfold NextEntryOffset. rewrite Hv. f_equal. unfold value_offset.
  pose proof (entry_offsets i p Hp). pose proof sizes. rewrite wrap_small; lia.
Qed.

Lemma entry_ready it i p : on_entry it i p -> ready it (S i).
Proof.
  intros Hon. pose proof (next_of it i p Hon) as Hnext. destruct Hon as [Hp Hc Hk Hv (j & Ej & Hj & Hle) Hst]. split; [done| | |done].
  - intros q Hq. destruct (shares_prefix I ps Hsh (S i) q Hq) as (_ & H1 & H2). cbn [prev_key] in H1, H2. rewrite Hp in H1, H2.
    by rewrite Hk.
  - exists j. split_and!; [done|done|lia].
Qed.

Lemma SeekToRestartPoint_ok j it : (j < length rs)%nat -> status_ it = OK ->
  exists it', SeekToRestartPoint contents R N (Z.of_nat j) it = Ok it' /\ ready it' (j * I) /\ key_ it' = [].
Proof.
  intros Hj Hst. unfold SeekToRestartPoint. rewrite GetRestartPoint_ok by done. cbn [obind]. eexists. split; [done|]. split; [|done].
  split; cbn [key_ restart_index_ status_ value_ NextEntryOffset]; [| | |done].
  - unfold NextEntryOffset. cbn. f_equal. rewrite Z.add_0_r. apply wrap_small. pose proof sizes.
    destruct Hrs as [_ Hr]. destruct (Hr j Hj) as [_ Hlt].
    assert (Hle : (j * I <= length ps)%nat) by (destruct (decide (j = 0%nat)) as [->|Hne]; [lia|specialize (Hlt Hne); lia]).
    pose proof (offset_le ps (j * I) (length ps) Hle ltac:(lia)) as Ho. rewrite (offset_all ps (length ps)) in Ho by lia.
    unfold R in *. lia.
  - intros p Hp. rewrite (shares_restart I ps Hsh j p Hp). by split; [lia|].
  - exists j. by split_and!.
Qed.

Lemma restart_loop_ok fuel : forall j i, (j < length rs)%nat -> (j * I <= i)%nat -> (i < length ps)%nat -> (length rs <= fuel + j)%nat -> (0 < fuel)%nat ->
  exists j', restart_loop contents R N fuel (Z.of_nat j) (offset ps i) = Ok (Z.of_nat j') /\ (j' < length rs)%nat /\ (j' * I <= i)%nat.
Proof.
  pose proof sizes as Hs. induction fuel as [|n IH]; intros j i Hj Hji Hi Hfuel Hpos; [lia|]. cbn [restart_loop].
  assert (Hw : wrap 32 (Z.of_nat j + 1) = Z.of_nat (S j)) by (rewrite wrap_small; unfold N, zlen in Hs; lia).
  rewrite Hw. destruct (Z.ltb_spec (Z.of_nat (S j)) N) as [Hlt|Hge]; [|by exists j].
  assert (Hj1 : (S j < length rs)%nat) by (unfold N, zlen in Hlt; lia). rewrite GetRestartPoint_ok by done. cbn [obind].
  destruct (Z.ltb_spec (offset ps (S j * I)) (offset ps i)) as [Ho|Ho]; [|by exists j].
  apply IH; [done| |done|lia|lia].
  destruct (decide (S j * I <= i)%nat) as [|Hgt]; [done|]. exfalso.
  destruct Hrs as [_ Hr]. destruct (Hr (S j) Hj1) as [_ Hlt']. specialize (Hlt' ltac:(lia)).
  pose proof (offset_le ps i (S j * I) ltac:(lia) ltac:(lia)). lia.
Qed.

(** ** Parsing *)
Lemma parse_entry it i : ready it i -> (i < length ps)%nat ->
  exists it' p, ParseNextKey contents R N it = Ok (true, it') /\ on_entry it' i p.
Proof.
  intros [Ho Hk (j & Ej & Hj & Hji) Hst] Hi. destruct (lookup_lt_is_Some_2 ps i Hi) as [p Hp].
  destruct (Hk p Hp) as [Hk1 Hk2]. pose proof (entry_offsets i p Hp) as (Ho1 & Ho2 & Ho3). destruct (entry_sizes i p Hp) as (Hks & Hvs & Hss & _).
  unfold ParseNextKey. rewrite Ho. cbn [obind]. rewrite (proj2 (Z.leb_gt R (offset ps i))) by lia.
  rewrite (DecodeEntry_ok i p Hp). rewrite (proj2 (Z.ltb_ge _ _)) by (unfold zlen; lia).
  rewrite (delta_ok i p Hp). cbn [obind]. rewrite Ej.
  destruct (restart_loop_ok (S (Z.to_nat N)) j i Hj Hji Hi) as (j' & -> & Hj' & Hji'); [unfold N, zlen; lia|lia|]. cbn [obind].
  eexists _, p. split; [done|]. split; cbn; [done|done| | |by exists j'|done].
  - rewrite Nat2Z.id, Hk2. apply take_drop.
  - f_equal. f_equal. apply (value_place i p Hp).
Qed.

Lemma parse_end it : ready it (length ps) ->
  exists it', ParseNextKey contents R N it = Ok (false, it') /\ at_end it'.
Proof.
  intros [Ho _ _ Hst]. unfold ParseNextKey. rewrite Ho. cbn [obind]. rewrite offset_all by lia. fold R.
  rewrite Z.leb_refl. eexists. split; [done|]. by split.
Qed.

Lemma parse_ready it i : ready it i -> (i <= length ps)%nat ->
  exists more it', ParseNextKey contents R N it = Ok (more, it') /\ position it' i.
Proof.
  intros Hr Hi. destruct (decide (i < length ps)%nat) as [Hlt|Hge].
  - destruct (parse_entry it i Hr Hlt) as (it' & p & E & Hon). exists true, it'. split; [done|]. left. by exists p.
  - assert (i = length ps) as -> by lia. destruct (parse_end it Hr) as (it' & E & Hend). exists false, it'. split; [done|]. by right.
Qed.

Lemma fuel_enough : (length ps < iter_fuel contents)%nat.
Proof.
  pose proof (offset_count ps (length ps) ltac:(lia)) as Ho. rewrite offset_all in Ho by lia. fold R in Ho.
  pose proof zlen_block as E. pose proof sizes. unfold iter_fuel, zlen in *. lia.
Qed.

Lemma parse_until_ok fuel e : forall it i, ready it i -> (i < e)%nat -> (e <= length ps)%nat -> (e - i <= fuel)%nat ->
  exists it', parse_until contents R N fuel (offset ps e) it = Ok it' /\ position it' (e - 1).
Proof.
  induction fuel as [|n IH]; intros it i Hr Hi He Hfuel; [lia|]. cbn [parse_until].
  destruct (parse_entry it i Hr ltac:(lia)) as (it' & p & -> & Hon). cbn [obind].
  rewrite (next_of it' i p Hon). cbn [obind]. destruct (Z.ltb_spec (offset ps (S i)) (offset ps e)) as [Hlt|Hge].
  - apply (IH it' (S i)); [by apply (entry_ready it' i p)| |done|lia].
    destruct (decide (S i < e)%nat) as [|Hn]; [done|]. exfalso. assert (e = S i) as -> by lia. lia.
  - exists it'. split; [done|]. left. exists p. replace (e - 1)%nat with i; [done|].
    destruct (decide (S i < e)%nat) as [Hn|]; [|lia]. pose proof (offset_mono ps (S i) e Hn He). lia.
Qed.

Lemma scan_back_ok fuel : forall j i, (j < length rs)%nat -> (i < length ps)%nat -> (j < fuel)%nat ->
  exists r, scan_back contents R N fuel (offset ps i) (Z.of_nat j) = Ok r /\
    match r with
    | Some j' => exists j'', j' = Z.of_nat j'' /\ (j'' < length rs)%nat /\ (j'' * I < i)%nat
    | None => i = 0%nat
    end.
Proof.
  induction fuel as [|n IH]; intros j i Hj Hi Hfuel; [lia|]. cbn [scan_back]. rewrite GetRestartPoint_ok by done. cbn [obind].
  destruct (Z.leb_spec (offset ps i) (offset ps (j * I))) as [Hle|Hgt].
  - destruct (Z.eqb_spec (Z.of_nat j) 0) as [Hz|Hz].
    + exists None. split; [done|]. assert (j = 0%nat) as -> by lia. destruct i as [|i]; [done|].
      pose proof (offset_mono ps 0 (S i) ltac:(lia) ltac:(lia)). cbn [Nat.mul] in Hle. lia.
    + replace (Z.of_nat j - 1) with (Z.of_nat (j - 1)) by lia. apply IH; lia.
  - exists (Some (Z.of_nat j)). split; [done|]. exists j. split; [done|]. split; [done|].
    destruct (decide (j * I < i)%nat) as [|Hn]; [done|]. exfalso. destruct Hrs as [_ Hr]. destruct (Hr j Hj) as [_ Hlt].
    assert (j * I <= length ps)%nat by (destruct (decide (j = 0%nat)) as [->|Hne]; [lia|specialize (Hlt Hne); lia]).
    pose proof (offset_le ps i (j * I) ltac:(lia) ltac:(lia)). lia.
Qed.

Lemma position_valid it i : position it i -> iter_Valid R it = (i <? length ps)%nat.
Proof.
  intros [(p & Hon)|(-> & Hc & _)]; unfold iter_Valid.
  - rewrite (on_current _ _ _ Hon). pose proof (on_piece _ _ _ Hon) as Hp. pose proof (entry_offsets i p Hp).
    apply lookup_lt_Some in Hp. rewrite (proj2 (Nat.ltb_lt _ _) Hp). apply Z.ltb_lt. lia.
  - rewrite Hc, Nat.ltb_irrefl. apply Z.ltb_irrefl.
Qed.

Lemma position_status it i : position it i -> status_ it = OK.
Proof. intros [(p & Hon)|(_ & _ & Hs)]; [apply Hon|done]. Qed.

Lemma position_entry it i : position it i -> (i < length ps)%nat -> exists p, on_entry it i p.
Proof. intros [H|[-> _]]; [done|lia]. Qed.

Lemma position_le it i : position it i -> (i <= length ps)%nat.
Proof. intros [(p & Hon)|[-> _]]; [|done]. pose proof (lookup_lt_Some _ _ _ (on_piece _ _ _ Hon)). lia. Qed.

Lemma restarts_nonempty : (0 < length rs)%nat.
Proof. apply Hrs. Qed.

Lemma block_first it : status_ it = OK -> exists it', iter_SeekToFirst contents R N it = Ok it' /\ position it' 0.
Proof.
  intros Hst. unfold iter_SeekToFirst.
  destruct (SeekToRestartPoint_ok 0 it restarts_nonempty Hst) as (it1 & E & Hr & _).
  change (Z.of_nat 0) with 0 in E. rewrite E. cbn [obind].
  destruct (parse_ready it1 0 Hr ltac:(lia)) as (more & it' & -> & Hp). cbn [obind]. by exists it'.
Qed.

Lemma block_last it : status_ it = OK -> exists it', iter_SeekToLast contents R N it = Ok it' /\ position it' (length ps - 1).
Proof.
  intros Hst. pose proof restarts_nonempty. pose proof sizes. unfold iter_SeekToLast.
  replace (wrap 32 (N - 1)) with (Z.of_nat (length rs - 1)) by (rewrite wrap_small; unfold N, zlen in *; lia).
  destruct (SeekToRestartPoint_ok (length rs - 1) it ltac:(lia) Hst) as (it1 & -> & Hr & _). cbn [obind].
  assert (ER : R = offset ps (length ps)) by by rewrite offset_all by lia.
  destruct (decide (length ps = 0%nat)) as [E|Hne].
  - assert (length rs - 1 = 0)%nat as E1.
    { destruct Hrs as [_ Hr']. destruct (decide (length rs - 1 = 0)%nat); [done|].
      destruct (Hr' (length rs - 1)%nat ltac:(lia)) as [_ Hlt]. specialize (Hlt ltac:(lia)). lia. }
    rewrite E1 in Hr. cbn [Nat.mul] in Hr. unfold iter_fuel. cbn [parse_until].
    rewrite <- E in Hr. destruct (parse_end it1 Hr) as (it' & -> & Hend). cbn [obind]. exists it'. split; [done|].
    right. split; [lia|done].
  - assert (Hlt : ((length rs - 1) * I < length ps)%nat).
    { destruct Hrs as [_ Hr']. destruct (decide (length rs - 1 = 0)%nat) as [->|]; [lia|].
      destruct (Hr' (length rs - 1)%nat ltac:(lia)) as [_ Hlt]. by apply Hlt. }
    set (i := ((length rs - 1) * I)%nat) in *. clearbody i. pose proof fuel_enough as Hf.
    pose proof (parse_until_ok (iter_fuel contents) (length ps) it1 i Hr Hlt ltac:(lia) ltac:(lia)) as Hp. by rewrite <- ER in Hp.
Qed.

Lemma block_next it i : position it i -> (i < length ps)%nat -> exists it', iter_Next contents R N it = Ok it' /\ position it' (i + 1).
Proof.
  intros Hpos Hi. unfold iter_Next. rewrite (position_valid it i Hpos), (proj2 (Nat.ltb_lt _ _) Hi). cbn [assert].
  destruct (position_entry it i Hpos Hi) as [p Hon].
  destruct (parse_ready it (S i) (entry_ready it i p Hon) ltac:(lia)) as (more & it' & -> & Hp). cbn [obind].
  exists it'. rewrite Nat.add_1_r. done.
Qed.

Lemma block_prev it i : position it i -> (i < length ps)%nat ->
  exists it', iter_Prev contents R N it = Ok it' /\ position it' (match i with O => length ps | S j => j end).
Proof.
  intros Hpos Hi. unfold iter_Prev. rewrite (position_valid it i Hpos), (proj2 (Nat.ltb_lt _ _) Hi). cbn [assert].
  destruct (position_entry it i Hpos Hi) as [p [Hp Hc Hk Hv (j & Ej & Hj & Hji) Hst]]. rewrite Hc, Ej.
  destruct (scan_back_ok (S (Z.to_nat N)) j i Hj Hi) as (r & -> & Hr); [unfold N, zlen; lia|]. cbn [obind].
  destruct r as [j'|].
  - destruct Hr as (j'' & -> & Hj'' & Hlt). destruct (SeekToRestartPoint_ok j'' it Hj'' Hst) as (it1 & -> & Hr & _). cbn [obind].
    destruct i as [|i]; [lia|]. destruct (parse_until_ok (iter_fuel contents) (S i) it1 (j'' * I) Hr Hlt ltac:(lia)) as (it' & -> & Hp');
      [pose proof fuel_enough; lia|]. exists it'. split; [done|]. by replace i with (S i - 1)%nat by lia.
  - subst i. eexists. split; [done|]. right. by split.
Qed.

(** ** Seeking *)
Section Seek.
Context `{Comparator} (valid : list Z -> Prop) (order : list Z -> list Z -> comparison) {Hlaw : LawfulComparator valid order}.
Context (Hvalid : Forall (fun p => valid (piece_key p)) ps) (Hsorted : sorted order (map piece_key ps)).
Section Target.
Context (target : list Z) (Htarget : valid target).

Lemma compare_piece i p : ps !! i = Some p ->
  exists r, Compare (piece_key p) target = Ok r /\ (r ?= 0) = order (piece_key p) target.
Proof. intros Hp. rewrite Forall_lookup in Hvalid. apply compare_law; [by apply (Hvalid i p)|done]. Qed.

(** The pieces before [i] are before the target. *)
Definition below (i : nat) : Prop := forall m p, (m < i)%nat -> ps !! m = Some p -> order (piece_key p) target = Lt.

Lemma below_entry i p : ps !! i = Some p -> order (piece_key p) target = Lt -> below i.
Proof.
  intros Hp E m q Hm Hq. apply (order_lt_trans order _ (piece_key p)); [|done].
  apply (sorted_lookup _ _ m i _ _ Hsorted); [| |done]; rewrite list_lookup_fmap; [by rewrite Hq|by rewrite Hp].
Qed.

Lemma seek_linear_ok fuel : forall it i, ready it i -> (i <= length ps)%nat -> below i -> (length ps < fuel + i)%nat ->
  exists it', seek_linear contents R N fuel target it = Ok it' /\ position it' (place order target (map piece_key ps)).
Proof.
  induction fuel as [|n IH]; intros it i Hr Hi Hb Hfuel; [lia|]. cbn [seek_linear].
  assert (Hplace : (forall p, ps !! i = Some p -> order (piece_key p) target <> Lt) ->
    place order target (map piece_key ps) = i).
  { intros Hhi. apply (place_unique order target _ i Hsorted); [by rewrite length_map|..].
    - intros m k Hm Hk. rewrite list_lookup_fmap in Hk. destruct (ps !! m) as [q|] eqn:Eq; [|done]. injection Hk as <-. by apply (Hb m).
    - intros k Hk. rewrite list_lookup_fmap in Hk. destruct (ps !! i) as [q|] eqn:Eq; [|done]. injection Hk as <-. by apply Hhi. }
  destruct (decide (i < length ps)%nat) as [Hlt|Hge].
  - destruct (parse_entry it i Hr Hlt) as (it' & p & -> & Hon). cbn [obind]. rewrite (on_key _ _ _ Hon).
    pose proof (on_piece _ _ _ Hon) as Hp. destruct (compare_piece i p Hp) as (r & -> & Hr'). cbn [obind].
    destruct (Z.leb_spec 0 r) as [Hle|Hneg].
    + exists it'. split; [done|]. rewrite Hplace; [left; by exists p|]. intros q Hq. rewrite Hp in Hq. injection Hq as <-.
      intros E. rewrite E in Hr'. apply (proj1 (Z.compare_lt_iff r 0)) in Hr'. lia.
    + apply (IH it' (S i)); [by apply (entry_ready it' i p)|lia| |lia]. intros m q Hm Hq.
      assert (E : order (piece_key p) target = Lt) by (rewrite <- Hr'; by apply Z.compare_lt_iff).
      destruct (decide (m = i)) as [->|Hne]; [congruence|]. apply (below_entry i p Hp E m q); [lia|done].
  - assert (i = length ps) as -> by lia. destruct (parse_end it Hr) as (it' & -> & Hend). cbn [obind]. exists it'. split; [done|].
    rewrite Hplace; [by right|]. intros p Hp. apply lookup_lt_Some in Hp. lia.
Qed.

Lemma search_restarts_ok fuel : forall l r, (l <= r)%nat -> (r < length rs)%nat -> below (l * I) -> (r - l < fuel)%nat ->
  exists j, search_restarts contents R N fuel target (Z.of_nat l) (Z.of_nat r) = Ok (Some (Z.of_nat j)) /\
    (j < length rs)%nat /\ below (j * I).
Proof.
  pose proof sizes as Hsz. induction fuel as [|n IH]; intros l r Hlr Hr Hb Hfuel; [lia|]. cbn [search_restarts].
  destruct (Z.ltb_spec (Z.of_nat l) (Z.of_nat r)) as [Hlt|Hge]; [|exists l; split_and!; [done|lia|done]].
  set (m := ((l + r + 1) / 2)%nat).
  assert (Hm : (l < m <= r)%nat).
  { unfold m. pose proof (Nat.div_mod (l + r + 1) 2 ltac:(lia)). pose proof (Nat.mod_upper_bound (l + r + 1) 2 ltac:(lia)). lia. }
  replace (wrap 32 (Z.of_nat l + Z.of_nat r + 1) / 2) with (Z.of_nat m).
  2:{ rewrite wrap_small by (unfold N, zlen in *; lia). unfold m. rewrite Nat2Z.inj_div. f_equal; lia. }
  cbv zeta. rewrite GetRestartPoint_ok by lia. cbn [obind].
  assert (Hmi : (m * I < length ps)%nat) by (destruct Hrs as [_ Hrp]; destruct (Hrp m ltac:(lia)) as [_ H']; apply H'; lia).
  destruct (lookup_lt_is_Some_2 ps (m * I) Hmi) as [p Hp]. rewrite (DecodeEntry_ok (m * I) p Hp).
  pose proof (shares_restart I ps Hsh m p Hp) as Hs0. rewrite Hs0. change (Z.of_nat 0 =? 0) with true. cbn [negb].
  pose proof (delta_ok (m * I) p Hp) as Hd. rewrite Hs0, drop_0 in Hd. rewrite drop_0, Hd. cbn [obind].
  destruct (compare_piece (m * I) p Hp) as (c & -> & Hc). cbn [obind]. destruct (Z.ltb_spec c 0) as [Hneg|Hpos].
  - apply IH; [lia|lia| |lia]. apply (below_entry (m * I) p Hp). rewrite <- Hc. by apply Z.compare_lt_iff.
  - replace (Z.of_nat m - 1) with (Z.of_nat (m - 1)) by lia. apply IH; [lia|lia|done|lia].
Qed.

Lemma block_seek it : status_ it = OK ->
  exists it', iter_Seek contents R N target it = Ok it' /\ position it' (place order target (map piece_key ps)).
Proof.
  intros Hst. pose proof restarts_nonempty. pose proof sizes. unfold iter_Seek.
  replace (wrap 32 (N - 1)) with (Z.of_nat (length rs - 1)) by (rewrite wrap_small; unfold N, zlen in *; lia).
  destruct (search_restarts_ok (S (Z.to_nat N)) 0 (length rs - 1)) as (j & E & Hj & Hb);
    [lia|lia|intros m p Hm; cbn in Hm; lia|unfold N, zlen; lia|].
  change (Z.of_nat 0) with 0 in E. rewrite E. cbn [obind].
  destruct (SeekToRestartPoint_ok j it Hj Hst) as (it1 & -> & Hr & _). cbn [obind].
  assert (Hle : (j * I <= length ps)%nat).
  { destruct Hrs as [_ Hrp]. destruct (decide (j = 0%nat)) as [->|]; [lia|]. destruct (Hrp j Hj) as [_ H']. specialize (H' ltac:(lia)). lia. }
  apply (seek_linear_ok _ it1 (j * I) Hr Hle Hb). pose proof fuel_enough. lia.
Qed.

End Target.

(** The block's iterator is one over its entries. *)
#[global] Instance block_lawful :
  @LawfulIterator Iter (block_iterator contents R N) order valid (map entry_of ps) (fun it => status_ it = OK) position.
Proof.
  split; rewrite ?length_map.
  - intros it i Hpos. split; [by apply (position_status it i)|by apply (position_le it i)].
  - exact block_first.
  - exact block_last.
  - intros it target Hst Ht. unfold keys_of. rewrite map_map. by apply block_seek.
  - exact block_next.
  - exact block_prev.
  - intros it i Hpos. cbn. by rewrite (position_valid it i).
  - intros it i k v Hpos E. assert (E0 : (entry_of <$> ps) !! i = Some (k, v)) by exact E. clear E. rename E0 into E. rewrite list_lookup_fmap in E.
    destruct (ps !! i) as [p|] eqn:Ep; [|done]. injection E as <- <-.
    assert (Hi : (i < length ps)%nat) by by apply lookup_lt_Some in Ep.
    cbn. unfold iter_key, iter_value. rewrite (position_valid it i Hpos), (proj2 (Nat.ltb_lt _ _) Hi). cbn [assert].
    destruct (position_entry it i Hpos Hi) as [q Hon]. assert (q = p) as -> by (pose proof (on_piece _ _ _ Hon); congruence).
    rewrite (on_key _ _ _ Hon), (on_value _ _ _ Hon). split; [done|by apply value_ok].
  - intros it i Hpos. cbn. by rewrite (position_status it i).
Qed.

(** The same for the iterator that [Block::NewIterator] returns. *)
Definition block_usable (b : BlockIterator) : Prop := exists it, b = Entries contents R N it /\ status_ it = OK.
Definition block_position (b : BlockIterator) (i : nat) : Prop := exists it, b = Entries contents R N it /\ position it i.

#[local] Ltac block_moves H :=
  let it := fresh "it" in let E := fresh "E" in let Hat := fresh "Hat" in
  destruct H as (it & E & Hat); cbn in E |- *; rewrite E; cbn [obind]; eexists; split; [done|by exists it].

#[global] Instance any_block_lawful :
  @LawfulIterator BlockIterator any_block_iterator order valid (map entry_of ps) block_usable block_position.
Proof.
  pose proof block_lawful as Hl. split.
  - intros b i (it & -> & Hat). destruct (@at_usable _ _ _ _ _ _ _ Hl it i Hat) as [Hst Hi]. split; [by exists it|exact Hi].
  - intros b (it & -> & Hst). block_moves (@first_law _ _ _ _ _ _ _ Hl it Hst).
  - intros b (it & -> & Hst). block_moves (@last_law _ _ _ _ _ _ _ Hl it Hst).
  - intros b target (it & -> & Hst) Ht. block_moves (@seek_law _ _ _ _ _ _ _ Hl it target Hst Ht).
  - intros b i (it & -> & Hat) Hi. block_moves (@next_law _ _ _ _ _ _ _ Hl it i Hat Hi).
  - intros b i (it & -> & Hat) Hi. block_moves (@prev_law _ _ _ _ _ _ _ Hl it i Hat Hi).
  - intros b i (it & -> & Hat). exact (@valid_law _ _ _ _ _ _ _ Hl it i Hat).
  - intros b i k v (it & -> & Hat) E. exact (@entry_law _ _ _ _ _ _ _ Hl it i k v Hat E).
  - intros b i (it & -> & Hat). exact (@status_law _ _ _ _ _ _ _ Hl it i Hat).
Qed.
End Seek.
End Reader.
