(* ===== verification/BlockSpec.v ===== *)
(** * What blocks guarantee

    A block that was built is read back by its iterator; a corrupt one can
    make the iterator read outside it. *)
From S2P Require Import Prelude Base128 Order Coding CodingProof Env Comparator ComparatorProof Iterator Block BlockProof BlockIterProof.
From S2P Require Import SkipListProof SkipListSet.

Section Spec.
Context `{Comparator} (valid : list Z -> Prop) (order : list Z -> list Z -> comparison) {Hlaw : LawfulComparator valid order}.
Context (I : nat) (HI : (1 <= I)%nat) (HI31 : Z.of_nat I < 2 ^ 31 - 1).

Fixpoint add_entries (es : entries) (b : BlockBuilder) : outcome BlockBuilder :=
  match es with
  | [] => Ok b
  | (k, v) :: es' => let! b := Add (Z.of_nat I) k v b in add_entries es' b
  end.

(** A bound on the size of a block. *)
Definition room (es : entries) : Z := foldr (fun e n => zlen e.1 + zlen e.2 + 19 + n) 8 es.

Definition entries_ok (es : entries) : Prop :=
  Forall (fun e => valid e.1) es /\ sorted order (keys_of es) /\ room es < 2 ^ 32.

Lemma room_app es fs : room (es ++ fs) = room es + room fs - 8.
Proof. unfold room. induction es as [|e es IH]; cbn [app foldr]; [lia|]. rewrite IH. lia. Qed.

Lemma room_min es : 8 + 19 * zlen es <= room es.
Proof.
  induction es as [|e es IH]; [done|]. rewrite zlen_cons. unfold room in *. cbn [foldr].
  pose proof (zlen_nonneg e.1). pose proof (zlen_nonneg e.2). lia.
Qed.

Lemma room_entry es e : e ∈ es -> zlen e.1 + zlen e.2 + 27 <= room es.
Proof.
  intros (l1 & l2 & ->)%list_elem_of_split. rewrite room_app. pose proof (room_min l1). pose proof (room_min l2).
  pose proof (zlen_nonneg l1). pose proof (zlen_nonneg l2). unfold room in *. cbn [foldr] in *. lia.
Qed.

Lemma piece_max p : (shared p <= length (piece_key p))%nat -> zlen (piece_key p) < 2 ^ 32 -> zlen (piece_value p) < 2 ^ 32 ->
  zlen (piece_bytes p) <= zlen (piece_key p) + zlen (piece_value p) + 15.
Proof.
  intros Hs Hk Hv. rewrite zlen_piece. unfold header. rewrite !zlen_app. pose proof (zlen_nonneg (piece_value p)).
  pose proof (zlen_varint32 (Z.of_nat (shared p)) ltac:(unfold zlen in *; lia)).
  pose proof (zlen_varint32 (zlen (piece_key p) - Z.of_nat (shared p)) ltac:(unfold zlen in *; lia)).
  pose proof (zlen_varint32 (zlen (piece_value p)) ltac:(lia)).
  unfold zlen in *. rewrite length_drop. lia.
Qed.

Lemma body_max ps : shares I ps -> Forall (fun p => zlen (piece_key p) < 2 ^ 32 /\ zlen (piece_value p) < 2 ^ 32) ps ->
  zlen (body ps) + 4 * zlen ps + 8 <= room (map entry_of ps).
Proof.
  intros Hsh Hf. assert (Hs : Forall (fun p => (shared p <= length (piece_key p))%nat) ps).
  { apply Forall_lookup. intros i p Hp. by apply (shares_prefix I ps Hsh i p Hp). }
  clear Hsh. induction ps as [|p ps IH]; [done|]. inversion Hf as [|? ? [Hk Hv] Hf']; inversion Hs; subst.
  specialize (IH Hf' ltac:(done)). unfold body in *. cbn [map concat]. rewrite zlen_app, zlen_cons.
  pose proof (piece_max p ltac:(done) Hk Hv). unfold room in *. cbn [foldr map entry_of fst snd]. lia.
Qed.

Lemma add_entries_ok es : forall b ps, built I b ps -> entries_ok (map entry_of ps ++ es) ->
  exists b' ps', add_entries es b = Ok b' /\ built I b' ps' /\ map entry_of ps' = map entry_of ps ++ es.
Proof.
  induction es as [|[k v] es IH]; intros b ps Hb Hok.
  - exists b, ps. by rewrite app_nil_r.
  - pose proof Hok as (Hv & Hs & Hroom). apply Forall_app in Hv as [Hvp [Hvk Hves]%Forall_cons]. cbn in Hvk.
    assert (Hsz : Forall (fun e => zlen e.1 < 2 ^ 32 /\ zlen e.2 < 2 ^ 32) (map entry_of ps ++ (k, v) :: es)).
    { apply Forall_forall. intros e He. pose proof (room_entry _ e He). pose proof (zlen_nonneg e.1). pose proof (zlen_nonneg e.2). lia. }
    apply Forall_app in Hsz as [Hszp [[Hk32 Hv32] _]%Forall_cons].
    pose proof (body_max ps (built_shares _ _ _ Hb) (proj1 (Forall_map _ _ _) Hszp)) as Hbody.
    rewrite room_app in Hroom. pose proof (room_min ((k, v) :: es)) as Hrest. rewrite zlen_cons in Hrest. pose proof (zlen_nonneg es). pose proof (zlen_nonneg ps).
    assert (Hprev : ps <> [] -> exists e, (map entry_of ps) !! (length ps - 1)%nat = Some e /\ e.1 = prev_key ps (length ps)).
    { intros Hne. destruct (lookup_lt_is_Some_2 ps (length ps - 1)) as [p Hp]; [destruct ps; [done|cbn; lia]|].
      exists (entry_of p). split; [by apply (list_lookup_fmap_Some_2 entry_of ps (length ps - 1) p)|].
      destruct ps as [|p0 ps]; [done|]. cbn [length] in *. rewrite Nat.sub_succ, Nat.sub_0_r in Hp.
      change (prev_key (p0 :: ps) (S (length ps))) with (match (p0 :: ps) !! length ps with Some p => piece_key p | None => [] end).
      by rewrite Hp. }
    destruct (block_Add_ok valid order I HI HI31 b ps k v Hb) as (b1 & s & E & Hb1); [|done| |lia|done|done|].
    + intros Hne. destruct (Hprev Hne) as (e & He & <-).
      apply (sorted_lookup _ (keys_of (map entry_of ps ++ (k, v) :: es)) (length ps - 1) (length ps) _ _ Hs).
      * unfold keys_of. rewrite map_app, lookup_app_l by (rewrite !length_map; destruct ps; [done|cbn; lia]).
        by apply (list_lookup_fmap_Some_2 fst).
      * unfold keys_of. rewrite map_app, lookup_app_r by (rewrite !length_map; lia). rewrite !length_map, Nat.sub_diag. done.
      * destruct ps; [done|cbn; lia].
    + intros Hne. destruct (Hprev Hne) as (e & He & <-). rewrite Forall_lookup in Hvp. by apply (Hvp _ _ He).
    + cbn [add_entries]. rewrite E. cbn [obind].
      destruct (IH b1 (ps ++ [mk_piece s k v]) Hb1) as (b' & ps' & E' & Hb' & Em).
      * rewrite map_app, <- app_assoc. exact Hok.
      * exists b', ps'. split; [done|]. split; [done|]. rewrite Em, map_app, <- app_assoc. done.
Qed.

(** Opening the block that was built. *)
Lemma Finish_ok b ps : built I b ps -> 4 * zlen ps + 8 < 2 ^ 32 ->
  (Finish b).1 = contents ps (restarts_ b) /\ zlen (restarts_ b) <= zlen ps + 1.
Proof.
  intros [Hbuf _ _ _ Hr (c & Hc & HcI & Hlen)] Hsz.
  assert (Hrs : zlen (restarts_ b) <= zlen ps + 1) by (destruct Hr as [H0 _]; unfold zlen; nia). split; [|done].
  unfold Finish. cbn [fst]. pose proof (zlen_nonneg (restarts_ b)). rewrite wrap_small by lia.
  unfold PutFixed32 at 1. rewrite put_fixed_table, Hbuf. unfold contents. rewrite map_app, concat_app. cbn [map concat].
  by rewrite app_nil_r, app_assoc.
Qed.

Lemma open_block ps rs : restart_points I ps rs -> zlen (contents ps rs) < 2 ^ 32 ->
  exists blk it, new_Block (contents ps rs) = Ok blk /\
    NewIterator blk = Ok (Entries (contents ps rs) (zlen (body ps)) (zlen rs) it) /\ status_ it = OK /\
    current_ it = zlen (body ps) /\ blk = mk_block (contents ps rs) (zlen (contents ps rs)) (zlen (body ps)).
Proof.
  intros [H0 _] Hsize. assert (Hz : zlen (contents ps rs) = zlen (body ps) + 4 * zlen rs + 4).
  { unfold contents. rewrite zlen_app, zlen_fixed_table, zlen_app, zlen_cons, zlen_nil. lia. }
  pose proof (zlen_nonneg (body ps)). assert (Hrs : 1 <= zlen rs) by (unfold zlen; lia).
  assert (En : NumRestarts (contents ps rs) (zlen (contents ps rs)) = Ok (zlen rs)).
  { unfold NumRestarts, assert. rewrite (proj2 (Z.leb_le _ _)) by lia. rewrite Hz.
    replace (Z.to_nat _) with (length (body ps) + 4 * length rs)%nat by (unfold zlen; lia).
    unfold contents. rewrite <- drop_drop, drop_app_length, <- (app_nil_r (concat _)).
    rewrite (decode_fixed_table (rs ++ [zlen rs]) (length rs) (zlen rs) []) by (by rewrite list_lookup_middle).
    f_equal. apply wrap_small. lia. }
  unfold new_Block. rewrite (proj2 (Z.ltb_ge _ _)) by lia. rewrite En. cbn [obind].
  rewrite (proj2 (Z.ltb_ge _ _)) by (rewrite Hz; euclid). rewrite (wrap_small 32 (1 + zlen rs)) by lia.
  rewrite wrap_small by lia. eexists _, _. split; [done|]. unfold NewIterator. cbn [size_ data_ restart_offset_].
  rewrite (proj2 (Z.ltb_ge _ _)) by lia. rewrite En. cbn [obind]. rewrite (proj2 (Z.eqb_neq _ _)) by lia.
  unfold new_Iter, assert. rewrite (proj2 (Z.ltb_lt _ _)) by lia. cbn [obind].
  replace (zlen (contents ps rs) - (1 + zlen rs) * 4) with (zlen (body ps)) by lia. done.
Qed.

(** C17: Blocks round trip.  Entries with increasing keys, added to a builder
    with any restart interval, give contents on which the block iterator
    walks over exactly these entries: forward from the first, backward from
    the last, and from a seek on those whose keys are not before the target;
    its status stays OK. *)
Theorem block_roundtrip es :
  entries_ok es ->
  exists b0 b blk data restarts num it, new_BlockBuilder (Z.of_nat I) = Ok b0 /\ add_entries es b0 = Ok b /\
    new_Block (Finish b).1 = Ok blk /\ NewIterator blk = Ok (Entries data restarts num it) /\
    let walk := @walk_entries Iter (block_iterator data restarts num) (S (length es)) in
    let next := iter_Next data restarts num in
    (let! first := iter_SeekToFirst data restarts num it in walk next first) = Ok es /\
    (let! last := iter_SeekToLast data restarts num it in walk (iter_Prev data restarts num) last) = Ok (rev es) /\
    forall target, valid target ->
      exists found, iter_Seek data restarts num target it = Ok found /\ status_ found = OK /\
        walk next found = Ok (drop (place order target (keys_of es)) es).
Proof.
  intros Hok. destruct (new_built I HI) as (b0 & E0 & H0).
  destruct (add_entries_ok es b0 [] H0 Hok) as (b & ps & E & Hb & Hes). cbn [map app] in Hes.
  destruct Hok as (Hv & Hs & Hroom). subst es.
  assert (Hsz : Forall (fun p => zlen (piece_key p) < 2 ^ 32 /\ zlen (piece_value p) < 2 ^ 32) ps).
  { apply (proj1 (Forall_map entry_of (fun e => zlen e.1 < 2 ^ 32 /\ zlen e.2 < 2 ^ 32) ps)), Forall_forall. intros e He. pose proof (room_entry _ e He). pose proof (zlen_nonneg e.1). pose proof (zlen_nonneg e.2). lia. }
  pose proof Hb as [_ _ _ Hsh Hrs _]. pose proof (body_max ps Hsh Hsz) as Hbody. pose proof (zlen_nonneg ps). pose proof (zlen_nonneg (body ps)).
  destruct (Finish_ok b ps Hb ltac:(lia)) as [Ef Hn].
  assert (Hsize : zlen (contents ps (restarts_ b)) < 2 ^ 32).
  { unfold contents. rewrite zlen_app, zlen_fixed_table, zlen_app, zlen_cons, zlen_nil. lia. }
  destruct (open_block ps (restarts_ b) Hrs Hsize) as (blk & it & Eb & Ei & Hst & _).
  exists b0, b, blk, (contents ps (restarts_ b)), (zlen (body ps)), (zlen (restarts_ b)), it. rewrite Ef.
  do 4 (split; [done|]). cbv zeta.
  assert (Hkeys : Forall (fun p => zlen (piece_key p) < 2 ^ 32) ps) by (eapply Forall_impl; [exact Hsz|]; by intros p [Hk _]).
  assert (Hvk : Forall (fun p => valid (piece_key p)) ps) by (by apply (proj1 (Forall_map entry_of (fun e => valid e.1) ps))).
  assert (Hsk : sorted order (map piece_key ps)) by (unfold keys_of in Hs; by rewrite map_map in Hs).
  pose proof (block_lawful I HI ps (restarts_ b) Hsh Hrs Hsize Hkeys valid order Hvk Hsk) as Hlawful.
  set (es := map entry_of ps) in *. split; [|split].
  - destruct (@first_law _ _ _ _ _ _ _ Hlawful it Hst) as (it' & Ef' & Hat). cbn in Ef'. rewrite Ef'. cbn [obind].
    exact (walk_next (Hlaw := Hlawful) order valid es _ _ (S (length es)) it' 0 Hat ltac:(lia)).
  - destruct (@last_law _ _ _ _ _ _ _ Hlawful it Hst) as (it' & Ef' & Hat). cbn in Ef'. rewrite Ef'. cbn [obind].
    exact (walk_last (Hlaw := Hlawful) order valid es _ _ it' Hat).
  - intros target Ht. destruct (@seek_law _ _ _ _ _ _ _ Hlawful it target Hst Ht) as (it' & Ef' & Hat). exists it'. split; [exact Ef'|]. split.
    + pose proof (@status_law _ _ _ _ _ _ _ Hlawful it' _ Hat) as Es. by injection Es.
    + apply (walk_next (Hlaw := Hlawful) order valid es _ _ (S (length es)) it' _ Hat). lia.
Qed.
End Spec.

(** C39: Corrupt lengths.  The two lengths of an entry are added in 32 bits
    before they are compared with what is left of the block; when their sum
    is [2^32] the check passes, and parsing the entry reads outside the
    block. *)
Theorem block_length_overflow non_shared :
  64 <= non_shared < 2 ^ 32 ->
  let data := varint 0 ++ varint non_shared ++ varint (2 ^ 32 - non_shared) ++ EncodeFixed32 0 ++ EncodeFixed32 1 in
  exists blk it, new_Block data = Ok blk /\ NewIterator blk = Ok (Entries data (zlen data - 8) 1 it) /\
    iter_SeekToFirst data (zlen data - 8) 1 it = UB OverRead.
Proof.
  intros Hns data.
  set (pieces := varint 0 ++ varint non_shared ++ varint (2 ^ 32 - non_shared)).
  assert (Hdata : data = pieces ++ concat (map EncodeFixed32 [0; 1])) by (unfold data, pieces; rewrite <- !app_assoc; cbn [map concat]; by rewrite app_nil_r).
  assert (Hz : zlen data = zlen pieces + 8) by (rewrite Hdata, zlen_app; done). clearbody data.
  assert (Hp : 3 <= zlen pieces <= 15).
  { unfold pieces. rewrite !zlen_app. pose proof (varint_nonempty non_shared). pose proof (varint_nonempty (2 ^ 32 - non_shared)).
    pose proof (zlen_varint32 non_shared ltac:(lia)). pose proof (zlen_varint32 (2 ^ 32 - non_shared) ltac:(lia)).
    change (zlen (varint 0)) with 1. lia. }
  assert (Hword : forall j v, [0; 1] !! j = Some v -> DecodeFixed32 (drop (length pieces + 4 * j) data) = Ok (wrap 32 v)).
  { intros j v Hj. rewrite Hdata, <- drop_drop, drop_app_length, <- (app_nil_r (concat _)). by apply decode_fixed_table. }
  assert (Elen : Z.of_nat (length pieces) = zlen pieces) by done.
  assert (En : NumRestarts data (zlen data) = Ok 1).
  { unfold NumRestarts, assert. rewrite (proj2 (Z.leb_le _ _)) by lia.
    replace (Z.to_nat _) with (length pieces + 4 * 1)%nat by lia. by rewrite (Hword 1%nat 1 eq_refl). }
  eexists _, (mk_iter (zlen data - 8) 1 [] None OK). split; [|split].
  - unfold new_Block. rewrite (proj2 (Z.ltb_ge _ _)) by lia. rewrite En. cbn [obind].
    rewrite (proj2 (Z.ltb_ge _ _)) by euclid. reflexivity.
  - unfold NewIterator. cbn [size_ data_ restart_offset_]. rewrite (proj2 (Z.ltb_ge _ _)) by lia. rewrite En. cbn [obind Z.eqb].
    change (wrap 32 (1 + 1) * 4) with 8. rewrite wrap_small by lia. done.
  - unfold iter_SeekToFirst, SeekToRestartPoint, GetRestartPoint. cbn [Z.ltb Z.compare assert].
    replace (Z.to_nat (zlen data - 8 + 0 * 4)) with (length pieces + 4 * 0)%nat by lia.
    rewrite (Hword 0%nat 0 eq_refl). cbn [obind]. unfold ParseNextKey, NextEntryOffset. cbn [obind value_ key_ current_ status_ restart_index_].
    change (wrap 32 (wrap 32 0 + 0)) with 0. rewrite (proj2 (Z.leb_gt _ _)) by lia. cbn [Z.to_nat]. rewrite drop_0.
    replace (take (Z.to_nat (zlen data - 8)) data) with pieces.
    2:{ rewrite Hdata at 2. replace (Z.to_nat _) with (length pieces) by lia. by rewrite take_app_length. }
    unfold DecodeEntry. unfold pieces at 1. rewrite <- (app_nil_r (varint (2 ^ 32 - non_shared))), entry_header_ok by lia.
    replace (non_shared + (2 ^ 32 - non_shared)) with (2 ^ 32) by lia. cbn [zlen]. change (wrap 32 (zlen []) <? wrap 32 (2 ^ 32)) with false.
    cbn iota. change (zlen [] <? 0) with false. cbn iota. unfold bytes_at. rewrite (proj2 (Z.ltb_lt _ _)); [done|].
    change (zlen []) with 0. lia.
Qed.

(** ** Concrete runs *)
Lemma block_roundtrip_witness :
  let es := [([1; 2], [7]); ([1; 2; 3], [8; 8]); ([1; 3], []); ([2], [9])] in
  exists b0 b blk data restarts num it found, @new_BlockBuilder 2 = Ok b0 /\ @add_entries BytewiseComparator 2 es b0 = Ok b /\
    new_Block (Finish b).1 = Ok blk /\ NewIterator blk = Ok (Entries data restarts num it) /\
    @iter_Seek BytewiseComparator data restarts num [1; 2; 9] it = Ok found /\
    @walk_entries Iter (@block_iterator BytewiseComparator data restarts num) 5 (iter_Next data restarts num) found = Ok [([1; 3], []); ([2], [9])].
Proof.
  assert (Hb : forall l, forallb (fun b => (0 <=? b) && (b <? 256)) l = true -> bytes l).
  { intros l Hl. apply Forall_forall. intros b Hb%list_elem_of_In. rewrite forallb_forall in Hl. specialize (Hl b Hb). unfold is_byte. lia. }
  destruct (@block_roundtrip BytewiseComparator bytes lex bytewise_lawful 2 ltac:(lia) ltac:(lia)
    [([1; 2], [7]); ([1; 2; 3], [8; 8]); ([1; 3], []); ([2], [9])]) as (b0 & b & blk & data & restarts & num & it & E0 & E & Eb & Ei & _ & _ & H).
  - split; [|split; [|by vm_compute]].
    + repeat (apply Forall_cons_2; [by apply Hb|]). apply Forall_nil_2.
    + repeat (constructor; [|repeat (apply Forall_cons_2; [by vm_compute|]); apply Forall_nil_2]). constructor.
  - destruct (H [1; 2; 9] ltac:(by apply Hb)) as (found & Es & _ & Ew).
    exists b0, b, blk, data, restarts, num, it, found. auto 10.
Defined.

Lemma block_length_overflow_witness :
  let data := [0; 64; 192; 255; 255; 255; 15; 0; 0; 0; 0; 1; 0; 0; 0] in
  exists blk it, new_Block data = Ok blk /\ NewIterator blk = Ok (Entries data (zlen data - 8) 1 it) /\
    iter_SeekToFirst data (zlen data - 8) 1 it = UB OverRead.
Proof. exact (block_length_overflow 64 ltac:(lia)). Defined.
