(* ===== verification/Format.v ===== *)
(** * The table format ([table/format.cc]) and options ([leveldb/options.h])

    Handles and footers, stored blocks and how they are read; the options that
    matter to tables. *)
From S2P Require Import Prelude Coding Crc32c Bloom Env Comparator.

(** ** Block handles *)
Definition kMaxEncodedLength : Z := 10 + 10.

Record BlockHandle : Type := mk_handle { handle_offset : Z; handle_size : Z }.

(** [~static_cast<uint64_t>(0)], the value of a field that was not set. *)
Definition unset_field : Z := wrap 64 (Z.lnot 0).
Definition new_BlockHandle : BlockHandle := mk_handle unset_field unset_field.

Definition BlockHandle_EncodeTo (h : BlockHandle) (dst : list Z) : outcome (list Z) :=
  assert (negb (handle_offset h =? unset_field))
  (assert (negb (handle_size h =? unset_field))
  (Ok (PutVarint64 (PutVarint64 dst (handle_offset h)) (handle_size h)))).

(** The status, the handle and what is left of the input. *)
Definition BlockHandle_DecodeFrom (h : BlockHandle) (input : list Z) : Status * BlockHandle * list Z :=
  match GetVarint64 input with
  | (Some offset, input) =>
      match GetVarint64 input with
      | (Some size, input) => (OK, mk_handle offset size, input)
      | (None, input) => (Corruption "bad block handle", mk_handle offset (handle_size h), input)
      end
  | (None, input) => (Corruption "bad block handle", h, input)
  end.

(** ** The footer *)
Definition kEncodedLength : Z := 2 * kMaxEncodedLength + 8.
Definition kTableMagicNumber : Z := 0xdb4775248b80fb57.
Definition kBlockTrailerSize : Z := 5.

Record Footer : Type := mk_footer { metaindex_handle : BlockHandle; index_handle : BlockHandle }.
Definition new_Footer : Footer := mk_footer new_BlockHandle new_BlockHandle.

(** [std::string::resize]. *)
Definition resize (n : Z) (dst : list Z) : list Z :=
  take (Z.to_nat n) dst ++ replicate (Z.to_nat n - length dst) 0.

Definition Footer_EncodeTo (f : Footer) (dst : list Z) : outcome (list Z) :=
  let original_size := zlen dst in
  let! dst := BlockHandle_EncodeTo (metaindex_handle f) dst in
  let! dst := BlockHandle_EncodeTo (index_handle f) dst in
  let dst := resize (2 * kMaxEncodedLength) dst in
  let dst := PutFixed32 dst (Z.land kTableMagicNumber 0xffffffff) in
  let dst := PutFixed32 dst (wrap 32 (Z.shiftr kTableMagicNumber 32)) in
  assert (zlen dst =? original_size + kEncodedLength) (Ok dst).

Definition Footer_DecodeFrom (f : Footer) (input : list Z) : outcome (Status * Footer * list Z) :=
  let magic_ptr := drop (Z.to_nat (kEncodedLength - 8)) input in
  let! magic_lo := DecodeFixed32 magic_ptr in
  let! magic_hi := DecodeFixed32 (drop 4 magic_ptr) in
  let magic := Z.lor (wrap 64 (Z.shiftl magic_hi 32)) magic_lo in
  if negb (magic =? kTableMagicNumber) then Ok (Corruption "not an sstable (bad magic number)", f, input)
  else
    let '(result, metaindex, rest) := BlockHandle_DecodeFrom (metaindex_handle f) input in
    if ok result then
      let '(result, index, rest) := BlockHandle_DecodeFrom (index_handle f) rest in
      if ok result then Ok (result, mk_footer metaindex index, drop 8 magic_ptr)
      else Ok (result, mk_footer metaindex index, rest)
    else Ok (result, mk_footer metaindex (index_handle f), rest).

(** ** Stored blocks *)

(** The codes in a file; the application is built without Snappy, and then
    [port/port_stdcxx.h] has functions that fail. *)
Inductive CompressionType : Type := kNoCompression | kSnappyCompression.
Definition compression_code (t : CompressionType) : Z :=
  match t with kNoCompression => 0 | kSnappyCompression => 1 end.
Definition Snappy_Compress (input : list Z) : option (list Z) := None.
Definition Snappy_GetUncompressedLength (input : list Z) : option Z := None.
Definition Snappy_Uncompress (input : list Z) : option (list Z) := None.

Record BlockContents : Type := mk_contents { data : Slice; cachable : bool; heap_allocated : bool }.

Section ReadBlock.
Context `{RandomAccessFile F}.

(** The checksum over the contents and the type. *)
Definition block_crc_ok (contents : Slice) (n : Z) : outcome bool :=
  let! stored := (let! word := bytes_at (n + 1) 4 (Env.contents contents) in DecodeFixed32 word) in
  let crc := Unmask stored in
  let! checked := bytes_at 0 (wrap 64 (n + 1)) (Env.contents contents) in
  let! actual := Value (data_ contents) checked in
  Ok (actual =? crc).

(** [buf] and [ubuf] are the addresses [new] returns. *)
Definition ReadBlock (file : F) (verify_checksums : bool) (handle : BlockHandle) (buf ubuf : Z) :
    outcome (Status * BlockContents) :=
  let result := mk_contents (mk_slice 0 []) false false in
  let n := handle_size handle in
  let (s, contents) := ReadAt file (handle_offset handle) (wrap 64 (n + kBlockTrailerSize)) buf in
  if negb (ok s) then Ok (s, result)
  else if negb (size contents =? wrap 64 (n + kBlockTrailerSize)) then Ok (Corruption "truncated block read", result)
  else
    let! crc_ok := (if verify_checksums then block_crc_ok contents n else Ok true) in
    if negb crc_ok then Ok (Corruption "block checksum mismatch", result)
    else
      let! t := bytes_at n 1 (Env.contents contents) in
      let! raw := bytes_at 0 n (Env.contents contents) in
      if bool_decide (t = [compression_code kNoCompression]) then
        if negb (data_ contents =? buf) then Ok (OK, mk_contents (mk_slice (data_ contents) raw) false false)
        else Ok (OK, mk_contents (mk_slice buf raw) true true)
      else if bool_decide (t = [compression_code kSnappyCompression]) then
        match Snappy_GetUncompressedLength raw with
        | None => Ok (Corruption "corrupted compressed block contents", result)
        | Some ulength =>
            match Snappy_Uncompress raw with
            | None => Ok (Corruption "corrupted compressed block contents", result)
            | Some u => Ok (OK, mk_contents (mk_slice ubuf (take (Z.to_nat ulength) u)) true true)
            end
        end
      else Ok (Corruption "bad block type", result).
End ReadBlock.

(** ** Options ([leveldb/options.h])

    Those that matter to tables. *)
Record Options : Type := mk_options {
  comparator : Comparator;
  paranoid_checks : bool;
  block_size : Z;
  block_restart_interval : Z;
  compression : CompressionType;
  filter_policy : option FilterPolicy
}.

(** [options.block_restart_interval = 1]. *)
Definition index_options (o : Options) : Options :=
  mk_options (comparator o) (paranoid_checks o) (block_size o) 1 (compression o) (filter_policy o).

(** [ReadOptions]. *)
Record ReadOptions : Type := mk_read_options { verify_checksums : bool; fill_cache : bool }.
Definition default_read_options : ReadOptions := mk_read_options false true.
