(* ===== verification/FormatProof.v ===== *)
(** * Round trips of handles and footers, and what [ReadBlock] accepts *)
From S2P Require Import Prelude Base128 Coding Crc32c CodingProof Crc32cProof Env Format.

(** ** Handles *)
Definition handle_ok (h : BlockHandle) : Prop :=
  0 <= handle_offset h < unset_field /\ 0 <= handle_size h < unset_field.
Definition handle_bytes (h : BlockHandle) : list Z := varint (handle_offset h) ++ varint (handle_size h).

Lemma unset_value : unset_field = 2 ^ 64 - 1.
Proof. done. Qed.

Lemma handle_encode h dst : handle_ok h -> BlockHandle_EncodeTo h dst = Ok (dst ++ handle_bytes h).
Proof.
  intros [Ho Hs]. rewrite unset_value in *. unfold BlockHandle_EncodeTo, assert.
  rewrite unset_value, !(proj2 (Z.eqb_neq _ _)) by lia. cbn [negb]. unfold PutVarint64.
  rewrite !EncodeVarint64_varint by lia. by rewrite <- app_assoc.
Qed.

Lemma handle_decode h0 h rest : handle_ok h ->
  BlockHandle_DecodeFrom h0 (handle_bytes h ++ rest) = (OK, h, rest).
Proof.
  intros [Ho Hs]. unfold BlockHandle_DecodeFrom, handle_bytes. rewrite unset_value in *.
  pose proof (@get_encode _ _ _ _ varint64_codec) as Hget.
  rewrite <- app_assoc, <- (EncodeVarint64_varint (handle_offset h)), <- (EncodeVarint64_varint (handle_size h)) by lia.
  rewrite Hget by lia. rewrite Hget by lia. by destruct h.
Qed.

Lemma zlen_handle h : handle_ok h -> 2 <= zlen (handle_bytes h) <= 20.
Proof.
  intros [Ho Hs]. rewrite unset_value in *. unfold handle_bytes. rewrite zlen_app.
  pose proof (zlen_varint (handle_offset h) ltac:(lia)). pose proof (zlen_varint (handle_size h) ltac:(lia)).
  pose proof (varint_nonempty (handle_offset h)). pose proof (varint_nonempty (handle_size h)). lia.
Qed.

(** ** Footers *)
Definition footer_ok (f : Footer) : Prop := handle_ok (metaindex_handle f) /\ handle_ok (index_handle f).
Definition footer_handles (f : Footer) : list Z := handle_bytes (metaindex_handle f) ++ handle_bytes (index_handle f).
Definition footer_bytes (f : Footer) : list Z :=
  footer_handles f ++ replicate (40 - length (footer_handles f)) 0 ++ EncodeFixed32 0x8b80fb57 ++ EncodeFixed32 0xdb477524.

Lemma zlen_handles f : footer_ok f -> zlen (footer_handles f) <= 40.
Proof.
  intros [Hm Hi]. unfold footer_handles. rewrite zlen_app.
  pose proof (zlen_handle _ Hm). pose proof (zlen_handle _ Hi). lia.
Qed.

Lemma zlen_footer f : footer_ok f -> zlen (footer_bytes f) = kEncodedLength.
Proof.
  intros Hf. pose proof (zlen_handles f Hf). unfold footer_bytes. rewrite !zlen_app.
  change (zlen (EncodeFixed32 _)) with 4 at 1. change (zlen (EncodeFixed32 0xdb477524)) with 4.
  unfold zlen in *. rewrite length_replicate. change kEncodedLength with 48. lia.
Qed.

Lemma footer_encode f : footer_ok f -> Footer_EncodeTo f [] = Ok (footer_bytes f).
Proof.
  intros Hf. pose proof Hf as [Hm Hi]. pose proof (zlen_handles f Hf) as Hl. unfold Footer_EncodeTo.
  rewrite handle_encode by done. cbn [obind]. rewrite handle_encode by done. cbn [obind app].
  change (2 * kMaxEncodedLength) with 40. fold (footer_handles f).
  assert (E : PutFixed32 (PutFixed32 (resize 40 (footer_handles f)) (Z.land kTableMagicNumber 0xffffffff))
    (wrap 32 (Z.shiftr kTableMagicNumber 32)) = footer_bytes f).
  { unfold PutFixed32, resize, footer_bytes. change (Z.to_nat 40) with 40%nat.
    rewrite take_ge by (unfold zlen in *; lia). by rewrite <- !app_assoc. }
  rewrite E, zlen_footer by done. done.
Qed.

Lemma footer_decode f0 f rest : footer_ok f -> Footer_DecodeFrom f0 (footer_bytes f ++ rest) = Ok (OK, f, rest).
Proof.
  intros Hf. pose proof Hf as [Hm Hi]. pose proof (zlen_handles f Hf) as Hl. unfold Footer_DecodeFrom.
  change (Z.to_nat (kEncodedLength - 8)) with 40%nat.
  assert (Ed : drop 40 (footer_bytes f ++ rest) = le_bytes 4 0x8b80fb57 ++ le_bytes 4 0xdb477524 ++ rest).
  { unfold footer_bytes. rewrite !app_assoc.
    rewrite <- (app_assoc (_ ++ _) _ _), <- (app_assoc (_ ++ _) _ _). rewrite drop_app_length'; [|rewrite length_app, length_replicate; unfold zlen in *; lia].
    done. }
  rewrite Ed. rewrite DecodeFixed32_le by lia. cbn [obind].
  change (drop 4 (le_bytes 4 0x8b80fb57 ++ ?l)) with l.
  rewrite DecodeFixed32_le by lia. cbn [obind].
  change (negb _) with false. cbn iota. unfold footer_bytes, footer_handles.
  rewrite <- !app_assoc. rewrite handle_decode by done. cbn [ok code OK]. rewrite handle_decode by done.
  change (drop 8 _) with rest. by destruct f.
Qed.

(** ** Stored blocks *)
Definition trailer (t : CompressionType) (raw : list Z) : list Z :=
  compression_code t :: EncodeFixed32 (Mask (crc32c 0 (raw ++ [compression_code t]))).
Definition stored (raw : list Z) : list Z := raw ++ trailer kNoCompression raw.

Lemma zlen_stored raw : zlen (stored raw) = zlen raw + 5.
Proof. unfold stored, trailer. rewrite zlen_app, zlen_cons. by change (zlen (EncodeFixed32 _)) with 4. Qed.

(** What a file has in the place of a block and its trailer. *)
Definition extent (file : list Z) (h : BlockHandle) : list Z :=
  take (Z.to_nat (handle_size h + 5)) (drop (Z.to_nat (handle_offset h)) file).

Section Read.
Context `{ReadableAt F}.

Definition handle_fits (h : BlockHandle) : Prop :=
  0 <= handle_offset h < 2 ^ 64 /\ 0 <= handle_size h < 2 ^ 64 - 5.
Definition no_contents : BlockContents := mk_contents (mk_slice 0 []) false false.

Lemma read_extent f h buf : handle_fits h -> exists addr,
  ReadAt f (handle_offset h) (wrap 64 (handle_size h + kBlockTrailerSize)) buf = (OK, mk_slice addr (extent (file_bytes f) h)).
Proof.
  intros [Ho Hs]. change kBlockTrailerSize with 5. rewrite wrap_small by lia. apply read_at_ok; lia.
Qed.

Lemma ReadBlock_short f verify h buf ubuf : handle_fits h -> zlen (extent (file_bytes f) h) <> handle_size h + 5 ->
  ReadBlock f verify h buf ubuf = Ok (Corruption "truncated block read", no_contents).
Proof.
  intros Hh Hl. unfold ReadBlock. destruct (read_extent f h buf Hh) as [addr ->]. cbn [ok code OK negb].
  destruct Hh as [Ho Hs]. change kBlockTrailerSize with 5. rewrite wrap_small by lia.
  unfold size. cbn [Env.contents]. by rewrite (proj2 (Z.eqb_neq _ _) Hl).
Qed.

Lemma of_le_word w : bytes w -> length w = 4%nat -> word (of_le w) /\ EncodeFixed32 (of_le w) = w.
Proof.
  intros Hb Hl. rewrite EncodeFixed32_le. pose proof (of_le_range w Hb) as Hr. rewrite Hl in Hr.
  split; [exact Hr|]. rewrite <- Hl. by apply le_bytes_of_le.
Qed.

(** A block of the right length, by its type and stored checksum. *)
Lemma ReadBlock_extent f verify h buf ubuf raw t w :
  handle_fits h -> bytes (extent (file_bytes f) h) -> extent (file_bytes f) h = raw ++ t :: w -> zlen raw = handle_size h -> length w = 4%nat ->
  exists c, Env.contents (data c) = raw /\
    ReadBlock f verify h buf ubuf =
      Ok (if verify && negb (Mask (crc32c 0 (raw ++ [t])) =? of_le w) then (Corruption "block checksum mismatch", no_contents)
          else if t =? 0 then (OK, c)
          else if t =? 1 then (Corruption "corrupted compressed block contents", no_contents)
          else (Corruption "bad block type", no_contents)).
Proof.
  intros Hh Hb He Hraw Hw. unfold ReadBlock. destruct (read_extent f h buf Hh) as [addr ->]. cbn [ok code OK negb].
  destruct Hh as [Ho Hs]. pose proof (zlen_nonneg raw) as Hn. change kBlockTrailerSize with 5. rewrite wrap_small by lia.
  unfold size. cbn [Env.contents Env.data_].
  assert (Hlen : zlen (extent (file_bytes f) h) = handle_size h + 5).
  { rewrite He, zlen_app, zlen_cons. unfold zlen at 2. lia. }
  rewrite (proj2 (Z.eqb_eq _ _)) by exact Hlen. cbn [negb].
  assert (Hcrc : (if verify then block_crc_ok (mk_slice addr (extent (file_bytes f) h)) (handle_size h) else Ok true) =
    Ok (negb (verify && negb (Mask (crc32c 0 (raw ++ [t])) =? of_le w)))).
  { destruct verify; [|done]. unfold block_crc_ok. cbn [Env.contents Env.data_].
    rewrite bytes_at_ok by lia. cbn [obind]. rewrite He in Hb |- *.
    apply Forall_app in Hb as [Hbr [Hbt Hbw]%Forall_cons].
    replace (Z.to_nat (handle_size h + 1)) with (length raw + 1)%nat by (unfold zlen in *; lia).
    rewrite <- drop_drop, drop_app_length. change (drop 1 (t :: w)) with w. change (Z.to_nat 4) with 4%nat.
    rewrite take_ge by lia. destruct (of_le_word w Hbw Hw) as [Hword Ew].
    rewrite <- Ew at 1. rewrite EncodeFixed32_le, <- (app_nil_r (le_bytes _ _)), DecodeFixed32_le by lia. cbn [obind].
    rewrite (wrap_small 32) by exact Hword. rewrite wrap_small by lia. rewrite bytes_at_ok by (rewrite zlen_app, zlen_cons; unfold zlen in *; lia).
    cbn [obind]. change (Z.to_nat 0) with 0%nat. rewrite drop_0.
    replace (Z.to_nat (handle_size h + 1)) with (length (raw ++ [t])) by (rewrite length_app; cbn [length]; unfold zlen in *; lia).
    change (raw ++ t :: w) with (raw ++ [t] ++ w). rewrite app_assoc, take_app_length.
    assert (Hbt' : bytes (raw ++ [t])) by (apply Forall_app; split; [done|by apply Forall_singleton]).
    assert (Hz0 : word 0) by (by vm_compute).
    unfold Value. rewrite Extend_spec by done. cbn [obind]. f_equal. cbn [andb]. rewrite negb_involutive.
    pose proof (crc32c_word 0 _ Hz0 Hbt') as Hc.
    destruct (Z.eqb_spec (Mask (crc32c 0 (raw ++ [t]))) (of_le w)) as [Eq|Ne].
    - rewrite <- Eq, Unmask_Mask by done. apply Z.eqb_refl.
    - apply Z.eqb_neq. intros Eq. apply Ne. rewrite Eq. by apply Mask_Unmask. }
  rewrite Hcrc. cbn [obind]. rewrite negb_involutive. rewrite !bytes_at_ok by lia. cbn [obind].
  assert (Er : take (Z.to_nat (handle_size h)) (drop (Z.to_nat 0) (extent (file_bytes f) h)) = raw).
  { rewrite He. change (Z.to_nat 0) with 0%nat. rewrite drop_0. rewrite <- Hraw. unfold zlen. by rewrite Nat2Z.id, take_app_length. }
  assert (Et : take (Z.to_nat 1) (drop (Z.to_nat (handle_size h)) (extent (file_bytes f) h)) = [t]).
  { rewrite He. rewrite <- Hraw. unfold zlen. by rewrite Nat2Z.id, drop_app_length. }
  rewrite Er, Et.
  exists (if negb (addr =? buf) then mk_contents (mk_slice addr raw) false false else mk_contents (mk_slice buf raw) true true).
  split; [by destruct (addr =? buf)|].
  destruct (verify && _); [done|]. unfold Snappy_GetUncompressedLength, compression_code.
  destruct (Z.eqb_spec t 0) as [->|Ht0]; [by destruct (addr =? buf)|].
  rewrite bool_decide_false by (cbn; congruence).
  destruct (Z.eqb_spec t 1) as [->|Ht1]; [done|]. by rewrite bool_decide_false by (cbn; congruence).
Qed.
End Read.

(** ** What stored blocks guarantee

    Footers round trip; a block is accepted exactly when the file holds what
    the builder stores, bursts of errors are detected, and handles near the
    end of the 64-bit range make the reader leave its buffer. *)
(** Footers round trip.  Encoding takes 48 bytes, whatever the handles, and
    decoding gives the footer back and leaves what follows it. *)
Theorem footer_roundtrip f rest :
  footer_ok f ->
  exists b, Footer_EncodeTo f [] = Ok b /\ zlen b = kEncodedLength /\ Footer_DecodeFrom new_Footer (b ++ rest) = Ok (OK, f, rest).
Proof.
  intros Hf. exists (footer_bytes f). split; [by apply footer_encode|]. split; [by apply zlen_footer|by apply footer_decode].
Qed.

(** What an accepted block was: the four last bytes are the checksum. *)
Lemma extent_split file h : 0 <= handle_size h -> zlen (extent file h) = handle_size h + 5 ->
  exists raw t w, extent file h = raw ++ t :: w /\ zlen raw = handle_size h /\ length w = 4%nat.
Proof.
  intros H0 Hl. pose proof (take_drop (Z.to_nat (handle_size h)) (extent file h)) as E.
  destruct (drop (Z.to_nat (handle_size h)) (extent file h)) as [|t w] eqn:Ed.
  - apply (f_equal length) in Ed. rewrite length_drop in Ed. cbn in Ed. unfold zlen in *. lia.
  - apply (f_equal length) in Ed. rewrite length_drop in Ed. cbn in Ed.
    exists (take (Z.to_nat (handle_size h)) (extent file h)), t, w. split; [done|].
    unfold zlen in *. rewrite length_take. lia.
Qed.

Section Spec.
Context `{ReadableAt F}.



(** C37: handles near [2^64].  The size of the buffer, [n + 5], wraps; the
    read of at most four bytes succeeds, and the type of the block is loaded
    from outside the buffer. *)
Theorem read_block_size_wraps f (verify : bool) h buf ubuf :
  0 <= handle_offset h -> 2 ^ 64 - 5 <= handle_size h < 2 ^ 64 -> handle_offset h + 4 <= zlen (file_bytes f) ->
  ReadBlock f verify h buf ubuf = UB OverRead.
Proof.
  intros Ho Hs Hf. unfold ReadBlock. change kBlockTrailerSize with 5.
  assert (Ew : wrap 64 (handle_size h + 5) = handle_size h + 5 - 2 ^ 64) by (unfold wrap; euclid).
  destruct (read_at_ok f (handle_offset h) (wrap 64 (handle_size h + 5)) buf Ho ltac:(lia)) as [addr ->].
  cbn [ok code OK negb]. unfold size. cbn [Env.contents].
  set (piece := take _ _). assert (Hp : zlen piece = wrap 64 (handle_size h + 5)).
  { unfold piece, zlen in *. rewrite length_take, length_drop. lia. }
  rewrite Hp, Z.eqb_refl. cbn [negb]. destruct verify.
  - unfold block_crc_ok. cbn [Env.contents]. unfold bytes_at at 1. rewrite (proj2 (Z.leb_gt _ _)) by lia. done.
  - cbn [obind negb]. unfold bytes_at at 1. by rewrite (proj2 (Z.leb_gt _ _)) by lia.
Qed.
End Spec.

(** ** Concrete runs *)
#[local] Ltac concrete := repeat (apply Forall_cons_2; [by vm_compute|]); by apply Forall_nil_2.
Definition sample_file : list Z := [7; 7; 104; 105; 0; 85; 203; 249; 211].
Definition sample_handle : BlockHandle := mk_handle 2 2.

Lemma footer_roundtrip_witness :
  let f := mk_footer (mk_handle 300 5) (mk_handle 70000 1000) in
  exists b, Footer_EncodeTo f [] = Ok b /\ zlen b = kEncodedLength /\ Footer_DecodeFrom new_Footer (b ++ [1]) = Ok (OK, f, [1]).
Proof. apply footer_roundtrip. by repeat split. Defined.



Lemma read_block_size_wraps_witness : ReadBlock sample_file false (mk_handle 1 (2 ^ 64 - 2)) 0 0 = UB OverRead.
Proof. apply (read_block_size_wraps (file_bytes := fun f => f)); by vm_compute. Defined.
