(* ===== verification/TableBuilder.v ===== *)
(** * Building tables ([table/table_builder.cc])

    Keys are added in increasing order to the current data block; a full
    block is written to the file, and the index gets an entry for it when the
    first key of the next one is known. *)
From S2P Require Import Prelude Coding Crc32c Env Comparator Bloom Format.
From S2P Require FilterBlock Block.

(** A block builder points to options, a filter block builder to a policy. *)
Definition block_Add (o : Options) : list Z -> list Z -> Block.BlockBuilder -> outcome Block.BlockBuilder :=
  @Block.Add (comparator o) (block_restart_interval o).
Definition block_new (o : Options) : outcome Block.BlockBuilder := Block.new_BlockBuilder (block_restart_interval o).

Section TableBuilder.
Context `{WritableFile F}.
(** Where the code has a string of bytes, which decides how the checksum's
    loops are aligned. *)
Context (address : list Z -> Z).

Record Rep : Type := mk_rep {
  options : Options;
  index_block_options : Options;
  file : F;
  offset : Z;
  status : Status;
  data_block : Block.BlockBuilder;
  index_block : Block.BlockBuilder;
  last_key : list Z;
  num_entries : Z;
  closed : bool;
  filter_block : option (FilterPolicy * FilterBlock.FilterBlockBuilder);
  pending_index_entry : bool;
  pending_handle : BlockHandle
}.

(** Assignments to one member each. *)
Definition set_options (o i : Options) (r : Rep) : Rep :=
  mk_rep o i (file r) (offset r) (status r) (data_block r) (index_block r) (last_key r) (num_entries r) (closed r)
    (filter_block r) (pending_index_entry r) (pending_handle r).
Definition set_file (s : Status) (f : F) (r : Rep) : Rep :=
  mk_rep (options r) (index_block_options r) f (offset r) s (data_block r) (index_block r) (last_key r) (num_entries r)
    (closed r) (filter_block r) (pending_index_entry r) (pending_handle r).
Definition set_offset (o : Z) (r : Rep) : Rep :=
  mk_rep (options r) (index_block_options r) (file r) o (status r) (data_block r) (index_block r) (last_key r)
    (num_entries r) (closed r) (filter_block r) (pending_index_entry r) (pending_handle r).
Definition set_data_block (b : Block.BlockBuilder) (r : Rep) : Rep :=
  mk_rep (options r) (index_block_options r) (file r) (offset r) (status r) b (index_block r) (last_key r)
    (num_entries r) (closed r) (filter_block r) (pending_index_entry r) (pending_handle r).
Definition set_index_block (b : Block.BlockBuilder) (r : Rep) : Rep :=
  mk_rep (options r) (index_block_options r) (file r) (offset r) (status r) (data_block r) b (last_key r)
    (num_entries r) (closed r) (filter_block r) (pending_index_entry r) (pending_handle r).
Definition set_last_key (k : list Z) (r : Rep) : Rep :=
  mk_rep (options r) (index_block_options r) (file r) (offset r) (status r) (data_block r) (index_block r) k
    (num_entries r) (closed r) (filter_block r) (pending_index_entry r) (pending_handle r).
Definition set_num_entries (n : Z) (r : Rep) : Rep :=
  mk_rep (options r) (index_block_options r) (file r) (offset r) (status r) (data_block r) (index_block r) (last_key r)
    n (closed r) (filter_block r) (pending_index_entry r) (pending_handle r).
Definition set_closed (r : Rep) : Rep :=
  mk_rep (options r) (index_block_options r) (file r) (offset r) (status r) (data_block r) (index_block r) (last_key r)
    (num_entries r) true (filter_block r) (pending_index_entry r) (pending_handle r).
Definition set_filter_block (b : option (FilterPolicy * FilterBlock.FilterBlockBuilder)) (r : Rep) : Rep :=
  mk_rep (options r) (index_block_options r) (file r) (offset r) (status r) (data_block r) (index_block r) (last_key r)
    (num_entries r) (closed r) b (pending_index_entry r) (pending_handle r).
Definition set_pending (p : bool) (r : Rep) : Rep :=
  mk_rep (options r) (index_block_options r) (file r) (offset r) (status r) (data_block r) (index_block r) (last_key r)
    (num_entries r) (closed r) (filter_block r) p (pending_handle r).
Definition set_pending_handle (h : BlockHandle) (r : Rep) : Rep :=
  mk_rep (options r) (index_block_options r) (file r) (offset r) (status r) (data_block r) (index_block r) (last_key r)
    (num_entries r) (closed r) (filter_block r) (pending_index_entry r) h.

Definition check (b : bool) : M Rep unit := if b then ret tt else fails BadAssert.
Definition builder_ok (r : Rep) : bool := ok (status r).

(** [r->status = r->file->Append(data)]. *)
Definition append (bytes : list Z) : M Rep unit :=
  modify (fun r => let (s, f) := Append bytes (file r) in set_file s f r).

(** A call of the filter block builder, when there is one; it has the policy
    of the options it was made with. *)
Definition filter_step (call : FilterBlock.filter_call) : M Rep unit :=
  do r <- get;
  match filter_block r with
  | Some (policy, b) =>
      do b <- lift (@FilterBlock.filter_step policy call b);
      modify (set_filter_block (Some (policy, b)))
  | None => ret tt
  end.

(** ** Writing blocks *)
Definition WriteRawBlock (block_contents : list Z) (t : CompressionType) : M Rep BlockHandle :=
  do r <- get;
  let handle := mk_handle (offset r) (zlen block_contents) in
  run append block_contents;
  do r <- get;
  if builder_ok r then
    do crc <- lift (Value (address block_contents) block_contents);
    do crc <- lift (Extend (address [compression_code t]) crc [compression_code t]);
    run append (compression_code t :: EncodeFixed32 (Mask crc));
    do r <- get;
    if builder_ok r then
      run modify (set_offset (wrap 64 (offset r + (zlen block_contents + kBlockTrailerSize))));
      ret handle
    else ret handle
  else ret handle.

(** The handle and the block after its [Reset]. *)
Definition WriteBlock (block : Block.BlockBuilder) : M Rep (BlockHandle * Block.BlockBuilder) :=
  do r <- get;
  run check (builder_ok r);
  let (raw, block) := Block.Finish block in
  let '(block_contents, t) :=
    match compression (options r) with
    | kNoCompression => (raw, kNoCompression)
    | kSnappyCompression =>
        match Snappy_Compress raw with
        | Some compressed =>
            if zlen compressed <? zlen raw - zlen raw / 8 then (compressed, kSnappyCompression)
            else (raw, kNoCompression)
        | None => (raw, kNoCompression)
        end
    end in
  do handle <- WriteRawBlock block_contents t;
  ret (handle, Block.Reset block).

(** ** The operations *)
Definition new_TableBuilder (o : Options) (f : F) : outcome Rep :=
  let! data := block_new o in
  let! index := block_new o in
  let filter := (fun policy => (policy, FilterBlock.new_FilterBlockBuilder)) <$> filter_policy o in
  let r := mk_rep o (index_options o) f 0 OK data index [] 0 false filter false new_BlockHandle in
  let! (_, r) := filter_step (FilterBlock.Start 0) r in
  Ok r.

(** [same] is whether both options have the same comparator. *)
Definition ChangeOptions (same : bool) (o : Options) : M Rep Status :=
  if negb same then ret (make_status kInvalidArgument "changing comparator while building table" "")
  else run modify (set_options o (index_options o)); ret OK.

Definition Flush : M Rep unit :=
  do r <- get;
  run check (negb (closed r));
  if negb (builder_ok r) then ret tt
  else if Block.empty (data_block r) then ret tt
  else
    run check (negb (pending_index_entry r));
    do (handle, block) <- WriteBlock (data_block r);
    run modify (set_pending_handle handle);
    run modify (set_data_block block);
    do r <- get;
    run (if builder_ok r then
           run modify (set_pending true);
           modify (fun r => let (s, f) := Env.Flush (file r) in set_file s f r)
         else ret tt);
    do r <- get;
    filter_step (FilterBlock.Start (offset r)).

(** The index entry of the last block, under [key]. *)
Definition add_index_entry (key : list Z) : M Rep unit :=
  run modify (set_last_key key);
  do r <- get;
  do handle_encoding <- lift (BlockHandle_EncodeTo (pending_handle r) []);
  do block <- lift (block_Add (index_block_options r) key handle_encoding (index_block r));
  run modify (set_index_block block);
  modify (set_pending false).

Definition Add (key value : list Z) : M Rep unit :=
  do r <- get;
  run check (negb (closed r));
  if negb (builder_ok r) then ret tt
  else
    do larger <- (if 0 <? num_entries r then
                    do c <- lift (@Compare (comparator (options r)) key (last_key r)); ret (0 <? c)
                  else ret true);
    run check larger;
    run (if pending_index_entry r then
           run check (Block.empty (data_block r));
           do separator <- lift (@FindShortestSeparator (comparator (options r)) (last_key r) key);
           add_index_entry separator
         else ret tt);
    run filter_step (FilterBlock.Add key);
    run modify (set_last_key key);
    do n <- lift (or_ub BadInt (if num_entries r <? 2 ^ 63 - 1 then Some (num_entries r + 1) else None));
    run modify (set_num_entries n);
    do r <- get;
    do block <- lift (block_Add (options r) key value (data_block r));
    run modify (set_data_block block);
    if block_size (options r) <=? Block.CurrentSizeEstimate block then Flush else ret tt.

(** The metaindex block maps the name of the filter to its block. *)
Definition meta_index_block (filter_block_handle : BlockHandle) : M Rep Block.BlockBuilder :=
  do r <- get;
  do block <- lift (block_new (options r));
  match filter_block r with
  | Some _ =>
      do policy <- lift (or_ub BadPointer (filter_policy (options r)));
      do handle_encoding <- lift (BlockHandle_EncodeTo filter_block_handle []);
      lift (block_Add (options r) (chars "filter." ++ @policy_Name policy) handle_encoding block)
  | None => ret block
  end.

(** [if (ok()) ...], with the value of a variable that stays unset. *)
Definition when_ok {A} (unset : A) (c : M Rep A) : M Rep A :=
  do r <- get; if builder_ok r then c else ret unset.

Definition Finish : M Rep Status :=
  run Flush;
  do r <- get;
  run check (negb (closed r));
  run modify set_closed;
  do filter_block_handle <- when_ok new_BlockHandle
    (match filter_block r with
     | Some (policy, b) =>
         do contents <- lift (@FilterBlock.Finish policy b);
         WriteRawBlock contents kNoCompression
     | None => ret new_BlockHandle
     end);
  do metaindex_block_handle <- when_ok new_BlockHandle
    (do block <- meta_index_block filter_block_handle;
     do (handle, _) <- WriteBlock block;
     ret handle);
  do index_block_handle <- when_ok new_BlockHandle
    (do r <- get;
     run (if pending_index_entry r then
            do successor <- lift (@FindShortSuccessor (comparator (options r)) (last_key r));
            add_index_entry successor
          else ret tt);
     do r <- get;
     do (handle, block) <- WriteBlock (index_block r);
     run modify (set_index_block block);
     ret handle);
  run when_ok tt
    (do footer_encoding <- lift (Footer_EncodeTo (mk_footer metaindex_block_handle index_block_handle) []);
     run append footer_encoding;
     do r <- get;
     if builder_ok r then modify (set_offset (wrap 64 (offset r + zlen footer_encoding))) else ret tt);
  do r <- get;
  ret (status r).

Definition Abandon : M Rep unit :=
  do r <- get;
  run check (negb (closed r));
  modify set_closed.

Definition NumEntries (r : Rep) : Z := wrap 64 (num_entries r).
Definition FileSize (r : Rep) : Z := offset r.
End TableBuilder.
