(* ===== verification/TwoLevelIterator.v ===== *)
(** * Two-level iterators ([table/two_level_iterator.cc])

    An index iterator yields the handles of blocks, a block function makes an
    iterator of a block from its handle; together they iterate over the
    entries of all the blocks. *)
From S2P Require Import Prelude Env Comparator Iterator.

Section TwoLevelIterator.
Context {I D W : Type} `{Iterator I, Iterator D}.
(** The block function may change a state, that of the block cache; and so
    does deleting one of its iterators.  [fuel] bounds the loops that skip
    blocks. *)
Context (block_function : list Z -> W -> outcome (D * W)) (delete : D -> W -> outcome W) (fuel : nat).

Record TwoLevelIterator : Type := mk_two_level {
  world : W;
  status_ : Status;
  index_iter_ : IteratorWrapper I;
  data_iter_ : IteratorWrapper D;
  data_block_handle_ : list Z
}.

Definition NewTwoLevelIterator (index_iter : I) (w : W) : outcome TwoLevelIterator :=
  let! index := new_IteratorWrapper (Some index_iter) in
  let! data := new_IteratorWrapper None in
  Ok (mk_two_level w OK index data []).

Definition set_index (index : IteratorWrapper I) (t : TwoLevelIterator) : TwoLevelIterator :=
  mk_two_level (world t) (status_ t) index (data_iter_ t) (data_block_handle_ t).
Definition set_data (data : IteratorWrapper D) (t : TwoLevelIterator) : TwoLevelIterator :=
  mk_two_level (world t) (status_ t) (index_iter_ t) data (data_block_handle_ t).

Definition has_data (t : TwoLevelIterator) : bool := match iter_ (data_iter_ t) with Some _ => true | None => false end.

Definition SaveError (s saved : Status) : Status := if ok saved && negb (ok s) then s else saved.

(** The old iterator is deleted. *)
Definition SetDataIterator (data_iter : option D) (t : TwoLevelIterator) : outcome TwoLevelIterator :=
  let! (st, w) := match iter_ (data_iter_ t) with
                  | Some d =>
                      let! s := wrapper_status (data_iter_ t) in
                      let! w := delete d (world t) in
                      Ok (SaveError s (status_ t), w)
                  | None => Ok (status_ t, world t)
                  end in
  let! data := wrapper_Set data_iter (data_iter_ t) in
  Ok (mk_two_level w st (index_iter_ t) data (data_block_handle_ t)).

Definition InitDataBlock (t : TwoLevelIterator) : outcome TwoLevelIterator :=
  if negb (valid_ (index_iter_ t)) then SetDataIterator None t
  else
    let! handle := wrapper_value (index_iter_ t) in
    if has_data t && (slice_compare handle (data_block_handle_ t) =? 0) then Ok t
    else
      let! (iter, w) := block_function handle (world t) in
      SetDataIterator (Some iter) (mk_two_level w (status_ t) (index_iter_ t) (data_iter_ t) handle).

(** [if (data_iter_.iter() != nullptr) data_iter_.f()]. *)
Definition data_move (f : IteratorWrapper D -> outcome (IteratorWrapper D)) (t : TwoLevelIterator) : outcome TwoLevelIterator :=
  if has_data t then let! data := f (data_iter_ t) in Ok (set_data data t) else Ok t.

(** [SkipEmptyDataBlocksForward] and [SkipEmptyDataBlocksBackward], by the
    moves of the index and of the next data iterator. *)
Fixpoint skip_blocks (n : nat) (index_step : IteratorWrapper I -> outcome (IteratorWrapper I))
    (data_start : IteratorWrapper D -> outcome (IteratorWrapper D)) (t : TwoLevelIterator) : outcome TwoLevelIterator :=
  match n with
  | O => Timeout
  | S n' =>
      if negb (has_data t) || negb (valid_ (data_iter_ t)) then
        if negb (valid_ (index_iter_ t)) then SetDataIterator None t
        else
          let! index := index_step (index_iter_ t) in
          let! t := InitDataBlock (set_index index t) in
          let! t := data_move data_start t in
          skip_blocks n' index_step data_start t
      else Ok t
  end.
Definition SkipEmptyDataBlocksForward : TwoLevelIterator -> outcome TwoLevelIterator :=
  skip_blocks fuel wrapper_Next wrapper_SeekToFirst.
Definition SkipEmptyDataBlocksBackward : TwoLevelIterator -> outcome TwoLevelIterator :=
  skip_blocks fuel wrapper_Prev wrapper_SeekToLast.

Definition two_Seek (target : list Z) (t : TwoLevelIterator) : outcome TwoLevelIterator :=
  let! index := wrapper_Seek target (index_iter_ t) in
  let! t := InitDataBlock (set_index index t) in
  let! t := data_move (wrapper_Seek target) t in
  SkipEmptyDataBlocksForward t.

Definition two_SeekToFirst (t : TwoLevelIterator) : outcome TwoLevelIterator :=
  let! index := wrapper_SeekToFirst (index_iter_ t) in
  let! t := InitDataBlock (set_index index t) in
  let! t := data_move wrapper_SeekToFirst t in
  SkipEmptyDataBlocksForward t.

Definition two_SeekToLast (t : TwoLevelIterator) : outcome TwoLevelIterator :=
  let! index := wrapper_SeekToLast (index_iter_ t) in
  let! t := InitDataBlock (set_index index t) in
  let! t := data_move wrapper_SeekToLast t in
  SkipEmptyDataBlocksBackward t.

Definition two_Next (t : TwoLevelIterator) : outcome TwoLevelIterator :=
  assert (valid_ (data_iter_ t))
  (let! data := wrapper_Next (data_iter_ t) in
   SkipEmptyDataBlocksForward (set_data data t)).

Definition two_Prev (t : TwoLevelIterator) : outcome TwoLevelIterator :=
  assert (valid_ (data_iter_ t))
  (let! data := wrapper_Prev (data_iter_ t) in
   SkipEmptyDataBlocksBackward (set_data data t)).

Definition two_status (t : TwoLevelIterator) : outcome Status :=
  let! index_status := wrapper_status (index_iter_ t) in
  if negb (ok index_status) then Ok index_status
  else if has_data t then
    let! data_status := wrapper_status (data_iter_ t) in
    if negb (ok data_status) then Ok data_status else Ok (status_ t)
  else Ok (status_ t).

#[export] Instance two_level_iterator : Iterator TwoLevelIterator := {
  Valid t := Ok (valid_ (data_iter_ t));
  SeekToFirst := two_SeekToFirst;
  SeekToLast := two_SeekToLast;
  Seek := two_Seek;
  Next := two_Next;
  Prev := two_Prev;
  key t := assert (valid_ (data_iter_ t)) (wrapper_key (data_iter_ t));
  value t := assert (valid_ (data_iter_ t)) (wrapper_value (data_iter_ t));
  status := two_status
}.

(** The destructor: the wrappers delete their iterators. *)
Definition delete_TwoLevelIterator (t : TwoLevelIterator) : outcome W :=
  match iter_ (data_iter_ t) with Some d => delete d (world t) | None => Ok (world t) end.
End TwoLevelIterator.
Arguments TwoLevelIterator : clear implicits.
