(* ===== verification/Cache.v ===== *)
(** * Caches ([leveldb/cache.h])

    The interface, and what a cache promises: a handle designates the value
    of its mapping until it is released, and a mapping that is found was
    inserted. *)
From S2P Require Import Prelude.

(** [V] are the values, [H] the handles, [C] the state of a cache. *)
Class Cache (V H C : Type) : Type := {
  cache_Insert : list Z -> V -> Z -> C -> outcome (H * C);
  cache_Lookup : list Z -> C -> outcome (option H * C);
  cache_Release : H -> C -> outcome C;
  cache_Value : H -> C -> outcome V;
  cache_Erase : list Z -> C -> outcome C;
  cache_NewId : C -> Z * C
}.

(** [cached mapping c held]: mappings that were inserted satisfy [mapping],
    and [held] are the handles that were not released, with their values. *)
Class LawfulCache {V H C} `{Cache V H C} (cached : (list Z -> V -> Prop) -> C -> list (H * V) -> Prop) : Prop := {
  insert_law : forall mapping c held k v charge, cached mapping c held -> bytes k -> mapping k v -> 0 <= charge < 2 ^ 64 ->
    exists h c', cache_Insert k v charge c = Ok (h, c') /\ cached mapping c' ((h, v) :: held);
  lookup_law : forall mapping c held k, cached mapping c held -> bytes k ->
    exists r c', cache_Lookup k c = Ok (r, c') /\
      match r with
      | Some h => exists v, mapping k v /\ cached mapping c' ((h, v) :: held)
      | None => cached mapping c' held
      end;
  release_law : forall mapping c held h v, cached mapping c ((h, v) :: held) ->
    exists c', cache_Release h c = Ok c' /\ cached mapping c' held;
  value_law : forall mapping c held h v, cached mapping c held -> (h, v) ∈ held -> cache_Value h c = Ok v;
  erase_law : forall mapping c held k, cached mapping c held -> bytes k ->
    exists c', cache_Erase k c = Ok c' /\ cached mapping c' held;
  held_order : forall mapping c held held', held ≡ₚ held' -> cached mapping c held -> cached mapping c held';
  new_id_law : forall mapping c held, cached mapping c held -> cached mapping (cache_NewId c).2 held;
  mapping_law : forall (mapping mapping' : list Z -> V -> Prop) c held, (forall k v, mapping k v -> mapping' k v) ->
    cached mapping c held -> cached mapping' c held
}.

(** ** A cache that keeps nothing

    The handle of a value is the value itself; the state is the last id. *)
#[export] Instance uncached (V : Type) : Cache V V Z := {
  cache_Insert _ v _ c := Ok (v, c);
  cache_Lookup _ c := Ok (None, c);
  cache_Release _ c := Ok c;
  cache_Value h _ := Ok h;
  cache_Erase _ c := Ok c;
  cache_NewId c := (c + 1, c + 1)
}.

#[export] Instance uncached_law (V : Type) : LawfulCache (fun _ (_ : Z) (held : list (V * V)) => Forall (fun p => p.1 = p.2) held).
Proof.
  split; cbn.
  - intros m c held k v _ Hh _ _ _. exists v, c. split; [done|]. by apply Forall_cons_2.
  - intros m c held k Hh _. by exists None, c.
  - intros m c held h v [_ Hh]%Forall_cons. by exists c.
  - intros m c held h v Hh Hin. rewrite Forall_forall in Hh. specialize (Hh _ Hin). cbn in Hh. by rewrite Hh.
  - intros m c held k Hh _. by exists c.
  - intros m c held held' Hp Hh. by rewrite <- Hp.
  - done.
  - done.
Qed.
