(* ===== verification/Table.v ===== *)
(** * Reading tables ([table/table.cc])

    A table is opened by its footer and index block; its data blocks are read
    on demand, through the block cache when there is one. *)
From S2P Require Import Prelude Coding Env Comparator Bloom FilterBlock Iterator Block Format Cache TwoLevelIterator.

Section Table.
Context `{RandomAccessFile F} {Hd C : Type} `{Cache Block Hd C}.
(** The addresses of the buffers blocks and footers are read into. *)
Context (buf ubuf : Z).

Record Table : Type := mk_table {
  options : Options;
  file : F;
  cache_id : Z;
  filter : option (FilterPolicy * FilterBlockReader);
  metaindex_handle : BlockHandle;
  index_block : Block
}.

(** The options for reading the index and the meta blocks. *)
Definition meta_read_options (o : Options) : ReadOptions := mk_read_options (paranoid_checks o) true.

(** [rep_->filter], when the filter block can be read. *)
Definition ReadFilter (filter_handle_value : list Z) (policy : FilterPolicy) (t : Table) :
    outcome (option (FilterPolicy * FilterBlockReader)) :=
  let '(s, filter_handle, _) := BlockHandle_DecodeFrom new_BlockHandle filter_handle_value in
  if negb (ok s) then Ok (filter t)
  else
    let! (s, block) := ReadBlock (file t) (verify_checksums (meta_read_options (options t))) filter_handle buf ubuf in
    if negb (ok s) then Ok (filter t)
    else
      let! reader := new_FilterBlockReader (Env.contents (data block)) in
      Ok (Some (policy, reader)).

(** The metaindex block is ordered bytewise. *)
Definition ReadMeta (footer : Footer) (t : Table) : outcome Table :=
  match filter_policy (options t) with
  | None => Ok t
  | Some policy =>
      let! (s, contents) := ReadBlock (file t) (verify_checksums (meta_read_options (options t)))
                              (Format.metaindex_handle footer) buf ubuf in
      if negb (ok s) then Ok t
      else
        let! meta := new_Block (Env.contents (data contents)) in
        let! iter := NewIterator meta in
        let filter_key := chars "filter." ++ @policy_Name policy in
        let bytewise := @any_block_iterator BytewiseComparator in
        let! iter := @Seek _ bytewise filter_key iter in
        let! valid := @Valid _ bytewise iter in
        let! found := (if valid : bool then let! k := @key _ bytewise iter in Ok (bool_decide (k = filter_key)) else Ok false) in
        if found : bool then
          let! v := @value _ bytewise iter in
          let! f := ReadFilter v policy t in
          Ok (mk_table (options t) (file t) (cache_id t) f (metaindex_handle t) (index_block t))
        else Ok t
  end.

(** [size] is the length of the file; the cache, if any, gives out an id. *)
Definition Open (o : Options) (f : F) (size : Z) (cache : option C) : outcome (Status * option Table * option C) :=
  if size <? kEncodedLength then Ok (Corruption "file is too short to be an sstable", None, cache)
  else
    let (s, footer_input) := ReadAt f (size - kEncodedLength) kEncodedLength buf in
    if negb (ok s) then Ok (s, None, cache)
    else
      let! (s, footer, _) := Footer_DecodeFrom new_Footer (Env.contents footer_input) in
      if negb (ok s) then Ok (s, None, cache)
      else
        let! (s, index_block_contents) := ReadBlock f (verify_checksums (meta_read_options o)) (index_handle footer) buf ubuf in
        if ok s then
          let! index_block := new_Block (Env.contents (data index_block_contents)) in
          let (id, cache) := match cache with
                             | Some c => let (id, c) := cache_NewId c in (id, Some c)
                             | None => (0, None)
                             end in
          let! t := ReadMeta footer (mk_table o f id None (Format.metaindex_handle footer) index_block) in
          Ok (s, Some t, cache)
        else Ok (s, None, cache).

(** ** Blocks through the cache *)

(** The iterator of a block, and the cache handle it releases when it is
    deleted. *)
Record DataIterator : Type := mk_data { block_iter : BlockIterator; cache_handle : option Hd }.

Section Blocks.
Context (t : Table).

#[export] Instance data_iterator : Iterator DataIterator :=
  @lift_iterator BlockIterator DataIterator (@any_block_iterator (comparator (options t))) block_iter
    (fun b d => mk_data b (cache_handle d)).

(** [DeleteBlock] frees a block, [ReleaseBlock] releases its handle. *)
Definition delete_data (d : DataIterator) (cache : option C) : outcome (option C) :=
  match cache_handle d, cache with
  | Some h, Some c => let! c := cache_Release h c in Ok (Some c)
  | _, _ => Ok cache
  end.

Definition cache_key (handle : BlockHandle) : list Z :=
  EncodeFixed64 (cache_id t) ++ EncodeFixed64 (handle_offset handle).

(** A block from the file: its status, the block, and whether it may be
    cached. *)
Definition read_block (o : ReadOptions) (handle : BlockHandle) : outcome (Status * option Block * bool) :=
  let! (s, contents) := ReadBlock (file t) (verify_checksums o) handle buf ubuf in
  if ok s then let! block := new_Block (Env.contents (data contents)) in Ok (s, Some block, cachable contents)
  else Ok (s, None, false).

(** The block of a handle, its cache handle and the cache. *)
Definition find_block (o : ReadOptions) (handle : BlockHandle) (cache : option C) :
    outcome (Status * option Block * option Hd * option C) :=
  match cache with
  | Some c =>
      let! (found, c) := cache_Lookup (cache_key handle) c in
      match found with
      | Some h => let! block := cache_Value h c in Ok (OK, Some block, Some h, Some c)
      | None =>
          let! (s, block, may_cache) := read_block o handle in
          match block with
          | Some block =>
              if may_cache && fill_cache o then
                let! (h, c) := cache_Insert (cache_key handle) block (size_ block) c in
                Ok (s, Some block, Some h, Some c)
              else Ok (s, Some block, None, Some c)
          | None => Ok (s, None, None, Some c)
          end
      end
  | None =>
      let! (s, block, _) := read_block o handle in
      Ok (s, block, None, None)
  end.

Definition BlockReader (o : ReadOptions) (index_value : list Z) (cache : option C) : outcome (DataIterator * option C) :=
  let '(s, handle, _) := BlockHandle_DecodeFrom new_BlockHandle index_value in
  let! (s, block, h, cache) := (if ok s then find_block o handle cache else Ok (s, None, None, cache)) in
  match block with
  | Some block => let! it := NewIterator block in Ok (mk_data it h, cache)
  | None => Ok (mk_data (NoEntries (NewErrorIterator s)) None, cache)
  end.

(** ** Lookups and iteration *)

(** An index block of [n] bytes has fewer than [n] entries. *)
Definition skip_fuel : nat := S (S (length (Block.data_ (index_block t)))).

Definition TableIterator : Type := TwoLevelIterator BlockIterator DataIterator (option C).
Definition table_iterator (o : ReadOptions) : Iterator TableIterator :=
  @two_level_iterator BlockIterator DataIterator (option C) (@any_block_iterator (comparator (options t))) data_iterator
    (BlockReader o) delete_data skip_fuel.

Definition Table_NewIterator (cache : option C) : outcome TableIterator :=
  let! index := NewIterator (index_block t) in
  @NewTwoLevelIterator BlockIterator DataIterator (option C) (@any_block_iterator (comparator (options t))) data_iterator index cache.

(** [handle_result] is called with the entry at or after [k], if it is in the
    block where [k] belongs; [arg] is the state it changes. *)
Definition get_in_block {A} (o : ReadOptions) (k : list Z) (handle_value : list Z) (handle_result : list Z -> list Z -> A -> outcome A)
    (arg : A) (cache : option C) : outcome (Status * A * option C) :=
  let! (block_iter, cache) := BlockReader o handle_value cache in
  let! block_iter := Seek k block_iter in
  let! found := Valid block_iter in
  let! arg := (if found : bool then
                 let! rk := key block_iter in
                 let! rv := value block_iter in
                 handle_result rk rv arg
               else Ok arg) in
  let! s := status block_iter in
  let! cache := delete_data block_iter cache in
  Ok (s, arg, cache).

(** Whether the filter says that [k] is not in the block. *)
Definition filter_rejects (k handle_value : list Z) : outcome bool :=
  match filter t with
  | Some (policy, reader) =>
      let '(s, handle, _) := BlockHandle_DecodeFrom new_BlockHandle handle_value in
      if ok s then
        let! may_match := @FilterKeyMayMatch policy reader (handle_offset handle) k in Ok (negb may_match)
      else Ok false
  | None => Ok false
  end.

Definition InternalGet {A} (o : ReadOptions) (k : list Z) (handle_result : list Z -> list Z -> A -> outcome A)
    (arg : A) (cache : option C) : outcome (Status * A * option C) :=
  let blocks := @any_block_iterator (comparator (options t)) in
  let! iiter := NewIterator (index_block t) in
  let! iiter := @Seek _ blocks k iiter in
  let! valid := @Valid _ blocks iiter in
  let! (s, arg, cache) :=
    (if valid : bool then
       let! handle_value := @value _ blocks iiter in
       let! skip := filter_rejects k handle_value in
       if skip : bool then Ok (OK, arg, cache) else get_in_block o k handle_value handle_result arg cache
     else Ok (OK, arg, cache)) in
  let! index_status := @status _ blocks iiter in
  Ok (if ok s then index_status else s, arg, cache).

Definition ApproximateOffsetOf (k : list Z) : outcome Z :=
  let blocks := @any_block_iterator (comparator (options t)) in
  let! index_iter := NewIterator (index_block t) in
  let! index_iter := @Seek _ blocks k index_iter in
  let! valid := @Valid _ blocks index_iter in
  if valid : bool then
    let! input := @value _ blocks index_iter in
    let '(s, handle, _) := BlockHandle_DecodeFrom new_BlockHandle input in
    Ok (if ok s then handle_offset handle else handle_offset (metaindex_handle t))
  else Ok (handle_offset (metaindex_handle t)).
End Blocks.
End Table.
