(* ===== verification/TwoLevelProof.v ===== *)
(** * Two-level iterators are lawful

    When the index and the iterators of the blocks are, and the keys of the
    index separate the blocks, the two-level iterator is a cursor over the
    concatenation of the blocks. *)
From S2P Require Import Prelude Env Order Comparator ComparatorProof SkipListProof SkipListSet Iterator TwoLevelIterator.

(** ** Places in a concatenation *)
Section Place.
Context {K : Type} (order : K -> K -> comparison) {Horder : TotalOrder order}.

Lemma place_app key ks ks' : place order key (ks ++ ks') = (place order key ks + place order key ks')%nat.
Proof. unfold place. by rewrite List.filter_app, length_app. Qed.

Lemma place_all key ks : Forall (fun k => order k key = Lt) ks -> place order key ks = length ks.
Proof.
  unfold place, less. induction 1 as [|k ks Hk _ IH]; [done|]. cbn. rewrite Hk. cbn. by rewrite IH.
Qed.

Lemma place_none key ks : Forall (fun k => order k key <> Lt) ks -> place order key ks = 0%nat.
Proof.
  unfold place, less. induction 1 as [|k ks Hk _ IH]; [done|]. cbn. by destruct (order k key).
Qed.

Lemma place_before key ks m k : sorted order ks -> ks !! m = Some k -> (m < place order key ks)%nat <-> order k key = Lt.
Proof.
  revert m. induction ks as [|k0 ks IH]; intros m Hs Hm; [done|]. rewrite place_cons by done.
  inversion Hs as [|? ? Hs' Hf]; subst. unfold less. destruct m as [|m].
  - injection Hm as ->. destruct (order k key); split; (done || lia).
  - change (ks !! m = Some k) in Hm. specialize (IH m Hs' Hm).
    assert (Hge : order k0 key <> Lt -> order k key <> Lt).
    { intros Hn Hk. apply Hn. rewrite Forall_forall in Hf. pose proof (Hf k ltac:(by eapply list_elem_of_lookup_2)) as H0.
      by apply (order_lt_trans order _ _ _ H0 Hk). }
    destruct (order k0 key); [|by rewrite <- Nat.succ_lt_mono|]; split; try lia; intros Hk; by destruct (Hge ltac:(done) Hk).
Qed.

Lemma place_le key ks : (place order key ks <= length ks)%nat.
Proof. apply List.filter_length_le. Qed.

Lemma place_at_least {V} key (es : list (K * V)) m e : sorted order (map fst es) -> es !! m = Some e ->
  (place order key (map fst es) <= m)%nat -> order key e.1 <> Gt.
Proof.
  intros Hs Hm Hle Hgt. assert (Hk : map fst es !! m = Some e.1) by (by rewrite list_lookup_fmap, Hm).
  apply (place_before key _ m _ Hs) in Hk. apply (order_gt order), Hk in Hgt. lia.
Qed.
End Place.

Section TwoLevelProof.
Context {I D W P : Type} `{Iterator I, Iterator D}.
Context (block_function : list Z -> W -> outcome (D * W)) (delete : D -> W -> outcome W) (fuel : nat).
Context (order : list Z -> list Z -> comparison) {Horder : TotalOrder order} (valid : list Z -> Prop).

(** The index, and the entries of the block of each handle. *)
Context (idx : list (list Z * list Z)) (usable_i : I -> Prop) (at_i : I -> nat -> Prop) {Hindex : LawfulIterator I order valid idx usable_i at_i}.
Context (block_of : list Z -> list (list Z * list Z)) (usable_d : list Z -> D -> Prop) (at_d : list Z -> D -> nat -> Prop).
Context (Hdata : forall k h, (k, h) ∈ idx -> LawfulIterator D order valid (block_of h) (usable_d h) (at_d h)).
Context (Hstatus : forall k h d, (k, h) ∈ idx -> usable_d h d -> status d = Ok OK).

(** What an iterator of a block keeps alive in the state [W] does not change
    when it moves; [frame] is what others keep alive. *)
Context (pin : D -> P) (alive : W -> list P -> Prop) (frame : list P).
Context (Hpin : forall (f : D -> outcome D) d d', f d = Ok d' ->
  f = Next \/ f = Prev \/ f = SeekToFirst \/ f = SeekToLast \/ (exists k, f = Seek k) -> pin d' = pin d).
Context (Hfunction : forall k h w ps, (k, h) ∈ idx -> alive w ps ->
  exists d w', block_function h w = Ok (d, w') /\ usable_d h d /\ Valid d = Ok false /\ alive w' (pin d :: ps)).
Context (Hdelete : forall d w ps, alive w (pin d :: ps) -> exists w', delete d w = Ok w' /\ alive w' ps).
Context (Hperm : forall w ps ps', ps ≡ₚ ps' -> alive w ps -> alive w ps').

(** The keys of the index separate the blocks. *)
Context (Hidx_sorted : sorted order (keys_of idx)).
Context (Hupper : forall j k h, idx !! j = Some (k, h) -> Forall (fun e => order e.1 k <> Gt) (block_of h)).
Context (Hlower : forall j j' k h k' h', idx !! j = Some (k, h) -> idx !! j' = Some (k', h') -> (j < j')%nat ->
  Forall (fun e => order k e.1 = Lt) (block_of h')).
Context (Hvalid_idx : Forall (fun e => valid e.1) idx).
Context (Hfuel : (length idx + 1 < fuel)%nat).

Definition blocks : list (list (list Z * list Z)) := map (fun e => block_of e.2) idx.
Definition all_entries : list (list Z * list Z) := concat blocks.
Definition start_of (j : nat) : nat := length (concat (take j blocks)).

Let T : Type := TwoLevelIterator I D W.

(** What the data iterator keeps alive. *)
Definition pins (t : T) : list P := match iter_ (data_iter_ t) with Some d => [pin d] | None => [] end.

(** What holds before and after every operation. *)
Record base (t : T) : Prop := {
  base_status : status_ t = OK;
  base_alive : alive (world t) (pins t ++ frame);
  base_index : has_usable usable_i (index_iter_ t);
  base_data : forall d, iter_ (data_iter_ t) = Some d -> exists k, (k, data_block_handle_ t) ∈ idx /\ usable_d (data_block_handle_ t) d;
  base_none : iter_ (data_iter_ t) = None -> valid_ (data_iter_ t) = false
}.

(** At entry [i] of block [j], or past the last block. *)
Inductive at_block (t : T) (j i : nat) : Prop :=
| in_block k h : base t -> idx !! j = Some (k, h) -> wraps idx at_i (index_iter_ t) j -> data_block_handle_ t = h ->
    wraps (block_of h) (at_d h) (data_iter_ t) i -> at_block t j i
| past_blocks : base t -> j = length idx -> wraps idx at_i (index_iter_ t) j -> iter_ (data_iter_ t) = None -> i = 0%nat -> at_block t j i.

(** The position of the two-level iterator. *)
Definition two_at (t : T) (g : nat) : Prop := exists j i, at_block t j i /\ g = (start_of j + i)%nat /\
  (forall k h, idx !! j = Some (k, h) -> (i < length (block_of h))%nat).
(** ** Positions *)
Lemma blocks_lookup j k h : idx !! j = Some (k, h) -> blocks !! j = Some (block_of h).
Proof. intros E. unfold blocks. by rewrite list_lookup_fmap, E. Qed.

Lemma start_of_S j k h : idx !! j = Some (k, h) -> start_of (S j) = (start_of j + length (block_of h))%nat.
Proof.
  intros E%blocks_lookup. unfold start_of. rewrite (take_S_r _ _ _ E), concat_app, length_app. cbn [concat].
  by rewrite app_nil_r.
Qed.

Lemma start_of_all : start_of (length idx) = length all_entries.
Proof. unfold start_of, all_entries. rewrite take_ge; [done|]. unfold blocks. by rewrite length_map. Qed.

Lemma entry_in_block j i k h : idx !! j = Some (k, h) -> (i < length (block_of h))%nat ->
  all_entries !! (start_of j + i)%nat = block_of h !! i.
Proof.
  intros E%blocks_lookup Hi. unfold all_entries, start_of.
  assert (Eb : concat blocks = concat (take j blocks) ++ block_of h ++ concat (drop (S j) blocks)).
  { rewrite <- (take_drop_middle _ _ _ E) at 1. by rewrite concat_app. }
  rewrite Eb, lookup_app_r by lia. rewrite Nat.add_comm, Nat.add_sub. by apply lookup_app_l.
Qed.

Lemma start_of_le j k h : idx !! j = Some (k, h) -> (start_of j + length (block_of h) <= length all_entries)%nat.
Proof.
  intros E. rewrite <- (start_of_S j k h E). unfold start_of, all_entries.
  assert (Eb : concat blocks = concat (take (S j) blocks) ++ concat (drop (S j) blocks)) by (by rewrite <- concat_app, take_drop).
  rewrite Eb, length_app. lia.
Qed.

Lemma two_at_le t g : two_at t g -> (g <= length all_entries)%nat.
Proof.
  intros (j & i & [k h _ E _ _ _|_ -> _ _ ->] & -> & Hi).
  - pose proof (start_of_le j k h E). specialize (Hi k h E). lia.
  - by rewrite start_of_all, Nat.add_0_r.
Qed.

Lemma two_at_valid t g : two_at t g -> valid_ (data_iter_ t) = (g <? length all_entries)%nat.
Proof.
  intros (j & i & [k h _ E _ _ Hw|Hb -> _ Hn ->] & -> & Hi).
  - pose proof (start_of_le j k h E). specialize (Hi k h E). rewrite (wraps_valid _ _ Hw).
    rewrite !(proj2 (Nat.ltb_lt _ _)) by lia. done.
  - rewrite (base_none t Hb Hn), start_of_all, Nat.add_0_r. by rewrite Nat.ltb_irrefl.
Qed.

Lemma two_at_entry t g k v : two_at t g -> all_entries !! g = Some (k, v) ->
  wrapper_key (data_iter_ t) = Ok k /\ wrapper_value (data_iter_ t) = Ok v.
Proof.
  intros (j & i & [k0 h _ E _ _ Hw|_ -> _ _ ->] & -> & Hi) Hg.
  - rewrite (entry_in_block j i k0 h E (Hi k0 h E)) in Hg.
    pose proof (Hdata k0 h ltac:(by eapply list_elem_of_lookup_2)) as Hlaw. by apply (wraps_entry _ _ _ _ Hw Hg).
  - rewrite start_of_all, Nat.add_0_r in Hg. apply lookup_lt_Some in Hg. lia.
Qed.

Lemma base_status_ok t : base t -> (exists j, wraps idx at_i (index_iter_ t) j) -> two_status t = Ok OK.
Proof.
  intros Hb (j & Hj). unfold two_status. rewrite (wraps_status (Hlaw := Hindex) _ _ Hj). cbn [obind ok code OK negb].
  unfold has_data. destruct (iter_ (data_iter_ t)) as [d|] eqn:Ed; [|by rewrite (base_status t Hb)].
  destruct (base_data t Hb d Ed) as (k & Hin & Hu). unfold wrapper_status. rewrite Ed, (Hstatus k _ d Hin Hu).
  cbn [obind ok code OK negb]. by rewrite (base_status t Hb).
Qed.

(** ** Replacing the data iterator *)
Lemma base_set_index t w : base t -> has_usable usable_i w -> base (set_index w t).
Proof. intros [H1 H2 H3 H4 H5] Hu. by split. Qed.

(** Deleting the old iterator, if there is one. *)
Lemma delete_old t w ps : base t -> alive w (pins t ++ ps) ->
  exists w', match iter_ (data_iter_ t) with
             | Some d => let! s := wrapper_status (data_iter_ t) in let! w := delete d w in Ok (SaveError s (status_ t), w)
             | None => Ok (status_ t, w)
             end = Ok (OK, w') /\ alive w' ps.
Proof.
  intros Hb Hw. unfold pins in Hw. destruct (iter_ (data_iter_ t)) as [d|] eqn:Ed.
  - destruct (base_data t Hb d Ed) as (k & Hin & Hu). unfold wrapper_status. rewrite Ed, (Hstatus k _ d Hin Hu). cbn [obind].
    destruct (Hdelete d w ps Hw) as (w' & -> & Hw'). cbn [obind]. rewrite (base_status t Hb). by exists w'.
  - rewrite (base_status t Hb). by exists w.
Qed.

Lemma set_none_ok t : base t ->
  exists t', SetDataIterator delete None t = Ok t' /\ base t' /\ index_iter_ t' = index_iter_ t /\ iter_ (data_iter_ t') = None.
Proof.
  intros Hb. unfold SetDataIterator. destruct (delete_old t (world t) frame Hb (base_alive t Hb)) as (w' & -> & Hw'). cbn [obind].
  eexists. split; [done|]. split; [|done]. destruct Hb as [_ _ Hi _ _]. by split.
Qed.

Lemma init_ok t j : base t -> wraps idx at_i (index_iter_ t) j ->
  exists t', InitDataBlock block_function delete t = Ok t' /\ base t' /\ index_iter_ t' = index_iter_ t /\
    match idx !! j with
    | Some (k, h) => data_block_handle_ t' = h /\ has_usable (usable_d h) (data_iter_ t')
    | None => iter_ (data_iter_ t') = None
    end.
Proof.
  intros Hb Hj. unfold InitDataBlock. rewrite (wraps_valid _ _ Hj). destruct (idx !! j) as [[k h]|] eqn:E.
  2:{ rewrite (proj2 (Nat.ltb_ge _ _)) by (by apply lookup_ge_None). cbn [negb]. by apply set_none_ok. }
  rewrite (proj2 (Nat.ltb_lt _ _)) by (by eapply lookup_lt_Some). cbn [negb].
  destruct (wraps_entry (Hlaw := Hindex) _ _ k h Hj E) as [_ ->]. cbn [obind].
  assert (Hin : (k, h) ∈ idx) by (by eapply list_elem_of_lookup_2).
  destruct (has_data t && (slice_compare h (data_block_handle_ t) =? 0)) eqn:Esame.
  - apply andb_true_iff in Esame as [Hd Hc%Z.eqb_eq]. exists t. split; [done|]. split; [done|]. split; [done|].
    rewrite slice_compare_lex in Hc. assert (Eh : data_block_handle_ t = h).
    { symmetry. apply lex_eq. by destruct (lex h (data_block_handle_ t)). }
    split; [done|]. unfold has_data in Hd. destruct (iter_ (data_iter_ t)) as [d|] eqn:Ed; [|done].
    exists d. split; [done|]. destruct (base_data t Hb d Ed) as (k' & _ & Hu). by rewrite Eh in Hu.
  - destruct (Hfunction k h (world t) (pins t ++ frame) Hin (base_alive t Hb)) as (d & w1 & -> & Hu & Hv & Hw1). cbn [obind].
    unfold SetDataIterator. cbn [data_iter_ status_ world index_iter_ data_block_handle_].
    assert (Hw1' : alive w1 (pins t ++ pin d :: frame)) by (eapply Hperm; [|exact Hw1]; apply Permutation_middle).
    destruct (delete_old t w1 (pin d :: frame) Hb Hw1') as (w2 & -> & Hw2). cbn [obind wrapper_Set]. unfold Update. rewrite Hv. cbn [obind].
    eexists. split; [done|]. split; [|split; [done|split; [done|by exists d]]].
    split; cbn [status_ world index_iter_ data_iter_ iter_ valid_ data_block_handle_]; [done| | | |done].
    + exact Hw2.
    + by apply (base_index t Hb).
    + intros d' [= <-]. by exists k.
Qed.

(** Moving it. *)
Lemma data_moved t j k h f w i :
  base t -> idx !! j = Some (k, h) -> wraps idx at_i (index_iter_ t) j -> data_block_handle_ t = h ->
  wrapper_move f (data_iter_ t) = Ok w -> wraps (block_of h) (at_d h) w i ->
  f = Next \/ f = Prev \/ f = SeekToFirst \/ f = SeekToLast \/ (exists target, f = Seek target) ->
  at_block (set_data w t) j i.
Proof.
  intros Hb E Hj Hh Hmove Hw Hf. destruct (wrapper_move_inv _ _ _ Hmove) as (d & d' & Ed & Efd & Ed').
  assert (Hin : (k, h) ∈ idx) by (by eapply list_elem_of_lookup_2).
  apply (in_block _ j i k h); try done. destruct Hb as [H1 H2 H3 H4 H5].
  split; cbn [status_ world index_iter_ data_iter_ set_data data_block_handle_]; [done| |done| |].
  - unfold pins in *. cbn [data_iter_ set_data]. rewrite Ed', (Hpin f d d' Efd Hf). by rewrite Ed in H2.
  - intros d2 Ed2. rewrite Ed' in Ed2. injection Ed2 as <-. exists k. rewrite Hh. split; [done|].
    destruct (wraps_at _ _ Hw) as (s & Es & Hat). rewrite Ed' in Es. injection Es as <-.
    exact (proj1 (@at_usable _ _ _ _ _ _ _ (Hdata k h Hin) _ _ Hat)).
  - by rewrite Ed'.
Qed.

(** ** Skipping blocks *)
Lemma at_block_base t j i : at_block t j i -> base t.
Proof. by intros [? ? Hb|Hb]. Qed.
Lemma at_block_index t j i : at_block t j i -> wraps idx at_i (index_iter_ t) j.
Proof. by intros [? ? _ _ Hj|_ _ Hj]. Qed.

Lemma at_block_in t j i k h : at_block t j i -> idx !! j = Some (k, h) ->
  wraps (block_of h) (at_d h) (data_iter_ t) i /\ (i <= length (block_of h))%nat.
Proof.
  intros [k' h' _ E' _ _ Hw|_ -> _ _ _] E.
  - rewrite E in E'. injection E' as <- <-. split; [done|].
    by apply (wraps_le (Hlaw := Hdata k h ltac:(by eapply list_elem_of_lookup_2)) _ _ Hw).
  - apply lookup_lt_Some in E. lia.
Qed.

(** Positioning the index and then the iterator of its block. *)
Lemma start_block t index j f g pos :
  base t -> wraps idx at_i index j -> f = wrapper_move g ->
  g = Next \/ g = Prev \/ g = SeekToFirst \/ g = SeekToLast \/ (exists target, g = Seek target) ->
  (forall k h w, (k, h) ∈ idx -> has_usable (usable_d h) w -> exists w', f w = Ok w' /\ wraps (block_of h) (at_d h) w' (pos h)) ->
  exists t1 t2, InitDataBlock block_function delete (set_index index t) = Ok t1 /\ data_move f t1 = Ok t2 /\
    at_block t2 j (match idx !! j with Some (k, h) => pos h | None => 0%nat end).
Proof.
  intros Hb Hj -> Hg Hf. assert (Hb' : base (set_index index t)) by (by apply base_set_index; [|eapply (wraps_usable (Hlaw := Hindex))]).
  destruct (init_ok (set_index index t) j Hb' Hj) as (t1 & E1 & Hb1 & Ei1 & Hd1). exists t1.
  assert (Hj1 : wraps idx at_i (index_iter_ t1) j) by (by rewrite Ei1). destruct (idx !! j) as [[k h]|] eqn:E.
  - destruct Hd1 as [Hh Hu]. assert (Hin : (k, h) ∈ idx) by (by eapply list_elem_of_lookup_2).
    destruct (Hf k h (data_iter_ t1) Hin Hu) as (w & Ew & Hw). exists (set_data w t1). split; [done|].
    destruct Hu as (d & Ed & _). unfold data_move, has_data. rewrite Ed, Ew. cbn [obind]. split; [done|].
    by apply (data_moved t1 j k h g).
  - exists t1. split; [done|]. unfold data_move, has_data. rewrite Hd1. split; [done|].
    apply (past_blocks t1 j 0); try done. pose proof (wraps_le (Hlaw := Hindex) _ _ Hj). apply lookup_ge_None in E. lia.
Qed.

Lemma has_data_block (t : T) k h i : wraps (block_of h) (at_d h) (data_iter_ t) i -> (k, h) ∈ idx -> has_data t = true.
Proof. intros Hw _. destruct (wraps_at _ _ Hw) as (d & Ed & _). unfold has_data. by rewrite Ed. Qed.

Lemma skip_past n f g t i : at_block t (length idx) i ->
  exists t', skip_blocks block_function delete (S n) f g t = Ok t' /\ two_at t' (length all_entries).
Proof.
  intros Hat. cbn [skip_blocks]. destruct Hat as [k h _ E _ _ _|Hb _ Hj Hn ->]; [by apply lookup_lt_Some, Nat.lt_irrefl in E|].
  unfold has_data. rewrite Hn. cbn [negb orb]. rewrite (wraps_valid _ _ Hj), Nat.ltb_irrefl. cbn [negb].
  destruct (set_none_ok t Hb) as (t' & -> & Hb' & Ei & Hn'). exists t'. split; [done|].
  exists (length idx), 0%nat. split; [by apply past_blocks; rewrite ?Ei|]. split; [by rewrite start_of_all, Nat.add_0_r|].
  intros k h E. apply lookup_lt_Some in E. lia.
Qed.

Lemma skip_stop n f g t j i k h : at_block t j i -> idx !! j = Some (k, h) -> (i < length (block_of h))%nat ->
  skip_blocks block_function delete (S n) f g t = Ok t /\ two_at t (start_of j + i).
Proof.
  intros Hat E Hi. destruct (at_block_in t j i k h Hat E) as [Hw _]. cbn [skip_blocks].
  rewrite (has_data_block t k h i Hw) by (by eapply list_elem_of_lookup_2).
  rewrite (wraps_valid _ _ Hw), (proj2 (Nat.ltb_lt _ _) Hi). split; [done|]. exists j, i. split; [done|]. split; [done|].
  intros k' h' E'. rewrite E in E'. by injection E' as <- <-.
Qed.

(** At the end of a block the loop moves on. *)
Lemma skip_step n f g t j k h : at_block t j (length (block_of h)) -> idx !! j = Some (k, h) ->
  skip_blocks block_function delete (S n) f g t =
    let! index := f (index_iter_ t) in
    let! t := InitDataBlock block_function delete (set_index index t) in
    let! t := data_move g t in
    skip_blocks block_function delete n f g t.
Proof.
  intros Hat E. destruct (at_block_in t j _ k h Hat E) as [Hw _]. cbn [skip_blocks].
  rewrite (has_data_block t k h _ Hw) by (by eapply list_elem_of_lookup_2). rewrite (wraps_valid _ _ Hw), Nat.ltb_irrefl.
  cbn [negb orb]. rewrite (wraps_valid _ _ (at_block_index t j _ Hat)).
  by rewrite (proj2 (Nat.ltb_lt _ _) (lookup_lt_Some _ _ _ E)).
Qed.

Lemma block_start k h w : (k, h) ∈ idx -> has_usable (usable_d h) w ->
  exists w', wrapper_SeekToFirst w = Ok w' /\ wraps (block_of h) (at_d h) w' 0.
Proof. intros Hin Hu. exact (wraps_first (Hlaw := Hdata k h Hin) w Hu). Qed.

Lemma block_end k h w : (k, h) ∈ idx -> has_usable (usable_d h) w ->
  exists w', wrapper_SeekToLast w = Ok w' /\ wraps (block_of h) (at_d h) w' (length (block_of h) - 1).
Proof. intros Hin Hu. exact (wraps_last (Hlaw := Hdata k h Hin) w Hu). Qed.

Lemma skip_forward n : forall t j i, at_block t j i -> (length idx < n + j)%nat ->
  exists t', skip_blocks block_function delete n wrapper_Next wrapper_SeekToFirst t = Ok t' /\ two_at t' (start_of j + i).
Proof.
  induction n as [|n IH]; intros t j i Hat Hn.
  { pose proof (wraps_le (Hlaw := Hindex) _ _ (at_block_index t j i Hat)). lia. }
  destruct (idx !! j) as [[k h]|] eqn:E.
  2:{ destruct Hat as [k h _ E' _ _ _|Hb -> Hj Hd ->]; [by rewrite E in E'|].
      destruct (skip_past n wrapper_Next wrapper_SeekToFirst t 0) as (t' & -> & Ht'); [by apply past_blocks|].
      exists t'. split; [done|]. by rewrite start_of_all, Nat.add_0_r. }
  destruct (at_block_in t j i k h Hat E) as [_ Hi]. destruct (decide (i < length (block_of h))%nat) as [Hlt|Hge].
  { exists t. by apply (skip_stop n _ _ t j i k h). }
  assert (i = length (block_of h)) as -> by lia. rewrite (skip_step n _ _ t j k h Hat E).
  destruct (wraps_next (Hlaw := Hindex) _ _ (at_block_index t j _ Hat) (lookup_lt_Some _ _ _ E)) as (w & -> & Hw). cbn [obind].
  destruct (start_block t w (j + 1) wrapper_SeekToFirst SeekToFirst (fun _ => 0%nat) (at_block_base t j _ Hat) Hw eq_refl ltac:(tauto) block_start)
    as (t1 & t2 & -> & E2 & Hat2). cbn [obind]. rewrite E2. cbn [obind].
  destruct (IH t2 (j + 1)%nat _ Hat2 ltac:(lia)) as (t' & -> & Ht'). exists t'. split; [done|].
  replace (start_of j + length (block_of h))%nat with (start_of (j + 1) + match idx !! (j + 1) with Some (_, _) => 0 | None => 0 end)%nat; [done|].
  rewrite Nat.add_1_r, (start_of_S j k h E). destruct (idx !! S j) as [[]|]; lia.
Qed.

Lemma skip_backward n : forall t j i k h, at_block t j i -> idx !! j = Some (k, h) -> (j + 1 < n)%nat ->
  exists t', skip_blocks block_function delete n wrapper_Prev wrapper_SeekToLast t = Ok t' /\
    two_at t' (if (i <? length (block_of h))%nat then start_of j + i
               else match start_of j with O => length all_entries | S g => g end)%nat.
Proof.
  induction n as [|n IH]; intros t j i k h Hat E Hn; [lia|].
  destruct (at_block_in t j i k h Hat E) as [_ Hi]. destruct (Nat.ltb_spec i (length (block_of h))) as [Hlt|Hge].
  { exists t. by apply (skip_stop n _ _ t j i k h). }
  assert (i = length (block_of h)) as -> by lia. rewrite (skip_step n _ _ t j k h Hat E).
  destruct (wraps_prev (Hlaw := Hindex) _ _ (at_block_index t j _ Hat) (lookup_lt_Some _ _ _ E)) as (w & -> & Hw). cbn [obind].
  destruct (start_block t w _ wrapper_SeekToLast SeekToLast (fun h => (length (block_of h) - 1)%nat) (at_block_base t j _ Hat) Hw eq_refl
    ltac:(tauto) block_end) as (t1 & t2 & -> & E2 & Hat2). cbn [obind]. rewrite E2. cbn [obind]. destruct j as [|j].
  - destruct n as [|n]; [lia|]. rewrite lookup_ge_None_2 in Hat2 by done. exact (skip_past n _ _ t2 0 Hat2).
  - destruct (lookup_lt_is_Some_2 idx j) as [[k' h'] E']; [apply lookup_lt_Some in E; lia|].
    rewrite E' in Hat2. destruct (IH t2 j _ k' h' Hat2 E' ltac:(lia)) as (t' & -> & Ht'). exists t'. split; [done|].
    rewrite (start_of_S j k' h' E'). destruct (Nat.ltb_spec (length (block_of h') - 1) (length (block_of h'))) as [Hl|Hl].
    + destruct (length (block_of h')) as [|l]; [lia|]. rewrite Nat.sub_succ, Nat.sub_0_r in Ht'. by rewrite Nat.add_succ_r.
    + assert (length (block_of h') = 0%nat) as -> by lia. by rewrite Nat.add_0_r.
Qed.

(** ** The operations *)

Lemma two_first t : base t -> exists t', two_SeekToFirst block_function delete fuel t = Ok t' /\ two_at t' 0.
Proof.
  intros Hb. unfold two_SeekToFirst. destruct (wraps_first (Hlaw := Hindex) _ (base_index t Hb)) as (w & -> & Hw). cbn [obind].
  destruct (start_block t w 0 wrapper_SeekToFirst SeekToFirst (fun _ => 0%nat) Hb Hw eq_refl ltac:(tauto) block_start)
    as (t1 & t2 & -> & E2 & Hat). cbn [obind]. rewrite E2. cbn [obind].
  destruct (skip_forward fuel t2 0 _ Hat ltac:(lia)) as (t' & E' & Ht'). exists t'. split; [exact E'|].
  by destruct (idx !! 0%nat) as [[]|].
Qed.

Lemma two_last t : base t -> exists t', two_SeekToLast block_function delete fuel t = Ok t' /\ two_at t' (length all_entries - 1).
Proof.
  intros Hb. unfold two_SeekToLast. destruct (wraps_last (Hlaw := Hindex) _ (base_index t Hb)) as (w & -> & Hw). cbn [obind].
  destruct (start_block t w _ wrapper_SeekToLast SeekToLast (fun h => (length (block_of h) - 1)%nat) Hb Hw eq_refl ltac:(tauto) block_end)
    as (t1 & t2 & -> & E2 & Hat). cbn [obind]. rewrite E2. cbn [obind]. unfold SkipEmptyDataBlocksBackward.
  destruct (idx !! (length idx - 1)%nat) as [[k h]|] eqn:E.
  - pose proof (lookup_lt_Some _ _ _ E) as Hlt. destruct (skip_backward fuel t2 _ _ k h Hat E ltac:(lia)) as (t' & -> & Ht').
    exists t'. split; [done|]. pose proof (start_of_S _ k h E) as Es. replace (S (length idx - 1)) with (length idx) in Es by lia.
    rewrite start_of_all in Es. rewrite Es. destruct (Nat.ltb_spec (length (block_of h) - 1) (length (block_of h))) as [Hl|Hl].
    + replace (start_of (length idx - 1) + length (block_of h) - 1)%nat with (start_of (length idx - 1) + (length (block_of h) - 1))%nat by lia. done.
    + assert (Hz : length (block_of h) = 0%nat) by lia. rewrite Hz, Nat.add_0_r in *.
      destruct (start_of (length idx - 1)) as [|g]; [by rewrite Es in Ht'|]. by rewrite Nat.sub_succ, Nat.sub_0_r.
  - apply lookup_ge_None in E. assert (Hz : length idx = 0%nat) by lia.
    assert (Hall : length all_entries = 0%nat) by (rewrite <- start_of_all, Hz; done).
    replace (length idx - 1)%nat with (length idx) in Hat by lia.
    destruct (skip_past (fuel - 1) wrapper_Prev wrapper_SeekToLast t2 0 Hat) as (t' & E' & Ht').
    replace (S (fuel - 1)) with fuel in E' by lia. exists t'. split; [exact E'|]. by rewrite Hall in *.
Qed.

Lemma two_next t g : two_at t g -> (g < length all_entries)%nat ->
  exists t', two_Next block_function delete fuel t = Ok t' /\ two_at t' (g + 1).
Proof.
  intros Hg Hlt. unfold two_Next. rewrite (two_at_valid t g Hg), (proj2 (Nat.ltb_lt _ _) Hlt). cbn [assert].
  destruct Hg as (j & i & [k h Hb E Hj Hh Hw|_ -> _ _ ->] & -> & Hi); [|rewrite start_of_all in Hlt; lia].
  assert (Hin : (k, h) ∈ idx) by (by eapply list_elem_of_lookup_2).
  destruct (wraps_next (Hlaw := Hdata k h Hin) _ _ Hw (Hi k h E)) as (w & Ew & Hw'). rewrite Ew. cbn [obind].
  pose proof (data_moved t j k h Next w _ Hb E Hj Hh Ew Hw' ltac:(tauto)) as Hat.
  destruct (skip_forward fuel _ j _ Hat ltac:(lia)) as (t' & E' & Ht'). exists t'. split; [exact E'|]. by rewrite <- Nat.add_assoc.
Qed.

Lemma two_prev t g : two_at t g -> (g < length all_entries)%nat ->
  exists t', two_Prev block_function delete fuel t = Ok t' /\ two_at t' (match g with O => length all_entries | S g' => g' end).
Proof.
  intros Hg Hlt. unfold two_Prev. rewrite (two_at_valid t g Hg), (proj2 (Nat.ltb_lt _ _) Hlt). cbn [assert].
  destruct Hg as (j & i & [k h Hb E Hj Hh Hw|_ -> _ _ ->] & -> & Hi); [|rewrite start_of_all in Hlt; lia].
  assert (Hin : (k, h) ∈ idx) by (by eapply list_elem_of_lookup_2). specialize (Hi k h E).
  destruct (wraps_prev (Hlaw := Hdata k h Hin) _ _ Hw Hi) as (w & Ew & Hw'). rewrite Ew. cbn [obind].
  pose proof (data_moved t j k h Prev w _ Hb E Hj Hh Ew Hw' ltac:(tauto)) as Hat. apply lookup_lt_Some in E as Hjl.
  destruct (skip_backward fuel _ j _ k h Hat E ltac:(lia)) as (t' & E' & Ht'). exists t'. split; [exact E'|].
  destruct i as [|i].
  - by rewrite Nat.ltb_irrefl, Nat.add_0_r in *.
  - rewrite (proj2 (Nat.ltb_lt _ _)) in Ht' by lia. by rewrite Nat.add_succ_r.
Qed.

(** The place of a target in the blocks. *)
Lemma keys_app es fs : keys_of (es ++ fs) = keys_of es ++ keys_of fs.
Proof. apply map_app. Qed.

Lemma keys_blocks (bs : list (list (list Z * list Z))) : keys_of (concat bs) = concat (map keys_of bs).
Proof. unfold keys_of. apply concat_map. Qed.

Lemma place_blocks target :
  let j := place order target (keys_of idx) in
  place order target (keys_of all_entries) =
    (start_of j + match idx !! j with Some (k, h) => place order target (keys_of (block_of h)) | None => 0 end)%nat.
Proof.
  intros j. assert (Hsplit : all_entries = concat (take j blocks) ++ concat (drop j blocks)) by (by rewrite <- concat_app, take_drop).
  assert (Hkey : forall m k h, idx !! m = Some (k, h) -> (m < j)%nat <-> order k target = Lt).
  { intros m k h E. apply place_before; [done|done|]. unfold keys_of. by rewrite list_lookup_fmap, E. }
  assert (Hlo : Forall (fun x => order x target = Lt) (keys_of (concat (take j blocks)))).
  { rewrite keys_blocks. apply Forall_concat, Forall_map, Forall_lookup. intros m b Hb. apply lookup_take_Some in Hb as [Hb Hm].
    unfold blocks in Hb. rewrite list_lookup_fmap in Hb. destruct (idx !! m) as [[k h]|] eqn:E; [|done]. injection Hb as <-.
    apply Forall_map. eapply Forall_impl; [exact (Hupper m k h E)|]. cbn. intros e He.
    apply (order_le_lt order _ k); [done|]. by apply (Hkey m k h E). }
  rewrite Hsplit, keys_app, place_app, (place_all order _ _ Hlo). unfold keys_of at 1. rewrite length_map.
  f_equal. destruct (idx !! j) as [[k h]|] eqn:E.
  2:{ rewrite drop_ge; [done|]. unfold blocks. rewrite length_map. by apply lookup_ge_None. }
  rewrite (drop_S _ _ _ (blocks_lookup j k h E)). cbn [concat]. rewrite keys_app, place_app.
  assert (Hhi : place order target (keys_of (concat (drop (S j) blocks))) = 0%nat); [|rewrite Hhi; lia].
  apply place_none. rewrite keys_blocks. apply Forall_concat, Forall_map, Forall_lookup. intros m b Hb.
  rewrite lookup_drop in Hb. unfold blocks in Hb. rewrite list_lookup_fmap in Hb.
  destruct (idx !! (S j + m)%nat) as [[k' h']|] eqn:E'; [|done]. injection Hb as <-. apply Forall_map.
  eapply Forall_impl; [exact (Hlower j _ k h k' h' E E' ltac:(lia))|]. cbn. intros e He Hlt.
  assert (Hk : order k target = Lt) by exact (order_lt_trans order _ _ _ He Hlt). apply (Hkey j k h E) in Hk. lia.
Qed.

Lemma two_seek t target : base t -> valid target ->
  exists t', two_Seek block_function delete fuel target t = Ok t' /\ two_at t' (place order target (keys_of all_entries)).
Proof.
  intros Hb Htarget. unfold two_Seek.
  destruct (wraps_seek (Hlaw := Hindex) _ target (base_index t Hb) Htarget) as (w & -> & Hw). cbn [obind].
  destruct (start_block t w _ (wrapper_Seek target) (Seek target) (fun h => place order target (keys_of (block_of h))) Hb Hw eq_refl)
    as (t1 & t2 & -> & E2 & Hat).
  - right; right; right; right. by exists target.
  - intros k h w' Hin Hu. exact (wraps_seek (Hlaw := Hdata k h Hin) w' target Hu Htarget).
  - cbn [obind]. rewrite E2. cbn [obind].
    destruct (skip_forward fuel t2 _ _ Hat ltac:(lia)) as (t' & E' & Ht'). exists t'. split; [exact E'|].
    rewrite place_blocks. cbv zeta. by destruct (idx !! _) as [[]|].
Qed.

#[export] Instance two_level_lawful :
  @LawfulIterator T (two_level_iterator block_function delete fuel) order valid all_entries base two_at.
Proof.
  split.
  - intros t g Hg. split; [|by apply (two_at_le t)]. destruct Hg as (j & i & Hat & _). by eapply at_block_base.
  - exact two_first.
  - exact two_last.
  - exact two_seek.
  - exact two_next.
  - exact two_prev.
  - intros t g Hg. cbn. f_equal. by apply two_at_valid.
  - intros t g k v Hg E. destruct (two_at_entry t g k v Hg E) as [Ek Ev]. cbn.
    rewrite (two_at_valid t g Hg), (proj2 (Nat.ltb_lt _ _) (lookup_lt_Some _ _ _ E)). by split.
  - intros t g (j & i & Hat & _). apply base_status_ok; [by eapply at_block_base|]. exists j. by eapply at_block_index.
Qed.

(** A new iterator may be positioned. *)
Lemma new_two_level index w : usable_i index -> Valid index = Ok false -> alive w frame ->
  exists t, NewTwoLevelIterator index w = Ok t /\ base t.
Proof.
  intros Hu Hv Hw. unfold NewTwoLevelIterator, new_IteratorWrapper. cbn [wrapper_Set]. unfold Update. rewrite Hv. cbn [obind].
  eexists. split; [done|]. split; cbn; [done|done|by exists index|done|done].
Qed.
End TwoLevelProof.
