(* ===== verification/TableBuilderProof.v ===== *)
(** * What a table builder writes

    The invariant: the file holds the data blocks finished so far, the index
    has an entry for each but perhaps the last, whose keys separate the
    blocks, and the filter block builder was called with every key at the
    offset of its block. *)
From S2P Require Import Prelude Base128 Order Coding CodingProof Crc32c Crc32cProof Env Comparator ComparatorProof Bloom.
From S2P Require Import SkipListProof SkipListSet Iterator Block BlockProof BlockIterProof BlockSpec Format FormatProof TableBuilder.
From S2P Require FilterBlock FilterBlockProof.
From stdpp Require sorting.

(** ** Weights of entries *)
Definition weight (es : entries) : Z := foldr (fun e n => zlen e.1 + zlen e.2 + 64 + n) 0 es.

Lemma weight_cons e es : weight (e :: es) = zlen e.1 + zlen e.2 + 64 + weight es.
Proof. unfold weight. cbn [foldr]. lia. Qed.

Lemma weight_app es fs : weight (es ++ fs) = weight es + weight fs.
Proof. unfold weight. induction es as [|e es IH]; cbn [app foldr]; [done|]. rewrite IH. lia. Qed.

Lemma weight_nonneg es : 64 * zlen es <= weight es.
Proof.
  induction es as [|e es IH]; [done|]. rewrite zlen_cons. unfold weight in *. cbn [foldr].
  pose proof (zlen_nonneg e.1). pose proof (zlen_nonneg e.2). lia.
Qed.

Lemma room_weight es : room es + 45 * zlen es = weight es + 8.
Proof. induction es as [|e es IH]; [done|]. rewrite zlen_cons. unfold room, weight in *. cbn [foldr] in *. lia. Qed.

Lemma weight_entry es e : e ∈ es -> zlen e.1 + zlen e.2 + 64 <= weight es.
Proof.
  intros (l1 & l2 & ->)%list_elem_of_split. rewrite weight_app. pose proof (weight_nonneg l1). pose proof (weight_nonneg l2).
  pose proof (zlen_nonneg l1). pose proof (zlen_nonneg l2). unfold weight in *. cbn [foldr] in *. lia.
Qed.

(** ** The bytes of a block *)
Lemma contents_bytes I ps rs : shares I ps ->
  Forall (fun p => bytes (piece_key p) /\ bytes (piece_value p) /\ zlen (piece_key p) < 2 ^ 32 /\ zlen (piece_value p) < 2 ^ 32) ps ->
  bytes (BlockIterProof.contents ps rs).
Proof.
  intros Hsh Hps. unfold BlockIterProof.contents. apply Forall_app. split.
  - unfold body. apply Forall_concat, Forall_map, Forall_lookup. intros i p Hp. rewrite Forall_lookup in Hps.
    destruct (Hps i p Hp) as (Hk & Hv & Hkl & Hvl). destruct (shares_prefix I ps Hsh i p Hp) as [Hs _].
    unfold piece_bytes, header. pose proof (zlen_nonneg (piece_value p)). unfold zlen in *.
    repeat (apply Forall_app; split); try (apply varint_bytes; unfold zlen; lia); [by apply Forall_drop|done].
  - apply Forall_concat, Forall_map, Forall_true. intros v. rewrite EncodeFixed32_le. apply le_bytes_bytes.
Qed.

Lemma handle_is_bytes h : handle_ok h -> bytes (handle_bytes h).
Proof. intros [Ho Hs]. rewrite unset_value in *. apply Forall_app. split; apply varint_bytes; lia. Qed.

(** ** Writing a block *)
Section Write.
Context {F : Type} `{WritableFile F} {reliable : F -> Prop} {written : F -> list Z} {Hfile : ReliableFile F reliable written}.
Context (address : list Z -> Z).

Lemma WriteRawBlock_ok contents t (r : Rep (F := F)) : reliable (file r) -> bytes contents ->
  exists f, WriteRawBlock address contents t r =
      Ok (mk_handle (offset r) (zlen contents), set_offset (wrap 64 (offset r + (zlen contents + 5))) (set_file OK f r)) /\
    reliable f /\ written f = written (file r) ++ contents ++ trailer t contents.
Proof.
  intros Hr Hb. destruct (append_ok contents (file r) Hr) as (f1 & E1 & Hr1 & Hw1).
  assert (Hw0 : word 0) by by vm_compute.
  assert (Hbt : bytes [compression_code t]) by (apply Forall_singleton; by destruct t; vm_compute).
  destruct (append_ok (trailer t contents) f1 Hr1) as (f2 & E2 & Hr2 & Hw2).
  unfold WriteRawBlock, append, bind, get, modify, lift, ret. rewrite E1. cbn [builder_ok status set_file ok code OK].
  unfold Value. rewrite Extend_spec by done. cbn [fst snd]. rewrite Extend_spec by (done || by apply crc32c_word).
  rewrite crc32c_app. cbn [file set_file]. unfold trailer in E2, Hw2. rewrite E2. cbn [builder_ok status set_file ok code OK].
  exists f2. split; [done|]. split; [done|]. unfold trailer. by rewrite Hw2, Hw1, <- app_assoc.
Qed.

(** Data and index blocks are stored uncompressed. *)
Lemma WriteBlock_ok block (r : Rep (F := F)) : reliable (file r) -> status r = OK -> bytes (Block.Finish block).1 ->
  exists f, WriteBlock address block r =
      Ok ((mk_handle (offset r) (zlen (Block.Finish block).1), Block.Reset block),
          set_offset (wrap 64 (offset r + (zlen (Block.Finish block).1 + 5))) (set_file OK f r)) /\
    reliable f /\ written f = written (file r) ++ stored (Block.Finish block).1.
Proof.
  intros Hr Hst Hb. destruct (WriteRawBlock_ok (Block.Finish block).1 kNoCompression r Hr Hb) as (f & E & Hf & Hw).
  exists f. split; [|by split]. unfold WriteBlock, bind, get, check, builder_ok. rewrite Hst. cbn [ok code OK ret].
  change (Block.Reset block) with (Block.Reset (Block.Finish block).2).
  destruct (Block.Finish block) as [raw b]. cbn [fst snd] in *. unfold Snappy_Compress.
  destruct (compression (options r)); by rewrite E.
Qed.
End Write.

(** ** The state of a builder *)

(** A data block that was written. *)
Record dblock : Type := mk_dblock { d_pieces : list piece; d_restarts : list Z; d_offset : Z }.
Definition d_entries (d : dblock) : list (list Z * list Z) := map entry_of (d_pieces d).
Definition d_raw (d : dblock) : list Z := BlockIterProof.contents (d_pieces d) (d_restarts d).
Definition d_handle (d : dblock) : BlockHandle := mk_handle (d_offset d) (zlen (d_raw d)).
Definition data_bytes (bs : list dblock) : list Z := concat (map (fun d => stored (d_raw d)) bs).
Definition block_entries (bs : list dblock) : list (list Z * list Z) := concat (map d_entries bs).

(** The index: separators and handles. *)
Definition index_entries (seps : list (list Z)) (bs : list dblock) : list (list Z * list Z) :=
  zip_with (fun s d => (s, handle_bytes (d_handle d))) seps bs.

(** The keys with the offsets of their blocks. *)
Definition filter_keys (bs : list dblock) : list (Z * list Z) :=
  concat (map (fun d => map (fun p => (d_offset d, piece_key p)) (d_pieces d)) bs).

Lemma data_bytes_snoc bs d : data_bytes (bs ++ [d]) = data_bytes bs ++ stored (d_raw d).
Proof. unfold data_bytes. rewrite map_app, concat_app. cbn. by rewrite app_nil_r. Qed.
Lemma block_entries_snoc bs d : block_entries (bs ++ [d]) = block_entries bs ++ d_entries d.
Proof. unfold block_entries. rewrite map_app, concat_app. cbn. by rewrite app_nil_r. Qed.
Lemma filter_keys_snoc bs d :
  filter_keys (bs ++ [d]) = filter_keys bs ++ map (fun p => (d_offset d, piece_key p)) (d_pieces d).
Proof. unfold filter_keys. rewrite map_app, concat_app. cbn. by rewrite app_nil_r. Qed.

(** The entries of a block among those of the blocks from [i] on. *)
Lemma in_blocks i j bs d e : bs !! j = Some d -> (i <= j)%nat -> e ∈ d_entries d -> e ∈ block_entries (drop i bs).
Proof.
  intros Hd Hij He. unfold block_entries. apply list_elem_of_In, in_concat. exists (d_entries d).
  split; [|by apply list_elem_of_In]. apply in_map, list_elem_of_In, (list_elem_of_lookup_2 _ (j - i)).
  rewrite lookup_drop. by replace (i + (j - i))%nat with j by lia.
Qed.

Lemma some_entry d : d_pieces d <> [] -> exists e, e ∈ d_entries d.
Proof.
  unfold d_entries. destruct (d_pieces d) as [|p ps]; [done|]. intros _. exists (entry_of p). apply elem_of_cons. by left.
Qed.

Lemma length_filter_keys bs : length (filter_keys bs) = length (block_entries bs).
Proof.
  induction bs as [|d bs IH]; [done|]. unfold filter_keys, block_entries in *. cbn. rewrite !length_app, IH.
  unfold d_entries. by rewrite !length_map.
Qed.

Section Build.
Context {F : Type} `{WritableFile F} {reliable : F -> Prop} {written : F -> list Z} {Hfile : ReliableFile F reliable written}.
Context (address : list Z -> Z) (o : Options).
Context (order : list Z -> list Z -> comparison) (valid : list Z -> Prop) {Hlaw : @LawfulComparator (comparator o) valid order}.
Context (group : list Z -> list Z -> Prop) {Hgroup : @GroupedComparator (comparator o) valid order group}.
Context {Hshort : @ShortComparator (comparator o)} (Hvb : forall k, valid k -> bytes k).
Context (I : nat) (HI : (1 <= I)%nat) (HI31 : Z.of_nat I < 2 ^ 31 - 1) (HoI : block_restart_interval o = Z.of_nat I).

(** All the entries that will be added, and how large a filter of their keys
    can be. *)
Context (total : list (list Z * list Z)) (filter_max : Z).

Definition policy_ok (policy : FilterPolicy) : Prop := exists fits, @LawfulPolicy policy fits /\
  (forall pend, (length pend <= length total)%nat -> Forall valid pend -> fits pend) /\
  (forall keys dst r, (length keys <= length total)%nat -> @CreateFilter policy keys dst = Ok r -> zlen r <= zlen dst + filter_max) /\
  0 <= filter_max /\ bytes (@policy_Name policy) /\ zlen (@policy_Name policy) <= 100.

Record table_ok : Prop := {
  entries_valid : Forall (fun e => valid e.1 /\ bytes e.2) total;
  entries_sorted : sorted order (keys_of total);
  entries_size : 3 * weight total + (filter_max + 4) * (weight total / 2048 + 2) + 1000 < 2 ^ 32;
  filter_nonneg : 0 <= filter_max;
  filter_policy_ok : forall policy, filter_policy o = Some policy -> policy_ok policy
}.
Context (Hok : table_ok).

(** The calls of the filter block builder. *)
Definition filter_inv (fb : option (FilterPolicy * FilterBlock.FilterBlockBuilder)) (off : Z) (bs : list dblock) (ps : list piece) : Prop :=
  match filter_policy o with
  | None => fb = None
  | Some policy => exists cs b, fb = Some (policy, b) /\ @FilterBlock.filter_run policy cs FilterBlock.new_FilterBlockBuilder = Ok b /\
      FilterBlockProof.ordered 0 cs /\ FilterBlockProof.start_after 0 cs = off /\
      FilterBlockProof.added 0 cs = filter_keys bs ++ map (fun p => (off, piece_key p)) ps
  end.

(** What a finished block satisfies. *)
Record dblock_ok (bs : list dblock) (i : nat) (d : dblock) : Prop := {
  d_nonempty : d_pieces d <> [];
  d_shares : shares I (d_pieces d);
  d_points : restart_points I (d_pieces d) (d_restarts d);
  d_place : d_offset d = zlen (data_bytes (take i bs))
}.

(** A separator is the last key of its block, or before the group of the key
    that follows. *)
Definition separator_before (d : dblock) (s : list Z) (rest : list (list Z * list Z)) : Prop :=
  (exists e, e ∈ d_entries d /\ s = e.1) \/
  forall e k, head rest = Some e -> valid k -> group k e.1 -> order s k = Lt.

(** The separators lie between the blocks. *)
Definition separates (seps : list (list Z)) (bs : list dblock) (tail : list (list Z * list Z)) : Prop :=
  forall i s, seps !! i = Some s -> exists d, bs !! i = Some d /\ valid s /\ zlen s + 64 <= weight (d_entries d) /\
    Forall (fun e => order e.1 s <> Gt) (d_entries d) /\
    Forall (fun e => order s e.1 = Lt) (block_entries (drop (S i) bs) ++ tail) /\
    separator_before d s (block_entries (drop (S i) bs) ++ tail).

Record inv (r : Rep (F := F)) (bs : list dblock) (seps : list (list Z)) (ps ips : list piece) : Prop := {
  inv_options : options r = o /\ index_block_options r = index_options o;
  inv_open : closed r = false /\ status r = OK;
  inv_file : reliable (file r) /\ written (file r) = data_bytes bs;
  inv_offset : offset r = zlen (data_bytes bs);
  inv_blocks : forall i d, bs !! i = Some d -> dblock_ok bs i d;
  inv_data : built I (data_block r) ps;
  inv_index : built 1 (index_block r) ips /\ map entry_of ips = index_entries seps bs;
  inv_prefix : exists rest, total = block_entries bs ++ map entry_of ps ++ rest;
  inv_num : num_entries r = zlen (block_entries bs ++ map entry_of ps);
  inv_seps : separates seps bs (map entry_of ps);
  inv_filter : filter_inv (filter_block r) (offset r) bs ps;
  inv_pending : if pending_index_entry r then
      ps = [] /\ length bs = S (length seps) /\ (forall d, bs !! length seps = Some d -> pending_handle r = d_handle d)
    else length seps = length bs
}.
(** ** The filter block builder *)
Lemma filter_step_run policy cs b c : policy_ok policy ->
  @FilterBlock.filter_run policy cs FilterBlock.new_FilterBlockBuilder = Ok b ->
  FilterBlockProof.ordered 0 (cs ++ [c]) -> Forall (fun p => valid p.2) (FilterBlockProof.added 0 (cs ++ [c])) ->
  (length (FilterBlockProof.added 0 (cs ++ [c])) <= length total)%nat ->
  exists b', @FilterBlock.filter_step policy c b = Ok b' /\
    @FilterBlock.filter_run policy (cs ++ [c]) FilterBlock.new_FilterBlockBuilder = Ok b'.
Proof.
  intros (fits & Hlawp & Hfits & _) E Ho Hv Hl.
  destruct (FilterBlockProof.filter_run_ok fits valid (length total) Hfits (cs ++ [c]) Ho Hv Hl) as (fs & pend & b' & E' & _).
  pose proof E' as E2. rewrite FilterBlockProof.filter_run_app, E in E2. cbn [obind FilterBlock.filter_run] in E2.
  exists b'. split; [|done]. by destruct (FilterBlock.filter_step c b).
Qed.

Lemma set_filter_same (r : Rep (F := F)) : set_filter_block (filter_block r) r = r.
Proof. by destruct r. Qed.

Lemma length_added (bs : list dblock) (ps : list piece) off :
  length (filter_keys bs ++ map (fun p => (off, piece_key p)) ps) = length (block_entries bs ++ map entry_of ps).
Proof. by rewrite !length_app, length_filter_keys, !length_map. Qed.

Lemma prefix_valid es rest : total = es ++ rest -> Forall (fun e => valid e.1) es /\ sorted order (keys_of es).
Proof.
  intros E. pose proof (entries_valid Hok) as Hv. pose proof (entries_sorted Hok) as Hs. rewrite E in Hv, Hs. split.
  - apply Forall_app in Hv as [Hv _]. eapply Forall_impl; [exact Hv|]. by intros e [? _].
  - unfold keys_of in *. rewrite map_app in Hs. by eapply sorting.StronglySorted_app_1_l.
Qed.

Lemma filter_keys_valid bs ps off : Forall (fun e => valid e.1) (block_entries bs ++ map entry_of ps) ->
  Forall (fun p => valid p.2) (filter_keys bs ++ map (fun p => (off, piece_key p)) ps).
Proof.
  intros [Hb Hp]%Forall_app. apply Forall_app. split.
  - unfold filter_keys, block_entries in *. rewrite Forall_concat, Forall_map in Hb |- *.
    eapply Forall_impl; [exact Hb|]. cbn. intros d Hd. unfold d_entries in Hd. rewrite Forall_map in Hd |- *. exact Hd.
  - rewrite Forall_map in Hp |- *. exact Hp.
Qed.

(** A call of the builder. *)
Lemma filter_call_ok c (r : Rep (F := F)) bs ps off bs' ps' off' rest :
  filter_inv (filter_block r) off bs ps -> total = block_entries bs' ++ map entry_of ps' ++ rest ->
  (forall cs, FilterBlockProof.start_after 0 cs = off ->
    FilterBlockProof.added 0 cs = filter_keys bs ++ map (fun p => (off, piece_key p)) ps ->
    FilterBlockProof.start_after 0 (cs ++ [c]) = off' /\
    FilterBlockProof.added 0 (cs ++ [c]) = filter_keys bs' ++ map (fun p => (off', piece_key p)) ps') ->
  FilterBlockProof.ordered off [c] ->
  exists fb, filter_step c r = Ok (tt, set_filter_block fb r) /\ filter_inv fb off' bs' ps'.
Proof.
  intros Hf Ht Hadd Ho. unfold filter_inv, filter_step, bind, get in *. destruct (filter_policy o) as [policy|] eqn:Ep.
  - destruct Hf as (cs & b & -> & Erun & Hord & Hst & Had). destruct (Hadd cs Hst Had) as [Hst' Had'].
    assert (Hord' : FilterBlockProof.ordered 0 (cs ++ [c])) by (apply FilterBlockProof.ordered_app; by rewrite Hst).
    assert (Et : total = (block_entries bs' ++ map entry_of ps') ++ rest) by (by rewrite <- app_assoc).
    destruct (filter_step_run policy cs b c (filter_policy_ok Hok policy Ep) Erun Hord') as (b' & Eb & Erun').
    + rewrite Had'. apply filter_keys_valid. by apply (prefix_valid _ rest).
    + rewrite Had', length_added. rewrite Et, (length_app (_ ++ _)). lia.
    + unfold lift. rewrite Eb. exists (Some (policy, b')). split; [done|]. by exists (cs ++ [c]), b'.
  - rewrite Hf. exists None. rewrite <- Hf at 1. by rewrite set_filter_same.
Qed.
(** ** Sizes *)
Lemma restarts_size J (ps : list piece) rs : (1 <= J)%nat -> restart_points J ps rs -> zlen rs <= zlen ps + 1.
Proof.
  intros HJ [H0 Hr]. destruct (Hr (length rs - 1)%nat ltac:(lia)) as [_ Hl].
  destruct (decide (length rs - 1 = 0)%nat); [unfold zlen; lia|]. specialize (Hl ltac:(done)). unfold zlen. nia.
Qed.

Definition small_pieces (ps : list piece) : Prop := Forall (fun p => zlen (piece_key p) < 2 ^ 32 /\ zlen (piece_value p) < 2 ^ 32) ps.

Lemma contents_size J ps rs : (1 <= J)%nat -> shares J ps -> restart_points J ps rs -> small_pieces ps ->
  zlen (BlockIterProof.contents ps rs) <= room (map entry_of ps).
Proof.
  intros HJ Hsh Hrs Hsm. pose proof (body_max J HJ ps Hsh Hsm). pose proof (restarts_size J ps rs HJ Hrs).
  unfold BlockIterProof.contents. rewrite zlen_app, zlen_fixed_table, zlen_app, zlen_cons, zlen_nil. lia.
Qed.

Lemma weight_small ps : weight (map entry_of ps) < 2 ^ 32 -> small_pieces ps.
Proof.
  intros Hw. apply Forall_forall. intros p Hp.
  pose proof (weight_entry (map entry_of ps) (entry_of p) ltac:(by apply list_elem_of_fmap_2)) as He. cbn in He.
  pose proof (zlen_nonneg (piece_key p)). pose proof (zlen_nonneg (piece_value p)). lia.
Qed.

Lemma stored_size d : weight (d_entries d) < 2 ^ 32 -> d_pieces d <> [] -> shares I (d_pieces d) -> restart_points I (d_pieces d) (d_restarts d) ->
  zlen (stored (d_raw d)) + 32 <= weight (d_entries d).
Proof.
  intros Hw Hne Hsh Hrs. rewrite zlen_stored. pose proof (contents_size I _ _ HI Hsh Hrs (weight_small _ Hw)).
  pose proof (room_weight (d_entries d)). unfold d_entries, d_raw in *. destruct (d_pieces d) as [|p ps]; [done|].
  cbn [map] in *. rewrite zlen_cons in *. pose proof (zlen_nonneg (map entry_of ps)). lia.
Qed.

Lemma data_size bs : weight (block_entries bs) < 2 ^ 32 -> (forall i d, bs !! i = Some d -> dblock_ok bs i d) ->
  zlen (data_bytes bs) + 32 * zlen bs <= weight (block_entries bs).
Proof.
  intros Hw Hbs. assert (Hf : Forall (fun d => d_pieces d <> [] /\ shares I (d_pieces d) /\ restart_points I (d_pieces d) (d_restarts d)) bs).
  { apply Forall_lookup. intros i d Hd. by destruct (Hbs i d Hd). }
  clear Hbs. induction Hf as [|d bs (Hne & Hsh & Hrs) Hf IH]; [done|]. unfold block_entries, data_bytes in *. cbn [map concat] in *.
  rewrite weight_app in *. rewrite zlen_app, zlen_cons. pose proof (weight_nonneg (d_entries d)). pose proof (zlen_nonneg (d_entries d)).
  pose proof (weight_nonneg (concat (map d_entries bs))). pose proof (zlen_nonneg (concat (map d_entries bs))).
  pose proof (stored_size d ltac:(lia) Hne Hsh Hrs). specialize (IH ltac:(lia)). lia.
Qed.

Lemma index_size seps bs : (forall i s, seps !! i = Some s -> exists d, bs !! i = Some d /\ zlen s + 64 <= weight (d_entries d)) ->
  Forall (fun d => handle_ok (d_handle d)) bs -> weight (index_entries seps bs) <= weight (block_entries bs) + 20 * zlen bs.
Proof.
  unfold index_entries. revert bs. induction seps as [|s seps IH]; intros bs Hs Hh.
  { cbn. pose proof (weight_nonneg (block_entries bs)). pose proof (zlen_nonneg (block_entries bs)). pose proof (zlen_nonneg bs). lia. }
  destruct (Hs 0%nat s eq_refl) as (d & Hd & Hw). destruct bs as [|d' bs]; [done|]. injection Hd as ->.
  inversion Hh as [|? ? Hh1 Hh2]; subst. unfold block_entries in *. cbn [zip_with map concat]. rewrite weight_app, zlen_cons.
  rewrite weight_cons. cbn [fst snd].
  pose proof (zlen_handle _ Hh1). specialize (IH bs (fun i => Hs (S i)) Hh2). lia.
Qed.

Section Sizes.
Context (r : Rep (F := F)) (bs : list dblock) (seps : list (list Z)) (ps ips : list piece) (Hinv : inv r bs seps ps ips).

Lemma inv_weight : weight (block_entries bs) + weight (map entry_of ps) <= weight total /\ 3 * weight total < 2 ^ 32.
Proof.
  destruct (inv_prefix _ _ _ _ _ Hinv) as (rest & E). pose proof (weight_nonneg rest). pose proof (zlen_nonneg rest).
  pose proof (entries_size Hok). pose proof (filter_nonneg Hok).
  assert (0 <= weight total / 2048) by (apply Z.div_pos; [|done]; pose proof (weight_nonneg total); pose proof (zlen_nonneg total); lia).
  split; [|nia]. rewrite E, !weight_app. lia.
Qed.

Lemma inv_data_size : 0 <= zlen (data_bytes bs) /\ zlen (data_bytes bs) + 32 * zlen bs <= weight (block_entries bs).
Proof.
  split; [apply zlen_nonneg|]. pose proof inv_weight. pose proof (weight_nonneg (map entry_of ps)). pose proof (zlen_nonneg (map entry_of ps)).
  pose proof (weight_nonneg (block_entries bs)). pose proof (zlen_nonneg (block_entries bs)).
  apply data_size; [lia|]. apply (inv_blocks _ _ _ _ _ Hinv).
Qed.
End Sizes.
(** ** Finishing a data block *)
Lemma Reset_built J b : (1 <= J)%nat -> built J (Block.Reset b) [].
Proof.
  intros HJ. destruct (new_built J HJ) as (b' & E & Hb). unfold new_BlockBuilder, Prelude.assert in E.
  destruct (_ <=? _); [|done]. by injection E as <-.
Qed.

Lemma pieces_bytes ps es rest : total = es ++ map entry_of ps ++ rest ->
  Forall (fun p => bytes (piece_key p) /\ bytes (piece_value p)) ps.
Proof.
  intros E. pose proof (entries_valid Hok) as Hv. rewrite E in Hv. apply Forall_app in Hv as [_ [Hv _]%Forall_app].
  rewrite Forall_map in Hv. eapply Forall_impl; [exact Hv|]. cbn. intros p [Hk Hvv]. by split; [apply Hvb|].
Qed.

Lemma built_finish J b ps : (1 <= J)%nat -> built J b ps -> weight (map entry_of ps) < 2 ^ 32 ->
  Forall (fun p => bytes (piece_key p) /\ bytes (piece_value p)) ps ->
  (Block.Finish b).1 = BlockIterProof.contents ps (restarts_ b) /\ bytes (Block.Finish b).1.
Proof.
  intros HJ Hb Hw Hby. pose proof (weight_nonneg (map entry_of ps)) as Hn. unfold zlen in Hn. rewrite length_map in Hn.
  destruct (Finish_ok J HJ b ps Hb) as [-> _]; [unfold zlen; lia|]. split; [done|].
  apply (contents_bytes J); [apply Hb|]. pose proof (weight_small ps ltac:(lia)) as Hsm. unfold small_pieces in Hsm.
  rewrite Forall_forall in Hsm, Hby |- *. intros p Hp. destruct (Hsm p Hp), (Hby p Hp). tauto.
Qed.

Lemma empty_built J b ps : built J b ps -> Block.empty b = bool_decide (ps = []).
Proof.
  intros Hb. unfold Block.empty. rewrite (built_buffer _ _ _ Hb). destruct ps as [|p ps]; [done|].
  unfold body. cbn [map concat]. rewrite zlen_app. pose proof (piece_min p). pose proof (zlen_nonneg (concat (map piece_bytes ps))).
  rewrite (proj2 (Z.eqb_neq _ _)) by lia. done.
Qed.

Lemma dblock_ok_snoc bs d i d' : (forall i d, bs !! i = Some d -> dblock_ok bs i d) ->
  dblock_ok (bs ++ [d]) (length bs) d -> (bs ++ [d]) !! i = Some d' -> dblock_ok (bs ++ [d]) i d'.
Proof.
  intros Hbs Hd Hi. destruct (decide (i < length bs)%nat) as [Hl|Hl].
  - rewrite lookup_app_l in Hi by done. destruct (Hbs i d' Hi) as [H1 H2 H3 H4]. split; [done..|]. by rewrite take_app_le by lia.
  - rewrite lookup_app_r in Hi by lia. destruct (i - length bs)%nat as [|j] eqn:Ej; [|done]. injection Hi as <-.
    by replace i with (length bs) by lia.
Qed.

Lemma Flush_ok r bs seps ps ips : inv r bs seps ps ips ->
  exists r' bs', Flush address r = Ok (tt, r') /\ inv r' bs' seps [] ips /\
    block_entries bs' = block_entries bs ++ map entry_of ps /\ last_key r' = last_key r /\
    match ps with [] => r' = r /\ bs' = bs | _ => pending_index_entry r' = true end.
Proof.
  intros Hinv. pose proof (inv_weight _ _ _ _ _ Hinv) as [Hw Hw32]. pose proof (inv_data_size _ _ _ _ _ Hinv) as [Hd0 Hds].
  pose proof Hinv as [Hopt [Hcl Hst] [Hrel Hwr] Hoff Hbs Hdata Hidx (rest & Hpre) Hnum Hseps Hfil Hpend].
  unfold Flush, bind at 1 2, get at 1. rewrite Hcl. cbn [check negb ret]. unfold builder_ok. rewrite Hst. cbn [ok code OK negb].
  rewrite (empty_built I _ _ Hdata). destruct (decide (ps = [])) as [->|Hne].
  { exists r, bs. split; [done|]. split; [done|]. by rewrite app_nil_r. }
  rewrite bool_decide_false by done. destruct (pending_index_entry r) eqn:Ep; [by destruct Hpend as [-> _]|].
  cbn [check negb]. rewrite ret_bind. pose proof (weight_nonneg (block_entries bs)). pose proof (zlen_nonneg (block_entries bs)).
  pose proof (weight_nonneg (map entry_of ps)). pose proof (zlen_nonneg (map entry_of ps)). pose proof (zlen_nonneg bs).
  destruct (built_finish I (data_block r) ps HI Hdata ltac:(lia) (pieces_bytes ps _ rest Hpre)) as [Efin Hbyt].
  set (d := mk_dblock ps (restarts_ (data_block r)) (offset r)).
  assert (Hsize : zlen (stored (d_raw d)) + 32 <= weight (d_entries d)).
  { apply stored_size; [change (weight (map entry_of ps) < 2 ^ 32); lia|done|apply Hdata|apply Hdata]. }
  change (d_entries d) with (map entry_of ps) in Hsize. rewrite zlen_stored in Hsize. pose proof (zlen_nonneg (d_raw d)).
  destruct (WriteBlock_ok address (data_block r) r Hrel Hst Hbyt) as (f & E & Hf & Hwf). rewrite (bind_Ok _ _ _ _ _ E).
  rewrite Efin in E, Hwf |- *. change (BlockIterProof.contents ps _) with (d_raw d) in *.
  rewrite wrap_small by lia. set (off' := offset r + (zlen (d_raw d) + 5)) in *.
  destruct (flush_ok f Hf) as (f' & Ef & Hf' & Hwf').
  set (r1 := set_file OK f' (set_pending true (set_data_block (Block.Reset (data_block r)) (set_pending_handle (d_handle d)
    (set_offset off' (set_file OK f r)))))).
  destruct (filter_call_ok (FilterBlock.Start off') r1 bs ps (offset r) (bs ++ [d]) [] off' rest Hfil) as (fb & Efb & Hfb).
  { rewrite block_entries_snoc. cbn [map app]. rewrite <- app_assoc. exact Hpre. }
  { intros cs Hs Ha. rewrite FilterBlockProof.start_after_app, FilterBlockProof.added_app, Hs, Ha, filter_keys_snoc. cbn. by rewrite !app_nil_r. }
  { cbn. unfold off'. lia. }
  exists (set_filter_block fb r1), (bs ++ [d]). split.
  - unfold bind, modify, get, ret. cbn [builder_ok status set_data_block set_pending_handle set_offset set_file set_pending ok code OK file offset].
    rewrite Ef. exact Efb.
  - split; [|split; [by rewrite block_entries_snoc|by destruct ps]]. assert (Hlen : length seps = length bs) by done.
    assert (Edata : data_bytes (bs ++ [d]) = written f') by (by rewrite data_bytes_snoc, Hwf', Hwf, Hwr).
    assert (Eent : block_entries (bs ++ [d]) ++ map entry_of [] = block_entries bs ++ map entry_of ps) by (rewrite block_entries_snoc; apply app_nil_r).
    split; cbn [options index_block_options closed status file offset data_block index_block last_key num_entries filter_block
      pending_index_entry pending_handle set_filter_block set_file set_pending set_data_block set_pending_handle set_offset r1]; try done.
    + by rewrite data_bytes_snoc, zlen_app, zlen_stored, <- Hoff.
    + intros i d' Hi. apply (dblock_ok_snoc bs d i d' Hbs); [|done]. split; [done|apply Hdata|apply Hdata|].
      by rewrite take_app_length.
    + by apply Reset_built.
    + split; [apply Hidx|]. rewrite (proj2 Hidx). unfold index_entries. rewrite <- (app_nil_r seps) at 2.
      by rewrite zip_with_app, app_nil_r by done.
    + exists rest. rewrite block_entries_snoc, Hpre. cbn [map app]. by rewrite <- app_assoc.
    + by rewrite Eent.
    + intros i s Hi. destruct (Hseps i s Hi) as (d' & Hd' & Hv & Hl & Hup & Hlo). exists d'.
      pose proof (lookup_lt_Some _ _ _ Hd') as Hil. rewrite lookup_app_l by done. do 4 (split; [done|]).
      rewrite drop_app_le, block_entries_snoc by lia. by rewrite app_nil_r.
    + split; [done|]. split; [rewrite length_app; cbn; lia|]. intros d' Hd'. rewrite Hlen in Hd'.
      rewrite lookup_app_r, Nat.sub_diag in Hd' by lia. by injection Hd' as <-.
Qed.
(** ** The index *)
Lemma handles_ok r bs seps ps ips : inv r bs seps ps ips -> Forall (fun d => handle_ok (d_handle d)) bs.
Proof.
  intros Hinv. pose proof (inv_weight _ _ _ _ _ Hinv) as [Hw Hw32]. pose proof (inv_data_size _ _ _ _ _ Hinv) as [Hd0 Hds].
  pose proof (weight_nonneg (map entry_of ps)). pose proof (zlen_nonneg (map entry_of ps)). pose proof (zlen_nonneg bs).
  apply Forall_lookup. intros i d Hd. destruct (inv_blocks _ _ _ _ _ Hinv i d Hd) as [_ _ _ Hp].
  assert (Hsplit : data_bytes bs = data_bytes (take i bs) ++ stored (d_raw d) ++ data_bytes (drop (S i) bs)).
  { rewrite <- (take_drop_middle bs i d Hd) at 1. unfold data_bytes. rewrite map_app, concat_app. done. }
  rewrite Hsplit, !zlen_app, zlen_stored in Hds. pose proof (zlen_nonneg (data_bytes (take i bs))).
  pose proof (zlen_nonneg (d_raw d)). pose proof (zlen_nonneg (data_bytes (drop (S i) bs))).
  unfold handle_ok. rewrite unset_value. cbn. lia.
Qed.

Lemma index_weight r bs seps ps ips : inv r bs seps ps ips -> weight (index_entries seps bs) <= 2 * weight total.
Proof.
  intros Hinv. pose proof (inv_weight _ _ _ _ _ Hinv) as [Hw _]. pose proof (inv_data_size _ _ _ _ _ Hinv) as [Hd0 Hds].
  pose proof (weight_nonneg (map entry_of ps)). pose proof (zlen_nonneg (map entry_of ps)).
  pose proof (index_size seps bs) as Hs. specialize (Hs ltac:(
    intros i s Hi; destruct (inv_seps _ _ _ _ _ Hinv i s Hi) as (d & ? & _ & ? & _); by exists d) (handles_ok _ _ _ _ _ Hinv)). pose proof (zlen_nonneg bs). lia.
Qed.

Lemma last_piece ps : ps <> [] -> exists e, map entry_of ps !! (length ps - 1)%nat = Some e /\ prev_key ps (length ps) = e.1.
Proof.
  intros Hne. destruct (lookup_lt_is_Some_2 ps (length ps - 1)) as [p Hp]; [destruct ps; [done|cbn; lia]|].
  exists (entry_of p). split; [by rewrite list_lookup_fmap, Hp|]. destruct ps as [|p0 ps]; [done|].
  cbn [length] in *. rewrite Nat.sub_succ, Nat.sub_0_r in Hp.
  change (prev_key (p0 :: ps) (S (length ps))) with (match (p0 :: ps) !! length ps with Some p => piece_key p | None => [] end).
  by rewrite Hp.
Qed.

Lemma index_lookup seps bs i s d : seps !! i = Some s -> bs !! i = Some d ->
  index_entries seps bs !! i = Some (s, handle_bytes (d_handle d)).
Proof. intros Hs Hd. unfold index_entries. by rewrite lookup_zip_with, Hs, Hd. Qed.

Lemma add_index_entry_ok r bs seps ips s d :
  inv r bs seps [] ips -> pending_index_entry r = true -> bs !! length seps = Some d ->
  valid s -> zlen s + 64 <= weight (d_entries d) -> Forall (fun e => order e.1 s <> Gt) (d_entries d) ->
  exists r' ips', add_index_entry s r = Ok (tt, r') /\ inv r' bs (seps ++ [s]) [] ips' /\ pending_index_entry r' = false.
Proof.
  intros Hinv Hp Hd Hv Hl Hup. pose proof (inv_weight _ _ _ _ _ Hinv) as [Hw Hw32]. pose proof (index_weight _ _ _ _ _ Hinv) as Hiw.
  pose proof (handles_ok _ _ _ _ _ Hinv) as Hhs. rewrite Forall_lookup in Hhs. pose proof (Hhs _ d Hd) as Hh. pose proof (zlen_handle _ Hh).
  pose proof Hinv as [Hopt Hcl Hfl Hoff Hbs Hdata [Hidx Eidx] Hpre Hnum Hseps Hfil Hpend]. rewrite Hp in Hpend.
  destruct Hpend as (_ & Hlen & Hph). specialize (Hph d Hd).
  assert (Hiw' : weight (map entry_of ips) < 2 ^ 32) by (rewrite Eidx; lia).
  assert (Hdw : weight (d_entries d) <= weight (block_entries bs)).
  { rewrite <- (take_drop_middle bs _ d Hd). unfold block_entries. rewrite map_app, concat_app, weight_app. cbn [map concat].
    rewrite weight_app. pose proof (weight_nonneg (concat (map d_entries (take (length seps) bs)))).
    pose proof (weight_nonneg (concat (map d_entries (drop (S (length seps)) bs)))).
    pose proof (zlen_nonneg (concat (map d_entries (take (length seps) bs)))). pose proof (zlen_nonneg (concat (map d_entries (drop (S (length seps)) bs)))). lia. }
  pose proof (body_max 1 ltac:(lia) ips (built_shares _ _ _ Hidx) (weight_small ips Hiw')) as Hbody. pose proof (room_weight (map entry_of ips)).
  pose proof (zlen_nonneg (map entry_of ips)). pose proof (zlen_nonneg ips). change (weight (map entry_of [])) with 0 in Hw.
  assert (Hlast : ips <> [] -> valid (prev_key ips (length ips)) /\ order (prev_key ips (length ips)) s = Lt).
  { intros Hne. destruct (last_piece ips Hne) as (e & He & ->). rewrite Eidx in He. unfold index_entries in He.
    apply lookup_zip_with_Some in He as (s0 & d0 & -> & Hs0 & _). cbn [fst].
    destruct (Hseps _ s0 Hs0) as (d1 & _ & Hv0 & _ & _ & Hlo & _). split; [done|]. rewrite app_nil_r in Hlo.
    destruct (some_entry d) as (e & Hin); [by destruct (Hbs _ d Hd)|]. apply (order_lt_le order _ e.1).
    - rewrite Forall_forall in Hlo. apply Hlo. apply (in_blocks _ (length seps) bs d); [done| |done].
      apply lookup_lt_Some in Hs0. lia.
    - rewrite Forall_forall in Hup. by apply Hup. }
  destruct (@block_Add_ok (comparator o) valid order Hlaw 1 ltac:(lia) ltac:(lia) (index_block r) ips s (handle_bytes (d_handle d)) Hidx) as (b' & n & Eb & Hb');
    [by apply Hlast|done|by apply Hlast|lia|lia|lia|].
  exists (set_pending false (set_index_block b' (set_last_key s r))), (ips ++ [mk_piece n s (handle_bytes (d_handle d))]).
  split; [|split; [|done]].
  - unfold add_index_entry, bind, modify, get, lift. cbn [pending_handle set_last_key index_block_options index_block].
    rewrite Hph, (handle_encode _ _ Hh). cbn [app]. destruct Hopt as [_ ->]. unfold block_Add, index_options. cbn [comparator block_restart_interval].
    change 1 with (Z.of_nat 1). by rewrite Eb.
  - split; cbn [options index_block_options closed status file offset data_block index_block last_key num_entries filter_block
      pending_index_entry pending_handle set_pending set_index_block set_last_key]; try done.
    + split; [done|]. rewrite map_app, Eidx. unfold index_entries. apply list_eq. intros i.
      destruct (Nat.lt_trichotomy i (length seps)) as [Hi|[->|Hi]].
      * rewrite lookup_app_l by (rewrite length_zip_with; lia). rewrite !lookup_zip_with. by rewrite (lookup_app_l seps) by done.
      * rewrite lookup_app_r by (rewrite length_zip_with; lia). rewrite length_zip_with, Nat.min_l, Nat.sub_diag by lia.
        rewrite lookup_zip_with, list_lookup_middle by done. cbn [mbind option_bind]. by rewrite Hd.
      * rewrite !lookup_ge_None_2; [done| |]; rewrite ?length_app, !length_zip_with, ?length_app; cbn; lia.
    + intros i s' Hi. destruct (decide (i < length seps)%nat) as [Hlt|Hge].
      * rewrite lookup_app_l in Hi by done. by apply Hseps.
      * rewrite lookup_app_r in Hi by lia. destruct (i - length seps)%nat as [|j] eqn:Ej; [|done]. injection Hi as <-.
        replace i with (length seps) by lia. exists d. do 4 (split; [done|]). rewrite drop_ge by lia. split; [apply Forall_nil_2|by right].
    + rewrite length_app. cbn. lia.
Qed.
(** ** Adding an entry *)

(** Between two operations: [last_key] is the last key added, and when there
    are blocks either their last one is pending or the next one was begun. *)
Definition settled (r : Rep (F := F)) (bs : list dblock) (ps : list piece) : Prop :=
  (forall e, last (block_entries bs ++ map entry_of ps) = Some e -> last_key r = e.1) /\
  (pending_index_entry r = false -> ps = [] -> bs = []).

Lemma next_entry es k v rest : total = es ++ (k, v) :: rest ->
  valid k /\ bytes v /\ Forall (fun e => valid e.1 /\ order e.1 k = Lt) es /\ zlen k + zlen v + 64 + weight es <= weight total.
Proof.
  intros E. pose proof (entries_valid Hok) as Hv. pose proof (entries_sorted Hok) as Hs. rewrite E in Hv, Hs.
  apply Forall_app in Hv as [Hve [[Hk Hvb'] _]%Forall_cons]. split; [done|]. split; [done|]. split.
  - apply Forall_forall. intros e He. rewrite Forall_forall in Hve. split; [by apply Hve|].
    unfold keys_of in Hs. rewrite map_app in Hs. eapply (sorting.StronglySorted_app_1_elem_of _ _ _ _ _ Hs).
    + by apply list_elem_of_fmap_2.
    + apply elem_of_cons. by left.
  - rewrite E, weight_app, weight_cons. pose proof (weight_nonneg rest). pose proof (zlen_nonneg rest). cbn [fst snd]. lia.
Qed.

Lemma last_entries (es : list (list Z * list Z)) : es <> [] -> exists e, last es = Some e /\ e ∈ es.
Proof.
  intros Hne. destruct (exists_last Hne) as (es' & e & ->). exists e. split; [apply last_snoc|].
  apply elem_of_app. right. by apply list_elem_of_singleton.
Qed.

(** Every entry of a block is at most its last. *)
Lemma last_of_block (es : list (list Z * list Z)) e : sorted order (keys_of es) -> last es = Some e ->
  Forall (fun e' => order e'.1 e.1 <> Gt) es.
Proof.
  intros Hs Hl. apply last_Some in Hl as (es' & ->). unfold keys_of in Hs. rewrite map_app in Hs. apply Forall_forall.
  intros e' [He|He]%elem_of_app.
  - rewrite (sorting.StronglySorted_app_1_elem_of _ _ _ e'.1 e.1 Hs); [done|by apply list_elem_of_fmap_2|apply elem_of_cons; by left].
  - apply list_elem_of_singleton in He as ->. by rewrite (order_refl order).
Qed.

(** A separator with no entry after it is before the group of the next key. *)
Definition next_before (bs : list dblock) (seps : list (list Z)) (ps : list piece) (k : list Z) : Prop :=
  forall i s d, seps !! i = Some s -> bs !! i = Some d -> block_entries (drop (S i) bs) ++ map entry_of ps = [] ->
    (exists e, e ∈ d_entries d /\ s = e.1) \/ (forall k', valid k' -> group k' k -> order s k' = Lt).

Lemma separator_step r bs seps ps ips k v rest :
  inv r bs seps ps ips -> settled r bs ps -> total = (block_entries bs ++ map entry_of ps) ++ (k, v) :: rest ->
  exists r1 seps1 ips1,
    (if pending_index_entry r then
       run check (Block.empty (data_block r));
       do separator <- lift (@FindShortestSeparator (comparator (options r)) (last_key r) k);
       add_index_entry separator
     else ret tt) r = Ok (tt, r1) /\
    inv r1 bs seps1 ps ips1 /\ pending_index_entry r1 = false /\ Forall (fun s => order s k = Lt) seps1 /\ next_before bs seps1 ps k.
Proof.
  intros Hinv [Hlk Hset] Ht. destruct (next_entry _ k v rest Ht) as (Hk & _ & Hes & _).
  assert (Hold : forall i s e, seps !! i = Some s -> e ∈ block_entries (drop (S i) bs) ++ map entry_of ps -> order s k = Lt).
  { intros i s e Hi He. destruct (inv_seps _ _ _ _ _ Hinv i s Hi) as (d & _ & _ & _ & _ & Hlo & _). rewrite Forall_forall in Hlo, Hes.
    apply (order_lt_trans order _ e.1); [by apply Hlo|]. apply Hes. apply elem_of_app in He as [He|He]; apply elem_of_app; [left|by right].
    rewrite <- (take_drop (S i) bs). unfold block_entries in *. rewrite map_app, concat_app. apply elem_of_app. by right. }
  pose proof (inv_blocks _ _ _ _ _ Hinv) as Hbs.
  pose proof (inv_pending _ _ _ _ _ Hinv) as Hpend. destruct (pending_index_entry r) eqn:Ep.
  - destruct Hpend as (-> & Hlen & _). destruct (lookup_lt_is_Some_2 bs (length seps) ltac:(lia)) as [d Hd].
    assert (Eb : block_entries bs = block_entries (take (length seps) bs) ++ d_entries d).
    { rewrite <- (take_drop_middle bs _ d Hd) at 1. rewrite drop_ge by lia. by rewrite block_entries_snoc. }
    destruct (last_entries (d_entries d)) as (e & Hle & He); [destruct (some_entry d) as (e & He); [by destruct (Hbs _ d Hd)|]; intros E; rewrite E in He; by apply elem_of_nil in He|].
    assert (Hle' : last_key r = e.1).
    { apply Hlk. cbn [map]. rewrite app_nil_r, Eb, last_app, Hle. done. }
    cbn [map] in *. rewrite app_nil_r in *. destruct (prefix_valid (block_entries bs) _ Ht) as [Hvalid Hsorted].
    rewrite Forall_forall in Hes, Hvalid. pose proof (Hes e (in_blocks 0 _ bs d e Hd ltac:(lia) He)) as [Hve Hek].
    pose proof (inv_options _ _ _ _ _ Hinv) as [Hopt _].
    destruct (@separator_law (comparator o) valid order Hlaw e.1 k Hve Hk ltac:(by rewrite Hek)) as (s & Es & Hvs & Hges & Hlts & _).
    destruct (add_index_entry_ok r bs seps ips s d Hinv Ep Hd Hvs) as (r1 & ips1 & E1 & Hinv1 & Hp1).
    + pose proof (@separator_short (comparator o) Hshort _ _ _ Es). pose proof (weight_entry (d_entries d) e He). pose proof (zlen_nonneg e.2). lia.
    + assert (Hsd : sorted order (keys_of (d_entries d))).
      { rewrite Eb in Hsorted. unfold keys_of in *. rewrite map_app in Hsorted. by eapply sorting.StronglySorted_app_1_r. }
      eapply Forall_impl; [exact (last_of_block _ e Hsd Hle)|]. cbn. intros e' He'. by apply (order_trans (order := order) _ e.1).
    + exists r1, (seps ++ [s]), ips1. rewrite (empty_built I _ _ (inv_data _ _ _ _ _ Hinv)). cbn [bool_decide check]. rewrite bool_decide_true by done.
      cbn [check]. rewrite ret_bind. unfold bind at 1, lift. rewrite Hopt, Hle', Es, E1. split; [done|]. split; [done|]. split; [done|].
      assert (Hafter : forall i s', seps !! i = Some s' -> e ∈ block_entries (drop (S i) bs)).
      { intros i s' Hi. apply (in_blocks _ (length seps) bs d); [done| |done]. apply lookup_lt_Some in Hi. lia. }
      split; [apply Forall_app; split; [|apply Forall_singleton; by apply Hlts]; apply Forall_lookup; intros i s' Hi|].
      * apply (Hold i s' e Hi). rewrite app_nil_r. by apply (Hafter i s').
      * intros i s' d' Hi Hd' Hnil. rewrite app_nil_r in Hnil. destruct (decide (i < length seps)%nat) as [Hlt|Hge].
        { rewrite lookup_app_l in Hi by done. pose proof (Hafter i s' Hi) as Hin. rewrite Hnil in Hin. by apply elem_of_nil in Hin. }
        rewrite lookup_app_r in Hi by lia. destruct (i - length seps)%nat as [|j] eqn:Ej; [|done]. injection Hi as <-.
        replace i with (length seps) in Hd' by lia. rewrite Hd in Hd'. injection Hd' as <-.
        destruct (decide (s = e.1)) as [->|Hne]; [left; by exists e|]. right. intros k' Hk' Hg.
        by destruct (@separator_group (comparator o) valid order group Hgroup e.1 k s k' Hve Hk Hk' Hek Es) as [?|Hs']; [|apply Hs'].
  - exists r, seps, ips. split; [done|]. split; [done|]. split; [done|].
    split; [|intros i s d Hi Hd Hnil; apply app_eq_nil in Hnil as [_ Hnil]; destruct ps; [by rewrite (Hset eq_refl eq_refl) in Hd|done]].
    apply Forall_lookup. intros i s Hi. pose proof (lookup_lt_Some _ _ _ Hi) as Hil.
    destruct ps as [|p ps]; [by rewrite (Hset eq_refl eq_refl) in Hpend; cbn in Hpend; lia|].
    apply (Hold i s (entry_of p) Hi). apply elem_of_app. right. apply elem_of_cons. by left.
Qed.
Lemma insert_step r bs seps ps ips k v rest n :
  inv r bs seps ps ips -> pending_index_entry r = false -> Forall (fun s => order s k = Lt) seps -> next_before bs seps ps k ->
  total = (block_entries bs ++ map entry_of ps) ++ (k, v) :: rest -> n = zlen (block_entries bs ++ map entry_of ps) + 1 ->
  exists fb b p, filter_step (FilterBlock.Add k) r = Ok (tt, set_filter_block fb r) /\
    let r2 := set_num_entries n (set_last_key k (set_filter_block fb r)) in
    block_Add (options r2) k v (data_block r2) = Ok b /\ entry_of p = (k, v) /\
    inv (set_data_block b r2) bs seps (ps ++ [p]) ips /\ settled (set_data_block b r2) bs (ps ++ [p]).
Proof.
  intros Hinv Hp Hsep Hnext Ht Hn. destruct (next_entry _ k v rest Ht) as (Hk & _ & Hes & Hwk).
  pose proof (inv_weight _ _ _ _ _ Hinv) as [Hw Hw32]. pose proof (weight_app (block_entries bs) (map entry_of ps)) as Hwa.
  pose proof Hinv as [Hopt Hcl Hfl Hoff Hbs Hdata Hidx _ Hnum Hseps Hfil Hpend]. rewrite Hp in Hpend.
  pose proof (weight_nonneg (block_entries bs)). pose proof (zlen_nonneg (block_entries bs)). pose proof (zlen_nonneg k). pose proof (zlen_nonneg v).
  pose proof (body_max I HI ps (built_shares _ _ _ Hdata) (weight_small ps ltac:(lia))) as Hbody. pose proof (room_weight (map entry_of ps)).
  pose proof (weight_nonneg (map entry_of ps)). pose proof (zlen_nonneg (map entry_of ps)). pose proof (zlen_nonneg ps).
  assert (Hlast : ps <> [] -> valid (prev_key ps (length ps)) /\ order (prev_key ps (length ps)) k = Lt).
  { intros Hne. destruct (last_piece ps Hne) as (e & He & ->). rewrite Forall_forall in Hes. apply Hes, elem_of_app. right. by eapply list_elem_of_lookup_2. }
  destruct (@block_Add_ok (comparator o) valid order Hlaw I HI HI31 (data_block r) ps k v Hdata) as (b & sh & Eb & Hb);
    [by apply Hlast|done|by apply Hlast|lia|lia|lia|].
  set (p := mk_piece sh k v) in *.
  assert (Eent : block_entries bs ++ map entry_of (ps ++ [p]) = (block_entries bs ++ map entry_of ps) ++ [(k, v)]) by (by rewrite map_app, app_assoc).
  assert (Ht' : total = block_entries bs ++ map entry_of (ps ++ [p]) ++ rest) by (rewrite Ht, map_app, <- !app_assoc; done).
  destruct (filter_call_ok (FilterBlock.Add k) r bs ps (offset r) bs (ps ++ [p]) (offset r) rest Hfil Ht') as (fb & Efb & Hfb).
  { intros cs Hs Ha. rewrite FilterBlockProof.start_after_app, FilterBlockProof.added_app, Hs, Ha, map_app. cbn. by rewrite app_assoc. }
  { cbn. split; [by apply Hvb|done]. }
  exists fb, b, p. split; [done|]. cbv zeta. cbn [options data_block set_num_entries set_last_key set_filter_block].
  destruct Hopt as [Ho Hio]. split; [unfold block_Add; by rewrite Ho, HoI|]. split; [done|]. split.
  - split; cbn [options index_block_options closed status file offset data_block index_block last_key num_entries filter_block
      pending_index_entry pending_handle set_filter_block set_num_entries set_last_key set_data_block]; try done.
    + by exists rest.
    + rewrite Eent, zlen_app. exact Hn.
    + intros i s Hi. destruct (Hseps i s Hi) as (d & Hd & Hv & Hl & Hup & Hlo & Hbefore). exists d. do 4 (split; [done|]).
      rewrite map_app, app_assoc. split.
      * apply Forall_app. split; [done|]. apply Forall_singleton. rewrite Forall_lookup in Hsep. by apply (Hsep i s).
      * destruct (block_entries (drop (S i) bs) ++ map entry_of ps) as [|e0 es0] eqn:E0; [|exact Hbefore].
        destruct (Hnext i s d Hi Hd E0) as [?|Hk']; [by left|right]. cbn. intros e k' [= <-] Hvk. by apply Hk'.
    + by rewrite Hp.
  - split; cbn [last_key pending_index_entry set_filter_block set_num_entries set_last_key set_data_block].
    + intros e. rewrite Eent, last_snoc. by intros [= <-].
    + intros _ E. by destruct ps.
Qed.

Lemma larger_ok r bs seps ps ips k v rest : inv r bs seps ps ips -> settled r bs ps ->
  total = (block_entries bs ++ map entry_of ps) ++ (k, v) :: rest ->
  (if 0 <? num_entries r then
     do c <- lift (@Compare (comparator (options r)) k (last_key r)); ret (0 <? c)
   else ret true) r = Ok (true, r).
Proof.
  intros Hinv [Hlk _] Ht. destruct (next_entry _ k v rest Ht) as (Hk & _ & Hes & _). rewrite (inv_num _ _ _ _ _ Hinv).
  destruct (Z.ltb_spec 0 (zlen (block_entries bs ++ map entry_of ps))) as [Hlt|]; [|done].
  destruct (last_entries (block_entries bs ++ map entry_of ps)) as (e & Hl & He); [by intros E; rewrite E in Hlt|].
  rewrite Forall_forall in Hes. destruct (Hes e He) as [Hve Hlte]. unfold bind, lift. destruct (inv_options _ _ _ _ _ Hinv) as [-> _].
  rewrite (Hlk e Hl). destruct (@compare_law (comparator o) valid order Hlaw k e.1 Hk Hve) as (c & -> & Hc).
  apply (order_gt order) in Hlte. rewrite Hlte in Hc. rewrite (proj2 (Z.ltb_lt 0 c)); [done|]. by apply Z.compare_gt_iff.
Qed.

Lemma table_Add_ok r bs seps ps ips k v rest : inv r bs seps ps ips -> settled r bs ps ->
  total = (block_entries bs ++ map entry_of ps) ++ (k, v) :: rest ->
  exists r' bs' seps' ps' ips', Add address k v r = Ok (tt, r') /\ inv r' bs' seps' ps' ips' /\ settled r' bs' ps' /\
    block_entries bs' ++ map entry_of ps' = (block_entries bs ++ map entry_of ps) ++ [(k, v)].
Proof.
  intros Hinv Hset Ht. destruct (separator_step r bs seps ps ips k v rest Hinv Hset Ht) as (r1 & seps1 & ips1 & E1 & Hinv1 & Hp1 & Hs1 & Hnext1).
  assert (Hn : zlen (block_entries bs ++ map entry_of ps) < 2 ^ 63 - 1).
  { pose proof (inv_weight _ _ _ _ _ Hinv) as [Hw Hw32]. rewrite <- weight_app in Hw.
    pose proof (weight_nonneg (block_entries bs ++ map entry_of ps)). lia. }
  destruct (insert_step r1 bs seps1 ps ips1 k v rest _ Hinv1 Hp1 Hs1 Hnext1 Ht eq_refl) as (fb & b & p & Ef & Eb & Ep & Hinv2 & Hset2). cbv zeta in *.
  set (r2 := set_num_entries _ (set_last_key k (set_filter_block fb r1))) in *.
  destruct (Flush_ok _ _ _ _ _ Hinv2) as (r3 & bs3 & E3 & Hinv3 & Eent & Elk & Hpend3).
  assert (Hall : (block_entries bs ++ map entry_of ps) ++ [(k, v)] = block_entries bs ++ map entry_of (ps ++ [p])) by (by rewrite map_app, <- app_assoc, <- Ep).
  assert (Hadd : Add address k v r =
    (if block_size (options r2) <=? Block.CurrentSizeEstimate b then Flush address else ret tt) (set_data_block b r2)).
  { destruct (inv_open _ _ _ _ _ Hinv) as [Hcl Hst]. unfold Add. unfold bind at 1, get at 1. rewrite Hcl. cbn [check negb]. rewrite ret_bind.
    unfold builder_ok. rewrite Hst. cbn [ok code OK negb]. rewrite (bind_Ok _ _ _ _ _ (larger_ok _ _ _ _ _ k v rest Hinv Hset Ht)).
    cbn [check]. rewrite ret_bind, (bind_Ok _ _ _ _ _ E1), (bind_Ok _ _ _ _ _ Ef), (inv_num _ _ _ _ _ Hinv).
    rewrite (proj2 (Z.ltb_lt _ _) Hn). unfold bind, modify, lift, get. cbn [or_ub]. fold r2. by rewrite Eb. }
  rewrite Hadd. destruct (_ <=? _).
  - exists r3, bs3, seps1, [], ips1. split; [done|]. split; [done|]. cbn [map]. rewrite app_nil_r, Hall. split; [|done]. split.
    + cbn [map]. rewrite app_nil_r, Elk, Eent. apply Hset2.
    + intros Hp3 _. destruct ps; by rewrite Hp3 in Hpend3.
  - exists (set_data_block b r2), bs, seps1, (ps ++ [p]), ips1. by split_and!.
Qed.
(** ** The blocks at the end of the file *)
Lemma filter_finish policy cs b : policy_ok policy ->
  @FilterBlock.filter_run policy cs FilterBlock.new_FilterBlockBuilder = Ok b ->
  FilterBlockProof.ordered 0 cs -> Forall (fun p => valid p.2) (FilterBlockProof.added 0 cs) ->
  (length (FilterBlockProof.added 0 cs) <= length total)%nat ->
  exists fc, @FilterBlock.Finish policy b = Ok fc /\ @FilterBlock.build_filter_block policy cs = Ok fc /\ bytes fc /\
    zlen fc <= (filter_max + 4) * (FilterBlockProof.start_after 0 cs / 2048 + 1) + 5.
Proof.
  intros (fits & Hlawp & Hfits & Hmax & Hm0 & _) Erun Ho Hv Hl.
  destruct (FilterBlockProof.filter_run_ok fits valid (length total) Hfits cs Ho Hv Hl) as (fs & pend & b' & E' & Hb).
  rewrite Erun in E'. injection E' as <-.
  destruct (FilterBlockProof.build_contents fits valid (length total) Hfits cs Ho Hv Hl) as (fs' & Efc & Hbf & _).
  pose proof Efc as Efin. unfold FilterBlock.build_filter_block in Efin. rewrite Erun in Efin. cbn [obind] in Efin.
  eexists. split; [exact Efin|]. split; [exact Efc|]. split.
  - repeat (apply Forall_app; split).
    + by apply Forall_concat.
    + apply Forall_concat, Forall_map, Forall_true. intros v. rewrite EncodeFixed32_le. apply le_bytes_bytes.
    + apply Forall_singleton. by vm_compute.
  - destruct (FilterBlockProof.filter_run_small (length total) filter_max Hm0 Hmax cs 0 _ b Erun Hl) as [Hsm Hst].
    { unfold FilterBlockProof.small. cbn [FilterBlock.result_ FilterBlock.filter_offsets_ FilterBlock.new_FilterBlockBuilder]. rewrite zlen_nil. lia. }
    pose proof (FilterBlockProof.Finish_small (length total) filter_max Hm0 Hmax b _ Efin) as Hsize.
    cbn [FilterBlock.start_ FilterBlock.new_FilterBlockBuilder length] in Hst. specialize (Hsize ltac:(lia) Hsm).
    assert (Hn : zlen (FilterBlock.filter_offsets_ b) = FilterBlockProof.start_after 0 cs / 2048).
    { rewrite (FilterBlockProof.inv_offsets _ _ _ _ _ _ Hb). change 2048 with FilterBlock.kFilterBase. rewrite <- (FilterBlockProof.inv_index _ _ _ _ _ _ Hb).
      unfold zlen. by rewrite length_map, FilterBlockProof.length_offsets. }
    by rewrite Hn in Hsize.
Qed.

(** Adding to an empty block does not compare. *)
Lemma first_Add c1 c2 J k v : @Block.Add c1 J k v (Block.Reset (Block.mk_builder [] [] 0 false [])) =
  @Block.Add c2 J k v (Block.Reset (Block.mk_builder [] [] 0 false [])).
Proof. done. Qed.

(** The file and the state without the last stages of [Finish]. *)
Definition at_end (x : Z) (f : F) (r : Rep (F := F)) : Rep := set_offset x (set_file OK f (set_closed r)).

Lemma add_index_entry_end s x f r r' : add_index_entry s r = Ok (tt, r') -> add_index_entry s (at_end x f r) = Ok (tt, at_end x f r').
Proof.
  unfold add_index_entry, bind, modify, get, lift, at_end. cbn [pending_handle set_last_key set_offset set_file set_closed index_block_options index_block].
  destruct (BlockHandle_EncodeTo _ _); [|done|done]. destruct (block_Add _ _ _ _); [|done|done]. by intros [= <-].
Qed.

(** What the file has after the data blocks. *)
Record file_parts : Type := mk_parts { filter_part : list Z; meta_raw : list Z; index_raw : list Z }.
Definition parts_footer (bs : list dblock) (p : file_parts) : Footer :=
  let meta_offset := zlen (data_bytes bs ++ filter_part p) in
  mk_footer (mk_handle meta_offset (zlen (meta_raw p)))
    (mk_handle (meta_offset + (zlen (meta_raw p) + 5)) (zlen (index_raw p))).
Definition file_of (bs : list dblock) (p : file_parts) : list Z :=
  data_bytes bs ++ filter_part p ++ stored (meta_raw p) ++ stored (index_raw p) ++ footer_bytes (parts_footer bs p).

(** The metaindex maps the name of the filter to its handle. *)
Definition filter_name (policy : FilterPolicy) : list Z := chars "filter." ++ @policy_Name policy.
Definition meta_entries (h : BlockHandle) : list (list Z * list Z) :=
  match filter_policy o with Some policy => [(filter_name policy, handle_bytes h)] | None => [] end.

(** The contents of a block with these entries. *)
Definition holds_block (J : nat) (raw : list Z) (es : list (list Z * list Z)) : Prop :=
  exists ps rs, raw = BlockIterProof.contents ps rs /\ shares J ps /\ restart_points J ps rs /\ map entry_of ps = es.

(** The filter block, when there is a policy. *)
Definition filter_stored (bs : list dblock) (part : list Z) (h : BlockHandle) : Prop :=
  match filter_policy o with
  | None => part = []
  | Some policy => exists cs fc, @FilterBlock.build_filter_block policy cs = Ok fc /\ part = stored fc /\
      FilterBlockProof.ordered 0 cs /\ FilterBlockProof.added 0 cs = filter_keys bs /\ h = mk_handle (zlen (data_bytes bs)) (zlen fc)
  end.

Record layout (file : list Z) (bs : list dblock) (seps : list (list Z)) (p : file_parts) : Prop := {
  layout_file : file = file_of bs p;
  layout_size : zlen file < 2 ^ 32;
  layout_blocks : forall i d, bs !! i = Some d -> dblock_ok bs i d;
  layout_total : total = block_entries bs;
  layout_index : holds_block 1 (index_raw p) (index_entries seps bs) /\ length seps = length bs;
  layout_seps : separates seps bs [];
  layout_filter : exists h, filter_stored bs (filter_part p) h /\ holds_block I (meta_raw p) (meta_entries h);
  layout_bytes : bytes (filter_part p) /\ bytes (meta_raw p) /\ bytes (index_raw p)
}.
(** ** The stages of [Finish] *)
Definition end_bound : Z := (filter_max + 4) * (weight total / 2048 + 2) + 10.

Lemma filter_stage r bs seps ips f : inv r bs seps [] ips -> block_entries bs = total -> reliable f -> written f = data_bytes bs ->
  exists part h f', when_ok new_BlockHandle
      (match filter_block r with
       | Some (policy, b) => do contents <- lift (@FilterBlock.Finish policy b); WriteRawBlock address contents kNoCompression
       | None => ret new_BlockHandle
       end) (at_end (zlen (data_bytes bs)) f r) = Ok (h, at_end (zlen (data_bytes bs ++ part)) f' r) /\
    reliable f' /\ written f' = data_bytes bs ++ part /\ bytes part /\ zlen part <= end_bound /\ filter_stored bs part h.
Proof.
  intros Hinv Htot Hf Hwf. pose proof (inv_weight _ _ _ _ _ Hinv) as [_ Hw32]. pose proof (inv_data_size _ _ _ _ _ Hinv) as [Hd0 Hds].
  rewrite Htot in Hds.
  pose proof (weight_nonneg total). pose proof (zlen_nonneg total). pose proof (entries_size Hok). pose proof (filter_nonneg Hok). pose proof (zlen_nonneg bs).
  assert (0 <= weight total / 2048) by (apply Z.div_pos; lia). unfold end_bound.
  pose proof (inv_filter _ _ _ _ _ Hinv) as Hfil. unfold filter_inv in Hfil. unfold filter_stored, when_ok, bind at 1, get, builder_ok.
  cbn [status at_end set_offset set_file ok code OK]. destruct (filter_policy o) as [policy|] eqn:Ep.
  - destruct Hfil as (cs & b & -> & Erun & Hord & Hst & Had). cbn [map] in Had. rewrite app_nil_r in Had.
    pose proof (filter_policy_ok Hok policy Ep) as Hpol. rewrite (inv_offset _ _ _ _ _ Hinv) in Hst.
    destruct (filter_finish policy cs b Hpol Erun Hord) as (fc & Efc & Ebuild & Hbfc & Hsize).
    + rewrite Had, <- (app_nil_r (filter_keys bs)). change [] with (map (fun p => (0, piece_key p)) []). apply filter_keys_valid.
      cbn [map]. rewrite app_nil_r, Htot. apply (prefix_valid total []). by rewrite app_nil_r.
    + by rewrite Had, length_filter_keys, Htot.
    + rewrite Hst in Hsize. assert (Hdiv : zlen (data_bytes bs) / 2048 <= weight total / 2048) by (apply Z.div_le_mono; [done|lia]).
      pose proof (zlen_nonneg fc).
      assert (Hfc : zlen fc <= (filter_max + 4) * (weight total / 2048 + 2) + 5).
      { etransitivity; [exact Hsize|]. apply Z.add_le_mono_r, Z.mul_le_mono_nonneg_l; lia. }
      destruct (WriteRawBlock_ok address fc kNoCompression (at_end (zlen (data_bytes bs)) f r) Hf Hbfc) as (f' & E & Hf' & Hwf').
      exists (stored fc), (mk_handle (zlen (data_bytes bs)) (zlen fc)), f'.
      rewrite (bind_Ok _ _ _ fc (at_end (zlen (data_bytes bs)) f r)) by (unfold lift; by rewrite Efc). rewrite E.
      cbn [offset at_end set_offset set_file]. rewrite wrap_small by lia. split_and!.
      * rewrite zlen_app, zlen_stored. reflexivity.
      * done.
      * rewrite Hwf'. cbn [file at_end set_offset set_file]. by rewrite Hwf.
      * apply Forall_app. split; [done|]. apply Forall_cons_2; [by vm_compute|]. rewrite EncodeFixed32_le. apply le_bytes_bytes.
      * rewrite zlen_stored. lia.
      * by exists cs, fc.
  - rewrite Hfil. exists [], new_BlockHandle, f. rewrite app_nil_r. split_and!; try done; [apply Forall_nil_2|].
    rewrite zlen_nil. apply Z.add_nonneg_nonneg; [apply Z.mul_nonneg_nonneg; lia|lia].
Qed.
(** Writing a block that was built, at the end of the file. *)
Lemma block_stage J b ps x f r : (1 <= J)%nat -> built J b ps -> weight (map entry_of ps) < 2 ^ 32 ->
  Forall (fun p => bytes (piece_key p) /\ bytes (piece_value p)) ps -> reliable f -> 0 <= x < 2 ^ 62 ->
  exists raw f', WriteBlock address b (at_end x f r) =
      Ok ((mk_handle x (zlen raw), Block.Reset b), at_end (x + (zlen raw + 5)) f' r) /\
    reliable f' /\ written f' = written f ++ stored raw /\ holds_block J raw (map entry_of ps) /\ bytes raw /\
    zlen raw <= weight (map entry_of ps) + 8.
Proof.
  intros HJ Hb Hw Hby Hf Hx. destruct (built_finish J b ps HJ Hb Hw Hby) as [Efin Hbyt].
  pose proof (contents_size J ps (restarts_ b) HJ (built_shares _ _ _ Hb) (built_restarts _ _ _ Hb) (weight_small ps ltac:(lia))) as Hsize.
  pose proof (room_weight (map entry_of ps)). pose proof (zlen_nonneg (map entry_of ps)).
  destruct (WriteBlock_ok address b (at_end x f r) Hf eq_refl Hbyt) as (f' & E & Hf' & Hwf'). rewrite Efin in *.
  set (raw := BlockIterProof.contents ps (restarts_ b)) in *. pose proof (zlen_nonneg raw).
  exists raw, f'. rewrite E. cbn [offset at_end set_offset set_file]. rewrite wrap_small by lia. split_and!; try done; [|lia].
  exists ps, (restarts_ b). split_and!; [done|apply Hb|apply Hb|done].
Qed.

Lemma block_new_ok : block_new o = Ok (Block.mk_builder [] [0] 0 false []).
Proof. unfold block_new, new_BlockBuilder, Prelude.assert. rewrite HoI, (proj2 (Z.leb_le 1 _)) by lia. done. Qed.

Lemma meta_stage r h f x : options r = o ->
  match filter_policy o with Some p => exists b, filter_block r = Some (p, b) | None => filter_block r = None end ->
  (filter_policy o <> None -> handle_ok h) -> reliable f -> 0 <= x < 2 ^ 62 ->
  exists raw f', when_ok new_BlockHandle
      (do block <- meta_index_block h; do (handle, _) <- WriteBlock address block; ret handle) (at_end x f r) =
      Ok (mk_handle x (zlen raw), at_end (x + (zlen raw + 5)) f' r) /\
    reliable f' /\ written f' = written f ++ stored raw /\ holds_block I raw (meta_entries h) /\ bytes raw /\ zlen raw <= 300.
Proof.
  intros Hopt Hfb Hh Hf Hx. unfold when_ok, bind at 1, get at 1, builder_ok. cbn [status at_end set_offset set_file ok code OK].
  assert (Hmeta : exists b ps, meta_index_block h (at_end x f r) = Ok (b, at_end x f r) /\ built I b ps /\ map entry_of ps = meta_entries h /\
    weight (map entry_of ps) <= 200 /\ Forall (fun p => bytes (piece_key p) /\ bytes (piece_value p)) ps).
  { pose proof (Reset_built I (Block.mk_builder [] [] 0 false []) HI) as Hb0. cbn in Hb0.
    unfold meta_index_block, bind, get, lift, meta_entries. cbn [options filter_block at_end set_offset set_file set_closed]. rewrite Hopt, block_new_ok.
    destruct (filter_policy o) as [policy|] eqn:Ep.
    - destruct Hfb as (b & ->). cbn [or_ub]. specialize (Hh ltac:(done)). rewrite (handle_encode _ _ Hh). cbn [app].
      destruct (filter_policy_ok Hok policy Ep) as (_ & _ & _ & _ & _ & Hbn & Hln). pose proof (zlen_handle h Hh).
      assert (bytes (filter_name policy) /\ zlen (filter_name policy) <= 107) as [Hnb Hnl].
      { unfold filter_name. rewrite zlen_app. change (zlen (chars "filter.")) with 7. split; [|lia].
        apply Forall_app. split; [by repeat constructor|done]. }
      destruct (@block_Add_ok BytewiseComparator bytes lex bytewise_lawful I HI HI31 _ [] (filter_name policy) (handle_bytes h) Hb0) as (b' & n & Eb & Hb');
        [done|done|done|done|lia|lia|].
      unfold block_Add. rewrite HoI. unfold filter_name in *. rewrite (first_Add (comparator o) BytewiseComparator). cbn [Block.Reset]. rewrite Eb.
      eexists _, _. split; [done|]. split; [exact Hb'|]. split; [done|]. cbn [map app entry_of piece_key piece_value].
      rewrite weight_cons. change (weight []) with 0. unfold entry_of. cbn [fst snd piece_key piece_value]. split; [lia|]. apply Forall_singleton. split; [done|by apply handle_is_bytes].
    - rewrite Hfb. eexists _, []. split; [done|]. split; [exact Hb0|]. split; [done|]. split; [done|]. apply Forall_nil_2. }
  destruct Hmeta as (b & ps & Emeta & Hb & Eps & Hw & Hby). rewrite (bind_Ok _ _ _ _ _ Emeta).
  destruct (block_stage I b ps x f r HI Hb ltac:(lia) Hby Hf Hx) as (raw & f' & Ew & Hf' & Hwf' & Hholds & Hbr & Hsz).
  rewrite (bind_Ok _ _ _ _ _ Ew). exists raw, f'. rewrite <- Eps. split_and!; try done. lia.
Qed.
(** The last index entry. *)
Lemma last_index_entry r bs seps ips rest : inv r bs seps [] ips -> settled r bs [] -> total = block_entries bs ++ rest ->
  exists r' seps' ips', (if pending_index_entry r then
       do successor <- lift (@FindShortSuccessor (comparator (options r)) (last_key r)); add_index_entry successor
     else ret tt) r = Ok (tt, r') /\ inv r' bs seps' [] ips' /\ length seps' = length bs.
Proof.
  intros Hinv [Hlk _] Ht. pose proof (inv_pending _ _ _ _ _ Hinv) as Hpend. destruct (pending_index_entry r) eqn:Ep.
  2:{ exists r, seps, ips. by split_and!. }
  destruct Hpend as (_ & Hlen & _). destruct (lookup_lt_is_Some_2 bs (length seps) ltac:(lia)) as [d Hd].
  assert (Eb : block_entries bs = block_entries (take (length seps) bs) ++ d_entries d).
  { rewrite <- (take_drop_middle bs _ d Hd) at 1. rewrite drop_ge by lia. by rewrite block_entries_snoc. }
  destruct (inv_blocks _ _ _ _ _ Hinv _ d Hd) as [Hne _ _ _].
  destruct (last_entries (d_entries d)) as (e & Hle & He); [destruct (some_entry d Hne) as (e & He); intros E; rewrite E in He; by apply elem_of_nil in He|].
  assert (Hle' : last_key r = e.1) by (apply Hlk; cbn [map]; by rewrite app_nil_r, Eb, last_app, Hle).
  destruct (prefix_valid (block_entries bs) rest Ht) as [Hvalid Hsorted]. rewrite Forall_forall in Hvalid.
  pose proof (Hvalid e (in_blocks 0 _ bs d e Hd ltac:(lia) He)) as Hve.
  destruct (@successor_law (comparator o) valid order Hlaw e.1 Hve) as (s & Es & Hvs & Hges).
  destruct (add_index_entry_ok r bs seps ips s d Hinv Ep Hd Hvs) as (r1 & ips1 & E1 & Hinv1 & Hp1).
  - pose proof (@successor_short (comparator o) Hshort _ _ Es). pose proof (weight_entry (d_entries d) e He). pose proof (zlen_nonneg e.2). lia.
  - assert (Hsd : sorted order (keys_of (d_entries d))).
    { rewrite Eb in Hsorted. unfold keys_of in *. rewrite map_app in Hsorted. by eapply sorting.StronglySorted_app_1_r. }
    eapply Forall_impl; [exact (last_of_block _ e Hsd Hle)|]. cbn. intros e' He'. by apply (order_trans (order := order) _ e.1).
  - exists r1, (seps ++ [s]), ips1. unfold bind, lift. destruct (inv_options _ _ _ _ _ Hinv) as [-> _]. rewrite Hle', Es, E1.
    split_and!; [done|done|]. rewrite length_app. cbn. lia.
Qed.

Lemma last_entry_end x f r r' : (if pending_index_entry r then
       do successor <- lift (@FindShortSuccessor (comparator (options r)) (last_key r)); add_index_entry successor
     else ret tt) r = Ok (tt, r') ->
  (if pending_index_entry (at_end x f r) then
       do successor <- lift (@FindShortSuccessor (comparator (options (at_end x f r))) (last_key (at_end x f r))); add_index_entry successor
     else ret tt) (at_end x f r) = Ok (tt, at_end x f r').
Proof.
  cbn [pending_index_entry options last_key at_end set_offset set_file set_closed]. destruct (pending_index_entry r).
  - unfold bind, lift. destruct (FindShortSuccessor _); [|done|done]. apply add_index_entry_end.
  - by intros [= <-].
Qed.

(** The pieces of the index are bytes. *)
Lemma index_bytes r bs seps ps ips : inv r bs seps ps ips -> Forall (fun p => bytes (piece_key p) /\ bytes (piece_value p)) ips.
Proof.
  intros Hinv. pose proof (handles_ok _ _ _ _ _ Hinv) as Hh. destruct (inv_index _ _ _ _ _ Hinv) as [_ Ei].
  apply (Forall_map entry_of (fun e => bytes e.1 /\ bytes e.2)). rewrite Ei. apply Forall_lookup. intros i e He.
  apply lookup_zip_with_Some in He as (s & d & -> & Hs & Hd). destruct (inv_seps _ _ _ _ _ Hinv i s Hs) as (_ & _ & Hv & _).
  split; [by apply Hvb|]. apply handle_is_bytes. rewrite Forall_lookup in Hh. by apply (Hh i d).
Qed.

Lemma index_stage r bs seps ips f x seps' ips' r' : inv r bs seps [] ips ->
  (if pending_index_entry r then
     do successor <- lift (@FindShortSuccessor (comparator (options r)) (last_key r)); add_index_entry successor
   else ret tt) r = Ok (tt, r') -> inv r' bs seps' [] ips' ->
  reliable f -> 0 <= x < 2 ^ 62 ->
  exists raw f' r2, when_ok new_BlockHandle
    (do r <- get;
     run (if pending_index_entry r then
            do successor <- lift (@FindShortSuccessor (comparator (options r)) (last_key r));
            add_index_entry successor
          else ret tt);
     do r <- get;
     do (handle, block) <- WriteBlock address (index_block r);
     run modify (set_index_block block);
     ret handle) (at_end x f r) = Ok (mk_handle x (zlen raw), at_end (x + (zlen raw + 5)) f' r2) /\
    reliable f' /\ written f' = written f ++ stored raw /\ holds_block 1 raw (index_entries seps' bs) /\ bytes raw /\
    zlen raw <= 2 * weight total + 8.
Proof.
  intros Hinv E Hinv' Hf Hx. unfold when_ok, bind at 1, get at 1, builder_ok. cbn [status at_end set_offset set_file ok code OK].
  unfold bind at 1, get at 1. rewrite (bind_Ok _ _ _ _ _ (last_entry_end x f r r' E)). unfold bind at 1, get at 1.
  destruct (inv_index _ _ _ _ _ Hinv') as [Hb Ei]. pose proof (index_weight _ _ _ _ _ Hinv') as Hiw. rewrite <- Ei in Hiw.
  pose proof (inv_weight _ _ _ _ _ Hinv') as [_ Hw32].
  change (index_block (at_end x f r')) with (index_block r').
  destruct (block_stage 1 (index_block r') ips' x f r' ltac:(lia) Hb ltac:(lia) (index_bytes _ _ _ _ _ Hinv') Hf Hx)
    as (raw & f' & Ew & Hf' & Hwf' & Hholds & Hbr & Hsz). rewrite (bind_Ok _ _ _ _ _ Ew).
  exists raw, f', (set_index_block (Block.Reset (index_block r')) r'). rewrite <- Ei. split_and!; try done. lia.
Qed.
(** ** A whole table *)
Lemma closed_end x r : offset r = x -> status r = OK -> set_closed r = at_end x (file r) r.
Proof. intros <- Hs. destruct r. cbn in Hs. by subst. Qed.

Lemma footer_stage x f r m i : footer_ok (mk_footer m i) -> reliable f -> 0 <= x < 2 ^ 62 ->
  exists f', when_ok tt
    (do footer_encoding <- lift (Footer_EncodeTo (mk_footer m i) []);
     run append footer_encoding;
     do r <- get;
     if builder_ok r then modify (set_offset (wrap 64 (offset r + zlen footer_encoding))) else ret tt) (at_end x f r) =
    Ok (tt, at_end (x + kEncodedLength) f' r) /\ reliable f' /\ written f' = written f ++ footer_bytes (mk_footer m i).
Proof.
  intros Hok' Hf Hx. destruct (append_ok (footer_bytes (mk_footer m i)) f Hf) as (f' & E & Hf' & Hw). exists f'. split; [|done].
  unfold when_ok, bind, get, builder_ok, lift, append, modify. cbn [status at_end set_offset set_file set_closed ok code OK file].
  rewrite (footer_encode _ Hok'). cbn [file at_end set_offset set_file set_closed]. rewrite E. cbn [status set_offset set_file set_closed ok code OK offset].
  rewrite (zlen_footer _ Hok'). change (offset (at_end x f r)) with x. rewrite wrap_small by (change kEncodedLength with 48; lia). done.
Qed.

Lemma flush_settled r bs seps ps ips r1 bs1 : settled r bs ps -> inv r1 bs1 seps [] ips ->
  block_entries bs1 = block_entries bs ++ map entry_of ps -> last_key r1 = last_key r ->
  match ps with [] => r1 = r /\ bs1 = bs | _ => pending_index_entry r1 = true end -> settled r1 bs1 [].
Proof.
  intros Hset _ Eent Elk Hp. destruct ps as [|p ps]; [by destruct Hp as [-> ->]|]. split.
  - cbn [map]. rewrite app_nil_r, Eent, Elk. apply Hset.
  - by rewrite Hp.
Qed.

Lemma table_Finish_ok r bs seps ps ips : inv r bs seps ps ips -> settled r bs ps ->
  total = block_entries bs ++ map entry_of ps ->
  exists r' bs' seps' p, Finish address r = Ok (OK, r') /\ reliable (file r') /\ layout (written (file r')) bs' seps' p /\
    FileSize r' = zlen (written (file r')).
Proof.
  intros Hinv Hset Ht. destruct (Flush_ok _ _ _ _ _ Hinv) as (r1 & bs1 & E1 & Hinv1 & Eent & Elk & Hp1).
  pose proof (flush_settled _ _ _ _ _ _ _ Hset Hinv1 Eent Elk Hp1) as Hset1. rewrite <- Ht in Eent.
  destruct (last_index_entry r1 bs1 seps ips [] Hinv1 Hset1) as (r2 & seps2 & ips2 & E2 & Hinv2 & Hlen2); [by rewrite app_nil_r|].
  pose proof (inv_data_size _ _ _ _ _ Hinv1) as [Hd0 Hds]. rewrite Eent in Hds. pose proof (zlen_nonneg bs1).
  destruct (inv_open _ _ _ _ _ Hinv1) as [Hcl1 Hst1]. destruct (inv_file _ _ _ _ _ Hinv1) as [Hf1 Hw1].
  pose proof (entries_size Hok) as Hsz. pose proof (weight_nonneg total). pose proof (zlen_nonneg total).
  destruct (filter_stage r1 bs1 seps ips (file r1) Hinv1 Eent Hf1 Hw1) as (part & h & f3 & E3 & Hf3 & Hw3 & Hbp & Hpart & Hfs).
  unfold end_bound in Hpart. pose proof (zlen_nonneg part).
  assert (Hx3 : zlen (data_bytes bs1 ++ part) = zlen (data_bytes bs1) + zlen part) by apply zlen_app.
  assert (Hh : filter_policy o <> None -> handle_ok h).
  { intros Hne. unfold filter_stored in Hfs. destruct (filter_policy o) as [policy|]; [|done].
    destruct Hfs as (cs & fc & _ & -> & _ & _ & ->). rewrite zlen_stored in *. pose proof (zlen_nonneg fc).
    unfold handle_ok. rewrite unset_value. cbn [handle_offset handle_size]. lia. }
  destruct (meta_stage r1 h f3 (zlen (data_bytes bs1 ++ part))) as (meta & f4 & E4 & Hf4 & Hw4 & Hmeta & Hbm & Hszm); [apply Hinv1| |done|done|lia|].
  { pose proof (inv_filter _ _ _ _ _ Hinv1) as Hfil. unfold filter_inv in Hfil. destruct (filter_policy o); [|done].
    destruct Hfil as (cs & b & -> & _). by exists b. }
  pose proof (zlen_nonneg meta). set (x4 := zlen (data_bytes bs1 ++ part) + (zlen meta + 5)) in *.
  destruct (index_stage r1 bs1 seps ips f4 x4 seps2 ips2 r2 Hinv1 E2 Hinv2 Hf4 ltac:(lia)) as (index & f5 & r5 & E5 & Hf5 & Hw5 & Hindex & Hbi & Hszi).
  pose proof (zlen_nonneg index). set (p := mk_parts part meta index).
  assert (Hfoot : footer_ok (parts_footer bs1 p)).
  { unfold parts_footer, footer_ok, handle_ok. rewrite unset_value. cbn [metaindex_handle index_handle handle_offset handle_size filter_part meta_raw index_raw p].
    fold x4. lia. }
  destruct (footer_stage (x4 + (zlen index + 5)) f5 r5 _ _ Hfoot Hf5 ltac:(lia)) as (f6 & E6 & Hf6 & Hw6).
  change (mk_footer _ _) with (parts_footer bs1 p) in E6, Hw6.
  assert (Hfile6 : written f6 = file_of bs1 p).
  { rewrite Hw6, Hw5, Hw4, Hw3. unfold file_of. cbn [filter_part meta_raw index_raw p]. rewrite <- !app_assoc. done. }
  assert (Hsize6 : zlen (written f6) = x4 + (zlen index + 5) + kEncodedLength).
  { rewrite Hw6, Hw5, Hw4, Hw3, !zlen_app, !zlen_stored, (zlen_footer _ Hfoot). unfold x4. rewrite Hx3. lia. }
  exists (at_end (x4 + (zlen index + 5) + kEncodedLength) f6 r5), bs1, seps2, p. split; [|split; [done|split; [|done]]].
  - unfold Finish. rewrite (bind_Ok _ _ _ _ _ E1). unfold bind at 1, get at 1. rewrite Hcl1. cbn [check negb]. rewrite ret_bind.
    unfold bind at 1, modify at 1. rewrite (closed_end _ r1 (inv_offset _ _ _ _ _ Hinv1) Hst1).
    rewrite (bind_Ok _ _ _ _ _ E3), (bind_Ok _ _ _ _ _ E4), (bind_Ok _ _ _ _ _ E5). unfold bind at 1.
    change (mk_footer _ _) with (parts_footer bs1 p). rewrite E6. done.
  - split; cbn [filter_part meta_raw index_raw p file at_end set_offset set_file]; try done.
    + rewrite Hsize6. change kEncodedLength with 48. lia.
    + apply Hinv1.
    + intros i s Hi. destruct (inv_seps _ _ _ _ _ Hinv2 i s Hi) as (d & Hd & Hv & Hl & Hup & Hlo & Hnear). by exists d.
    + by exists h.
Qed.
(** A new builder, and all the entries added. *)
Lemma new_TableBuilder_ok f : reliable f -> written f = [] ->
  exists r, new_TableBuilder o f = Ok r /\ inv r [] [] [] [] /\ settled r [] [].
Proof.
  intros Hf Hwf. unfold new_TableBuilder. rewrite block_new_ok. cbn [obind].
  set (r0 := mk_rep o _ f 0 OK _ _ [] 0 false _ false new_BlockHandle).
  assert (Hb : forall J, (1 <= J)%nat -> built J (Block.mk_builder [] [0] 0 false []) []) by exact (fun J => Reset_built J (Block.mk_builder [] [] 0 false [])).
  assert (Hstep : exists fb, filter_step (FilterBlock.Start 0) r0 = Ok (tt, set_filter_block fb r0) /\ filter_inv fb 0 [] []).
  { unfold filter_step, bind, get, filter_inv. cbn [filter_block r0]. destruct (filter_policy o) as [policy|] eqn:Ep; cbn [fmap option_fmap option_map].
    - destruct (filter_step_run policy [] FilterBlock.new_FilterBlockBuilder (FilterBlock.Start 0) (filter_policy_ok Hok policy Ep) eq_refl)
        as (b & Eb & Erun); [cbn; lia|apply Forall_nil_2|cbn; lia|].
      unfold lift. rewrite Eb. eexists. split; [done|]. exists [FilterBlock.Start 0], b. by split_and!.
    - exists None. split; [|done]. by unfold r0; rewrite ?Ep. }
  destruct Hstep as (fb & Es & Hfb). rewrite Es. cbn [obind]. eexists. split; [done|]. split; [|split; [done|done]].
  split; cbn [options index_block_options closed status file offset data_block index_block last_key num_entries filter_block
      pending_index_entry pending_handle set_filter_block r0]; try done.
  - by apply Hb.
  - split; [by apply Hb; lia|done].
  - by exists total.
Qed.

Fixpoint add_all (es : entries) : M (Rep (F := F)) unit :=
  match es with
  | [] => ret tt
  | (k, v) :: es' => run Add address k v; add_all es'
  end.

Lemma table_add_all_ok rest : forall r bs seps ps ips, inv r bs seps ps ips -> settled r bs ps ->
  total = (block_entries bs ++ map entry_of ps) ++ rest ->
  exists r' bs' seps' ps' ips', add_all rest r = Ok (tt, r') /\ inv r' bs' seps' ps' ips' /\ settled r' bs' ps' /\
    total = block_entries bs' ++ map entry_of ps'.
Proof.
  induction rest as [|[k v] rest IH]; intros r bs seps ps ips Hinv Hset Ht.
  - exists r, bs, seps, ps, ips. rewrite app_nil_r in Ht. by split_and!.
  - destruct (table_Add_ok r bs seps ps ips k v rest Hinv Hset Ht) as (r1 & bs1 & seps1 & ps1 & ips1 & E1 & Hinv1 & Hset1 & Eent).
    cbn [add_all]. rewrite (bind_Ok _ _ _ _ _ E1). apply (IH r1 bs1 seps1 ps1 ips1 Hinv1 Hset1).
    rewrite Ht, Eent. exact (app_assoc _ [(k, v)] rest).
Qed.

Definition build_table (f : F) (es : entries) : outcome (Status * Rep (F := F)) :=
  let! r := new_TableBuilder o f in
  let! (_, r) := add_all es r in
  Finish address r.

Lemma build_table_ok f : reliable f -> written f = [] ->
  exists r bs seps p, build_table f total = Ok (OK, r) /\ reliable (file r) /\ layout (written (file r)) bs seps p /\
    FileSize r = zlen (written (file r)).
Proof.
  intros Hf Hwf. destruct (new_TableBuilder_ok f Hf Hwf) as (r0 & E0 & Hinv0 & Hset0).
  destruct (table_add_all_ok total r0 [] [] [] [] Hinv0 Hset0 eq_refl) as (r1 & bs1 & seps1 & ps1 & ips1 & E1 & Hinv1 & Hset1 & Ht).
  destruct (table_Finish_ok r1 bs1 seps1 ps1 ips1 Hinv1 Hset1 Ht) as (r2 & bs2 & seps2 & p & E2 & Hf2 & Hl & Hs).
  exists r2, bs2, seps2, p. split; [|done]. unfold build_table. rewrite E0. cbn [obind]. rewrite E1. cbn [obind]. exact E2.
Qed.
End Build.
