(* ===== verification/TableProof.v ===== *)
(** * Reading back the table that was built

    The blocks of a file with the layout the builder gives it are read, from
    the file or from the cache, and make a lawful two-level iterator. *)
From S2P Require Import Prelude Base128 Order Coding CodingProof Crc32c Crc32cProof Env Comparator ComparatorProof Bloom FilterBlock.
From S2P Require Import SkipListProof SkipListSet Iterator Block BlockProof BlockIterProof BlockSpec.
From S2P Require Import Format FormatProof Cache TwoLevelIterator TwoLevelProof Table TableBuilderProof.
From S2P Require FilterBlockProof.

(** ** Stored blocks *)
Section Stored.
Context {F : Type} `{RandomAccessFile F} {file_bytes : F -> list Z} {Hread : ReadableAt F file_bytes}.

Lemma extent_stored a b raw o : o = zlen a -> extent (a ++ stored raw ++ b) (mk_handle o (zlen raw)) = stored raw.
Proof.
  intros ->. unfold extent. cbn [handle_offset handle_size]. rewrite <- zlen_stored. unfold zlen. rewrite !Nat2Z.id.
  by rewrite drop_app_length, take_app_length.
Qed.

Lemma ReadBlock_stored f verify h buf ubuf raw : handle_fits h -> extent (file_bytes f) h = stored raw -> zlen raw = handle_size h ->
  bytes raw -> exists c, ReadBlock f verify h buf ubuf = Ok (OK, c) /\ Env.contents (data c) = raw.
Proof.
  intros Hh He Hz Hb. pose proof (Mask_word (crc32c 0 (raw ++ [0]))) as Hw.
  destruct (ReadBlock_extent f verify h buf ubuf raw 0 (EncodeFixed32 (Mask (crc32c 0 (raw ++ [0]))))) as (c & Hc & E); try done.
  - rewrite He. unfold stored, trailer. apply Forall_app. split; [done|]. apply Forall_cons_2; [by vm_compute|].
    rewrite EncodeFixed32_le. apply le_bytes_bytes.
  - exists c. split; [|done]. rewrite E. rewrite EncodeFixed32_le, of_le_bytes. change (256 ^ Z.of_nat 4) with (2 ^ 32).
    rewrite Z.mod_small by exact Hw. rewrite Z.eqb_refl. by destruct verify.
Qed.
End Stored.

(** A block read from its contents. *)
Lemma open_holds J raw es : (1 <= J)%nat -> holds_block J raw es -> zlen raw < 2 ^ 32 ->
  exists blk it ps rs, new_Block raw = Ok blk /\ size_ blk = zlen raw /\ Block.data_ blk = raw /\
    NewIterator blk = Ok (Entries raw (zlen (body ps)) (zlen rs) it) /\ Block.status_ it = OK /\ Block.current_ it = zlen (body ps) /\
    raw = BlockIterProof.contents ps rs /\ shares J ps /\ restart_points J ps rs /\ map entry_of ps = es.
Proof.
  intros HJ (ps & rs & -> & Hsh & Hrs & Ees) Hz. destruct (open_block J HJ ps rs Hrs Hz) as (blk & it & Eb & Ei & Hst & Hcur & Eblk).
  exists blk, it, ps, rs. subst blk. by split_and!.
Qed.

(** ** The data blocks of a file *)
Section Layout.
Context (o : Options) (order : list Z -> list Z -> comparison) (valid : list Z -> Prop).
Context {Hlaw : @LawfulComparator (comparator o) valid order} (group : list Z -> list Z -> Prop) (Hvb : forall k, valid k -> bytes k).
Context (I : nat) (HI : (1 <= I)%nat) (total : list (list Z * list Z)) (filter_max : Z) (Hok : table_ok o order valid total filter_max).
Context (contents : list Z) (bs : list dblock) (seps : list (list Z)) (p : file_parts) (Hlay : layout o order valid group I total contents bs seps p).

Lemma data_split i d : bs !! i = Some d ->
  data_bytes bs = data_bytes (take i bs) ++ stored (d_raw d) ++ data_bytes (drop (S i) bs) /\ d_offset d = zlen (data_bytes (take i bs)).
Proof.
  intros Hd. split; [|by destruct (layout_blocks _ _ _ _ _ _ _ _ _ _ Hlay i d Hd)].
  rewrite <- (take_drop_middle bs i d Hd) at 1. unfold data_bytes. by rewrite map_app, concat_app.
Qed.

Lemma block_extent i d : bs !! i = Some d -> extent contents (d_handle d) = stored (d_raw d).
Proof.
  intros Hd. destruct (data_split i d Hd) as [E Eo]. rewrite (layout_file _ _ _ _ _ _ _ _ _ _ Hlay). unfold file_of. rewrite E, <- !app_assoc.
  by apply extent_stored.
Qed.

Lemma contents_small : zlen (data_bytes bs) + 5 < 2 ^ 32.
Proof.
  pose proof (layout_size _ _ _ _ _ _ _ _ _ _ Hlay) as Hs. rewrite (layout_file _ _ _ _ _ _ _ _ _ _ Hlay) in Hs. unfold file_of in Hs.
  rewrite !zlen_app, !zlen_stored in Hs. pose proof (zlen_nonneg (filter_part p)). pose proof (zlen_nonneg (meta_raw p)).
  pose proof (zlen_nonneg (index_raw p)). pose proof (zlen_nonneg (footer_bytes (parts_footer bs p))). lia.
Qed.

Lemma block_fits i d : bs !! i = Some d -> 0 <= d_offset d /\ 0 <= zlen (d_raw d) /\ d_offset d + zlen (d_raw d) < 2 ^ 32.
Proof.
  intros Hd. destruct (data_split i d Hd) as [E ->]. pose proof contents_small as Hs. rewrite E, !zlen_app, zlen_stored in Hs.
  pose proof (zlen_nonneg (data_bytes (take i bs))). pose proof (zlen_nonneg (d_raw d)). pose proof (zlen_nonneg (data_bytes (drop (S i) bs))). lia.
Qed.

Lemma block_handle_fits i d : bs !! i = Some d -> handle_fits (d_handle d) /\ handle_ok (d_handle d).
Proof.
  intros Hd. pose proof (block_fits i d Hd). unfold handle_fits, handle_ok. rewrite unset_value. cbn [d_handle handle_offset handle_size]. lia.
Qed.

Lemma offset_lt i j d e : bs !! i = Some d -> bs !! j = Some e -> (i < j)%nat -> d_offset d < d_offset e.
Proof.
  intros Hd He Hij. destruct (data_split i d Hd) as [_ ->]. destruct (data_split j e He) as [_ ->].
  assert (E : take j bs = take i bs ++ d :: drop (S i) (take j bs)).
  { rewrite <- (take_drop_middle (take j bs) i d) at 1 by (by rewrite lookup_take_lt). by rewrite take_take, Nat.min_l by lia. }
  rewrite E. unfold data_bytes. rewrite map_app, concat_app, zlen_app. cbn [map concat]. rewrite zlen_app, zlen_stored.
  pose proof (zlen_nonneg (d_raw d)). pose proof (zlen_nonneg (concat (map (fun d => stored (d_raw d)) (drop (S i) (take j bs))))). lia.
Qed.

Lemma offset_inj i j d e : bs !! i = Some d -> bs !! j = Some e -> d_offset d = d_offset e -> i = j.
Proof.
  intros Hd He E. destruct (Nat.lt_trichotomy i j) as [Hij|[->|Hij]]; [|done|].
  - pose proof (offset_lt i j d e Hd He Hij). lia.
  - pose proof (offset_lt j i e d He Hd Hij). lia.
Qed.

Lemma blocks_middle i d : bs !! i = Some d -> total = block_entries (take i bs) ++ d_entries d ++ block_entries (drop (S i) bs).
Proof.
  intros Hbd. rewrite (layout_total _ _ _ _ _ _ _ _ _ _ Hlay). rewrite <- (take_drop_middle bs i d Hbd) at 1.
  unfold block_entries. by rewrite map_app, concat_app.
Qed.

Lemma block_weight i d : bs !! i = Some d -> weight (d_entries d) < 2 ^ 32.
Proof.
  intros Hbd. pose proof (entries_size _ _ _ _ _ Hok) as Hsz. pose proof (blocks_middle i d Hbd) as E.
  assert (Hd : weight (d_entries d) <= weight total).
  { rewrite E, !weight_app. pose proof (weight_nonneg (block_entries (take i bs))). pose proof (weight_nonneg (block_entries (drop (S i) bs))).
    pose proof (zlen_nonneg (block_entries (take i bs))). pose proof (zlen_nonneg (block_entries (drop (S i) bs))). lia. }
  pose proof (weight_nonneg total). pose proof (zlen_nonneg total). pose proof (filter_nonneg _ _ _ _ _ Hok).
  pose proof (Z.div_pos (weight total) 2048 ltac:(lia) ltac:(lia)). nia.
Qed.

(** The block with a handle. *)
Definition has_handle (h : list Z) (d : dblock) : Prop := handle_bytes (d_handle d) = h.
#[local] Instance has_handle_dec h d : Decision (has_handle h d).
Proof. unfold has_handle. apply _. Defined.
Definition find_dblock (h : list Z) : option dblock := snd <$> list_find (has_handle h) bs.
Definition block_of (h : list Z) : list (list Z * list Z) := match find_dblock h with Some d => d_entries d | None => [] end.

Lemma handle_inj i j d e : bs !! i = Some d -> bs !! j = Some e -> handle_bytes (d_handle d) = handle_bytes (d_handle e) -> i = j.
Proof.
  intros Hd He E. apply (offset_inj i j d e Hd He). pose proof (handle_decode new_BlockHandle _ [] (proj2 (block_handle_fits i d Hd))) as E1.
  rewrite E, (handle_decode new_BlockHandle _ [] (proj2 (block_handle_fits j e He))) in E1. by injection E1 as <-.
Qed.

Lemma find_dblock_ok i d : bs !! i = Some d -> find_dblock (handle_bytes (d_handle d)) = Some d.
Proof.
  intros Hd. unfold find_dblock. destruct (list_find (has_handle (handle_bytes (d_handle d))) bs) as [[j e]|] eqn:E.
  - apply list_find_Some in E as (He & Heq & _). pose proof (handle_inj j i e d He Hd Heq) as ->. rewrite Hd in He. by injection He as <-.
  - apply list_find_None in E. rewrite Forall_lookup in E. by destruct (E i d Hd).
Qed.

(** The entries of the index, and those of the blocks. *)
#[local] Abbreviation idx := (index_entries seps bs).

Lemma index_at j s h : idx !! j = Some (s, h) -> exists d, bs !! j = Some d /\ seps !! j = Some s /\ h = handle_bytes (d_handle d) /\
  block_of h = d_entries d /\ find_dblock h = Some d.
Proof.
  intros E. apply lookup_zip_with_Some in E as (s' & d & [= -> ->] & Hs & Hd). exists d. split; [done|]. split; [done|]. split; [done|].
  unfold block_of. by rewrite (find_dblock_ok j d Hd).
Qed.

Lemma all_entries_total : all_entries idx block_of = total.
Proof.
  rewrite (layout_total _ _ _ _ _ _ _ _ _ _ Hlay). unfold all_entries, blocks, block_entries. f_equal.
  apply list_eq. intros i. rewrite !list_lookup_fmap. destruct (idx !! i) as [[s h]|] eqn:E.
  - destruct (index_at i s h E) as (d & Hd & _ & _ & Eb & _). cbn. by rewrite Hd, Eb.
  - cbn. unfold index_entries in E. rewrite lookup_zip_with in E. destruct (bs !! i) as [d|] eqn:Hd; [|done].
    destruct (seps !! i) eqn:Hs; [done|]. apply lookup_ge_None in Hs. apply lookup_lt_Some in Hd.
    destruct (layout_index _ _ _ _ _ _ _ _ _ _ Hlay) as [_ Hl]. lia.
Qed.

Lemma index_upper j s h : idx !! j = Some (s, h) -> Forall (fun e => order e.1 s <> Gt) (block_of h).
Proof.
  intros E. destruct (index_at j s h E) as (d & Hd & Hs & _ & -> & _).
  destruct (layout_seps _ _ _ _ _ _ _ _ _ _ Hlay j s Hs) as (d' & Hd' & _ & _ & Hup & _). rewrite Hd in Hd'. by injection Hd' as <-.
Qed.

Lemma index_lower j j' s h s' h' : idx !! j = Some (s, h) -> idx !! j' = Some (s', h') -> (j < j')%nat ->
  Forall (fun e => order s e.1 = Lt) (block_of h').
Proof.
  intros E E' Hj. destruct (index_at j s h E) as (d & Hd & Hs & _). destruct (index_at j' s' h' E') as (d' & Hd' & _ & _ & -> & _).
  destruct (layout_seps _ _ _ _ _ _ _ _ _ _ Hlay j s Hs) as (_ & _ & _ & _ & _ & Hlo & _). apply Forall_forall. intros e He.
  rewrite Forall_forall in Hlo. apply Hlo, elem_of_app. left. by apply (in_blocks (S j) j' bs d').
Qed.

Lemma sorted_intro (ks : list (list Z)) : (forall i j a b, ks !! i = Some a -> ks !! j = Some b -> (i < j)%nat -> order a b = Lt) -> sorted order ks.
Proof.
  induction ks as [|k ks IH]; intros Hk; [constructor|]. constructor.
  - apply IH. intros i j a b Ha Hb Hij. by apply (Hk (S i) (S j) a b); [| |lia].
  - apply Forall_lookup. intros j b Hb. by apply (Hk 0%nat (S j) k b); [| |lia].
Qed.

Lemma index_sorted : sorted order (keys_of idx).
Proof.
  apply sorted_intro. intros i j a b Ha Hb Hij. unfold keys_of in *. rewrite list_lookup_fmap in Ha, Hb.
  destruct (idx !! i) as [[s h]|] eqn:E; [|done]. destruct (idx !! j) as [[s' h']|] eqn:E'; [|done]. cbn in Ha, Hb. injection Ha as <-. injection Hb as <-.
  destruct (index_at j s' h' E') as (d & Hd & _ & _ & Eb & _).
  destruct (layout_blocks _ _ _ _ _ _ _ _ _ _ Hlay j d Hd) as [Hne _ _ _]. destruct (some_entry d Hne) as (e & He). rewrite <- Eb in He.
  pose proof (index_lower i j s h s' h' E E' Hij) as Hlo. pose proof (index_upper j s' h' E') as Hup. rewrite Forall_forall in Hlo, Hup.
  apply (order_lt_le order _ e.1); [by apply Hlo|by apply Hup].
Qed.
End Layout.

(** What the reader of the filter block answers. *)
Definition filter_answers (o : Options) (bs : list dblock) (f : option (FilterPolicy * FilterBlockReader)) : Prop :=
  match f with
  | None => True
  | Some (policy, reader) => filter_policy o = Some policy /\
      forall i d, bs !! i = Some d -> exists fc, bytes fc /\
        (forall key, @FilterKeyMayMatch policy reader (d_offset d) key = @KeyMayMatch policy key fc) /\
        forall q, q ∈ d_pieces d -> @KeyMayMatch policy (piece_key q) fc = Ok true
  end.

(** ** The iterator of a table *)
Section ReadTable.
Context {F : Type} `{RandomAccessFile F} {file_bytes : F -> list Z} {Hread : ReadableAt F file_bytes}.
Context {Hd C : Type} `{Cache Block Hd C} {cached : (list Z -> Block -> Prop) -> C -> list (Hd * Block) -> Prop} {Hcache : LawfulCache cached}.
Context (buf ubuf : Z) (o : Options) (order : list Z -> list Z -> comparison) (valid : list Z -> Prop).
Context {Hlaw : @LawfulComparator (comparator o) valid order} (group : list Z -> list Z -> Prop) (Hvb : forall k, valid k -> bytes k).
Context (I : nat) (HI : (1 <= I)%nat) (total : list (list Z * list Z)) (filter_max : Z) (Hok : table_ok o order valid total filter_max).
Context (file : F) (bs : list dblock) (seps : list (list Z)) (p : file_parts).
Context (Hlay : layout o order valid group I total (file_bytes file) bs seps p).

#[local] Abbreviation lay l := (l o order valid group I HI total _ bs seps p Hlay) (only parsing).
#[local] Abbreviation idx := (index_entries seps bs).

(** What [Open] makes of the file. *)
Context (t : Table (F := F)) (Hfile : Table.file t = file) (Hoptions : Table.options t = o) (Hindex : new_Block (index_raw p) = Ok (index_block t)).

(** The cache maps keys of this table to its blocks. *)
Definition table_mapping (k : list Z) (v : Block) : Prop :=
  forall i d, bs !! i = Some d -> k = cache_key t (d_handle d) -> new_Block (d_raw d) = Ok v.

(** The handles that are held, of the iterators [ps]. *)
Definition alive (w : option C) (ps : list (option Hd)) : Prop :=
  match w with
  | Some c => exists held, cached table_mapping c held /\ map fst held ≡ₚ omap id ps
  | None => omap id ps = []
  end.

Lemma alive_perm w ps ps' : ps ≡ₚ ps' -> alive w ps -> alive w ps'.
Proof.
  intros Hp. unfold alive. pose proof (omap_Permutation id ps ps' Hp) as Ho. destruct w as [c|].
  - intros (held & Hc & Hh). exists held. split; [done|]. by rewrite Hh.
  - intros E. rewrite E in Ho. by apply Permutation_nil in Ho.
Qed.

Lemma delete_data_ok d w ps : alive w (cache_handle d :: ps) -> exists w', delete_data d w = Ok w' /\ alive w' ps.
Proof.
  unfold alive, delete_data. destruct (cache_handle d) as [h|], w as [c|]; cbn [omap list_omap id].
  - intros (held & Hc & Hh). symmetry in Hh. apply Permutation_map_inv in Hh as (held' & E & Hp).
    destruct held' as [|[h' v] held']; [done|]. cbn in E. injection E as -> E.
    destruct (release_law table_mapping c held' h' v) as (c' & -> & Hc'); [by eapply held_order|]. cbn [obind].
    exists (Some c'). split; [done|]. exists held'. split; [done|]. by rewrite E.
  - done.
  - intros Ha. by exists (Some c).
  - intros Ha. by exists None.
Qed.

Lemma cache_key_bytes h : bytes (cache_key t h).
Proof. unfold cache_key. rewrite !EncodeFixed64_le. apply Forall_app. split; apply le_bytes_bytes. Qed.

Lemma cache_key_inj i j d e : bs !! i = Some d -> bs !! j = Some e -> cache_key t (d_handle d) = cache_key t (d_handle e) -> d = e.
Proof.
  intros Hbd Hbe E. pose proof (lay block_fits i d Hbd). pose proof (lay block_fits j e Hbe).
  unfold cache_key in E. apply app_inj_1 in E as [_ E]; [|done]. rewrite !EncodeFixed64_le in E. cbn [d_handle handle_offset] in E.
  apply (f_equal of_le) in E. rewrite (EncodeFixed64_le (d_offset e)), !of_le_bytes in E. change (256 ^ Z.of_nat 8) with (2 ^ 64) in E. rewrite !Z.mod_small in E by lia.
  pose proof (lay offset_inj i j d e Hbd Hbe E) as ->. rewrite Hbd in Hbe. by injection Hbe.
Qed.

(** ** The data blocks *)
Lemma data_small i d : bs !! i = Some d -> small_pieces (d_pieces d).
Proof. intros Hbd. apply (weight_small I HI). by apply (block_weight o order valid group I HI total filter_max Hok _ bs seps p Hlay i). Qed.

Lemma data_bytes_ok i d : bs !! i = Some d -> bytes (d_raw d).
Proof.
  intros Hbd. destruct (layout_blocks _ _ _ _ _ _ _ _ _ _ Hlay i d Hbd) as [_ Hsh Hrs _]. apply (contents_bytes I); [done|].
  pose proof (pieces_bytes _ _ _ Hvb _ _ Hok (d_pieces d) _ _ (blocks_middle o order valid group I total _ bs seps p Hlay i d Hbd)) as Hb.
  pose proof (data_small i d Hbd) as Hs. unfold small_pieces in Hs. rewrite Forall_forall in Hb, Hs |- *. intros q Hq. destruct (Hb q Hq), (Hs q Hq). by split_and!.
Qed.

Lemma data_lawful i d : bs !! i = Some d ->
  @LawfulIterator BlockIterator (@any_block_iterator (comparator o)) order valid (d_entries d)
    (block_usable (d_pieces d) (d_restarts d)) (block_position I (d_pieces d) (d_restarts d)).
Proof.
  intros Hbd. destruct (layout_blocks _ _ _ _ _ _ _ _ _ _ Hlay i d Hbd) as [_ Hsh Hrs _]. pose proof (lay block_fits i d Hbd) as Hf.
  pose proof (blocks_middle o order valid group I total _ bs seps p Hlay i d Hbd) as E. destruct (prefix_valid _ _ _ _ _ Hok total [] ltac:(by rewrite app_nil_r)) as [Hv Hs].
  pose proof (data_small i d Hbd) as Hsm. rewrite E in Hv, Hs. rewrite !keys_app in Hs.
  assert (Ek : keys_of (d_entries d) = map piece_key (d_pieces d)) by (unfold keys_of, d_entries; by rewrite map_map).
  apply any_block_lawful; try done; [unfold d_raw in Hf; lia|eapply Forall_impl; [exact Hsm|by intros q [? _]]|..].
  - apply Forall_app in Hv as [_ Hv]. apply Forall_app in Hv as [Hv _]. unfold d_entries in Hv. by rewrite Forall_map in Hv.
  - rewrite <- Ek. unfold sorted in *. by apply sorting.StronglySorted_app_1_r, sorting.StronglySorted_app_1_l in Hs.
Qed.

(** ** Reading blocks *)
Lemma read_block_ok i d ro : bs !! i = Some d -> exists blk mc, read_block buf ubuf t ro (d_handle d) = Ok (OK, Some blk, mc) /\
  new_Block (d_raw d) = Ok blk /\ size_ blk = zlen (d_raw d).
Proof.
  intros Hbd. destruct (lay block_handle_fits i d Hbd) as [Hf _]. pose proof (lay block_fits i d Hbd).
  destruct (layout_blocks _ _ _ _ _ _ _ _ _ _ Hlay i d Hbd) as [_ Hsh Hrs _].
  destruct (open_holds I (d_raw d) (d_entries d) HI) as (blk & it & ps & rs & Eb & Esz & _); [by exists (d_pieces d), (d_restarts d)|lia|].
  destruct (ReadBlock_stored file (verify_checksums ro) (d_handle d) buf ubuf (d_raw d) Hf (block_extent _ _ _ _ _ _ _ _ _ _ Hlay i d Hbd))
    as (c & E & Ec); [done|by apply (data_bytes_ok i)|].
  exists blk, (cachable c). split; [|done]. unfold read_block. rewrite Hfile, E. cbn [obind ok]. by rewrite Ec, Eb.
Qed.

Lemma find_block_ok i d ro w ps : bs !! i = Some d -> alive w ps -> exists blk h w',
  find_block buf ubuf t ro (d_handle d) w = Ok (OK, Some blk, h, w') /\ new_Block (d_raw d) = Ok blk /\ alive w' (h :: ps).
Proof.
  intros Hbd Ha. destruct (read_block_ok i d ro Hbd) as (blk & mc & Er & Eb & Esz). pose proof (lay block_fits i d Hbd) as Hf.
  destruct w as [c|]; cbn [find_block].
  - destruct Ha as (held & Hc & Hh). destruct (lookup_law _ c held (cache_key t (d_handle d)) Hc (cache_key_bytes _)) as (r & c1 & -> & Hr).
    cbn [obind]. destruct r as [h|].
    + destruct Hr as (v & Hv & Hc1). rewrite (value_law _ c1 _ h v Hc1) by by apply elem_of_cons; left. cbn [obind].
      exists v, (Some h), (Some c1). split; [done|]. split; [by apply (Hv i)|]. exists ((h, v) :: held). split; [done|]. cbn. by f_equiv.
    + rewrite Er. cbn [obind]. destruct (mc && fill_cache ro).
      * destruct (insert_law table_mapping c1 held (cache_key t (d_handle d)) blk (size_ blk) Hr (cache_key_bytes _)) as (h & c2 & -> & Hc2).
        -- intros j e Hbe E. by rewrite <- (cache_key_inj i j d e Hbd Hbe E).
        -- lia.
        -- cbn [obind]. exists blk, (Some h), (Some c2). split; [done|]. split; [done|]. exists ((h, blk) :: held). split; [done|]. cbn. by f_equiv.
      * exists blk, None, (Some c1). split; [done|]. split; [done|]. by exists held.
  - rewrite Er. cbn [obind]. by exists blk, None, None.
Qed.
(** ** The two-level iterator *)
Definition usable_data (h : list Z) : DataIterator (Hd := Hd) -> Prop :=
  match find_dblock bs h with
  | Some b => fun d => block_usable (d_pieces b) (d_restarts b) (block_iter d)
  | None => fun _ => False
  end.
Definition at_data (h : list Z) : DataIterator (Hd := Hd) -> nat -> Prop :=
  match find_dblock bs h with
  | Some b => fun d => block_position I (d_pieces b) (d_restarts b) (block_iter d)
  | None => fun _ _ => False
  end.

Lemma data_iterator_lawful k h : (k, h) ∈ idx -> @LawfulIterator _ (data_iterator t) order valid (block_of bs h) (usable_data h) (at_data h).
Proof.
  intros (j & E)%list_elem_of_lookup. destruct (lay index_at j k h E) as (d & Hbd & _ & _ & -> & Ef).
  unfold usable_data, at_data. rewrite Ef. unfold data_iterator. rewrite Hoptions. pose proof (data_lawful j d Hbd) as Hl.
  by apply (@lift_lawful _ _ _ block_iter (fun b (x : DataIterator (Hd := Hd)) => mk_data b (cache_handle x)) order valid (d_entries d)
    (block_usable (d_pieces d) (d_restarts d)) (block_position I (d_pieces d) (d_restarts d)) Hl).
Qed.

Lemma data_status k h d : (k, h) ∈ idx -> usable_data h d -> @status _ (data_iterator t) d = Ok OK.
Proof.
  intros (j & E)%list_elem_of_lookup. destruct (lay index_at j k h E) as (b & Hbd & _ & _ & _ & Ef).
  unfold usable_data. rewrite Ef. intros (it & Eb & Hst). cbn. rewrite Eb. cbn. by rewrite Hst.
Qed.

Lemma data_pin (f : DataIterator (Hd := Hd) -> outcome DataIterator) d d' : f d = Ok d' ->
  f = @Next _ (data_iterator t) \/ f = @Prev _ (data_iterator t) \/ f = @SeekToFirst _ (data_iterator t) \/
  f = @SeekToLast _ (data_iterator t) \/ (exists k, f = @Seek _ (data_iterator t) k) -> cache_handle d' = cache_handle d.
Proof.
  intros E Hf. assert (Hm : exists g, f = lift_move block_iter (fun b (x : DataIterator (Hd := Hd)) => mk_data b (cache_handle x)) g).
  { by destruct Hf as [-> |[-> |[-> |[-> |[k ->]]]]]; eexists. }
  destruct Hm as [g ->]. unfold lift_move in E. destruct (g (block_iter d)); [|done|done]. by injection E as <-.
Qed.

Lemma BlockReader_ok ro k h w ps : (k, h) ∈ idx -> alive w ps ->
  exists d w', BlockReader buf ubuf t ro h w = Ok (d, w') /\ usable_data h d /\ @Valid _ (data_iterator t) d = Ok false /\
    alive w' (cache_handle d :: ps).
Proof.
  intros (j & E)%list_elem_of_lookup Ha. destruct (lay index_at j k h E) as (b & Hbd & _ & -> & _ & Ef).
  destruct (lay block_handle_fits j b Hbd) as [_ Hho]. pose proof (lay block_fits j b Hbd).
  destruct (find_block_ok j b ro w ps Hbd Ha) as (blk & ch & w' & Efind & Eb & Ha').
  destruct (layout_blocks _ _ _ _ _ _ _ _ _ _ Hlay j b Hbd) as [_ Hsh Hrs _].
  destruct (open_block I HI (d_pieces b) (d_restarts b) Hrs) as (blk' & it & Eb' & Ei & Hst & Hcur & _); [fold (d_raw b); lia|].
  fold (d_raw b) in Eb', Ei. rewrite Eb in Eb'. injection Eb' as <-.
  exists (mk_data (Entries (d_raw b) (zlen (body (d_pieces b))) (zlen (d_restarts b)) it) ch), w'.
  unfold BlockReader. pose proof (handle_decode new_BlockHandle _ [] Hho) as Ed. rewrite app_nil_r in Ed. rewrite Ed.
  change (ok OK) with true. cbn iota. rewrite Efind. cbn [obind].
  rewrite Ei. cbn [obind]. split; [done|]. unfold usable_data. rewrite Ef. split; [by exists it|]. split; [|done].
  cbn. unfold iter_Valid. by rewrite Hcur, Z.ltb_irrefl.
Qed.

(** The entries of the index block. *)
Context (ips : list piece) (irs : list Z) (Hraw : index_raw p = BlockIterProof.contents ips irs).
Context (Hish : shares 1 ips) (Hirs : restart_points 1 ips irs) (Hies : map entry_of ips = idx) (Hisize : zlen (index_raw p) < 2 ^ 32).
Context (Hikeys : Forall (fun q => zlen (piece_key q) < 2 ^ 32) ips).

Lemma index_lawful : @LawfulIterator BlockIterator (@any_block_iterator (comparator (options t))) order valid idx
  (block_usable ips irs) (block_position 1 ips irs).
Proof.
  rewrite Hoptions. assert (Ek : map piece_key ips = keys_of idx) by (rewrite <- Hies; unfold keys_of; by rewrite map_map).
  rewrite <- Hies. rewrite Hraw in Hisize. apply any_block_lawful; try done.
  - apply Forall_forall. intros q (j & Hq)%list_elem_of_lookup.
    assert (Eq : idx !! j = Some (entry_of q)) by (rewrite <- Hies; by rewrite list_lookup_fmap, Hq).
    destruct (lay index_at j _ _ Eq) as (d & _ & Hs & _). by destruct (layout_seps _ _ _ _ _ _ _ _ _ _ Hlay j _ Hs) as (_ & _ & Hv & _).
  - rewrite Ek. by apply (index_sorted o order valid group I HI total _ bs seps p Hlay).
Qed.

Lemma skip_enough : (length idx + 1 < skip_fuel t)%nat.
Proof.
  destruct (open_block 1 ltac:(lia) ips irs Hirs) as (blk & it & Eb & _ & _ & _ & Eblk); [by rewrite <- Hraw|].
  rewrite <- Hraw, Hindex in Eb. injection Eb as <-. unfold skip_fuel. rewrite Eblk. cbn [Block.data_].
  rewrite <- Hies, length_map. pose proof (offset_count ips (length ips) ltac:(lia)) as Ho. rewrite offset_all in Ho by lia.
  assert (Hl : (length (body ips) <= length (BlockIterProof.contents ips irs))%nat) by (unfold BlockIterProof.contents; rewrite length_app; lia).
  unfold zlen in Ho. lia.
Qed.

Definition table_usable (held : list (option Hd)) : TableIterator (Hd := Hd) (C := C) -> Prop :=
  base idx (block_usable ips irs) usable_data (cache_handle (Hd := Hd)) alive held.
Definition table_at (held : list (option Hd)) : TableIterator (Hd := Hd) (C := C) -> nat -> Prop :=
  two_at idx (block_usable ips irs) (block_position 1 ips irs) (block_of bs) usable_data at_data (cache_handle (Hd := Hd)) alive held.

Lemma table_lawful ro held :
  @LawfulIterator _ (table_iterator buf ubuf t ro) order valid total (table_usable held) (table_at held).
Proof.
  rewrite <- (lay all_entries_total). pose proof index_lawful as Hi.
  apply (two_level_lawful (BlockReader buf ubuf t ro) delete_data (skip_fuel t) order valid idx _ _ (block_of bs) usable_data at_data
    data_iterator_lawful data_status cache_handle alive held).
  - exact data_pin.
  - intros k h w ps. apply BlockReader_ok.
  - exact delete_data_ok.
  - exact alive_perm.
  - by apply (index_sorted o order valid group I HI total _ bs seps p Hlay).
  - apply (lay index_upper).
  - apply (lay index_lower).
  - exact skip_enough.
Qed.

Lemma index_iterator_ok : exists it, NewIterator (index_block t) = Ok it /\ block_usable ips irs it /\
  @Valid _ (@any_block_iterator (comparator (options t))) it = Ok false.
Proof.
  destruct (open_block 1 ltac:(lia) ips irs Hirs) as (blk & it & Eb & Ei & Hst & Hcur & _); [by rewrite <- Hraw|].
  rewrite <- Hraw, Hindex in Eb. injection Eb as <-. eexists. split; [exact Ei|]. split; [by exists it|].
  cbn. unfold iter_Valid. by rewrite Hcur, Z.ltb_irrefl.
Qed.

Lemma Table_NewIterator_ok w held : alive w held -> exists it, Table_NewIterator t w = Ok it /\ table_usable held it.
Proof.
  intros Ha. destruct index_iterator_ok as (it & Ei & Hu & Hv). unfold Table_NewIterator. rewrite Ei. cbn [obind].
  by apply new_two_level.
Qed.

(** ** Lookups *)
Context (Hanswers : filter_answers o bs (Table.filter t)).
Context (Htotal : forall policy k fc, filter_policy o = Some policy -> valid k -> bytes fc -> exists b, @KeyMayMatch policy k fc = Ok b).

(** The keys of a group are the same to a filter. *)
Context {Hgroup : @GroupedComparator (comparator o) valid order group}.
Context (Hsame : forall policy k k' fc, filter_policy o = Some policy -> valid k -> valid k' -> group k k' -> @KeyMayMatch policy k fc = @KeyMayMatch policy k' fc).

(** No entry at or after [k] is in its group. *)
Definition absent (k : list Z) : Prop := forall e, e ∈ total -> order k e.1 <> Gt -> ~ group k e.1.

Lemma entry_block e : e ∈ total -> exists j s d, idx !! j = Some (s, handle_bytes (d_handle d)) /\ bs !! j = Some d /\ seps !! j = Some s /\
  e ∈ d_entries d /\ order e.1 s <> Gt.
Proof.
  rewrite <- (lay all_entries_total). unfold all_entries, blocks. intros He. apply list_elem_of_In, List.in_concat in He as (es & Hes & He).
  apply List.in_map_iff in Hes as ([s h] & <- & Hin). apply list_elem_of_In, list_elem_of_lookup in Hin as (j & E).
  destruct (lay index_at j s h E) as (d & Hbd & Hs & -> & Eb & _). cbn [snd] in He. rewrite Eb in He. apply list_elem_of_In in He.
  exists j, s, d. split_and!; try done. pose proof (lay index_upper j s _ E) as Hup. rewrite Eb, Forall_forall in Hup. by apply Hup.
Qed.

(** Where the index iterator is placed for [k]. *)
Lemma past_index k : place order k (keys_of idx) = length idx -> absent k.
Proof.
  intros Hp e He Hke. exfalso. destruct (entry_block e He) as (j & s & d & E & _ & _ & _ & Hes).
  assert (Hk : keys_of idx !! j = Some s) by (unfold keys_of; by rewrite list_lookup_fmap, E).
  apply (place_before order k _ j s) in Hk; [|by apply (index_sorted o order valid group I HI total _ bs seps p Hlay)].
  rewrite Hp in Hk. apply lookup_lt_Some in E. apply Hk in E. apply Hke, (order_gt order).
  by apply (order_le_lt order _ s).
Qed.

Lemma index_place k s h : idx !! place order k (keys_of idx) = Some (s, h) -> order k s <> Gt.
Proof.
  intros E. apply (place_at_least order k idx (place order k (keys_of idx)) (s, h)); [by apply (index_sorted o order valid group I HI total _ bs seps p Hlay)|exact E|done].
Qed.

Lemma rest_sorted j e0 es e : block_entries (drop j bs) = e0 :: es -> e ∈ e0 :: es -> order e0.1 e.1 <> Gt.
Proof.
  intros E He. destruct (prefix_valid _ _ _ _ _ Hok total [] ltac:(by rewrite app_nil_r)) as [_ Hs].
  rewrite (layout_total _ _ _ _ _ _ _ _ _ _ Hlay), <- (take_drop j bs) in Hs. unfold block_entries in *. rewrite map_app, concat_app, E, keys_app in Hs.
  unfold sorted in Hs. apply sorting.StronglySorted_app_1_r in Hs. cbn in Hs. inversion Hs as [|? ? _ Hall]; subst.
  apply elem_of_cons in He as [->|He]; [by rewrite (order_refl order)|]. unfold keys_of in Hall. rewrite Forall_map, Forall_forall in Hall. by rewrite (Hall e He).
Qed.

(** The block of [k] holds an entry of its group, if any after [k] does. *)
Lemma missed k j s d : valid k -> j = place order k (keys_of idx) -> idx !! j = Some (s, handle_bytes (d_handle d)) -> bs !! j = Some d ->
  (forall e, e ∈ d_entries d -> order k e.1 <> Gt -> ~ group k e.1) -> absent k.
Proof.
  intros Hvk Ej E Hbd Hd0 e He Hke Hg. destruct (entry_block e He) as (j' & s' & d' & E' & Hbd' & Hs' & He' & Hup).
  assert (Hks : order k s <> Gt) by (apply (index_place k s (handle_bytes (d_handle d))); by rewrite <- Ej).
  destruct (Nat.lt_trichotomy j j') as [Hlt|[<-|Hgt]].
  - destruct (lay index_at j s _ E) as (_ & _ & Hs & _). destruct (layout_seps _ _ _ _ _ _ _ _ _ _ Hlay j s Hs) as (d2 & Hb2 & _ & _ & _ & Hlo & Hbefore).
    rewrite Hbd in Hb2. injection Hb2 as <-. rewrite app_nil_r in *. assert (Hin : e ∈ block_entries (drop (S j) bs)) by (by apply (in_blocks (S j) j' bs d')).
    rewrite Forall_forall in Hlo. destruct Hbefore as [(el & Hel & ->)|Hright].
    + apply (Hd0 el Hel Hks). apply (@group_convex (comparator o) valid order group Hgroup k el.1 e.1 Hg Hks). by rewrite (Hlo e Hin).
    + destruct (block_entries (drop (S j) bs)) as [|e0 es] eqn:E0; [by apply elem_of_nil in Hin|].
      pose proof (rest_sorted (S j) e0 es e E0 Hin) as He0. pose proof (order_le_lt order k s e0.1 Hks (Hlo e0 ltac:(by left))) as Hk0.
      assert (Hg0 : group k e0.1) by (apply (@group_convex (comparator o) valid order group Hgroup k e0.1 e.1 Hg); [by rewrite Hk0|done]).
      pose proof (Hright e0 k eq_refl Hvk Hg0) as Hlt'. apply (order_gt order) in Hlt'. done.
  - rewrite Hbd in Hbd'. injection Hbd' as <-. by apply (Hd0 e).
  - assert (Hk : keys_of idx !! j' = Some s') by (unfold keys_of; by rewrite list_lookup_fmap, E').
    apply (place_before order k _ j' s') in Hk; [|by apply (index_sorted o order valid group I HI total _ bs seps p Hlay)].
    rewrite <- Ej in Hk. apply Hk in Hgt. apply Hke, (order_gt order). by apply (order_le_lt order _ s').
Qed.

Lemma get_in_block_ok {A} ro k (handle_result : list Z -> list Z -> A -> outcome A) arg w held j s d :
  idx !! j = Some (s, handle_bytes (d_handle d)) -> bs !! j = Some d -> alive w held -> valid k ->
  (forall rk rv, d_entries d !! place order k (keys_of (d_entries d)) = Some (rk, rv) -> exists arg', handle_result rk rv arg = Ok arg') ->
  exists arg' w', get_in_block buf ubuf t ro k (handle_bytes (d_handle d)) handle_result arg w = Ok (OK, arg', w') /\ alive w' held /\
    match d_entries d !! place order k (keys_of (d_entries d)) with
    | Some (rk, rv) => handle_result rk rv arg = Ok arg'
    | None => arg' = arg
    end.
Proof.
  intros E Hbd Ha Hk Hres. set (h := handle_bytes (d_handle d)) in *. assert (Hin : (s, h) ∈ idx) by by eapply list_elem_of_lookup_2.
  destruct (lay index_at j s h E) as (d' & Hbd' & _ & _ & Eb & _). rewrite Hbd in Hbd'. injection Hbd' as <-.
  destruct (BlockReader_ok ro s h w held Hin Ha) as (it & w1 & Er & Hu & _ & Ha1). pose proof (data_iterator_lawful s h Hin) as Hl.
  unfold get_in_block. rewrite Er. cbn [obind].
  destruct (@seek_law _ _ _ _ _ _ _ Hl it k Hu Hk) as (it1 & Es & Hat). rewrite Es. cbn [obind]. rewrite Eb in Hat.
  pose proof (data_pin (Seek k) it it1 Es ltac:(right; right; right; right; by exists k)) as Epin.
  destruct (delete_data_ok it1 w1 held) as (w2 & Ed & Ha2); [by rewrite Epin|].
  rewrite (@valid_law _ _ _ _ _ _ _ Hl it1 _ Hat), (@status_law _ _ _ _ _ _ _ Hl it1 _ Hat), Eb. cbn [obind].
  set (m := place order k (keys_of (d_entries d))) in *. destruct (d_entries d !! m) as [[rk rv]|] eqn:Em.
  - rewrite (proj2 (Nat.ltb_lt _ _)) by by eapply lookup_lt_Some. rewrite <- Eb in Em.
    destruct (@entry_law _ _ _ _ _ _ _ Hl it1 m rk rv Hat Em) as [-> ->]. cbn [obind]. destruct (Hres rk rv eq_refl) as (arg' & Ea). rewrite Ea.
    cbn [obind]. rewrite Ed. cbn [obind]. by exists arg', w2.
  - rewrite (proj2 (Nat.ltb_ge _ _)) by by apply lookup_ge_None. cbn [obind]. rewrite Ed. cbn [obind]. by exists arg, w2.
Qed.

Lemma block_key_valid j d q : bs !! j = Some d -> q ∈ d_pieces d -> valid (piece_key q).
Proof.
  intros Hbd Hq. destruct (prefix_valid _ _ _ _ _ Hok total [] ltac:(by rewrite app_nil_r)) as [Hv _].
  rewrite (blocks_middle o order valid group I total _ bs seps p Hlay j d Hbd) in Hv. apply Forall_app in Hv as [_ Hv]. apply Forall_app in Hv as [Hv _].
  unfold d_entries in Hv. rewrite Forall_map, Forall_forall in Hv. exact (Hv q Hq).
Qed.

(** The filter rejects no key in the group of a key of the block. *)
Lemma filter_rejects_ok k j d : bs !! j = Some d -> valid k -> exists b, filter_rejects t k (handle_bytes (d_handle d)) = Ok b /\
  (b = true -> forall e, e ∈ d_entries d -> ~ group k e.1).
Proof.
  intros Hbd Hk. unfold filter_rejects. destruct (lay block_handle_fits j d Hbd) as [_ Hho].
  unfold filter_answers in Hanswers. destruct (Table.filter t) as [[policy reader]|]; [|by exists false].
  destruct Hanswers as [Epol Hans]. destruct (Hans j d Hbd) as (fc & Hfc & Hread' & Hall).
  pose proof (handle_decode new_BlockHandle _ [] Hho) as Ed. rewrite app_nil_r in Ed. rewrite Ed. change (ok OK) with true. cbn iota.
  cbn [d_handle handle_offset]. rewrite Hread'. destruct (Htotal policy k fc Epol Hk Hfc) as (b & Eb). rewrite Eb. cbn [obind].
  exists (negb b). split; [done|]. intros Hb e He Hg. unfold d_entries in He. apply list_elem_of_In, List.in_map_iff in He as (q & <- & Hq).
  apply list_elem_of_In in Hq. pose proof (Hsame policy k (piece_key q) fc Epol Hk (block_key_valid j d q Hbd Hq) Hg) as Hm. rewrite (Hall q Hq), Eb in Hm.
  injection Hm as ->. done.
Qed.

(** [InternalGet] finds the entry at or after the key, unless no such entry
    is in the group of the key. *)
Lemma InternalGet_ok {A} ro k (handle_result : list Z -> list Z -> A -> outcome A) arg w held : alive w held -> valid k ->
  (forall rk rv, total !! place order k (keys_of total) = Some (rk, rv) -> exists arg', handle_result rk rv arg = Ok arg') ->
  exists arg' w', InternalGet buf ubuf t ro k handle_result arg w = Ok (OK, arg', w') /\ alive w' held /\
    ((exists rk rv, total !! place order k (keys_of total) = Some (rk, rv) /\ handle_result rk rv arg = Ok arg') \/
     (arg' = arg /\ absent k)).
Proof.
  intros Ha Hk Hres. pose proof index_lawful as Hl. destruct index_iterator_ok as (it & Ei & Hu & _).
  unfold InternalGet. rewrite Ei. cbn [obind]. destruct (@seek_law _ _ _ _ _ _ _ Hl it k Hu Hk) as (it1 & -> & Hat). cbn [obind].
  rewrite (@valid_law _ _ _ _ _ _ _ Hl it1 _ Hat), (@status_law _ _ _ _ _ _ _ Hl it1 _ Hat). cbn [obind].
  set (j := place order k (keys_of idx)) in *. destruct (idx !! j) as [[s h]|] eqn:E.
  2:{ apply lookup_ge_None in E. rewrite (proj2 (Nat.ltb_ge _ _)) by done. cbn [obind]. exists arg, w. split; [done|]. split; [done|].
      right. split; [done|]. apply past_index. fold j. pose proof (place_le order k (keys_of idx)) as Hle. unfold keys_of in Hle at 2.
      rewrite length_map in Hle. fold j in Hle. lia. }
  destruct (lay index_at j s h E) as (d & Hbd & _ & -> & Eb & _). rewrite (proj2 (Nat.ltb_lt _ _)) by by eapply lookup_lt_Some.
  destruct (@entry_law _ _ _ _ _ _ _ Hl it1 j _ _ Hat E) as [_ ->]. cbn [obind].
  destruct (filter_rejects_ok k j d Hbd Hk) as (b & -> & Hb). cbn [obind]. destruct b.
  { exists arg, w. split; [done|]. split; [done|]. right. split; [done|]. apply (missed k j s d); try done. intros e He _. by apply Hb. }
  assert (Hplace : forall rk rv, d_entries d !! place order k (keys_of (d_entries d)) = Some (rk, rv) ->
    total !! place order k (keys_of total) = Some (rk, rv)).
  { intros rk rv Em. pose proof (place_blocks (skip_fuel t) order idx (block_of bs) (index_sorted o order valid group I HI total _ bs seps p Hlay)
      (lay index_upper) (lay index_lower) skip_enough k) as Ep. rewrite <- (lay all_entries_total), Ep.
    cbv zeta. fold j. rewrite E, Eb. rewrite (entry_in_block (skip_fuel t) idx (block_of bs) skip_enough j _ s _ E); rewrite Eb; [done|by eapply lookup_lt_Some]. }
  destruct (get_in_block_ok ro k handle_result arg w held j s d E Hbd Ha Hk) as (arg' & w' & -> & Ha' & Hcase); [intros rk rv Em; by apply Hres, Hplace|].
  cbn [obind ok]. exists arg', w'. split; [done|]. split; [done|].
  destruct (d_entries d !! place order k (keys_of (d_entries d))) as [[rk rv]|] eqn:Em.
  - left. exists rk, rv. split; [by apply Hplace|done].
  - right. split; [done|]. apply (missed k j s d); try done. intros e (m & Hm)%list_elem_of_lookup Hke _.
    apply lookup_ge_None in Em. assert (Hkm : keys_of (d_entries d) !! m = Some e.1) by (unfold keys_of; by rewrite list_lookup_fmap, Hm).
    pose proof (lookup_lt_Some _ _ _ Hm) as Hmlt. apply Hke, (order_gt order), (place_before order k (keys_of (d_entries d)) m); [|done|lia].
    pose proof (blocks_middle o order valid group I total _ bs seps p Hlay j d Hbd) as Et. destruct (prefix_valid _ _ _ _ _ Hok total [] ltac:(by rewrite app_nil_r)) as [_ Hs].
    rewrite Et, !keys_app in Hs. unfold sorted in *. by apply sorting.StronglySorted_app_1_r, sorting.StronglySorted_app_1_l in Hs.
Qed.
End ReadTable.

(** ** Opening the file *)
Section Open.
Context {F : Type} `{RandomAccessFile F} {file_bytes : F -> list Z} {Hread : ReadableAt F file_bytes}.
Context {Hd C : Type} `{Cache Block Hd C}.
Context (buf ubuf : Z) (o : Options) (order : list Z -> list Z -> comparison) (valid : list Z -> Prop).
Context {Hlaw : @LawfulComparator (comparator o) valid order} (group : list Z -> list Z -> Prop) (Hvb : forall k, valid k -> bytes k).
Context (I : nat) (HI : (1 <= I)%nat) (total : list (list Z * list Z)) (filter_max : Z) (Hok : table_ok o order valid total filter_max).
Context (file : F) (bs : list dblock) (seps : list (list Z)) (p : file_parts).
Context (Hlay : layout o order valid group I total (file_bytes file) bs seps p).

#[local] Abbreviation footer := (parts_footer bs p).
#[local] Abbreviation meta_start := (data_bytes bs ++ filter_part p).

Lemma parts_small : zlen (data_bytes bs) + zlen (filter_part p) + zlen (meta_raw p) + zlen (index_raw p) + 10 < 2 ^ 32.
Proof.
  pose proof (layout_size _ _ _ _ _ _ _ _ _ _ Hlay) as Hs. rewrite (layout_file _ _ _ _ _ _ _ _ _ _ Hlay) in Hs. unfold file_of in Hs.
  rewrite !zlen_app, !zlen_stored in Hs. pose proof (zlen_nonneg (footer_bytes footer)). lia.
Qed.

Lemma parts_footer_ok : footer_ok footer /\ handle_fits (Format.metaindex_handle footer) /\ handle_fits (index_handle footer).
Proof.
  pose proof parts_small. pose proof (zlen_nonneg (data_bytes bs)). pose proof (zlen_nonneg (filter_part p)).
  pose proof (zlen_nonneg (meta_raw p)). pose proof (zlen_nonneg (index_raw p)).
  unfold footer_ok, handle_ok, handle_fits, parts_footer. rewrite unset_value, !zlen_app.
  cbn [Format.metaindex_handle index_handle handle_offset handle_size]. lia.
Qed.

Lemma file_split : file_bytes file = meta_start ++ stored (meta_raw p) ++ stored (index_raw p) ++ footer_bytes footer.
Proof. rewrite (layout_file _ _ _ _ _ _ _ _ _ _ Hlay). unfold file_of. by rewrite <- !app_assoc. Qed.

Lemma meta_extent : extent (file_bytes file) (Format.metaindex_handle footer) = stored (meta_raw p).
Proof. rewrite file_split. by apply extent_stored. Qed.

Lemma index_extent : extent (file_bytes file) (index_handle footer) = stored (index_raw p).
Proof.
  rewrite file_split, app_assoc. apply extent_stored. rewrite (zlen_app meta_start), zlen_stored. reflexivity.
Qed.

Lemma file_size : zlen (file_bytes file) = zlen (meta_start ++ stored (meta_raw p) ++ stored (index_raw p)) + kEncodedLength.
Proof.
  rewrite file_split. rewrite <- (zlen_footer footer) by apply parts_footer_ok. rewrite !zlen_app. lia.
Qed.

Lemma read_footer : exists addr, ReadAt file (zlen (file_bytes file) - kEncodedLength) kEncodedLength buf = (OK, mk_slice addr (footer_bytes footer)).
Proof.
  pose proof file_size as Hz. set (front := meta_start ++ stored (meta_raw p) ++ stored (index_raw p)) in *. pose proof (zlen_nonneg front).
  destruct (read_at_ok file (zlen (file_bytes file) - kEncodedLength) kEncodedLength buf) as (addr & ->); [lia|done|].
  exists addr. do 2 f_equal. replace (zlen (file_bytes file) - kEncodedLength) with (zlen front) by lia. unfold zlen. rewrite Nat2Z.id.
  rewrite file_split, !app_assoc. fold front. rewrite <- (app_assoc meta_start). fold front. rewrite drop_app_length. apply take_ge.
  pose proof (zlen_footer footer (proj1 parts_footer_ok)) as Hf. unfold zlen in Hf. lia.
Qed.
(** ** The filter *)
Lemma filter_reader_ok policy cs fc : policy_ok valid total filter_max policy -> filter_policy o = Some policy ->
  @FilterBlock.build_filter_block policy cs = Ok fc -> FilterBlockProof.ordered 0 cs -> FilterBlockProof.added 0 cs = filter_keys bs ->
  zlen fc < 2 ^ 32 -> exists reader, new_FilterBlockReader fc = Ok reader /\ filter_answers o bs (Some (policy, reader)).
Proof.
  intros (fits & Hpol & Hfits & _) Epol Eb Hord Hadd Hsize.
  assert (Hq : Forall (fun c => valid c.2) (FilterBlockProof.added 0 cs)).
  { rewrite Hadd. pose proof (entries_valid _ _ _ _ _ Hok) as Hv. rewrite (layout_total _ _ _ _ _ _ _ _ _ _ Hlay) in Hv.
    unfold filter_keys, block_entries in *. rewrite Forall_concat, Forall_map in Hv |- *.
    eapply Forall_impl; [exact Hv|]. intros d Hd0. unfold d_entries in Hd0. rewrite !Forall_map in *.
    eapply Forall_impl; [exact Hd0|]. by intros q [? _]. }
  assert (Hl : (length (FilterBlockProof.added 0 cs) <= length total)%nat).
  { rewrite Hadd, length_filter_keys. by rewrite (layout_total _ _ _ _ _ _ _ _ _ _ Hlay). }
  destruct (@FilterBlockProof.build_contents policy fits Hpol valid (length total) Hfits cs Hord Hq Hl) as (fs & Eb' & Hbf & Hm).
  rewrite Eb in Eb'. injection Eb' as ->.
  pose proof (FilterBlockProof.new_reader fs Hsize) as Hnew. eexists. split; [exact Hnew|]. split; [done|].
  intros i d Hbd. pose proof (block_fits o order valid group I HI total _ bs seps p Hlay i d Hbd) as Hf.
  destruct (layout_blocks _ _ _ _ _ _ _ _ _ _ Hlay i d Hbd) as [Hne _ _ _].
  assert (Hin : forall q, q ∈ d_pieces d -> exists f, fs !! Z.to_nat (d_offset d / FilterBlock.kFilterBase) = Some f /\ @KeyMayMatch policy (piece_key q) f = Ok true).
  { intros q Hqd. apply Hm. rewrite Hadd. unfold filter_keys. apply list_elem_of_In, List.in_concat.
    eexists. split; apply List.in_map_iff; [exists d|exists q]; (split; [done|apply list_elem_of_In]); [by eapply list_elem_of_lookup_2|done]. }
  destruct (d_pieces d) as [|q0 qs] eqn:Ed; [done|]. destruct (Hin q0 ltac:(by left)) as (f & Ef & _).
  exists f. split; [rewrite Forall_lookup in Hbf; by apply (Hbf _ f Ef)|]. split.
  - intros key. apply (FilterBlockProof.reader_filter fs Hsize); [lia|done].
  - intros q Hqd. destruct (Hin q Hqd) as (f' & Ef' & Hf'). by rewrite Ef in Ef'; injection Ef' as <-.
Qed.

Lemma ReadFilter_ok policy h t : filter_policy o = Some policy -> filter_stored o bs (filter_part p) h ->
  Table.file t = file -> options t = o ->
  exists f, ReadFilter buf ubuf (handle_bytes h) policy t = Ok f /\ filter_answers o bs f.
Proof.
  intros Epol Hst Hfile Hopt. unfold filter_stored in Hst. rewrite Epol in Hst. destruct Hst as (cs & fc & Eb & Epart & Hord & Hadd & Eh).
  pose proof parts_small as Hs. pose proof (zlen_nonneg (data_bytes bs)). pose proof (zlen_nonneg (meta_raw p)). pose proof (zlen_nonneg (index_raw p)).
  pose proof (zlen_nonneg fc). assert (Ez : zlen (filter_part p) = zlen fc + 5) by by rewrite Epart, zlen_stored.
  destruct (layout_bytes _ _ _ _ _ _ _ _ _ _ Hlay) as [Hb _]. rewrite Epart in Hb. apply Forall_app in Hb as [Hb _].
  assert (Hf : handle_fits h /\ handle_ok h) by (rewrite Eh; unfold handle_fits, handle_ok; rewrite unset_value; cbn [handle_offset handle_size]; lia).
  assert (Hx : extent (file_bytes file) h = stored fc) by (rewrite file_split, Epart, Eh, <- app_assoc; by apply extent_stored).
  destruct (ReadBlock_stored file (verify_checksums (meta_read_options o)) h buf ubuf fc (proj1 Hf) Hx) as (c & Ec & Edata); [by rewrite Eh|done|].
  destruct (filter_reader_ok policy cs fc (filter_policy_ok _ _ _ _ _ Hok policy Epol) Epol Eb Hord Hadd) as (reader & Er & Ha); [lia|].
  exists (Some (policy, reader)). split; [|done]. unfold ReadFilter. pose proof (handle_decode new_BlockHandle h [] (proj2 Hf)) as Ed.
  rewrite app_nil_r in Ed. rewrite Ed. change (ok OK) with true. cbn [negb]. rewrite Hfile, Hopt, Ec. cbn [obind].
  change (ok OK) with true. cbn [negb]. by rewrite Edata, Er.
Qed.

Lemma meta_iterator policy h : filter_policy o = Some policy -> holds_block I (meta_raw p) (meta_entries o h) ->
  exists blk it ps rs, new_Block (meta_raw p) = Ok blk /\ NewIterator blk = Ok it /\ block_usable ps rs it /\
    @LawfulIterator BlockIterator (@any_block_iterator BytewiseComparator) lex bytes [(filter_name policy, handle_bytes h)]
      (block_usable ps rs) (block_position I ps rs).
Proof.
  intros Epol Hm. pose proof parts_small as Hs. pose proof (zlen_nonneg (data_bytes bs)). pose proof (zlen_nonneg (filter_part p)). pose proof (zlen_nonneg (index_raw p)).
  assert (Hz : zlen (meta_raw p) < 2 ^ 32) by lia.
  destruct (open_holds I (meta_raw p) _ HI Hm Hz) as (blk & it & ps & rs & Eb & _ & _ & Ei & Hst & _ & Eraw & Hsh & Hrs & Ees).
  exists blk, (Entries (meta_raw p) (zlen (body ps)) (zlen rs) it), ps, rs. split; [done|]. split; [done|]. split; [exists it; by rewrite Eraw|].
  unfold meta_entries in Ees. rewrite Epol in Ees. destruct (filter_policy_ok _ _ _ _ _ Hok policy Epol) as (_ & _ & _ & _ & _ & Hnb & Hnl).
  assert (Hkey : map piece_key ps = [filter_name policy]).
  { transitivity (map fst (map entry_of ps)); [by rewrite map_map|]. by rewrite Ees. }
  assert (Hall : forall P : list Z -> Prop, P (filter_name policy) -> Forall (fun q => P (piece_key q)) ps).
  { intros P HP. rewrite <- (Forall_map piece_key P), Hkey. by repeat constructor. }
  pose proof bytewise_lawful as Hbw. rewrite <- Ees. rewrite Eraw in Hz. apply any_block_lawful; try done.
  - apply (Hall (fun k => zlen k < 2 ^ 32)). unfold filter_name. rewrite zlen_app. change (zlen (chars "filter.")) with 7. lia.
  - apply (Hall bytes). unfold filter_name. apply Forall_app. split; [|done]. by vm_compute; repeat constructor.
  - rewrite Hkey. repeat constructor.
Qed.

Lemma ReadMeta_ok t : Table.file t = file -> options t = o -> Table.filter t = None ->
  exists f, ReadMeta buf ubuf footer t = Ok (mk_table o file (cache_id t) f (metaindex_handle t) (index_block t)) /\ filter_answers o bs f.
Proof.
  intros Hfile Hopt Hnone. unfold ReadMeta. rewrite Hopt. destruct (filter_policy o) as [policy|] eqn:Epol.
  2:{ exists None. split; [|done]. destruct t. cbn in *. by subst. }
  destruct (layout_filter _ _ _ _ _ _ _ _ _ _ Hlay) as (h & Hst & Hm). destruct parts_footer_ok as (_ & Hfm & _).
  destruct (layout_bytes _ _ _ _ _ _ _ _ _ _ Hlay) as (_ & Hmb & _).
  destruct (ReadBlock_stored file (verify_checksums (meta_read_options o)) _ buf ubuf (meta_raw p) Hfm meta_extent) as (c & Ec & Edata); [done|done|].
  destruct (meta_iterator policy h Epol Hm) as (blk & it & ps & rs & Eb & Ei & Hu & Hl).
  rewrite Hfile, Ec. cbn [obind]. change (ok OK) with true. cbn [negb]. rewrite Edata, Eb. cbn [obind]. rewrite Ei. cbn [obind].
  fold (filter_name policy). assert (Hkb : bytes (filter_name policy)).
  { destruct (filter_policy_ok _ _ _ _ _ Hok policy Epol) as (_ & _ & _ & _ & _ & Hnb & _). apply Forall_app.
    split; [by vm_compute; repeat constructor|done]. }
  destruct (@seek_law _ _ _ _ _ _ _ Hl it (filter_name policy) Hu Hkb) as (it1 & -> & Hat). cbn [obind].
  assert (Eplace : place lex (filter_name policy) (keys_of [(filter_name policy, handle_bytes h)]) = 0%nat).
  { apply place_none. repeat constructor. by rewrite (order_refl lex). }
  rewrite Eplace in Hat. rewrite (@valid_law _ _ _ _ _ _ _ Hl it1 _ Hat). cbn [obind Nat.ltb Nat.leb length].
  destruct (@entry_law _ _ _ _ _ _ _ Hl it1 0%nat _ _ Hat eq_refl) as [-> ->]. cbn [obind]. rewrite bool_decide_true by done.
  destruct (ReadFilter_ok policy h t Epol Hst Hfile Hopt) as (f & -> & Ha). cbn [obind]. by exists f.
Qed.

(** A fresh identifier for the table's keys in the cache, if there is one. *)
Definition open_cache (cache : option C) : Z * option C :=
  match cache with Some c => let (id, c) := cache_NewId c in (id, Some c) | None => (0, None) end.

Lemma Open_ok cache : exists s f blk, Open buf ubuf o file (zlen (file_bytes file)) cache =
    Ok (s, Some (mk_table o file (open_cache cache).1 f (Format.metaindex_handle footer) blk), (open_cache cache).2) /\
  s = OK /\ filter_answers o bs f /\ new_Block (index_raw p) = Ok blk.
Proof.
  destruct parts_footer_ok as (Hfo & _ & Hfi). destruct read_footer as (addr & Er). destruct (layout_bytes _ _ _ _ _ _ _ _ _ _ Hlay) as (_ & _ & Hib).
  destruct (ReadBlock_stored file (verify_checksums (meta_read_options o)) _ buf ubuf (index_raw p) Hfi index_extent) as (c & Ec & Edata); [done|done|].
  pose proof parts_small as Hs. pose proof (zlen_nonneg (data_bytes bs)). pose proof (zlen_nonneg (filter_part p)). pose proof (zlen_nonneg (meta_raw p)).
  destruct (open_holds 1 (index_raw p) _ ltac:(lia) (proj1 (layout_index _ _ _ _ _ _ _ _ _ _ Hlay))) as (blk & it & ps & rs & Eb & _); [lia|].
  destruct (ReadMeta_ok (mk_table o file (open_cache cache).1 None (Format.metaindex_handle footer) blk)) as (f & Em & Ha); [done..|].
  exists OK, f, blk. split; [|done]. unfold Open. pose proof file_size as Hz.
  pose proof (zlen_nonneg (meta_start ++ stored (meta_raw p) ++ stored (index_raw p))).
  rewrite (proj2 (Z.ltb_ge _ _)) by lia. rewrite Er. change (ok OK) with true. cbn [negb Env.contents].
  pose proof (footer_decode new_Footer footer [] Hfo) as Ed. rewrite app_nil_r in Ed. rewrite Ed. cbn [obind].
  change (ok OK) with true. cbn [negb]. rewrite Ec. cbn [obind]. change (ok OK) with true. cbn iota. rewrite Edata, Eb. cbn [obind].
  unfold open_cache in *. destruct cache as [k|]; [destruct (cache_NewId k)|]; cbn [fst snd] in *; by rewrite Em.
Qed.
End Open.
