(* ===== verification/TableSpec.v ===== *)
(** * What tables guarantee

    A table that was built and written is read back by its iterator, in both
    directions and from any key, and lookups find what an iterator would. *)
From S2P Require Import Prelude Order Coding Env Comparator ComparatorProof Bloom SkipListSet Iterator Block BlockIterProof.
From S2P Require Import Format FormatProof Cache TwoLevelIterator TableBuilder TableBuilderProof Table TableProof.

Section Spec.
Context {W : Type} `{WritableFile W} {reliable : W -> Prop} {written : W -> list Z} {Hwrite : ReliableFile W reliable written}.
Context {F : Type} `{RandomAccessFile F} {file_bytes : F -> list Z} {Hread : ReadableAt F file_bytes}.
Context {Hd C : Type} `{Cache Block Hd C} {cached : (list Z -> Block -> Prop) -> C -> list (Hd * Block) -> Prop} {Hcache : LawfulCache cached}.
Context (address : list Z -> Z) (buf ubuf : Z) (o : Options) (order : list Z -> list Z -> comparison) (valid : list Z -> Prop).
Context {Hlaw : @LawfulComparator (comparator o) valid order} (group : list Z -> list Z -> Prop).
Context {Hgroup : @GroupedComparator (comparator o) valid order group} {Hshort : @ShortComparator (comparator o)} (Hvb : forall k, valid k -> bytes k).
Context (I : nat) (HI : (1 <= I)%nat) (HI31 : Z.of_nat I < 2 ^ 31 - 1) (HoI : block_restart_interval o = Z.of_nat I).
Context (total : list (list Z * list Z)) (filter_max : Z) (Hok : table_ok o order valid total filter_max).

(** The cache has no mapping whose key starts with the id it gives out next. *)
Definition cache_ready (cache : option C) : Prop :=
  match cache with
  | None => True
  | Some c => exists held, cached (fun k _ => take 8 k <> EncodeFixed64 (cache_NewId c).1) c held
  end.

(** The handles of other tables. *)
Lemma ready_alive cache bs (t : Table (F := F)) : cache_ready cache -> cache_id t = (open_cache cache).1 ->
  exists held, alive (cached := cached) bs t (open_cache cache).2 held.
Proof.
  intros Hc Hid. destruct cache as [c|]; cbn [cache_ready open_cache] in *; [|by exists []].
  destruct Hc as (held & Hc). destruct (cache_NewId c) as [id c'] eqn:En. cbn [fst snd] in *.
  exists (map (fun p => Some p.1) held), held. split; [|clear; induction held as [|p held IH]; cbn; [done|by rewrite IH]].
  apply (mapping_law (fun k _ => take 8 k <> EncodeFixed64 id)).
  - intros k v Hk i d _ ->. destruct Hk. unfold cache_key. by rewrite Hid.
  - pose proof (new_id_law _ c held Hc) as H'. by rewrite En in H'.
Qed.

(** A table that is open. *)
Definition is_open (file : F) (cache : option C) (t : Table) (bs : list dblock) (seps : list (list Z)) (p : file_parts) : Prop :=
  layout o order valid group I total (file_bytes file) bs seps p /\ Table.file t = file /\ options t = o /\
  cache_id t = (open_cache cache).1 /\ new_Block (index_raw p) = Ok (index_block t) /\ filter_answers o bs (Table.filter t) /\
  exists ips irs, index_raw p = contents ips irs /\ BlockProof.shares 1 ips /\ BlockProof.restart_points 1 ips irs /\
    map BlockProof.entry_of ips = index_entries seps bs /\ zlen (index_raw p) < 2 ^ 32 /\ Forall (fun q => zlen (BlockProof.piece_key q) < 2 ^ 32) ips.

Lemma build_open f cache : reliable f -> written f = [] ->
  exists r, build_table address o f total = Ok (OK, r) /\
    forall file, file_bytes file = written (TableBuilder.file r) ->
    exists t bs seps p, Open buf ubuf o file (zlen (file_bytes file)) cache = Ok (OK, Some t, (open_cache cache).2) /\ is_open file cache t bs seps p.
Proof.
  intros Hf Hwf. destruct (build_table_ok address o order valid group Hvb I HI HI31 HoI total filter_max Hok f Hf Hwf) as (r & bs & seps & p & Eb & _ & Hl & _).
  exists r. split; [done|]. intros file Ef. rewrite <- Ef in Hl.
  destruct (Open_ok buf ubuf o order valid group I HI total filter_max Hok file bs seps p Hl cache) as (s & fl & blk & Eo & -> & Ha & Ei).
  do 4 eexists. split; [exact Eo|]. split_and!; try done. destruct (layout_index _ _ _ _ _ _ _ _ _ _ Hl) as [(ips & irs & Er & Hsh & Hrs & Ees) _].
  exists ips, irs. assert (Hsize : zlen (index_raw p) < 2 ^ 32).
  { pose proof (parts_small o order valid group I HI total file bs seps p Hl). pose proof (zlen_nonneg (data_bytes bs)).
    pose proof (zlen_nonneg (filter_part p)). pose proof (zlen_nonneg (meta_raw p)). lia. }
  split_and!; try done. apply Forall_forall. intros q (j & Hq)%list_elem_of_lookup.
  assert (Eq : index_entries seps bs !! j = Some (BlockProof.entry_of q)) by (rewrite <- Ees; by rewrite list_lookup_fmap, Hq).
  apply lookup_zip_with_Some in Eq as (s & d & [= Ek _] & Hs & _). rewrite Ek.
  destruct (layout_seps _ _ _ _ _ _ _ _ _ _ Hl j s Hs) as (d' & Hd' & _ & Hz & _).
  pose proof (block_weight o order valid group I HI total filter_max Hok _ bs seps p Hl j d' Hd'). lia.
Qed.
(** ** Iteration *)

(** C14: Tables round trip.  Sorted entries that were added to a builder on
    an empty file whose writes succeed give status OK; the file that was
    written opens with status OK, with or without a block cache, and the
    table's iterator gives the entries in order, backwards in reverse order,
    and from any key those not before it. *)
Theorem table_roundtrip f cache :
  reliable f -> written f = [] -> cache_ready cache ->
  exists r, build_table address o f total = Ok (OK, r) /\
    forall file, file_bytes file = written (TableBuilder.file r) ->
    exists t cache', Open buf ubuf o file (zlen (file_bytes file)) cache = Ok (OK, Some t, cache') /\
      forall ro, let it_ := table_iterator buf ubuf t ro in
      exists it first last, Table_NewIterator t cache' = Ok it /\
        @SeekToFirst _ it_ it = Ok first /\ @walk_entries _ it_ (S (length total)) (@Next _ it_) first = Ok total /\
        @SeekToLast _ it_ it = Ok last /\ @walk_entries _ it_ (S (length total)) (@Prev _ it_) last = Ok (rev total) /\
        forall target, valid target -> exists from, @Seek _ it_ target it = Ok from /\
          @walk_entries _ it_ (S (length total)) (@Next _ it_) from = Ok (drop (place order target (keys_of total)) total).
Proof.
  intros Hf Hwf Hc. destruct (build_open f cache Hf Hwf) as (r & Eb & Hopen). exists r. split; [done|]. intros file Ef.
  destruct (Hopen file Ef) as (t & bs & seps & p & Eo & Hl & Hfile & Ho & Hid & Hi & Ha & ips & irs & Er & Hsh & Hrs & Ees & Hz & Hk).
  exists t, (open_cache cache).2. split; [done|]. intros ro it_. destruct (ready_alive cache bs t Hc Hid) as (held & Halive).
  destruct (Table_NewIterator_ok I HI bs seps p t Hi ips irs Er Hrs Hz _ held Halive)
    as (it & En & Hu).
  pose proof (table_lawful buf ubuf o order valid group Hvb I HI total filter_max Hok file bs seps p Hl t Hfile Ho Hi ips irs Er Hsh Hrs Ees Hz Hk ro held) as Hlw.
  destruct (@first_law _ _ _ _ _ _ _ Hlw it Hu) as (first & Efirst & Hfirst). destruct (@last_law _ _ _ _ _ _ _ Hlw it Hu) as (last & Elast & Hlast).
  exists it, first, last. split_and!; [done|done| |done| |].
  - exact (walk_next (Hlaw := Hlw) order valid total _ _ (S (length total)) first 0 Hfirst ltac:(lia)).
  - by apply (walk_last (Hlaw := Hlw) order valid total _ _ last).
  - intros target Ht. destruct (@seek_law _ _ _ _ _ _ _ Hlw it target Hu Ht) as (from & Es & Hfrom). exists from. split; [done|].
    apply (walk_next (Hlaw := Hlw) order valid total _ _ (S (length total)) from); [done|lia].
Qed.

(** ** Lookups *)
Context (Htotal : forall policy k fc, filter_policy o = Some policy -> valid k -> bytes fc -> exists b, @KeyMayMatch policy k fc = Ok b).
Context (Hsame : forall policy k k' fc, filter_policy o = Some policy -> valid k -> valid k' -> group k k' -> @KeyMayMatch policy k fc = @KeyMayMatch policy k' fc).

(** C16: Lookups.  [InternalGet] returns status OK; when an entry at or after
    the key is in the group of the key, the handler is called, with the first
    entry at or after the key; it is called with no other entry. *)
Theorem table_get f cache {A} (handle_result : list Z -> list Z -> A -> outcome A) :
  reliable f -> written f = [] -> cache_ready cache -> (forall rk rv arg, exists arg', handle_result rk rv arg = Ok arg') ->
  exists r, build_table address o f total = Ok (OK, r) /\
    forall file, file_bytes file = written (TableBuilder.file r) ->
    exists t cache', Open buf ubuf o file (zlen (file_bytes file)) cache = Ok (OK, Some t, cache') /\
      forall ro k arg, valid k -> exists arg' cache'', InternalGet buf ubuf t ro k handle_result arg cache' = Ok (OK, arg', cache'') /\
        let found := total !! place order k (keys_of total) in
        ((exists e, found = Some e /\ handle_result e.1 e.2 arg = Ok arg') \/
         (arg' = arg /\ forall e, e ∈ total -> order k e.1 <> Gt -> ~ group k e.1)).
Proof.
  intros Hf Hwf Hc Hres. destruct (build_open f cache Hf Hwf) as (r & Eb & Hopen). exists r. split; [done|]. intros file Ef.
  destruct (Hopen file Ef) as (t & bs & seps & p & Eo & Hl & Hfile & Ho & Hid & Hi & Ha & ips & irs & Er & Hsh & Hrs & Ees & Hz & Hk).
  exists t, (open_cache cache).2. split; [done|]. intros ro k arg Hvk. destruct (ready_alive cache bs t Hc Hid) as (held & Halive).
  destruct (InternalGet_ok buf ubuf o order valid group Hvb I HI total filter_max Hok file bs seps p Hl t Hfile Ho Hi ips irs Er Hsh Hrs Ees Hz Hk
    Ha Htotal Hsame ro k handle_result arg _ held Halive Hvk) as (arg' & w' & Eg & _ & Hcase); [intros rk rv _; apply Hres|].
  exists arg', w'. split; [done|]. destruct Hcase as [(rk & rv & El & Eh)|[-> Habs]]; [left; by exists (rk, rv)|by right].
Qed.
End Spec.

(** ** Files that are too short *)
Section Short.
Context {F : Type} `{RandomAccessFile F} {file_bytes : F -> list Z} {Hread : ReadableAt F file_bytes}.
Context {Hd C : Type} `{Cache Block Hd C}.

End Short.

(** ** Concrete tables *)
Definition sample_total : list (list Z * list Z) := [([1], [7]); ([1; 2], [8; 8]); ([3], [])].
Definition sample_options : Options := mk_options BytewiseComparator true 1 2 kNoCompression None.
#[local] Abbreviation sample_cached := (fun (_ : list Z -> Block -> Prop) (_ : Z) (held : list (Block * Block)) => Forall (fun p => p.1 = p.2) held).

Lemma sample_ok : table_ok sample_options lex bytes sample_total 0.
Proof.
  split.
  - repeat (apply Forall_cons_2; [split; by vm_compute; repeat constructor|]). apply Forall_nil_2.
  - by vm_compute; repeat constructor.
  - by vm_compute.
  - done.
  - done.
Qed.

Lemma table_roundtrip_witness :
  exists r t c it first, build_table (fun _ => 0) sample_options (mk_mem [] None) sample_total = Ok (OK, r) /\
    let file := mem_bytes (TableBuilder.file r) in
    Open (Hd := Block) 0 0 sample_options file (zlen file) (Some 41) = Ok (OK, Some t, c) /\
    let it_ := table_iterator 0 0 t (mk_read_options true true) in
    Table_NewIterator t c = Ok it /\ @Seek _ it_ [1; 1] it = Ok first /\
    @walk_entries _ it_ 4 (@Next _ it_) first = Ok [([1; 2], [8; 8]); ([3], [])].
Proof.
  assert (Hb : bytes [1; 1]) by (by vm_compute; repeat constructor).
  destruct (table_roundtrip (file_bytes := fun f => f) (cached := sample_cached) (fun _ => 0) 0 0 sample_options lex bytes
    (fun a b => lex a b = Eq) (Hgroup := @equal_grouped BytewiseComparator bytes lex bytewise_lawful) (fun k H => H) 2 ltac:(lia) ltac:(lia) eq_refl
    sample_total 0 sample_ok (mk_mem [] None) (Some 41)) as (r & Eb & Hr); [done|done|by exists []|].
  destruct (Hr (mem_bytes (TableBuilder.file r)) eq_refl) as (t & c & Eo & Hit).
  destruct (Hit (mk_read_options true true)) as (it & first & last & En & _ & _ & _ & _ & Hseek).
  destruct (Hseek [1; 1] Hb) as (from & Es & Ew). exists r, t, c, it, from. split; [exact Eb|]. split; [exact Eo|].
  split; [exact En|]. split; [exact Es|]. exact Ew.
Defined.

Lemma table_get_witness :
  exists r t c c', build_table (fun _ => 0) sample_options (mk_mem [] None) sample_total = Ok (OK, r) /\
    let file := mem_bytes (TableBuilder.file r) in
    Open (Hd := Block) 0 0 sample_options file (zlen file) (Some 41) = Ok (OK, Some t, c) /\
    InternalGet (Hd := Block) 0 0 t (mk_read_options true true) [1; 2] (fun _ v _ => Ok (Some v)) None c = Ok (OK, Some [8; 8], c').
Proof.
  assert (Hb : bytes [1; 2]) by (by vm_compute; repeat constructor).
  assert (Hin : ([1; 2], [8; 8]) ∈ sample_total) by (unfold sample_total; right; left).
  assert (Hle : lex [1; 2] [1; 2] <> Gt) by by vm_compute.
  destruct (table_get (file_bytes := fun f => f) (cached := sample_cached) (fun _ => 0) 0 0 sample_options lex bytes
    (fun a b => lex a b = Eq) (Hgroup := @equal_grouped BytewiseComparator bytes lex bytewise_lawful) (fun k H => H) 2 ltac:(lia) ltac:(lia) eq_refl
    sample_total 0 sample_ok ltac:(by intros policy k fc [=]) ltac:(by intros policy k k' fc [=])
    (mk_mem [] None) (Some 41) (fun (_ v : list Z) (_ : option (list Z)) => Ok (Some v))) as (r & Eb & Hr); [done|done|by exists []|by eexists|].
  destruct (Hr (mem_bytes (TableBuilder.file r)) eq_refl) as (t & c & Eo & Hget).
  destruct (Hget (mk_read_options true true) [1; 2] None Hb) as (arg' & c' & Eg & Hcase).
  exists r, t, c, c'. split; [exact Eb|]. split; [exact Eo|]. destruct Hcase as [(e & Ee & Ev)|[_ Habs]]; [|destruct (Habs _ Hin Hle); exact eq_refl].
  injection Ee as <-. injection Ev as <-. exact Eg.
Defined.

