(* ===== verification/TableDb.v ===== *)
(** * Tables of internal keys

    The tables of the database are ordered by internal keys, and their
    filters are made of user keys. *)
From S2P Require Import Prelude Order Coding Env Comparator ComparatorProof Bloom BloomProof DbFormat DbFormatProof SkipListProof SkipListSet Iterator Block TwoLevelProof.
From S2P Require Import Format FormatProof Cache TableBuilder TableBuilderProof Table TableProof TableSpec.

(** The options the database passes to its tables. *)
Definition internal_options (user : Options) : Options := {|
  comparator := @InternalKeyComparator (comparator user);
  paranoid_checks := paranoid_checks user;
  block_size := block_size user;
  block_restart_interval := block_restart_interval user;
  compression := compression user;
  filter_policy := (fun policy => @InternalFilterPolicy policy) <$> filter_policy user
|}.

(** ** Entries *)
Definition entry_ok (e : DbEntry) : Prop := bytes (e_user e) /\ sequence_ok (e_sequence e) /\ type_ok (e_type e) /\ bytes (e_value e).

(** What a read of [u] at a snapshot sees. *)
Definition visible (u : list Z) (snapshot : Z) (e : DbEntry) : Prop := e_user e = u /\ e_sequence e <= snapshot.
#[export] Instance visible_dec u snapshot e : Decision (visible u snapshot e).
Proof. unfold visible. apply _. Defined.
Definition newest (u : list Z) (snapshot : Z) (es : list DbEntry) : option DbEntry := snd <$> list_find (visible u snapshot) es.

(** ** Bloom filters in tables *)
Lemma user_keys_length keys us : user_keys keys = Ok us -> length us = length keys.
Proof.
  revert us. induction keys as [|k keys IH]; intros us; cbn [user_keys]; [by intros [= <-]|].
  intros (u & _ & (us' & E & [= <-])%obind_Ok)%obind_Ok. cbn. by rewrite (IH us' E).
Qed.

Definition bloom_max (p : BloomFilterPolicy) (n : nat) : Z := (Z.of_nat n * bits_per_key_ p + 71) / 8 + 1.

Lemma bloom_max_mono p m n : bloom_ok p -> (m <= n)%nat -> 0 <= bloom_max p m <= bloom_max p n.
Proof.
  intros [Hb _] Hmn. unfold bloom_max. assert (0 <= Z.of_nat m * bits_per_key_ p <= Z.of_nat n * bits_per_key_ p) by nia.
  pose proof (Z.div_pos (Z.of_nat m * bits_per_key_ p + 71) 8 ltac:(lia) ltac:(lia)).
  pose proof (Z.div_le_mono (Z.of_nat m * bits_per_key_ p + 71) (Z.of_nat n * bits_per_key_ p + 71) 8). lia.
Qed.

Lemma internal_bloom_ok p total : bloom_ok p -> Z.of_nat (length total) * bits_per_key_ p < 2 ^ 60 ->
  policy_ok (valid_internal bytes) total (bloom_max p (length total)) (@InternalFilterPolicy (bloom_policy p)).
Proof.
  intros Hp Hn. pose proof Hp as [Hbpk _]. exists (internal_fits (bloom_fits p)).
  assert (Hle : forall n, (n <= length total)%nat -> 0 <= Z.of_nat n * bits_per_key_ p < 2 ^ 60) by (intros n Hl; nia).
  split; [exact (@internal_policy_law (bloom_policy p) (bloom_fits p) (bloom_policy_law p Hp))|]. split; [|split; [|split]].
  - intros pend Hl Hv. split; [eapply Forall_impl; [exact Hv|by intros k [? _]]|]. unfold bloom_fits, zlen. rewrite length_map. by apply Hle.
  - intros keys dst r Hl E. cbn [CreateFilter InternalFilterPolicy bloom_policy] in E. apply obind_Ok in E as (us & Eu & E).
    pose proof (user_keys_length _ _ Eu) as El. pose proof (bloom_size p us dst r) as Hs. unfold zlen in Hs |- *. rewrite El in Hs.
    specialize (Hs (Hle _ Hl) E). pose proof (bloom_max_mono p (length keys) (length total) Hp Hl) as Hm. unfold bloom_max in *. lia.
  - pose proof (bloom_max_mono p (length total) (length total) Hp). lia.
  - split; [by vm_compute; repeat constructor|by vm_compute].
Qed.

(** ** The order of what is seen *)
#[export] Instance db_lawful : @LawfulComparator (@InternalKeyComparator BytewiseComparator) (valid_internal bytes) (internal_order lex).
Proof. exact (@internal_lawful BytewiseComparator bytes lex bytewise_lawful (fun k H => H)). Qed.

#[export] Instance db_grouped : @GroupedComparator (@InternalKeyComparator BytewiseComparator) (valid_internal bytes) (internal_order lex)
  (fun a b => lex (user_part a) (user_part b) = Eq).
Proof. exact (@internal_grouped BytewiseComparator bytes lex bytewise_lawful). Qed.

#[export] Instance db_order : TotalOrder (internal_order lex).
Proof. exact (@key_order _ _ _ db_lawful). Qed.

Lemma db_seek_order u snapshot e : sequence_ok snapshot -> entry_ok e ->
  (lex (user_part (encoded u snapshot kValueTypeForSeek)) (user_part (entry_key e)) = Eq <-> e_user e = u) /\
  (e_user e = u -> internal_order lex (encoded u snapshot kValueTypeForSeek) (entry_key e) <> Gt <-> e_sequence e <= snapshot).
Proof.
  intros Hs (_ & Hse & Hte & _). split.
  - unfold entry_key, encoded. rewrite !user_part_join. split; [intros E; symmetry; by apply lex_eq|intros ->; by apply (order_refl lex)].
  - intros <-. unfold entry_key. rewrite internal_order_encoded; try done; [|by right]. rewrite (order_refl lex).
    destruct (Z.compare_spec (e_sequence e) snapshot) as [->|Hlt|Hgt]; [|split; (done || lia)|split; (done || lia)].
    split; [lia|]. intros _. destruct Hte as [-> | ->]; by vm_compute.
Qed.

Lemma same_user_filter policy k k' fc : lex (user_part k) (user_part k') = Eq -> 8 <= zlen k -> 8 <= zlen k' ->
  @KeyMayMatch (@InternalFilterPolicy policy) k fc = @KeyMayMatch (@InternalFilterPolicy policy) k' fc.
Proof.
  intros E Hk Hk'. cbn [KeyMayMatch InternalFilterPolicy]. rewrite !ExtractUserKey_ok by done. cbn [obind].
  by apply lex_eq in E as ->.
Qed.

(** ** Reads *)
Section Read.
Context {W : Type} `{WritableFile W} {reliable : W -> Prop} {written : W -> list Z} {Hwrite : ReliableFile W reliable written}.
Context {F : Type} `{RandomAccessFile F} {file_bytes : F -> list Z} {Hread : ReadableAt F file_bytes}.
Context {Hd C : Type} `{Cache Block Hd C} {cached : (list Z -> Block -> Prop) -> C -> list (Hd * Block) -> Prop} {Hcache : LawfulCache cached}.
Context (address : list Z -> Z) (buf ubuf : Z).
Context (paranoid : bool) (bsize : Z) (I : nat) (kind : CompressionType) (bloom : BloomFilterPolicy).
Context (HI : (1 <= I)%nat) (HI31 : Z.of_nat I < 2 ^ 31 - 1) (Hbloom : bloom_ok bloom).
(** The options of a database with the bytewise comparator and Bloom filters. *)
Definition bloom_options : Options := mk_options BytewiseComparator paranoid bsize (Z.of_nat I) kind (Some (bloom_policy bloom)).
Context (es : list DbEntry) (Hes : Forall entry_ok es) (Hsorted : sorted (internal_order lex) (keys_of (table_entries es))).
#[local] Abbreviation total := (table_entries es).
#[local] Abbreviation filter_max := (bloom_max bloom (length es)).
Context (Hsize : 3 * weight total + (filter_max + 4) * (weight total / 2048 + 2) + 1000 < 2 ^ 32).
Context (Hkeys : Z.of_nat (length es) * bits_per_key_ bloom < 2 ^ 60).
#[local] Abbreviation o := (internal_options bloom_options).

Lemma db_entry_valid e : entry_ok e -> valid_internal bytes (entry_key e).
Proof.
  intros (Hu & _). destruct (encoded_valid (e_user e) (e_sequence e) (e_type e) Hu) as [Hb Hz]. split; [done|]. split; [done|].
  unfold entry_key, encoded. by rewrite user_part_join.
Qed.

Lemma db_table_ok : table_ok o (internal_order lex) (valid_internal bytes) total filter_max.
Proof.
  assert (El : length total = length es) by apply length_map. pose proof (bloom_max_mono bloom (length es) (length es) Hbloom).
  split; try done; [|lia|].
  - apply Forall_map. eapply Forall_impl; [exact Hes|]. intros e He. split; [by apply db_entry_valid|]. by destruct He as (_ & _ & _ & ?).
  - intros policy [= <-]. rewrite <- El. apply internal_bloom_ok; [done|by rewrite El].
Qed.

(** What a read sees is at the place of its key, or there is none. *)
Section Seek.
Context (u : list Z) (snapshot : Z) (Hsnap : sequence_ok snapshot).
#[local] Abbreviation k := (encoded u snapshot kValueTypeForSeek).
#[local] Abbreviation i := (place (internal_order lex) k (keys_of total)).

Lemma total_lookup j : total !! j = (fun e => (entry_key e, e_value e)) <$> es !! j.
Proof. apply list_lookup_fmap. Qed.
Lemma key_lookup j : keys_of total !! j = entry_key <$> es !! j.
Proof. unfold keys_of. rewrite list_lookup_fmap, total_lookup. by destruct (es !! j). Qed.
Lemma es_ok j e : es !! j = Some e -> entry_ok e.
Proof. intros E. rewrite Forall_lookup in Hes. by apply (Hes j). Qed.

Lemma before_place j e : es !! j = Some e -> (j < i)%nat -> ~ visible u snapshot e.
Proof.
  intros E Hj [Hu Hs].
  apply (place_before (internal_order lex) k (keys_of total) j (entry_key e) Hsorted) in Hj; [|by rewrite key_lookup, E].
  destruct (db_seek_order u snapshot e Hsnap (es_ok j e E)) as [_ Hle]. apply (Hle Hu) in Hs. apply Hs, (order_gt (internal_order lex)). exact Hj.
Qed.

Lemma after_place j e : es !! j = Some e -> (i <= j)%nat -> internal_order lex k (entry_key e) <> Gt.
Proof.
  intros E Hj.
  apply (place_at_least (internal_order lex) k total j (entry_key e, e_value e) Hsorted); [by rewrite total_lookup, E|done].
Qed.

Lemma newest_at e : es !! i = Some e -> visible u snapshot e -> newest u snapshot es = Some e.
Proof.
  intros E Hv. unfold newest. assert (El : list_find (visible u snapshot) es = Some (i, e)); [|by rewrite El].
  apply list_find_Some. split; [done|]. split; [done|]. intros j e' E' Hj. by apply (before_place j e').
Qed.

Lemma newest_none : (forall j e, es !! j = Some e -> (i <= j)%nat -> ~ visible u snapshot e) -> newest u snapshot es = None.
Proof.
  intros Hn. unfold newest. assert (El : list_find (visible u snapshot) es = None); [|by rewrite El].
  apply list_find_None, Forall_lookup. intros j e E. destruct (decide (j < i)%nat); [by apply (before_place j)|apply (Hn j); [done|lia]].
Qed.

Lemma newest_hidden e : es !! i = Some e -> ~ visible u snapshot e -> newest u snapshot es = None /\ e_user e <> u.
Proof.
  intros E Hv. destruct (db_seek_order u snapshot e Hsnap (es_ok i e E)) as [Hg Hle]. pose proof (after_place i e E ltac:(lia)) as Hke.
  assert (Hu : e_user e <> u) by (intros Hu; apply Hv; split; [done|by apply Hle]). split; [|done].
  apply newest_none. intros j e' E' Hj [Hu' Hs']. destruct (decide (j = i)) as [->|Hne]; [rewrite E in E'; by injection E' as <-|].
  destruct (db_seek_order u snapshot e' Hsnap (es_ok j e' E')) as [Hg' _]. apply Hu, Hg.
  apply (@group_convex _ _ _ _ db_grouped (encoded u snapshot kValueTypeForSeek) (entry_key e) (entry_key e')); [by apply Hg'|done|].
  rewrite (sorted_lookup _ (keys_of total) i j (entry_key e) (entry_key e') Hsorted); [done| | |lia]; rewrite key_lookup; [by rewrite E|by rewrite E'].
Qed.
End Seek.

Lemma valid_internal_bytes k : valid_internal bytes k -> bytes k.
Proof. by intros (_ & ? & _). Qed.

Lemma db_filter_total policy k fc : filter_policy o = Some policy -> valid_internal bytes k -> bytes fc ->
  exists b, @KeyMayMatch policy k fc = Ok b.
Proof.
  intros [= <-] (H8 & _ & Hu) Hfc. cbn [KeyMayMatch InternalFilterPolicy bloom_policy]. rewrite ExtractUserKey_ok by done. cbn [obind].
  by apply bloom_match_total.
Qed.

Lemma db_filter_same policy k k' fc : filter_policy o = Some policy -> valid_internal bytes k -> valid_internal bytes k' ->
  lex (user_part k) (user_part k') = Eq -> @KeyMayMatch policy k fc = @KeyMayMatch policy k' fc.
Proof. intros [= <-] (H8 & _) (H8' & _) E. by apply same_user_filter. Qed.

(** C15: Reads of a user key at a snapshot.  When the table has an entry for
    the key that the snapshot sees, looking up its internal key calls the
    handler with the newest of them, the Bloom filter notwithstanding;
    otherwise the handler is called with an entry of another user key, or not
    at all. *)
Theorem db_table_get f cache {A} (handle_result : list Z -> list Z -> A -> outcome A) :
  reliable f -> written f = [] -> cache_ready (cached := cached) cache -> (forall rk rv arg, exists arg', handle_result rk rv arg = Ok arg') ->
  exists r, build_table address o f total = Ok (OK, r) /\
    forall file, file_bytes file = written (TableBuilder.file r) ->
    exists t cache', Open buf ubuf o file (zlen (file_bytes file)) cache = Ok (OK, Some t, cache') /\
      forall ro u snapshot arg, bytes u -> sequence_ok snapshot ->
      exists arg' cache'', InternalGet buf ubuf t ro (encoded u snapshot kValueTypeForSeek) handle_result arg cache' = Ok (OK, arg', cache'') /\
        match newest u snapshot es with
        | Some e => handle_result (entry_key e) (e_value e) arg = Ok arg'
        | None => arg' = arg \/ exists e, e ∈ es /\ e_user e <> u /\ handle_result (entry_key e) (e_value e) arg = Ok arg'
        end.
Proof.
  intros Hf Hwf Hc Hres.
  destruct (table_get address buf ubuf o (internal_order lex) (valid_internal bytes) (fun a b => lex (user_part a) (user_part b) = Eq)
    valid_internal_bytes I HI HI31 eq_refl total filter_max db_table_ok db_filter_total db_filter_same f cache handle_result Hf Hwf Hc Hres)
    as (r & Eb & Hr). exists r. split; [done|]. intros file Ef. destruct (Hr file Ef) as (t & cache' & Eo & Hget). exists t, cache'.
  split; [done|]. intros ro u snapshot arg Hu Hsn. destruct (Hget ro (encoded u snapshot kValueTypeForSeek) arg) as (arg' & cache'' & Eg & Hcase).
  { apply (db_entry_valid (mk_entry u snapshot kValueTypeForSeek [])). split_and!; [done|done|by right|constructor]. }
  exists arg', cache''. split; [done|]. cbv zeta in Hcase. rewrite total_lookup in Hcase. destruct Hcase as [(e0 & E & Eh)|[-> Habs]].
  - destruct (es !! _) as [e|] eqn:Ee; [|done]. injection E as <-. destruct (decide (visible u snapshot e)) as [Hv|Hv].
    + by rewrite (newest_at u snapshot Hsn e Ee Hv).
    + destruct (newest_hidden u snapshot Hsn e Ee Hv) as [-> Hne]. right. exists e. split; [by eapply list_elem_of_lookup_2|done].
  - rewrite newest_none; [by left|done|]. intros j e E Hj [Hue Hse]. destruct (db_seek_order u snapshot e Hsn (es_ok j e E)) as [Hg Hle].
    apply (Habs (entry_key e, e_value e)); [|by apply Hle|by apply Hg].
    apply list_elem_of_fmap. exists e. split; [done|]. by eapply list_elem_of_lookup_2.
Qed.
End Read.

(** ** A concrete database table *)
Definition db_entries : list DbEntry :=
  [mk_entry [1] 5 kTypeValue [7]; mk_entry [1] 3 kTypeValue [8]; mk_entry [2] 4 kTypeDeletion []].

Definition db_options : Options := internal_options (bloom_options false 1 2 kNoCompression (NewBloomFilterPolicy 10)).

Lemma db_sample_ok : Forall entry_ok db_entries /\ sorted (internal_order lex) (keys_of (table_entries db_entries)).
Proof.
  split; [|by vm_compute; repeat constructor]. unfold db_entries, entry_ok.
  repeat (apply Forall_cons_2; [split_and!; [by vm_compute; repeat constructor|done|first [by left|by right]|by vm_compute; repeat constructor]|]).
  apply Forall_nil_2.
Qed.

Lemma db_table_get_witness :
  exists r t c c', build_table (fun _ => 0) db_options (mk_mem [] None) (table_entries db_entries) = Ok (OK, r) /\
    let file := mem_bytes (TableBuilder.file r) in
    Open (Hd := Block) 0 0 db_options file (zlen file) (Some 41) = Ok (OK, Some t, c) /\
    InternalGet (Hd := Block) 0 0 t (mk_read_options true true) (encoded [1] 4 kValueTypeForSeek) (fun _ v _ => Ok (Some v)) None c = Ok (OK, Some [8], c').
Proof.
  assert (Hu : bytes [1]) by (by vm_compute; repeat constructor).
  assert (Hs : sequence_ok 4) by by vm_compute.
  assert (En : newest [1] 4 db_entries = Some (mk_entry [1] 3 kTypeValue [8])) by by vm_compute.
  destruct (db_table_get (file_bytes := fun f => f) (cached := fun _ (_ : Z) held => Forall (fun p => p.1 = p.2) held)
    (fun _ => 0) 0 0 false 1 2 kNoCompression (NewBloomFilterPolicy 10) ltac:(lia) ltac:(lia) (NewBloomFilterPolicy_ok 10 ltac:(lia)) db_entries
    (proj1 db_sample_ok) (proj2 db_sample_ok) ltac:(by vm_compute) ltac:(by vm_compute)
    (mk_mem [] None) (Some 41) (fun (_ v : list Z) (_ : option (list Z)) => Ok (Some v)))
    as (r & Eb & Hr); [done|done|by exists []|by eexists|].
  destruct (Hr (mem_bytes (TableBuilder.file r)) eq_refl) as (t & c & Eo & Hget).
  destruct (Hget (mk_read_options true true) [1] 4 None Hu Hs) as (arg' & c' & Eg & Hv).
  exists r, t, c, c'. split; [exact Eb|]. split; [exact Eo|].
  rewrite En in Hv. injection Hv as <-. exact Eg.
Defined.
