(* ===== verification/Merger.v ===== *)
(** * Merging iterators ([table/merger.cc])

    The union of the entries of several iterators, in the order of their
    keys.  In C++ the children are behind one interface; here they are states
    of one type that has it. *)
From S2P Require Import Prelude Env Comparator Iterator.

Inductive Direction : Type := kForward | kReverse.
#[export] Instance direction_dec : EqDecision Direction.
Proof. solve_decision. Defined.

Section Merger.
Context {S : Type} `{Iterator S} `{Comparator}.
#[local] Abbreviation child := (IteratorWrapper S).

(** [current_] points into the array of children. *)
Record MergingIterator : Type := mk_merging {
  children_ : list child;
  current_ : option nat;
  direction_ : Direction
}.

(** A loop over the children, or over all but one. *)
Fixpoint each (f : nat -> child -> outcome child) (i : nat) (l : list child) : outcome (list child) :=
  match l with
  | [] => Ok []
  | c :: l' =>
      let! c := f i c in
      let! l' := each f (Datatypes.S i) l' in
      Ok (c :: l')
  end.
Definition each_other (current : nat) (f : child -> outcome child) (l : list child) : outcome (list child) :=
  each (fun i c => if decide (i = current) then Ok c else f c) 0 l.

Definition new_MergingIterator (children : list S) : outcome MergingIterator :=
  let! children := each (fun i => wrapper_Set (children !! i)) 0 (map (fun _ => mk_wrapper None false []) children) in
  Ok (mk_merging children None kForward).

(** The loops of [FindSmallest] and [FindLargest]: [better] of the comparison
    with the best so far. *)
Fixpoint pick (better : Z -> bool) (l : list (nat * child)) (best : option (nat * child)) : outcome (option nat) :=
  match l with
  | [] => Ok (fst <$> best)
  | (i, c) :: l' =>
      if valid_ c then
        match best with
        | None => pick better l' (Some (i, c))
        | Some (_, b) =>
            let! ck := wrapper_key c in
            let! bk := wrapper_key b in
            let! r := Compare ck bk in
            pick better l' (if better r then Some (i, c) else best)
        end
      else pick better l' best
  end.
Definition numbered (l : list child) : list (nat * child) := imap pair l.
Definition FindSmallest (l : list child) : outcome (option nat) := pick (fun r => r <? 0) (numbered l) None.
Definition FindLargest (l : list child) : outcome (option nat) := pick (fun r => 0 <? r) (rev (numbered l)) None.

Definition merging_Valid (m : MergingIterator) : bool := match current_ m with Some _ => true | None => false end.

(** The child [current_] points to. *)
Definition current_child (m : MergingIterator) : outcome (nat * child) :=
  match current_ m with
  | Some i => let! c := or_ub BadPointer (children_ m !! i) in Ok (i, c)
  | None => UB BadAssert
  end.
Definition merging_key (m : MergingIterator) : outcome (list Z) := let! (_, c) := current_child m in wrapper_key c.
Definition merging_value (m : MergingIterator) : outcome (list Z) := let! (_, c) := current_child m in wrapper_value c.

Definition merging_SeekToFirst (m : MergingIterator) : outcome MergingIterator :=
  let! l := each (fun _ => wrapper_SeekToFirst) 0 (children_ m) in
  let! current := FindSmallest l in
  Ok (mk_merging l current kForward).

Definition merging_SeekToLast (m : MergingIterator) : outcome MergingIterator :=
  let! l := each (fun _ => wrapper_SeekToLast) 0 (children_ m) in
  let! current := FindLargest l in
  Ok (mk_merging l current kReverse).

Definition merging_Seek (target : list Z) (m : MergingIterator) : outcome MergingIterator :=
  let! l := each (fun _ => wrapper_Seek target) 0 (children_ m) in
  let! current := FindSmallest l in
  Ok (mk_merging l current kForward).

(** Another child is moved after [key()], or before it. *)
Definition child_after (key : list Z) (c : child) : outcome child :=
  let! c := wrapper_Seek key c in
  if valid_ c then
    let! ck := wrapper_key c in
    let! r := Compare key ck in
    if r =? 0 then wrapper_Next c else Ok c
  else Ok c.
Definition child_before (key : list Z) (c : child) : outcome child :=
  let! c := wrapper_Seek key c in
  if valid_ c then wrapper_Prev c else wrapper_SeekToLast c.

Definition merging_Next (m : MergingIterator) : outcome MergingIterator :=
  let! (i, c) := current_child m in
  let! l := (if decide (direction_ m = kForward) then Ok (children_ m)
             else let! key := wrapper_key c in each_other i (child_after key) (children_ m)) in
  let! c := wrapper_Next c in
  let l := <[i := c]> l in
  let! current := FindSmallest l in
  Ok (mk_merging l current kForward).

Definition merging_Prev (m : MergingIterator) : outcome MergingIterator :=
  let! (i, c) := current_child m in
  let! l := (if decide (direction_ m = kReverse) then Ok (children_ m)
             else let! key := wrapper_key c in each_other i (child_before key) (children_ m)) in
  let! c := wrapper_Prev c in
  let l := <[i := c]> l in
  let! current := FindLargest l in
  Ok (mk_merging l current kReverse).

(** The first status that is not OK, or the last one. *)
Fixpoint merging_status (l : list child) (s : Status) : outcome Status :=
  match l with
  | [] => Ok s
  | c :: l' =>
      let! s := wrapper_status c in
      if negb (ok s) then Ok s else merging_status l' s
  end.

#[export] Instance merging_iterator : Iterator MergingIterator := {
  Valid m := Ok (merging_Valid m);
  SeekToFirst := merging_SeekToFirst;
  SeekToLast := merging_SeekToLast;
  Seek := merging_Seek;
  Next := merging_Next;
  Prev := merging_Prev;
  key := merging_key;
  value := merging_value;
  status m := merging_status (children_ m) OK
}.

(** What [NewMergingIterator] returns. *)
Inductive Merged : Type :=
| NoChild (e : EmptyIterator)
| OneChild (s : S)
| ManyChildren (m : MergingIterator).

Definition NewMergingIterator (children : list S) : outcome Merged :=
  match children with
  | [] => Ok (NoChild NewEmptyIterator)
  | [s] => Ok (OneChild s)
  | _ => let! m := new_MergingIterator children in Ok (ManyChildren m)
  end.

Definition merged_move (f : forall T, Iterator T -> T -> outcome T) (m : Merged) : outcome Merged :=
  match m with
  | NoChild e => let! e := f _ _ e in Ok (NoChild e)
  | OneChild s => let! s := f _ _ s in Ok (OneChild s)
  | ManyChildren m => let! m := f _ _ m in Ok (ManyChildren m)
  end.
Definition merged_get {A} (f : forall T, Iterator T -> T -> outcome A) (m : Merged) : outcome A :=
  match m with
  | NoChild e => f _ _ e
  | OneChild s => f _ _ s
  | ManyChildren m => f _ _ m
  end.
#[export] Instance merged_iterator : Iterator Merged := {
  Valid := merged_get (fun _ _ => Valid);
  SeekToFirst := merged_move (fun _ _ => SeekToFirst);
  SeekToLast := merged_move (fun _ _ => SeekToLast);
  Seek target := merged_move (fun _ _ => Seek target);
  Next := merged_move (fun _ _ => Next);
  Prev := merged_move (fun _ _ => Prev);
  key := merged_get (fun _ _ => key);
  value := merged_get (fun _ _ => value);
  status := merged_get (fun _ _ => status)
}.
End Merger.
Arguments MergingIterator : clear implicits.
Arguments Merged : clear implicits.
