(* ===== verification/MergerProof.v ===== *)
(** * Merging iterators are lawful

    When the children are, and no two of their keys are equal, the merging
    iterator is a cursor over the sorted union of their entries. *)
From Stdlib Require Import Sorting.Sorted.
From stdpp Require sorting.
From S2P Require Import Prelude Env Order Comparator SkipListProof SkipListSet Iterator TwoLevelProof Merger.

Section MergerProof.
Context {S : Type} `{Iterator S} `{Comparator} (valid : list Z -> Prop) (order : list Z -> list Z -> comparison) {Hcmp : LawfulComparator valid order}.
#[local] Abbreviation child := (IteratorWrapper S).
#[local] Abbreviation pairs := (list (list Z * list Z)).

(** Child [i] is over the entries [nth i ess]; [total] is their sorted union. *)
Context (ess : list pairs) (usable : nat -> S -> Prop) (at_ : nat -> S -> nat -> Prop).
Definition es (i : nat) : pairs := nth i ess [].
Context (Hlaw : forall i, (i < length ess)%nat -> LawfulIterator S order valid (es i) (usable i) (at_ i)).
Context (total : pairs) (Hperm : total ≡ₚ concat ess) (Hsorted : sorted order (keys_of total)).
Context (Hsub : forall i, sorted order (keys_of (es i))) (Hvalid : Forall (fun e => valid e.1) total).

(** ** Positions in the children *)
Lemma total_key g e : total !! g = Some e -> keys_of total !! g = Some e.1.
Proof. intros E. unfold keys_of. by rewrite list_lookup_fmap, E. Qed.

Lemma total_lt g g' e e' : total !! g = Some e -> total !! g' = Some e' -> order e.1 e'.1 = Lt <-> (g < g')%nat.
Proof.
  intros E E'. assert (Hlt : forall a b x y, total !! a = Some x -> total !! b = Some y -> (a < b)%nat -> order x.1 y.1 = Lt).
  { intros a b x y Ha Hb Hab. by apply (sorted_lookup _ (keys_of total) a b x.1 y.1 Hsorted (total_key a x Ha) (total_key b y Hb)). }
  split; [|by apply Hlt]. intros Ho. destruct (Nat.lt_trichotomy g g') as [|[->|Hgt]]; [done| |].
  - rewrite E in E'. injection E' as <-. by rewrite (order_refl order) in Ho.
  - pose proof (Hlt g' g e' e E' E Hgt) as Ho'. rewrite (order_antisym e'.1 e.1), Ho' in Ho. done.
Qed.

Lemma total_eq g g' e e' : total !! g = Some e -> total !! g' = Some e' -> order e.1 e'.1 = Eq -> g = g'.
Proof.
  intros E E' Ho. destruct (Nat.lt_trichotomy g g') as [Hlt|[|Hlt]]; [|done|].
  - apply (total_lt g g' e e' E E') in Hlt. congruence.
  - apply (total_lt g' g e' e E' E) in Hlt. rewrite (order_antisym e.1 e'.1), Ho in Hlt. done.
Qed.

Lemma total_nodup : NoDup total.
Proof.
  apply NoDup_alt. intros g g' e E E'. apply (total_eq g g' e e E E'). apply (order_refl order).
Qed.

Lemma child_in i p e : es i !! p = Some e -> exists g, total !! g = Some e.
Proof.
  intros E. apply list_elem_of_lookup. rewrite Hperm. apply list_elem_of_In, List.in_concat. exists (es i).
  split; [|apply list_elem_of_In; by eapply list_elem_of_lookup_2].
  unfold es in *. apply nth_In. destruct (Nat.lt_ge_cases i (length ess)) as [|Hge]; [done|]. by rewrite nth_overflow in E by done.
Qed.

(** Where the entries of a child start in the concatenation. *)
Definition start (i : nat) : nat := length (concat (take i ess)).

Lemma es_lookup i : (i < length ess)%nat -> ess !! i = Some (es i).
Proof.
  intros Hi. destruct (lookup_lt_is_Some_2 ess i Hi) as [x Hx]. rewrite Hx. f_equal. unfold es. symmetry. by apply nth_lookup_Some.
Qed.

Lemma start_S i : (i < length ess)%nat -> start (Datatypes.S i) = (start i + length (es i))%nat.
Proof.
  intros Hi. unfold start. rewrite (take_S_r _ _ _ (es_lookup i Hi)), concat_app, length_app. cbn [concat]. by rewrite app_nil_r.
Qed.

Lemma start_mono i j : (i <= j)%nat -> (start i <= start j)%nat.
Proof.
  intros Hij. unfold start. replace (take j ess) with (take i ess ++ drop i (take j ess)).
  - rewrite concat_app, length_app. lia.
  - rewrite <- (take_drop i (take j ess)) at 2. by rewrite take_take, Nat.min_l by done.
Qed.

Lemma child_bound i p e : es i !! p = Some e -> (i < length ess)%nat.
Proof. intros E. destruct (Nat.lt_ge_cases i (length ess)) as [|Hge]; [done|]. unfold es in E. by rewrite nth_overflow in E by done. Qed.

Lemma child_place i p e : es i !! p = Some e -> concat ess !! (start i + p)%nat = Some e.
Proof.
  intros E. pose proof (es_lookup i (child_bound i p e E)) as El. unfold start.
  rewrite <- (take_drop_middle ess i (es i) El) at 2. rewrite concat_app, lookup_app_r by lia. cbn [concat].
  replace (_ + p - _)%nat with p by lia. rewrite lookup_app_l; [done|by eapply lookup_lt_Some].
Qed.

Lemma child_disjoint i j p q e : es i !! p = Some e -> es j !! q = Some e -> i = j /\ p = q.
Proof.
  intros Ei Ej. assert (Hn : NoDup (concat ess)) by (rewrite <- Hperm; exact total_nodup).
  pose proof (proj1 (NoDup_alt _) Hn _ _ _ (child_place i p e Ei) (child_place j q e Ej)) as Eq.
  pose proof (lookup_lt_Some _ _ _ Ei). pose proof (lookup_lt_Some _ _ _ Ej).
  pose proof (start_S i (child_bound i p e Ei)). pose proof (start_S j (child_bound j q e Ej)).
  destruct (Nat.lt_trichotomy i j) as [Hlt|[->|Hlt]]; [|split; [done|lia]|].
  - pose proof (start_mono (Datatypes.S i) j ltac:(lia)). lia.
  - pose proof (start_mono (Datatypes.S j) i ltac:(lia)). lia.
Qed.

(** Position [p] of child [i] is between its entries before and from entry
    [g] of the union on. *)
Definition split_at (i g p : nat) : Prop := (p <= length (es i))%nat /\
  forall m e, es i !! m = Some e -> (m < p)%nat <-> exists j, (j < g)%nat /\ total !! j = Some e.

Lemma split_unique i g p q : split_at i g p -> split_at i g q -> p = q.
Proof.
  assert (Hlt : forall p q, split_at i g p -> split_at i g q -> ~ (p < q)%nat).
  { intros a b [_ Ha] [Hbl Hb] Hab. destruct (lookup_lt_is_Some_2 (es i) a ltac:(lia)) as [e He].
    apply (Hb a e He), (Ha a e He) in Hab. lia. }
  intros Hp Hq. pose proof (Hlt p q Hp Hq). pose proof (Hlt q p Hq Hp). lia.
Qed.

Lemma split_end i : split_at i (length total) (length (es i)).
Proof.
  split; [done|]. intros m e E. split; intros _; [|by apply lookup_lt_Some in E].
  destruct (child_in i m e E) as (j & Ej). exists j. split; [by apply lookup_lt_Some in Ej|done].
Qed.

Lemma split_place i k : split_at i (place order k (keys_of total)) (place order k (keys_of (es i))).
Proof.
  split; [pose proof (place_le order k (keys_of (es i))) as Hl; unfold keys_of in *; by rewrite length_map in Hl|].
  intros m e E. assert (Ek : keys_of (es i) !! m = Some e.1) by (unfold keys_of; by rewrite list_lookup_fmap, E).
  rewrite (place_before order k (keys_of (es i)) m e.1 (Hsub i) Ek). destruct (child_in i m e E) as (j & Ej). split.
  - intros Hlt. exists j. split; [|done]. by apply (place_before order k (keys_of total) j e.1 Hsorted (total_key j e Ej)).
  - intros (j' & Hj' & Ej'). by apply (place_before order k (keys_of total) j' e.1 Hsorted (total_key j' e Ej')).
Qed.

Lemma place_total g e : total !! g = Some e -> place order e.1 (keys_of total) = g.
Proof.
  intros E. pose proof (lookup_lt_Some _ _ _ E) as Hg. apply (place_unique order e.1 (keys_of total) g Hsorted).
  - unfold keys_of. rewrite length_map. lia.
  - intros m k Hm Hk. unfold keys_of in Hk. rewrite list_lookup_fmap in Hk. destruct (total !! m) as [e'|] eqn:Em; [|done]. injection Hk as <-.
    by apply (total_lt m g e' e Em E).
  - intros k Hk. rewrite (total_key g e E) in Hk. injection Hk as <-. by rewrite (order_refl order).
Qed.

(** One entry further. *)
Lemma split_same i g p e : split_at i g p -> total !! g = Some e -> (forall m, es i !! m <> Some e) -> split_at i (Datatypes.S g) p.
Proof.
  intros [Hl Hs] E Hne. split; [done|]. intros m e' Em. rewrite (Hs m e' Em). split; intros (j & Hj & Ej).
  - exists j. split; [lia|done].
  - exists j. split; [|done]. destruct (decide (j = g)) as [->|]; [|lia]. rewrite E in Ej. injection Ej as <-. by destruct (Hne m).
Qed.

Lemma split_step i g p e : split_at i g p -> total !! g = Some e -> es i !! p = Some e -> split_at i (Datatypes.S g) (Datatypes.S p).
Proof.
  intros [Hl Hs] E Ep. split; [by apply lookup_lt_Some in Ep|]. intros m e' Em. split.
  - intros Hm. destruct (decide (m = p)) as [->|Hne].
    + rewrite Ep in Em. injection Em as <-. exists g. split; [lia|done].
    + destruct (proj1 (Hs m e' Em) ltac:(lia)) as (j & Hj & Ej). exists j. split; [lia|done].
  - intros (j & Hj & Ej). destruct (decide (j = g)) as [->|Hne].
    + rewrite E in Ej. injection Ej as <-. destruct (child_disjoint i i m p e Em Ep) as [_ ->]. lia.
    + assert (m < p)%nat; [|lia]. apply (Hs m e' Em). exists j. split; [lia|done].
Qed.

(** The child that has entry [g] is positioned at it. *)
Lemma split_holds c g p q e : split_at c g p -> total !! g = Some e -> es c !! q = Some e -> p = q.
Proof.
  intros [Hl Hs] E Eq. assert (Hpq : ~ (q < p)%nat).
  { intros Hlt. apply (Hs q e Eq) in Hlt as (j & Hj & Ej). pose proof (total_eq j g e e Ej E (order_refl order e.1)). lia. }
  destruct (decide (p < q)%nat) as [Hlt|]; [exfalso|lia].
  destruct (lookup_lt_is_Some_2 (es c) p) as [e' Ep]; [apply lookup_lt_Some in Eq; lia|].
  assert (Ho : order e'.1 e.1 = Lt).
  { apply (sorted_lookup _ (keys_of (es c)) p q e'.1 e.1 (Hsub c)); [| |done]; unfold keys_of; rewrite list_lookup_fmap; [by rewrite Ep|by rewrite Eq]. }
  destruct (child_in c p e' Ep) as (j & Ej). apply (total_lt j g e' e Ej E) in Ho.
  assert (p < p)%nat; [|lia]. apply (Hs p e' Ep). by exists j.
Qed.

Lemma total_child g e : total !! g = Some e -> exists c p, es c !! p = Some e.
Proof.
  intros E. assert (Hin : e ∈ concat ess) by (rewrite <- Hperm; by eapply list_elem_of_lookup_2).
  apply list_elem_of_In, List.in_concat in Hin as (l & Hl & He). apply (In_nth ess l []) in Hl as (c & Hc & <-).
  apply list_elem_of_In, list_elem_of_lookup in He as (p & Ep). by exists c, p.
Qed.
(** ** Loops over the children *)
Lemma each_ok f (Q : nat -> child -> Prop) l : forall i,
  (forall j c, l !! j = Some c -> exists c', f (i + j)%nat c = Ok c' /\ Q (i + j)%nat c') ->
  exists l', each f i l = Ok l' /\ length l' = length l /\ forall j c', l' !! j = Some c' -> Q (i + j)%nat c'.
Proof.
  induction l as [|c l IH]; intros i Hf; [by exists []|]. destruct (Hf 0%nat c eq_refl) as (c' & Ec & Hc). rewrite Nat.add_0_r in Ec, Hc.
  destruct (IH (Datatypes.S i)) as (l' & El & Hlen & Hl).
  { intros j d Hj. destruct (Hf (Datatypes.S j) d Hj) as (d' & Ed & Hd). rewrite <- Nat.add_succ_comm in Ed, Hd. by exists d'. }
  exists (c' :: l'). cbn [each]. rewrite Ec. cbn [obind]. rewrite El. cbn [obind length]. split; [done|]. split; [by rewrite Hlen|].
  intros [|j] d Hj; [injection Hj as <-; by rewrite Nat.add_0_r|]. rewrite <- Nat.add_succ_comm. by apply Hl.
Qed.

(** The children of [l] are at the positions [pos]. *)
Definition placed (pos : nat -> nat) (l : list child) : Prop :=
  length l = length ess /\ forall i c, l !! i = Some c -> wraps (es i) (at_ i) c (pos i).

Lemma each_placed f pos l : length l = length ess ->
  (forall i c, l !! i = Some c -> (i < length ess)%nat -> exists c', f i c = Ok c' /\ wraps (es i) (at_ i) c' (pos i)) ->
  exists l', each f 0 l = Ok l' /\ placed pos l'.
Proof.
  intros Hlen Hf. destruct (each_ok f (fun i c => wraps (es i) (at_ i) c (pos i)) l 0) as (l' & E & Hlen' & Hl').
  - intros j c Hj. apply Hf; [done|]. apply lookup_lt_Some in Hj. by rewrite <- Hlen.
  - exists l'. split; [done|]. split; [by rewrite Hlen'|]. exact Hl'.
Qed.

(** ** The smallest and the largest key *)
Section Pick.
Context (ord : list Z -> list Z -> comparison) {Hord : TotalOrder ord} (better : Z -> bool).
Context (Hbetter : forall a b, valid a -> valid b -> exists r, Compare a b = Ok r /\ (better r = true <-> ord a b = Lt)).
Context (pos : nat -> nat).

Definition has_entry (x : nat * child) (e : list Z * list Z) : Prop :=
  (x.1 < length ess)%nat /\ wraps (es x.1) (at_ x.1) x.2 (pos x.1) /\ es x.1 !! pos x.1 = Some e.

Lemma entry_facts x e : has_entry x e -> wrapper_key x.2 = Ok e.1 /\ valid_ x.2 = true /\ valid e.1.
Proof.
  destruct e as [k v]. intros (Hi & Hw & E). destruct (wraps_entry (Hlaw := Hlaw x.1 Hi) x.2 (pos x.1) k v Hw E) as [Ek _]. split; [done|].
  split; [|destruct (child_in _ _ _ E) as (g & Eg); rewrite Forall_lookup in Hvalid; by apply (Hvalid g)].
  rewrite (wraps_valid _ _ Hw). by apply Nat.ltb_lt, (lookup_lt_Some _ _ (k, v)).
Qed.

(** A child with an entry: it or the best so far goes on. *)
Lemma pick_entry i c e l best : has_entry (i, c) e -> (forall x, best = Some x -> exists e, has_entry x e) ->
  exists x ex, pick better ((i, c) :: l) best = pick better l (Some x) /\ has_entry x ex /\
    forall y ey, y = (i, c) \/ best = Some y -> has_entry y ey -> ord ex.1 ey.1 <> Gt.
Proof.
  intros He Hb. assert (Hsame : forall y a b, has_entry y a -> has_entry y b -> ord a.1 b.1 <> Gt).
  { intros y a b (_ & _ & Ea) (_ & _ & Eb). rewrite Ea in Eb. injection Eb as <-. by rewrite (order_refl ord). }
  destruct (entry_facts _ _ He) as (Ek & Ev & Hve). cbn [snd] in Ek, Ev. cbn [pick]. rewrite Ev.
  destruct best as [[ib cb]|]; [|exists (i, c), e; split; [done|]; split; [done|]; intros y ey [->|[=]]; by apply Hsame].
  destruct (Hb _ eq_refl) as (eb & Hhb). destruct (entry_facts _ _ Hhb) as (Ekb & _ & Hvb). cbn [snd] in Ekb. rewrite Ek, Ekb. cbn [obind].
  destruct (Hbetter e.1 eb.1 Hve Hvb) as (r & Er & Hr). rewrite Er. cbn [obind]. destruct (better r) eqn:Eb.
  - exists (i, c), e. split; [done|]. split; [done|]. intros y ey [->|[= <-]] Hy; [by apply (Hsame _ _ _ He Hy)|].
    destruct Hhb as (_ & _ & Ehb), Hy as (_ & _ & Ey). rewrite Ehb in Ey. injection Ey as <-. by rewrite (proj1 Hr eq_refl).
  - exists (ib, cb), eb. split; [done|]. split; [done|]. intros y ey [->|[= <-]] Hy; [|by apply (Hsame _ _ _ Hhb Hy)].
    destruct He as (_ & _ & Ee), Hy as (_ & _ & Ey). rewrite Ee in Ey. injection Ey as <-.
    apply (order_flip ord). intros Hlt. apply Hr in Hlt. congruence.
Qed.

(** What [pick] returns: a child with the best key, or none. *)
Definition picked (l : list (nat * child)) (best : option (nat * child)) (r : option nat) : Prop :=
  match r with
  | None => best = None /\ forall x, x ∈ l -> es x.1 !! pos x.1 = None
  | Some b => exists e, es b !! pos b = Some e /\
      forall x e', x ∈ l \/ best = Some x -> has_entry x e' -> ord e.1 e'.1 <> Gt
  end.

Lemma picked_entry i c e l best x ex r : has_entry (i, c) e -> (forall y ey, y = (i, c) \/ best = Some y -> has_entry y ey -> ord ex.1 ey.1 <> Gt) ->
  has_entry x ex -> picked l (Some x) r -> picked ((i, c) :: l) best r.
Proof.
  intros He Hbest Hx Hr. destruct r as [b|]; [|by destruct Hr]. destruct Hr as (em & Em & Hmin). exists em. split; [done|].
  assert (Hle : ord em.1 ex.1 <> Gt) by (by apply (Hmin x ex); [right|]).
  intros y ey [[->|Hy]%elem_of_cons|Hy] Ey; [apply (order_trans _ ex.1); [done|]; apply (Hbest (i, c)); [by left|done]|by apply (Hmin y ey); [left|]|].
  apply (order_trans _ ex.1); [done|]. by apply (Hbest y ey); [right|].
Qed.

Lemma pick_ok l : forall best,
  (forall x, x ∈ l -> (x.1 < length ess)%nat /\ wraps (es x.1) (at_ x.1) x.2 (pos x.1)) ->
  (forall x, best = Some x -> exists e, has_entry x e) -> exists r, pick better l best = Ok r /\ picked l best r.
Proof.
  induction l as [|[i c] l IH]; intros best Hl Hb.
  - exists (fst <$> best). split; [done|]. destruct best as [x|]; cbn; [|split; [done|]; intros x Hx; by apply elem_of_nil in Hx].
    destruct (Hb x eq_refl) as (e & _ & _ & E). exists e. split; [done|]. intros x' e' [Hx|[= <-]] (_ & _ & E'); [by apply elem_of_nil in Hx|].
    rewrite E in E'. injection E' as <-. by rewrite (order_refl ord).
  - destruct (Hl (i, c) ltac:(by left)) as [Hi Hw]. cbn [fst snd] in Hi, Hw.
    assert (Hl' : forall x, x ∈ l -> (x.1 < length ess)%nat /\ wraps (es x.1) (at_ x.1) x.2 (pos x.1)) by (intros x Hx; apply Hl; by right).
    destruct (es i !! pos i) as [e|] eqn:E.
    + assert (He : has_entry (i, c) e) by done. destruct (pick_entry i c e l best He Hb) as (x & ex & -> & Hx & Hbest).
      destruct (IH (Some x) Hl') as (r & Er & Hr); [intros y [= <-]; by exists ex|]. exists r. split; [done|]. by apply (picked_entry i c e l best x ex).
    + assert (Ev : valid_ c = false) by (rewrite (wraps_valid _ _ Hw); apply Nat.ltb_ge; by apply lookup_ge_None).
      cbn [pick]. rewrite Ev. destruct (IH best Hl' Hb) as (r & Ep & Hr). exists r. split; [done|]. destruct r as [b|].
      * destruct Hr as (em & Em & Hmin). exists em. split; [done|].
        intros y ey [[->|Hy]%elem_of_cons|Hy] Ey; [destruct Ey as (_ & _ & Ey); cbn in Ey; congruence|by apply (Hmin y ey); [left|]|by apply (Hmin y ey); [right|]].
      * destruct Hr as [-> Hn]. split; [done|]. intros y [->|Hy]%elem_of_cons; [done|by apply Hn].
Qed.
End Pick.

#[local] Instance flip_order : TotalOrder (fun a b => order b a).
Proof.
  split.
  - intros a b. apply (order_antisym b a).
  - intros a b c Hab Hbc. by apply (order_trans c b a).
Qed.

Lemma elem_of_numbered x (l : list child) : x ∈ numbered l <-> l !! x.1 = Some x.2.
Proof.
  unfold numbered. split.
  - intros (i & E)%list_elem_of_lookup. rewrite list_lookup_imap in E. destruct (l !! i) eqn:El; [|done]. by injection E as <-.
  - intros E. apply (list_elem_of_lookup_2 _ x.1). rewrite list_lookup_imap, E. by destruct x.
Qed.

Lemma placed_numbered pos l x : placed pos l -> x ∈ numbered l -> (x.1 < length ess)%nat /\ wraps (es x.1) (at_ x.1) x.2 (pos x.1).
Proof.
  intros [Hlen Hl] Hx. apply elem_of_numbered in Hx. split; [|by apply Hl]. apply lookup_lt_Some in Hx. by rewrite <- Hlen.
Qed.

Lemma placed_child pos l i : placed pos l -> (i < length ess)%nat -> exists c, (i, c) ∈ numbered l.
Proof.
  intros [Hlen Hl] Hi. destruct (lookup_lt_is_Some_2 l i) as [c Hc]; [by rewrite Hlen|]. exists c. by apply elem_of_numbered.
Qed.

Lemma placed_has pos l b e c : placed pos l -> (b, c) ∈ numbered l -> es b !! pos b = Some e -> has_entry pos (b, c) e.
Proof. intros Hl Hc E. by destruct (placed_numbered pos l (b, c) Hl Hc) as [Hb Hw]. Qed.

Lemma FindSmallest_ok l pos g : placed pos l -> (forall i, split_at i g (pos i)) ->
  exists r, FindSmallest l = Ok r /\
    match total !! g with
    | Some e => exists b, r = Some b /\ es b !! pos b = Some e
    | None => r = None
    end.
Proof.
  intros Hl Hp. unfold FindSmallest. destruct (pick_ok order (fun r => r <? 0)) with (pos := pos) (l := numbered l) (best := @None (nat * child)) as (r & E & Hr); try done.
  - intros a b Ha Hb. destruct (compare_law a b Ha Hb) as (r & E & <-). exists r. split; [done|]. rewrite Z.compare_lt_iff. apply Z.ltb_lt.
  - intros x Hx. by apply (placed_numbered pos l).
  - exists r. split; [exact E|].
    assert (Hc : forall e, total !! g = Some e -> exists c wc, (c, wc) ∈ numbered l /\ es c !! pos c = Some e).
    { intros e Eg. destruct (total_child g e Eg) as (c & p & Ep). pose proof (split_holds c g (pos c) p e (Hp c) Eg Ep) as Ec. rewrite <- Ec in Ep.
      destruct (placed_child pos l c Hl (child_bound _ _ _ Ep)) as (wc & Hwc). by exists c, wc. }
    destruct r as [b|].
    + destruct Hr as (eb & Eb & Hmin). destruct (child_in b (pos b) eb Eb) as (j & Ej). destruct (Hp b) as [_ Hs].
      assert (Hgj : (g <= j)%nat).
      { destruct (Nat.le_gt_cases g j) as [|Hlt]; [done|]. assert (pos b < pos b)%nat; [|lia]. apply (Hs _ eb Eb). by exists j. }
      destruct (total !! g) as [e|] eqn:Eg; [|apply lookup_ge_None in Eg; apply lookup_lt_Some in Ej; lia].
      destruct (Hc e eq_refl) as (c & wc & Hwc & Ec). pose proof (Hmin (c, wc) e (or_introl Hwc) (placed_has pos l c e wc Hl Hwc Ec)) as Hle.
      exists b. split; [done|]. assert (j = g) as ->; [|congruence]. destruct (Nat.lt_trichotomy g j) as [Hlt|[->|Hlt]]; [|done|lia].
      apply (total_lt g j e eb Eg Ej) in Hlt. exfalso. by apply Hle, (order_gt order).
    + destruct Hr as [_ Hn]. destruct (total !! g) as [e|] eqn:Eg; [|done]. exfalso. destruct (Hc e eq_refl) as (c & wc & Hwc & Ec).
      specialize (Hn (c, wc) Hwc). cbn in Hn. congruence.
Qed.

(** One entry back, past the last one from the first. *)
Definition back (i p : nat) : nat := match p with O => length (es i) | Datatypes.S q => q end.

(** One entry back. *)
Lemma split_back c g q p e : split_at c (Datatypes.S g) q -> total !! g = Some e -> es c !! p = Some e -> split_at c g p.
Proof.
  intros [Hl Hs] Eg Ep. assert (Hpq : (p < q)%nat) by (apply (Hs p e Ep); exists g; split; [lia|done]).
  split; [lia|]. intros m e' Em. split.
  - intros Hm. destruct (proj1 (Hs m e' Em) ltac:(lia)) as (j & Hj & Ej). exists j. split; [|done].
    destruct (decide (j = g)) as [->|]; [|lia]. rewrite Eg in Ej. injection Ej as <-. destruct (child_disjoint c c m p e Em Ep) as [_ ->]. lia.
  - intros (j & Hj & Ej). destruct (total_lt j g e' e Ej Eg) as [_ Ho]. specialize (Ho Hj).
    destruct (Nat.lt_trichotomy m p) as [|[->|Hlt]]; [done| |]; exfalso.
    + rewrite Ep in Em. injection Em as <-. by rewrite (order_refl order) in Ho.
    + assert (Ho' : order e.1 e'.1 = Lt).
      { apply (sorted_lookup _ (keys_of (es c)) p m e.1 e'.1 (Hsub c)); [| |done]; unfold keys_of; rewrite list_lookup_fmap; [by rewrite Ep|by rewrite Em]. }
      rewrite (order_antisym e.1 e'.1), Ho' in Ho. done.
Qed.

Lemma split_back_same i g p e : split_at i (Datatypes.S g) p -> total !! g = Some e -> (forall m, es i !! m <> Some e) -> split_at i g p.
Proof.
  intros [Hl Hs] E Hne. split; [done|]. intros m e' Em. rewrite (Hs m e' Em). split; intros (j & Hj & Ej).
  - exists j. split; [|done]. destruct (decide (j = g)) as [->|]; [|lia]. rewrite E in Ej. injection Ej as <-. by destruct (Hne m).
  - exists j. split; [lia|done].
Qed.

Lemma back_holds c g q p e : split_at c (Datatypes.S g) q -> total !! g = Some e -> es c !! p = Some e -> back c q = p.
Proof.
  intros Hq Eg Ep. pose proof (split_step c g p e (split_back c g q p e Hq Eg Ep) Eg Ep) as Hsp.
  by rewrite (split_unique c _ q _ Hq Hsp).
Qed.

Lemma FindLargest_ok l pos g : placed (fun i => back i (pos i)) l -> (forall i, split_at i g (pos i)) -> (g <= length total)%nat ->
  exists r, FindLargest l = Ok r /\
    match g with
    | O => r = None
    | Datatypes.S g' => exists b e, r = Some b /\ total !! g' = Some e /\ es b !! back b (pos b) = Some e
    end.
Proof.
  intros Hl Hp Hg. unfold FindLargest.
  destruct (pick_ok (fun a b => order b a) (fun r => 0 <? r)) with (pos := fun i => back i (pos i)) (l := rev (numbered l)) (best := @None (nat * child)) as (r & E & Hr); try done.
  - intros a b Ha Hb. destruct (compare_law a b Ha Hb) as (r & E & Er). exists r. split; [done|].
    rewrite <- (order_gt order b a), <- Er, Z.compare_gt_iff. apply Z.ltb_lt.
  - intros x Hx. apply (placed_numbered (fun i => back i (pos i)) l); [done|]. by apply list_elem_of_In, in_rev, list_elem_of_In.
  - exists r. split; [exact E|].
    assert (Hc : forall g' e, g = Datatypes.S g' -> total !! g' = Some e -> exists c wc, (c, wc) ∈ numbered l /\ es c !! back c (pos c) = Some e).
    { intros g' e -> Eg. destruct (total_child g' e Eg) as (c & p & Ep). specialize (Hp c). rewrite <- (back_holds c g' (pos c) p e Hp Eg Ep) in Ep.
      destruct (placed_child _ l c Hl (child_bound _ _ _ Ep)) as (wc & Hwc). by exists c, wc. }
    destruct r as [b|].
    + destruct Hr as (eb & Eb & Hmin). destruct (child_in b _ eb Eb) as (j & Ej).
      assert (Hjg : (j < g)%nat).
      { destruct (pos b) as [|q] eqn:Eq; cbn [back] in Eb; [apply lookup_lt_Some in Eb; lia|]. destruct (Hp b) as [_ Hs]. rewrite Eq in Hs.
        destruct (proj1 (Hs q eb Eb) ltac:(lia)) as (j' & Hj' & Ej'). by rewrite (total_eq j j' eb eb Ej Ej' (order_refl order eb.1)). }
      destruct g as [|g']; [lia|]. destruct (lookup_lt_is_Some_2 total g' ltac:(lia)) as [e Eg].
      destruct (Hc g' e eq_refl Eg) as (c & wc & Hwc & Ec).
      assert (Hin : (c, wc) ∈ rev (numbered l)) by (apply list_elem_of_In, in_rev; rewrite rev_involutive; by apply list_elem_of_In).
      pose proof (Hmin (c, wc) e (or_introl Hin) (placed_has _ l c e wc Hl Hwc Ec)) as Hle. cbn beta in Hle.
      exists b, eb. split; [done|]. split; [|done]. assert (j = g') as ->; [|done]. destruct (Nat.lt_trichotomy g' j) as [Hlt|[->|Hlt]]; [lia|done|].
      apply (total_lt j g' eb e Ej Eg) in Hlt. exfalso. by apply Hle, (order_gt order).
    + destruct Hr as [_ Hn]. destruct g as [|g']; [done|]. exfalso. destruct (lookup_lt_is_Some_2 total g' ltac:(lia)) as [e Eg].
      destruct (Hc g' e eq_refl Eg) as (c & wc & Hwc & Ec).
      assert (Hin : (c, wc) ∈ rev (numbered l)) by (apply list_elem_of_In, in_rev; rewrite rev_involutive; by apply list_elem_of_In).
      specialize (Hn (c, wc) Hin). cbn in Hn. congruence.
Qed.

(** ** The cursor *)
Definition merge_usable (m : MergingIterator S) : Prop :=
  length (children_ m) = length ess /\ forall i c, children_ m !! i = Some c -> has_usable (usable i) c.

(** Forward, every child is at its first entry from [g] on; backward, only
    the current one is, and the others are one entry before. *)
Definition child_pos (d : Direction) (b : nat) (pos : nat -> nat) (i : nat) : nat :=
  if decide (d = kForward \/ i = b) then pos i else back i (pos i).
Definition merge_at (m : MergingIterator S) (g : nat) : Prop :=
  (g <= length total)%nat /\
  match total !! g with
  | None => current_ m = None /\ exists pos, placed pos (children_ m)
  | Some e => exists b pos, current_ m = Some b /\ es b !! pos b = Some e /\
      (forall i, split_at i g (pos i)) /\ placed (child_pos (direction_ m) b pos) (children_ m)
  end.

Lemma placed_usable pos l c d : placed pos l -> merge_usable (mk_merging l c d).
Proof.
  intros [Hlen Hl]. split; [done|]. intros i w E. cbn in E.
  assert (Hi : (i < length ess)%nat) by (rewrite <- Hlen; by apply lookup_lt_Some in E). apply (wraps_usable (Hlaw := Hlaw i Hi) w (pos i)), Hl, E.
Qed.

Lemma placed_ext pos pos' l : placed pos l -> (forall i, pos i = pos' i) -> placed pos' l.
Proof. intros [Hlen Hl] E. split; [done|]. intros i c Hi. rewrite <- E. by apply Hl. Qed.

Lemma smallest_at l pos g : placed pos l -> (forall i, split_at i g (pos i)) -> (g <= length total)%nat ->
  exists r, FindSmallest l = Ok r /\ merge_at (mk_merging l r kForward) g.
Proof.
  intros Hl Hp Hg. destruct (FindSmallest_ok l pos g Hl Hp) as (r & E & Hr). exists r. split; [done|]. split; [done|].
  destruct (total !! g) as [e|]; [|split; [done|by exists pos]].
  destruct Hr as (b & -> & Eb). exists b, pos. split; [done|]. split; [done|]. split; [done|]. apply (placed_ext pos); [done|].
  intros i. unfold child_pos. by rewrite decide_True by (by left).
Qed.

Lemma not_in_other b i p e : es b !! p = Some e -> i <> b -> forall m, es i !! m <> Some e.
Proof. intros Eb Hne m Em. by destruct (child_disjoint i b m p e Em Eb). Qed.

Lemma largest_at l pos g : placed (fun i => back i (pos i)) l -> (forall i, split_at i g (pos i)) -> (g <= length total)%nat ->
  exists r, FindLargest l = Ok r /\ merge_at (mk_merging l r kReverse) (match g with O => length total | Datatypes.S j => j end).
Proof.
  intros Hl Hp Hg. destruct (FindLargest_ok l pos g Hl Hp Hg) as (r & E & Hr). exists r. split; [done|]. destruct g as [|g].
  - split; [done|]. rewrite lookup_ge_None_2 by done. split; [done|]. by exists (fun i => back i (pos i)).
  - split; [lia|]. destruct Hr as (b & e & -> & Eg & Eb). rewrite Eg.
    exists b, (fun i => if decide (i = b) then back i (pos i) else pos i). split; [done|]. split; [by rewrite decide_True|]. split.
    + intros i. destruct (decide (i = b)) as [->|Hne]; [by apply (split_back b g (pos b) _ e)|].
      apply (split_back_same i g (pos i) e); [done|done|]. by apply (not_in_other b i (back b (pos b)) e).
    + apply (placed_ext (fun i => back i (pos i))); [done|]. intros i. unfold child_pos. cbn [direction_].
      destruct (decide (i = b)) as [->|Hne]; [by rewrite decide_True by (by right)|]. rewrite decide_False; [done|]. by intros [|].
Qed.

(** Every child is moved. *)
Lemma each_move (f : child -> outcome child) pos m : merge_usable m ->
  (forall i c, (i < length ess)%nat -> has_usable (usable i) c -> exists c', f c = Ok c' /\ wraps (es i) (at_ i) c' (pos i)) ->
  exists l, each (fun _ => f) 0 (children_ m) = Ok l /\ placed pos l.
Proof. intros [Hlen Hu] Hf. apply each_placed; [done|]. intros i c E Hi. apply Hf; [done|]. by apply Hu. Qed.

Lemma merging_SeekToFirst_ok m : merge_usable m -> exists m', merging_SeekToFirst m = Ok m' /\ merge_at m' 0.
Proof.
  intros Hm. destruct (each_move wrapper_SeekToFirst (fun _ => 0%nat) m Hm) as (l & E & Hl); [intros i c Hi; apply (wraps_first (Hlaw := Hlaw i Hi))|].
  unfold merging_SeekToFirst. rewrite E. cbn [obind]. destruct (smallest_at l (fun _ => 0%nat) 0 Hl) as (r & -> & Hat); [|lia|by eexists].
  intros i. split; [lia|]. intros p e _. split; [lia|]. intros (j & Hj & _). lia.
Qed.

Lemma merging_SeekToLast_ok m : merge_usable m -> exists m', merging_SeekToLast m = Ok m' /\ merge_at m' (length total - 1).
Proof.
  intros Hm. destruct (each_move wrapper_SeekToLast (fun i => length (es i) - 1)%nat m Hm) as (l & E & Hl); [intros i c Hi; apply (wraps_last (Hlaw := Hlaw i Hi))|].
  unfold merging_SeekToLast. rewrite E. cbn [obind]. destruct (largest_at l (fun i => length (es i)) (length total)) as (r & -> & Hat); [| |done|].
  - apply (placed_ext _ _ l Hl). intros i. cbn beta. destruct (length (es i)) eqn:E0; cbn [back]; lia.
  - intros i. apply split_end.
  - eexists. split; [done|]. destruct (length total); cbn [Nat.sub] in *; [done|]. by rewrite Nat.sub_0_r.
Qed.

Lemma merging_Seek_ok m k : merge_usable m -> valid k -> exists m', merging_Seek k m = Ok m' /\ merge_at m' (place order k (keys_of total)).
Proof.
  intros Hm Hk. destruct (each_move (wrapper_Seek k) (fun i => place order k (keys_of (es i))) m Hm) as (l & E & Hl).
  { intros i c Hi Hu. by apply (wraps_seek (Hlaw := Hlaw i Hi)). }
  unfold merging_Seek. rewrite E. cbn [obind].
  destruct (smallest_at l (fun i => place order k (keys_of (es i))) (place order k (keys_of total)) Hl) as (r & -> & Hat); [intros i; apply split_place| |by eexists].
  pose proof (place_le order k (keys_of total)) as Hle. unfold keys_of in Hle at 2. by rewrite length_map in Hle.
Qed.

(** ** Steps *)
Lemma merge_at_inv m g e : merge_at m g -> total !! g = Some e ->
  exists b c pos, current_child m = Ok (b, c) /\ children_ m !! b = Some c /\ (b < length ess)%nat /\ es b !! pos b = Some e /\
    wraps (es b) (at_ b) c (pos b) /\ (forall i, split_at i g (pos i)) /\ placed (child_pos (direction_ m) b pos) (children_ m).
Proof.
  intros [_ Hm] E. rewrite E in Hm. destruct Hm as (b & pos & Eb & Ep & Hs & Hl). pose proof (child_bound _ _ _ Ep) as Hb.
  destruct Hl as [Hlen Hl]. destruct (lookup_lt_is_Some_2 (children_ m) b) as [c Ec]; [by rewrite Hlen|].
  exists b, c, pos. unfold current_child. rewrite Eb, Ec. split; [done|]. split; [done|]. split; [done|]. split; [done|].
  split; [|by split; [|split]]. pose proof (Hl b c Ec) as Hw. unfold child_pos in Hw. by rewrite decide_True in Hw by (by right).
Qed.

Lemma total_valid g e : total !! g = Some e -> valid e.1.
Proof. intros E. rewrite Forall_lookup in Hvalid. by apply (Hvalid g). Qed.

Lemma placed_insert pos l b c p : placed pos l -> wraps (es b) (at_ b) c p ->
  placed (fun i => if decide (i = b) then p else pos i) (<[b := c]> l).
Proof.
  intros [Hlen Hl] Hw. split; [by rewrite length_insert|]. intros i w Hi. destruct (decide (i = b)) as [->|Hne].
  - apply list_lookup_insert_Some in Hi as [(_ & <- & _)|[? _]]; [done|congruence].
  - rewrite list_lookup_insert_ne in Hi by done. by apply Hl.
Qed.

(** [Seek(key())] of another child. *)
Lemma reseek i c g e p : (i < length ess)%nat -> has_usable (usable i) c -> total !! g = Some e -> split_at i g p ->
  exists c', wrapper_Seek e.1 c = Ok c' /\ wraps (es i) (at_ i) c' p.
Proof.
  intros Hi Hu E Hp. destruct (wraps_seek (Hlaw := Hlaw i Hi) c e.1 Hu (total_valid g e E)) as (c' & Ec & Hw).
  pose proof (split_place i e.1) as Hsp. rewrite (place_total g e E) in Hsp. rewrite (split_unique i g _ p Hsp Hp) in Hw. by exists c'.
Qed.

Lemma child_after_ok i b g e p q c : (i < length ess)%nat -> i <> b -> total !! g = Some e -> es b !! q = Some e ->
  split_at i g p -> has_usable (usable i) c -> exists c', child_after e.1 c = Ok c' /\ wraps (es i) (at_ i) c' p.
Proof.
  intros Hi Hne E Eb Hp Hu. destruct (reseek i c g e p Hi Hu E Hp) as (c' & Ec & Hw). unfold child_after. rewrite Ec. cbn [obind].
  rewrite (wraps_valid _ _ Hw). destruct (Nat.ltb_spec p (length (es i))) as [Hlt|]; [|by exists c'].
  destruct (lookup_lt_is_Some_2 (es i) p Hlt) as [[k v] Ek]. destruct (wraps_entry (Hlaw := Hlaw i Hi) c' p k v Hw Ek) as [-> _].
  destruct (child_in i p _ Ek) as (j & Ej). destruct (compare_law e.1 k (total_valid g e E) (total_valid j _ Ej)) as (r & Er' & Er).
  cbn [obind fst] in *. rewrite Er'. cbn [obind]. destruct (Z.eqb_spec r 0) as [->|]; [|by exists c']. exfalso. symmetry in Er.
  pose proof (total_eq g j e (k, v) E Ej Er) as ->. rewrite E in Ej. injection Ej as ->. by destruct (child_disjoint i b p q _ Ek Eb).
Qed.

Lemma child_before_ok i g e p c : (i < length ess)%nat -> total !! g = Some e ->
  split_at i g p -> has_usable (usable i) c -> exists c', child_before e.1 c = Ok c' /\ wraps (es i) (at_ i) c' (back i p).
Proof.
  intros Hi E Hp Hu. destruct (reseek i c g e p Hi Hu E Hp) as (c' & Ec & Hw). unfold child_before. rewrite Ec. cbn [obind].
  rewrite (wraps_valid _ _ Hw). destruct (Nat.ltb_spec p (length (es i))) as [Hlt|Hge]; [by apply (wraps_prev (Hlaw := Hlaw i Hi))|].
  pose proof (wraps_le (Hlaw := Hlaw i Hi) _ _ Hw) as Hle. replace (back i p) with (length (es i) - 1)%nat.
  - apply (wraps_last (Hlaw := Hlaw i Hi)). by apply (wraps_usable (Hlaw := Hlaw i Hi) c' p).
  - assert (p = length (es i)) as -> by lia. destruct (length (es i)) eqn:E0; cbn [back]; lia.
Qed.

(** All children but the current one are moved. *)
Lemma each_other_placed f b c pos pos' l : placed pos l -> l !! b = Some c -> wraps (es b) (at_ b) c (pos' b) ->
  (forall i c, (i < length ess)%nat -> i <> b -> has_usable (usable i) c -> exists c', f c = Ok c' /\ wraps (es i) (at_ i) c' (pos' i)) ->
  exists l', each_other b f l = Ok l' /\ placed pos' l'.
Proof.
  intros [Hlen Hl] Hb Hw Hf. apply each_placed; [done|]. intros i w Ei Hi. destruct (decide (i = b)) as [->|Hne].
  - rewrite Hb in Ei. injection Ei as <-. by exists c.
  - apply Hf; [done|done|]. apply (wraps_usable (Hlaw := Hlaw i Hi) w (pos i)). by apply Hl.
Qed.

Lemma merging_Next_ok m g : merge_at m g -> (g < length total)%nat -> exists m', merging_Next m = Ok m' /\ merge_at m' (g + 1).
Proof.
  intros Hat Hg. destruct (lookup_lt_is_Some_2 total g Hg) as [e E].
  destruct (merge_at_inv m g e Hat E) as (b & c & pos & Ec & El & Hb & Ep & Hw & Hs & Hl). unfold merging_Next. rewrite Ec. cbn [obind].
  destruct (wraps_entry (Hlaw := Hlaw b Hb) c (pos b) e.1 e.2 Hw) as [Ek _]; [by destruct e|].
  assert (Hall : exists l, (if decide (direction_ m = kForward) then Ok (children_ m)
    else let! key := wrapper_key c in each_other b (child_after key) (children_ m)) = Ok l /\ placed pos l).
  { destruct (decide (direction_ m = kForward)) as [Ed|_].
    - eexists. split; [done|]. apply (placed_ext _ _ _ Hl). intros i. unfold child_pos. by rewrite decide_True by (by left).
    - rewrite Ek. cbn [obind]. apply (each_other_placed _ b c _ pos _ Hl El Hw). intros i w Hi Hne Hu.
      by apply (child_after_ok i b g e (pos i) (pos b)). }
  destruct Hall as (l & -> & Hpl). cbn [obind].
  destruct (wraps_next (Hlaw := Hlaw b Hb) c (pos b) Hw (lookup_lt_Some _ _ _ Ep)) as (c' & -> & Hw'). cbn [obind].
  pose proof (placed_insert pos l b c' _ Hpl Hw') as Hpl'.
  destruct (smallest_at _ _ (g + 1) Hpl') as (r & -> & Hat'); [|lia|by eexists].
  intros i. rewrite Nat.add_1_r. destruct (decide (i = b)) as [->|Hne]; [rewrite Nat.add_1_r; by apply (split_step b g (pos b) e)|].
  apply (split_same i g (pos i) e); [done|done|]. by apply (not_in_other b i (pos b) e).
Qed.

Lemma merging_Prev_ok m g : merge_at m g -> (g < length total)%nat ->
  exists m', merging_Prev m = Ok m' /\ merge_at m' (match g with O => length total | Datatypes.S j => j end).
Proof.
  intros Hat Hg. destruct (lookup_lt_is_Some_2 total g Hg) as [e E].
  destruct (merge_at_inv m g e Hat E) as (b & c & pos & Ec & El & Hb & Ep & Hw & Hs & Hl). unfold merging_Prev. rewrite Ec. cbn [obind].
  destruct (wraps_entry (Hlaw := Hlaw b Hb) c (pos b) e.1 e.2 Hw) as [Ek _]; [by destruct e|].
  assert (Hall : exists l, (if decide (direction_ m = kReverse) then Ok (children_ m)
    else let! key := wrapper_key c in each_other b (child_before key) (children_ m)) = Ok l /\ placed (child_pos kReverse b pos) l).
  { destruct (decide (direction_ m = kReverse)) as [Ed|_]; [eexists; split; [done|]; by rewrite <- Ed|].
    rewrite Ek. cbn [obind]. apply (each_other_placed _ b c _ _ _ Hl El).
    - unfold child_pos. by rewrite decide_True by (by right).
    - intros i w Hi Hne Hu. unfold child_pos. rewrite decide_False by (by intros [|]). by apply (child_before_ok i g e (pos i)). }
  destruct Hall as (l & -> & Hpl). cbn [obind].
  destruct (wraps_prev (Hlaw := Hlaw b Hb) c (pos b) Hw (lookup_lt_Some _ _ _ Ep)) as (c' & -> & Hw'). cbn [obind].
  pose proof (placed_insert _ l b c' _ Hpl Hw') as Hpl'.
  destruct (largest_at (<[b := c']> l) pos g) as (r & -> & Hat'); [|done|lia|by eexists].
  apply (placed_ext _ _ _ Hpl'). intros i. destruct (decide (i = b)) as [->|Hne]; [done|].
  unfold child_pos. by rewrite decide_False by (by intros [|]).
Qed.

Lemma status_ok l i : forall pos, length l = (length ess - i)%nat -> (forall j c, l !! j = Some c -> wraps (es (i + j)) (at_ (i + j)) c (pos j)) ->
  merging_status l OK = Ok OK.
Proof.
  revert i. induction l as [|c l IH]; intros i pos Hlen Hl; [done|]. cbn [length] in Hlen. pose proof (Hl 0%nat c eq_refl) as Hw.
  rewrite Nat.add_0_r in Hw. cbn [merging_status]. rewrite (wraps_status (Hlaw := Hlaw i ltac:(lia)) c (pos 0%nat) Hw). cbn [obind ok negb].
  apply (IH (Datatypes.S i) (fun j => pos (Datatypes.S j))); [lia|]. intros j d Hj. rewrite Nat.add_succ_comm. by apply Hl.
Qed.

Lemma merge_placed m g : merge_at m g -> exists pos, placed pos (children_ m).
Proof.
  intros [_ Hm]. destruct (total !! g) as [e|]; [|by destruct Hm]. destruct Hm as (b & pos & _ & _ & _ & Hl). by eexists.
Qed.

#[export] Instance merging_lawful : LawfulIterator (MergingIterator S) order valid total merge_usable merge_at.
Proof.
  split.
  - intros m g Hat. split; [|by destruct Hat]. destruct (merge_placed m g Hat) as (pos & Hl). destruct m as [l c d]. by apply (placed_usable pos).
  - intros m. apply merging_SeekToFirst_ok.
  - intros m. apply merging_SeekToLast_ok.
  - intros m k. apply merging_Seek_ok.
  - intros m g. apply merging_Next_ok.
  - intros m g. apply merging_Prev_ok.
  - intros m g [_ Hm]. cbn. unfold merging_Valid. destruct (Nat.ltb_spec g (length total)) as [Hlt|Hge].
    + destruct (lookup_lt_is_Some_2 total g Hlt) as [e E]. rewrite E in Hm. by destruct Hm as (b & pos & -> & _).
    + rewrite lookup_ge_None_2 in Hm by done. by destruct Hm as [-> _].
  - intros m g k v Hat E. destruct (merge_at_inv m g _ Hat E) as (b & c & pos & Ec & _ & Hb & Ep & Hw & _).
    cbn. unfold merging_key, merging_value. rewrite Ec. cbn [obind]. by apply (wraps_entry (Hlaw := Hlaw b Hb) c (pos b)).
  - intros m g Hat. destruct (merge_placed m g Hat) as (pos & Hlen & Hl). cbn. apply (status_ok _ 0 pos); [lia|]. exact Hl.
Qed.

(** ** Construction *)
Lemma each_Set children : forall l i, length (l : list child) = length (drop i children) -> (i <= length children)%nat ->
  (forall j s, children !! j = Some s -> exists b, Valid s = Ok b /\ (b = true -> exists k, key s = Ok k)) ->
  exists l', each (fun i => wrapper_Set (children !! i)) i l = Ok l' /\ length l' = length l /\
    forall j c s, l' !! j = Some c -> children !! (i + j)%nat = Some s -> iter_ c = Some s.
Proof.
  induction l as [|c l IH]; intros i Hlen Hi Hv; [by exists []|]. cbn [length] in Hlen. rewrite length_drop in Hlen.
  destruct (lookup_lt_is_Some_2 children i ltac:(lia)) as [s Es]. cbn [each]. rewrite Es. cbn [wrapper_Set].
  assert (Hu : exists c', Update s c = Ok c').
  { destruct (Hv i s Es) as (b & Eb & Hk). unfold Update. rewrite Eb. cbn [obind]. destruct b; [|by eexists].
    destruct (Hk eq_refl) as (k & ->). by eexists. }
  destruct Hu as (c' & Ec). rewrite Ec. cbn [obind]. destruct (IH (Datatypes.S i)) as (l' & -> & Hlen' & Hl'); [rewrite length_drop; lia|lia|done|].
  cbn [obind]. exists (c' :: l'). split; [done|]. split; [cbn; by rewrite Hlen'|]. intros [|j] w s' Ej Es'.
  - injection Ej as <-. rewrite Nat.add_0_r, Es in Es'. injection Es' as <-. by eapply Update_iter.
  - apply (Hl' j w s' Ej). by rewrite Nat.add_succ_comm.
Qed.

Lemma new_MergingIterator_ok children : length children = length ess ->
  (forall i s, children !! i = Some s -> usable i s /\ exists b, Valid s = Ok b /\ (b = true -> exists k, key s = Ok k)) ->
  exists m, new_MergingIterator children = Ok m /\ merge_usable m.
Proof.
  intros Hlen Hc. unfold new_MergingIterator.
  destruct (each_Set children (map (fun _ => mk_wrapper None false []) children) 0) as (l & -> & Hlen' & Hl); [by rewrite length_map|lia|intros j s Es; by apply (Hc j)|].
  eexists. split; [done|]. rewrite length_map in Hlen'. split; cbn [children_]; [congruence|]. intros i c Ei.
  destruct (lookup_lt_is_Some_2 children i) as [s Es]; [apply lookup_lt_Some in Ei; lia|]. exists s. split; [by apply (Hl i c s)|]. by apply (Hc i s).
Qed.

(** What [NewMergingIterator] returns: also with one child, and without any. *)
Definition merged_usable (m : Merged S) : Prop :=
  match m with
  | NoChild e => e = OK /\ ess = []
  | OneChild s => length ess = 1%nat /\ usable 0 s
  | ManyChildren m => merge_usable m
  end.
Definition merged_at (m : Merged S) (g : nat) : Prop :=
  match m with
  | NoChild e => e = OK /\ ess = [] /\ g = 0%nat
  | OneChild s => length ess = 1%nat /\ at_ 0 s g
  | ManyChildren m => merge_at m g
  end.

Lemma sorted_pairs (l : pairs) : sorted order (keys_of l) -> StronglySorted (fun a b => order a.1 b.1 = Lt) l.
Proof.
  induction l as [|e l IH]; [constructor|]. unfold sorted. cbn. intros [Hl He]%StronglySorted_inv. constructor; [by apply IH|].
  by apply Forall_map in He.
Qed.

Lemma total_one : length ess = 1%nat -> total = es 0.
Proof.
  intros El. apply (sorting.StronglySorted_unique_strong (fun a b => order a.1 b.1 = Lt)).
  - intros a b _ _ Hab Hba. cbn in Hab, Hba. by rewrite (order_antisym b.1 a.1), Hba in Hab.
  - by apply sorted_pairs.
  - by apply sorted_pairs.
  - rewrite Hperm. unfold es. destruct ess as [|x [|]]; try done. cbn. by rewrite app_nil_r.
Qed.

Lemma total_none : ess = [] -> total = [].
Proof. intros E. rewrite E in Hperm. by apply Permutation_nil_r in Hperm. Qed.

#[local] Ltac merged_step H := let s := fresh "s" in let E := fresh "E" in let Hat := fresh "Hat" in
  destruct H as (s & E & Hat); cbn [SeekToFirst SeekToLast Seek Next Prev merged_iterator merged_move]; rewrite E; cbn [obind]; eexists; split; [reflexivity|].

#[export] Instance merged_lawful : LawfulIterator (Merged S) order valid total merged_usable merged_at.
Proof.
  assert (Hone : length ess = 1%nat -> (0 < length ess)%nat) by lia. pose proof merging_lawful as Hm.
  split.
  - intros [e|s|m] g; cbn [merged_at merged_usable]; [|intros [El Hat]|apply (at_usable (LawfulIterator := Hm))].
    + intros (-> & El & ->). split; [done|lia].
    + rewrite (total_one El). destruct (at_usable (LawfulIterator := Hlaw 0 (Hone El)) s g Hat). done.
  - intros [e|s|m]; cbn [merged_usable]; [intros [-> El]; by eexists|intros [El Hu]|intros Hu].
    + by merged_step (first_law (LawfulIterator := Hlaw 0 (Hone El)) s Hu).
    + by merged_step (first_law (LawfulIterator := Hm) m Hu).
  - intros [e|s|m]; cbn [merged_usable]; [intros [-> El]; eexists; split; [done|by rewrite (total_none El)]|intros [El Hu]|intros Hu].
    + rewrite (total_one El). by merged_step (last_law (LawfulIterator := Hlaw 0 (Hone El)) s Hu).
    + by merged_step (last_law (LawfulIterator := Hm) m Hu).
  - intros [e|s|m] k; cbn [merged_usable]; [intros [-> El] _; eexists; split; [done|by rewrite (total_none El)]|intros [El Hu] Hk|intros Hu Hk].
    + rewrite (total_one El). by merged_step (seek_law (LawfulIterator := Hlaw 0 (Hone El)) s k Hu Hk).
    + by merged_step (seek_law (LawfulIterator := Hm) m k Hu Hk).
  - intros [e|s|m] g; cbn [merged_at]; [intros (_ & El & ->); rewrite (total_none El); cbn; lia|intros [El Hat]|intros Hat]; intros Hg.
    + rewrite (total_one El) in Hg. by merged_step (next_law (LawfulIterator := Hlaw 0 (Hone El)) s g Hat Hg).
    + by merged_step (next_law (LawfulIterator := Hm) m g Hat Hg).
  - intros [e|s|m] g; cbn [merged_at]; [intros (_ & El & ->); rewrite (total_none El); cbn; lia|intros [El Hat]|intros Hat]; intros Hg.
    + rewrite (total_one El) in *. by merged_step (prev_law (LawfulIterator := Hlaw 0 (Hone El)) s g Hat Hg).
    + by merged_step (prev_law (LawfulIterator := Hm) m g Hat Hg).
  - intros [e|s|m] g; cbn [merged_at]; [intros (_ & El & ->); by rewrite (total_none El)|intros [El Hat]|apply (valid_law (LawfulIterator := Hm))].
    rewrite (total_one El). apply (valid_law (LawfulIterator := Hlaw 0 (Hone El)) s g Hat).
  - intros [e|s|m] g k v; cbn [merged_at]; [intros (_ & El & ->); by rewrite (total_none El)|intros [El Hat]|apply (entry_law (LawfulIterator := Hm))].
    rewrite (total_one El). apply (entry_law (LawfulIterator := Hlaw 0 (Hone El)) s g k v Hat).
  - intros [e|s|m] g; cbn [merged_at]; [by intros (-> & _)|intros [El Hat]|apply (status_law (LawfulIterator := Hm))].
    apply (status_law (LawfulIterator := Hlaw 0 (Hone El)) s g Hat).
Qed.

Lemma NewMergingIterator_ok children : length children = length ess ->
  (forall i s, children !! i = Some s -> usable i s /\ exists b, Valid s = Ok b /\ (b = true -> exists k, key s = Ok k)) ->
  exists m, NewMergingIterator children = Ok m /\ merged_usable m.
Proof.
  intros Hlen Hc. destruct children as [|s [|s' l]]; cbn [NewMergingIterator].
  - eexists. split; [done|]. split; [done|]. by destruct ess.
  - eexists. split; [done|]. split; [done|]. by apply (Hc 0%nat).
  - destruct (new_MergingIterator_ok (s :: s' :: l) Hlen Hc) as (m & -> & Hm). by eexists.
Qed.
End MergerProof.
