(* ===== verification/DbIter.v ===== *)
(** * The database iterator ([db/db_iter.cc])

    The internal iterator has an entry for every update; the iterator of the
    database combines those of a user key into what a reader at a snapshot
    sees. *)
From S2P Require Import Prelude Env Comparator DbFormat SkipList Iterator.

(** [config::kReadBytesPeriod] and [Random::Uniform]; the number drawn and the
    new seed. *)
Definition kReadBytesPeriod : Z := 1048576.
Definition Uniform (n : Z) (seed_ : Z) : Z * Z :=
  let seed_ := Random_Next seed_ in (seed_ mod n, seed_).

Module DBIter.
Inductive Direction : Type := kForward | kReverse.

(** [samples]: the keys given to [DBImpl::RecordReadSample], the last one
    first. *)
Record DBIter (S : Type) : Type := mk_iter {
  iter_ : S;
  sequence_ : Z;
  status_ : Status;
  saved_key_ : list Z;
  saved_value_ : list Z;
  direction_ : Direction;
  valid_ : bool;
  rnd_ : Z;
  bytes_until_read_sampling_ : Z;
  samples : list (list Z)
}.
Arguments mk_iter {S}. Arguments iter_ {S}. Arguments sequence_ {S}. Arguments status_ {S}.
Arguments saved_key_ {S}. Arguments saved_value_ {S}. Arguments direction_ {S}. Arguments valid_ {S}.
Arguments rnd_ {S}. Arguments bytes_until_read_sampling_ {S}. Arguments samples {S}.

Section Setters.
Context {S : Type} (d : DBIter S).
Definition set_iter (x : S) : DBIter S := mk_iter x (sequence_ d) (status_ d) (saved_key_ d) (saved_value_ d) (direction_ d) (valid_ d) (rnd_ d) (bytes_until_read_sampling_ d) (samples d).
Definition set_status (x : Status) : DBIter S := mk_iter (iter_ d) (sequence_ d) x (saved_key_ d) (saved_value_ d) (direction_ d) (valid_ d) (rnd_ d) (bytes_until_read_sampling_ d) (samples d).
Definition set_saved_key (x : list Z) : DBIter S := mk_iter (iter_ d) (sequence_ d) (status_ d) x (saved_value_ d) (direction_ d) (valid_ d) (rnd_ d) (bytes_until_read_sampling_ d) (samples d).
Definition set_saved_value (x : list Z) : DBIter S := mk_iter (iter_ d) (sequence_ d) (status_ d) (saved_key_ d) x (direction_ d) (valid_ d) (rnd_ d) (bytes_until_read_sampling_ d) (samples d).
Definition set_direction (x : Direction) : DBIter S := mk_iter (iter_ d) (sequence_ d) (status_ d) (saved_key_ d) (saved_value_ d) x (valid_ d) (rnd_ d) (bytes_until_read_sampling_ d) (samples d).
Definition set_valid (x : bool) : DBIter S := mk_iter (iter_ d) (sequence_ d) (status_ d) (saved_key_ d) (saved_value_ d) (direction_ d) x (rnd_ d) (bytes_until_read_sampling_ d) (samples d).
Definition set_sampling (rnd bytes : Z) (s : list (list Z)) : DBIter S := mk_iter (iter_ d) (sequence_ d) (status_ d) (saved_key_ d) (saved_value_ d) (direction_ d) (valid_ d) rnd bytes s.
End Setters.

(** The period drawn and the new seed. *)
Definition RandomCompactionPeriod (rnd_ : Z) : Z * Z := Uniform (2 * kReadBytesPeriod) rnd_.

Definition NewDBIterator {S : Type} (internal_iter : S) (sequence seed : Z) : DBIter S :=
  let (period, rnd) := RandomCompactionPeriod (new_Random seed) in
  mk_iter internal_iter sequence OK [] [] kForward false rnd period [].

Section Operations.
Context {S : Type} `{Iterator S} `{Comparator}.

(** [fuel] bounds the loops over the internal iterator. *)
Context (fuel : nat).

(** Clearing frees the memory of a large value. *)
Definition ClearSavedValue (d : DBIter S) : DBIter S := set_saved_value d [].

(** A move of [iter_]. *)
Definition move (f : S -> outcome S) (d : DBIter S) : outcome (DBIter S) :=
  let! i := f (iter_ d) in Ok (set_iter d i).

Definition db_key (d : DBIter S) : outcome (list Z) :=
  assert (valid_ d)
  (match direction_ d with
   | kForward => let! k := key (iter_ d) in ExtractUserKey k
   | kReverse => Ok (saved_key_ d)
   end).
Definition db_value (d : DBIter S) : outcome (list Z) :=
  assert (valid_ d)
  (match direction_ d with kForward => value (iter_ d) | kReverse => Ok (saved_value_ d) end).
Definition db_status (d : DBIter S) : outcome Status :=
  if ok (status_ d) then status (iter_ d) else Ok (status_ d).

(** The loop of [ParseKey]: a period may be zero, two in a row are not. *)
Fixpoint sample (n : nat) (k : list Z) (bytes_read : Z) (d : DBIter S) : outcome (DBIter S) :=
  match n with
  | O => Timeout
  | Datatypes.S n =>
      if bytes_until_read_sampling_ d <? bytes_read then
        let (period, rnd) := RandomCompactionPeriod (rnd_ d) in
        sample n k bytes_read (set_sampling d rnd (wrap 64 (bytes_until_read_sampling_ d + period)) (k :: samples d))
      else Ok d
  end.

Definition ParseKey (d : DBIter S) : outcome (option ParsedInternalKey * DBIter S) :=
  let! k := key (iter_ d) in
  let! v := value (iter_ d) in
  let bytes_read := wrap 64 (zlen k + zlen v) in
  let! d := sample (Z.to_nat (2 * bytes_read + 2)) k bytes_read d in
  assert (bytes_read <=? bytes_until_read_sampling_ d)
  (let d := set_sampling d (rnd_ d) (wrap 64 (bytes_until_read_sampling_ d - bytes_read)) (samples d) in
   let! parsed := ParseInternalKey k in
   match parsed with
   | None => Ok (None, set_status d (Corruption "corrupted internal key in DBIter"))
   | Some ikey => Ok (Some ikey, d)
   end).

(** The loop of [FindNextUserEntry]; the string [skip] points to is
    [saved_key_].  What the body does before it moves on, or [None] in place
    of the flag when it returns. *)
Definition next_body (skipping : bool) (d : DBIter S) : outcome (option bool * DBIter S) :=
  let! (parsed, d) := ParseKey d in
  match parsed with
  | None => Ok (Some skipping, d)
  | Some ikey =>
      if sequence ikey <=? sequence_ d then
        if type ikey =? kTypeDeletion then Ok (Some true, set_saved_key d (user_key ikey))
        else if type ikey =? kTypeValue then
          let! hidden := (if skipping then let! r := Compare (user_key ikey) (saved_key_ d) in Ok (r <=? 0) else Ok false) in
          if hidden : bool then Ok (Some skipping, d)
          else Ok (None, set_saved_key (set_valid d true) [])
        else Ok (Some skipping, d)
      else Ok (Some skipping, d)
  end.

Fixpoint next_loop (n : nat) (skipping : bool) (d : DBIter S) : outcome (DBIter S) :=
  match n with
  | O => Timeout
  | Datatypes.S n =>
      let! (continue, d) := next_body skipping d in
      match continue with
      | None => Ok d
      | Some skipping =>
          let! d := move Next d in
          let! valid := Valid (iter_ d) in
          if valid : bool then next_loop n skipping d
          else Ok (set_valid (set_saved_key d []) false)
      end
  end.

Definition FindNextUserEntry (skipping : bool) (d : DBIter S) : outcome (DBIter S) :=
  let! valid := Valid (iter_ d) in
  assert valid
  (assert (match direction_ d with kForward => true | kReverse => false end)
  (next_loop fuel skipping d)).

Definition db_Next (d : DBIter S) : outcome (DBIter S) :=
  assert (valid_ d)
  (match direction_ d with
   | kReverse =>
       let d := set_direction d kForward in
       let! valid := Valid (iter_ d) in
       let! d := (if valid : bool then move Next d else move SeekToFirst d) in
       let! valid := Valid (iter_ d) in
       if valid : bool then FindNextUserEntry true d
       else Ok (set_saved_key (set_valid d false) [])
   | kForward =>
       let! k := key (iter_ d) in
       let! u := ExtractUserKey k in
       FindNextUserEntry true (set_saved_key d u)
   end).

(** The loop of [FindPrevUserEntry]: one turn, [None] for [break], and the
    last type seen. *)
Definition prev_body (value_type : Z) (d : DBIter S) : outcome (option Z * DBIter S) :=
  let! (parsed, d) := ParseKey d in
  match parsed with
  | None => Ok (Some value_type, d)
  | Some ikey =>
      if sequence ikey <=? sequence_ d then
        let! stop := (if negb (value_type =? kTypeDeletion) then
                        let! r := Compare (user_key ikey) (saved_key_ d) in Ok (r <? 0)
                      else Ok false) in
        if stop : bool then Ok (None, d)
        else if type ikey =? kTypeDeletion then Ok (Some (type ikey), ClearSavedValue (set_saved_key d []))
        else
          let! raw_value := value (iter_ d) in
          let! k := key (iter_ d) in
          let! u := ExtractUserKey k in
          Ok (Some (type ikey), set_saved_value (set_saved_key d u) raw_value)
      else Ok (Some value_type, d)
  end.

Fixpoint prev_loop (n : nat) (value_type : Z) (d : DBIter S) : outcome (Z * DBIter S) :=
  match n with
  | O => Timeout
  | Datatypes.S n =>
      let! (continue, d) := prev_body value_type d in
      match continue with
      | None => Ok (value_type, d)
      | Some value_type =>
          let! d := move Prev d in
          let! valid := Valid (iter_ d) in
          if valid : bool then prev_loop n value_type d else Ok (value_type, d)
      end
  end.

Definition FindPrevUserEntry (d : DBIter S) : outcome (DBIter S) :=
  assert (match direction_ d with kForward => false | kReverse => true end)
  (let! valid := Valid (iter_ d) in
   let! (value_type, d) := (if valid : bool then prev_loop fuel kTypeDeletion d else Ok (kTypeDeletion, d)) in
   if value_type =? kTypeDeletion then
     Ok (set_direction (ClearSavedValue (set_saved_key (set_valid d false) [])) kForward)
   else Ok (set_valid d true)).

(** The loop of [Prev] that leaves the entries of the current key; [false]
    when there are none before them. *)
Fixpoint leave_key (n : nat) (d : DBIter S) : outcome (bool * DBIter S) :=
  match n with
  | O => Timeout
  | Datatypes.S n =>
      let! d := move Prev d in
      let! valid := Valid (iter_ d) in
      if valid : bool then
        let! k := key (iter_ d) in
        let! u := ExtractUserKey k in
        let! r := Compare u (saved_key_ d) in
        if r <? 0 then Ok (true, d) else leave_key n d
      else Ok (false, ClearSavedValue (set_saved_key (set_valid d false) []))
  end.

Definition db_Prev (d : DBIter S) : outcome (DBIter S) :=
  assert (valid_ d)
  (match direction_ d with
   | kForward =>
       let! valid := Valid (iter_ d) in
       assert valid
       (let! k := key (iter_ d) in
        let! u := ExtractUserKey k in
        let! (found, d) := leave_key fuel (set_saved_key d u) in
        if found : bool then FindPrevUserEntry (set_direction d kReverse) else Ok d)
   | kReverse => FindPrevUserEntry d
   end).

Definition db_Seek (target : list Z) (d : DBIter S) : outcome (DBIter S) :=
  let d := ClearSavedValue (set_direction d kForward) in
  let! k := AppendInternalKey [] (mk_parsed target (sequence_ d) kValueTypeForSeek) in
  let d := set_saved_key d k in
  let! d := move (Seek k) d in
  let! valid := Valid (iter_ d) in
  if valid : bool then FindNextUserEntry false d else Ok (set_valid d false).

Definition db_SeekToFirst (d : DBIter S) : outcome (DBIter S) :=
  let d := ClearSavedValue (set_direction d kForward) in
  let! d := move SeekToFirst d in
  let! valid := Valid (iter_ d) in
  if valid : bool then FindNextUserEntry false d else Ok (set_valid d false).

Definition db_SeekToLast (d : DBIter S) : outcome (DBIter S) :=
  let d := ClearSavedValue (set_direction d kReverse) in
  let! d := move SeekToLast d in
  FindPrevUserEntry d.

#[export] Instance db_iterator : Iterator (DBIter S) := {
  Valid d := Ok (valid_ d);
  SeekToFirst := db_SeekToFirst;
  SeekToLast := db_SeekToLast;
  Seek := db_Seek;
  Next := db_Next;
  Prev := db_Prev;
  key := db_key;
  value := db_value;
  status := db_status
}.
End Operations.
End DBIter.
