(* ===== verification/DbIterProof.v ===== *)
(** * The database iterator shows what a snapshot sees

    Over a lawful iterator of all updates, the database iterator is a lawful
    iterator of the newest visible values. *)
From Stdlib Require Import Znumtheory.
From S2P Require Import Prelude Order Coding Env Comparator DbFormat DbFormatProof SkipList SkipListProof SkipListSet Iterator TwoLevelProof DbIter.
Import DBIter.

(** ** The periods between samples *)
Definition seed_ok (s : Z) : Prop := 1 <= s < 2147483647.

Lemma new_Random_ok s : seed_ok (new_Random s).
Proof.
  unfold new_Random, seed_ok. change (Z.land s 0x7fffffff) with (Z.land s (Z.ones 31)). rewrite Z.land_ones by lia.
  pose proof (Z.mod_pos_bound s (2 ^ 31) ltac:(lia)). destruct (Z.eqb_spec (s mod 2 ^ 31) 0) ; cbn [orb]; [lia|].
  destruct (Z.eqb_spec (s mod 2 ^ 31) 2147483647); lia.
Qed.

Lemma Random_Next_ok s : seed_ok s -> Random_Next s = (s * 16807) mod 2147483647 /\ seed_ok (Random_Next s).
Proof.
  unfold seed_ok. intros Hs. assert (E : Random_Next s = (s * 16807) mod 2147483647).
  { unfold Random_Next. cbv zeta. rewrite (wrap_small 64) by lia. rewrite Z.shiftr_div_pow2 by lia. change (Z.land (s * 16807) 2147483647) with (Z.land (s * 16807) (Z.ones 31)).
    rewrite Z.land_ones by lia. change 2147483647 with (2 ^ 31 - 1).
    set (p := s * 16807). assert (Hp : 0 <= p < 2 ^ 31 * 16807) by (unfold p; lia).
    pose proof (Z.div_mod p (2 ^ 31) ltac:(lia)) as Ed. pose proof (Z.mod_pos_bound p (2 ^ 31) ltac:(lia)) as Hm.
    assert (Hd : 0 <= p / 2 ^ 31 < 16807) by (split; [apply Z.div_pos; lia|apply Z.div_lt_upper_bound; lia]).
    rewrite (wrap_small 32 (p / 2 ^ 31 + p mod 2 ^ 31)) by lia. change 2147483647 with (2 ^ 31 - 1).
    assert (Hne : p mod (2 ^ 31 - 1) <> 0).
    { intros H0. apply Z.mod_divide in H0; [|lia]. unfold p in H0. rewrite Z.mul_comm in H0.
      apply (Z.gauss _ 16807 s) in H0; [|by vm_compute]. apply Z.divide_pos_le in H0; lia. }
    destruct (Z.ltb_spec (2 ^ 31 - 1) (p / 2 ^ 31 + p mod 2 ^ 31)) as [Hlt|Hge].
    - rewrite wrap_small by lia. apply (Z.mod_unique_pos _ _ (p / 2 ^ 31 + 1)); lia.
    - destruct (decide (p / 2 ^ 31 + p mod 2 ^ 31 = 2 ^ 31 - 1)) as [E|]; [|apply (Z.mod_unique_pos _ _ (p / 2 ^ 31)); lia].
      exfalso. apply Hne. symmetry. apply (Z.mod_unique_pos _ _ (p / 2 ^ 31 + 1)); lia. }
  split; [done|]. rewrite E. pose proof (Z.mod_pos_bound (s * 16807) 2147483647 ltac:(lia)).
  assert ((s * 16807) mod 2147483647 <> 0); [|lia]. intros H0. apply Z.mod_divide in H0; [|lia]. rewrite Z.mul_comm in H0.
  apply (Z.gauss _ 16807 s) in H0; [|by vm_compute]. apply Z.divide_pos_le in H0; lia.
Qed.

Lemma Uniform_ok n s : 0 < n -> seed_ok s -> 0 <= (Uniform n s).1 < n /\ seed_ok (Uniform n s).2.
Proof. intros Hn Hs. split; [by apply Z.mod_pos_bound|]. by apply Random_Next_ok. Qed.

(** After a period of zero comes one that is not. *)
Lemma two_periods s : seed_ok s -> (RandomCompactionPeriod s).1 = 0 -> 0 < (RandomCompactionPeriod (RandomCompactionPeriod s).2).1.
Proof.
  intros Hs H0. destruct (Random_Next_ok s Hs) as [_ Hn]. unfold RandomCompactionPeriod, Uniform in *. cbn [fst snd] in *.
  set (x := Random_Next s) in *. change (2 * kReadBytesPeriod) with (2 ^ 21) in *.
  assert (Hall : forallb (fun k => negb (Random_Next (Z.of_nat k * 2 ^ 21) mod 2 ^ 21 =? 0)) (seq 1 1023) = true) by by vm_compute.
  pose proof (Z.div_mod x (2 ^ 21) ltac:(lia)) as Ed. rewrite H0, Z.add_0_r in Ed. unfold seed_ok in Hn.
  assert (Hk : 1 <= x / 2 ^ 21 <= 1023) by lia. rewrite forallb_forall in Hall.
  specialize (Hall (Z.to_nat (x / 2 ^ 21))). rewrite Z2Nat.id in Hall by lia.
  replace (x / 2 ^ 21 * 2 ^ 21) with x in Hall by lia.
  pose proof (Z.mod_pos_bound (Random_Next x) (2 ^ 21) ltac:(lia)).
  destruct (Z.eqb_spec (Random_Next x mod 2 ^ 21) 0); [|lia]. discriminate Hall. apply in_seq. lia.
Qed.

Definition sampling_ok {S} (d : DBIter S) : Prop := seed_ok (rnd_ d) /\ 0 <= bytes_until_read_sampling_ d < 2 ^ 64.

(** [d'] is [d] but for the sampling. *)
Definition sampled {S} (d d' : DBIter S) : Prop :=
  sampling_ok d' /\ exists rnd bytes s, d' = set_sampling d rnd bytes s.

Lemma draw_ok {S} k bytes_read : 0 <= bytes_read < 2 ^ 63 -> forall n (d : DBIter S), sampling_ok d -> (0 < n)%nat ->
  2 * (bytes_read - bytes_until_read_sampling_ d) + 2 <= Z.of_nat n ->
  exists d', sample n k bytes_read d = Ok d' /\ sampled d d' /\ bytes_read <= bytes_until_read_sampling_ d'.
Proof.
  intros Hb.
  assert (Hstep : forall (d : DBIter S), sampling_ok d -> bytes_until_read_sampling_ d < bytes_read ->
    let p := RandomCompactionPeriod (rnd_ d) in let d' := set_sampling d p.2 (wrap 64 (bytes_until_read_sampling_ d + p.1)) (k :: samples d) in
    sampled d d' /\ bytes_until_read_sampling_ d' = bytes_until_read_sampling_ d + p.1 /\ 0 <= p.1).
  { intros d [Hs Hbu] Hlt p d'. destruct (Uniform_ok (2 * kReadBytesPeriod) (rnd_ d) ltac:(done) Hs) as [Hp Hp2]. fold (RandomCompactionPeriod (rnd_ d)) in Hp, Hp2. fold p in Hp, Hp2.
    change (2 * kReadBytesPeriod) with 2097152 in Hp. clearbody p. unfold sampled, sampling_ok, d'. cbn. rewrite wrap_small by lia.
    split; [|split; [done|lia]]. split; [split; [done|lia]|]. by do 3 eexists. }
  enough (H : forall n (d : DBIter S), sampling_ok d -> 2 * (bytes_read - bytes_until_read_sampling_ d) + 2 <= Z.of_nat n \/
    0 < (RandomCompactionPeriod (rnd_ d)).1 /\ 2 * (bytes_read - bytes_until_read_sampling_ d) + 1 <= Z.of_nat n ->
    (0 < n)%nat -> exists d', sample n k bytes_read d = Ok d' /\ sampled d d' /\ bytes_read <= bytes_until_read_sampling_ d').
  { intros n d Hd Hn0 Hn. apply H; [done|by left|done]. }
  induction n as [|n IH]; intros d Hd Hn Hn0; [lia|]. cbn [sample].
  destruct (Z.ltb_spec (bytes_until_read_sampling_ d) bytes_read) as [Hlt|Hge].
  - destruct (Hstep d Hd Hlt) as (Hs & Eb & Hp). destruct (RandomCompactionPeriod (rnd_ d)) as [period rnd] eqn:Ep. rewrite ?Ep in Hn. cbn [fst snd] in *.
    set (d1 := set_sampling _ _ _ _) in *. destruct (IH d1) as (d' & E & Hd' & Hle).
    + by destruct Hs.
    + rewrite Eb. destruct (decide (period = 0)) as [->|]; [|left; lia]. destruct Hn as [Hn|[? _]]; [|lia]. right. split; [|lia].
      pose proof (two_periods (rnd_ d) (proj1 Hd)) as H2. rewrite Ep in H2. by apply H2.
    + lia.
    + exists d'. split; [done|]. split; [|done]. destruct Hd' as (Hok & r & b & s & ->). split; [done|]. by do 3 eexists.
  - exists d. split; [done|]. split; [|done]. split; [done|]. exists (rnd_ d), (bytes_until_read_sampling_ d), (samples d). by destruct d.
Qed.

(** ** What a snapshot sees *)
Section View.
Context (order : list Z -> list Z -> comparison) {Horder : TotalOrder order} (snapshot : Z) (l : list DbEntry).

(** Update [j] is a value at or before the snapshot, and no such update of
    the same user key is in front of it. *)
Definition seen (e : DbEntry) : bool := e_sequence e <=? snapshot.
Definition shown (j : nat) : bool :=
  match l !! j with
  | Some e => seen e && (e_type e =? kTypeValue) && negb (existsb (fun e' => seen e' && same order (e_user e') (e_user e)) (take j l))
  | None => false
  end.
Definition shown_list : list nat := List.filter shown (seq 0 (length l)).
Definition user_entry (j : nat) : list Z * list Z :=
  match l !! j with Some e => (e_user e, e_value e) | None => ([], []) end.

(** The entries of the database iterator. *)
Definition view : entries := map user_entry shown_list.
Definition count (b : nat) : nat := length (List.filter shown (seq 0 b)).

Definition hides (m : nat) (e : DbEntry) : Prop := exists e', l !! m = Some e' /\ e_sequence e' <= snapshot /\ order (e_user e') (e_user e) = Eq.

Lemma shown_spec j : shown j = true <-> exists e, l !! j = Some e /\ e_sequence e <= snapshot /\ e_type e = kTypeValue /\ forall m, (m < j)%nat -> ~ hides m e.
Proof.
  assert (Hx : forall e, existsb (fun e' => seen e' && same order (e_user e') (e_user e)) (take j l) = true <-> exists m, (m < j)%nat /\ hides m e).
  { intros e. rewrite existsb_exists. split.
    - intros (e' & Hin & Hs). apply list_elem_of_In, list_elem_of_lookup in Hin as (m & Em). apply lookup_take_Some in Em as [Em Hm].
      exists m. split; [done|]. exists e'. split; [done|]. apply andb_true_iff in Hs as [Hs Hu]. split; [by apply Z.leb_le|].
      unfold same in Hu. by destruct (order _ _).
    - intros (m & Hm & e' & Em & Hs & Hu). exists e'. split.
      + apply list_elem_of_In, (list_elem_of_lookup_2 _ m). by apply lookup_take_Some.
      + unfold seen, same. rewrite Hu. by apply andb_true_iff; split; [apply Z.leb_le|]. }
  unfold shown. destruct (l !! j) as [e|]; [|split; [done|by intros (e & [=] & _)]].
  rewrite !andb_true_iff, negb_true_iff, <- not_true_iff_false, Hx. unfold seen. rewrite Z.leb_le, Z.eqb_eq. split.
  - intros [[Hs Ht] Hn]. exists e. split_and!; try done. intros m Hm Hh. apply Hn. by exists m.
  - intros (e' & [= <-] & Hs & Ht & Hn). split_and!; try done. intros (m & Hm & Hh). by apply (Hn m).
Qed.

Lemma shown_lt j : shown j = true -> (j < length l)%nat.
Proof. intros (e & E & _)%shown_spec. by apply lookup_lt_Some in E. Qed.

Lemma count_S b : count (Datatypes.S b) = (count b + if shown b then 1 else 0)%nat.
Proof.
  unfold count. rewrite seq_S, List.filter_app, length_app. cbn [List.filter Nat.add]. by destruct (shown b).
Qed.

Lemma count_same p q : (p <= q)%nat -> (forall m, (p <= m < q)%nat -> shown m = false) -> count p = count q.
Proof.
  induction 1 as [|q Hpq IH]; intros Hm; [done|]. rewrite count_S, (Hm q) by lia. rewrite IH; [lia|]. intros m ?. apply Hm. lia.
Qed.

Lemma count_all : count (length l) = length view.
Proof. unfold view. by rewrite length_map. Qed.

Lemma view_le : (length view <= length l)%nat.
Proof.
  rewrite <- count_all. unfold count. rewrite List.filter_length_le. by rewrite length_seq.
Qed.

Lemma shown_list_at j : shown j = true -> shown_list !! count j = Some j.
Proof.
  intros Hs. pose proof (shown_lt j Hs) as Hj. unfold shown_list. replace (length l) with (j + (length l - j))%nat by lia.
  rewrite seq_app, List.filter_app, lookup_app_r by done. unfold count. rewrite Nat.sub_diag.
  destruct (length l - j)%nat eqn:E; [lia|]. cbn [seq List.filter Nat.add]. by rewrite Hs.
Qed.

Lemma shown_list_inv g j : shown_list !! g = Some j -> shown j = true /\ count j = g.
Proof.
  intros E. assert (Hin : j ∈ shown_list) by by eapply list_elem_of_lookup_2.
  assert (Hs : shown j = true) by (apply list_elem_of_In, filter_In in Hin; by destruct Hin).
  split; [done|]. pose proof (shown_list_at j Hs) as E'. assert (Hn : List.NoDup shown_list) by apply List.NoDup_filter, seq_NoDup.
  apply NoDup_ListNoDup in Hn. by apply (proj1 (NoDup_alt _) Hn _ _ j).
Qed.

Lemma view_lookup g : (g < length view)%nat -> exists j e, shown_list !! g = Some j /\ l !! j = Some e /\ view !! g = Some (e_user e, e_value e).
Proof.
  unfold view. rewrite length_map. intros Hg. destruct (lookup_lt_is_Some_2 shown_list g Hg) as [j Ej]. exists j.
  destruct (shown_list_inv g j Ej) as [Hs _]. apply shown_spec in Hs as (e & E & _). exists e. split; [done|]. split; [done|].
  pose proof (list_lookup_fmap user_entry shown_list g) as El. rewrite Ej in El. refine (eq_trans El _). cbn. unfold user_entry. by rewrite E.
Qed.

(** The place of a user key. *)
Lemma place_view u p : (p <= length l)%nat ->
  (forall m e, shown m = true -> l !! m = Some e -> less order (e_user e) u = true <-> (m < p)%nat) ->
  place order u (keys_of view) = count p.
Proof.
  intros Hp Hm. unfold place, keys_of, view, shown_list. rewrite map_map.
  assert (Hf : forall s, Forall (fun m => shown m = true -> less order (user_entry m).1 u = (m <? p)%nat) s ->
    length (List.filter (fun k => less order k u) (map (fun x => (user_entry x).1) (List.filter shown s))) =
    length (List.filter (fun m => shown m && (m <? p)%nat) s)).
  { induction 1 as [|m s Hd Hs IH]; [done|]. cbn [List.filter]. destruct (shown m); [|done]. cbn [map List.filter andb]. rewrite (Hd eq_refl).
    destruct (m <? p)%nat; cbn [length]; by rewrite IH. }
  rewrite Hf.
  - unfold count. replace (length l) with (p + (length l - p))%nat by lia. rewrite seq_app, List.filter_app, length_app, Nat.add_0_l.
    rewrite (filter_none _ (seq p _)), Nat.add_0_r.
    + f_equal. apply List.filter_ext_in. intros m Hin%in_seq. rewrite (proj2 (Nat.ltb_lt m p)) by lia. by rewrite andb_true_r.
    + apply Forall_forall. intros m Hin%list_elem_of_In%in_seq. rewrite (proj2 (Nat.ltb_ge m p)) by lia. apply andb_false_r.
  - apply Forall_forall. intros m _ Hs. pose proof Hs as (e & E & _)%shown_spec. specialize (Hm m e Hs E). unfold user_entry. rewrite E. cbn.
    apply eq_true_iff_eq. rewrite Nat.ltb_lt. exact Hm.
Qed.
End View.

(** ** Over an iterator of the updates *)
Section Cursor.
Context {S : Type} `{Iterator S} `{Comparator} (valid : list Z -> Prop) (order : list Z -> list Z -> comparison) {Hcmp : LawfulComparator valid order}.
Context (Hbytes : forall k, valid k -> bytes k).
Context (l : list DbEntry) (usable : S -> Prop) (at_ : S -> nat -> Prop).
Context {Hlaw : LawfulIterator S (internal_order order) (valid_internal valid) (table_entries l) usable at_}.
Definition update_ok (e : DbEntry) : Prop :=
  valid (e_user e) /\ sequence_ok (e_sequence e) /\ type_ok (e_type e) /\ zlen (e_user e) + 8 + zlen (e_value e) < 2 ^ 63.
Context (Hl : Forall update_ok l) (Hsorted : sorted (internal_order order) (keys_of (table_entries l))).
Context (fuel : nat) (Hfuel : (length l < fuel)%nat) (snapshot : Z) (Hsnap : sequence_ok snapshot).
#[local] Abbreviation d_iter := (DBIter S).
#[local] Abbreviation shown := (shown order snapshot l).
#[local] Abbreviation view := (view order snapshot l).
#[local] Abbreviation count := (count order snapshot l).
#[local] Abbreviation hides := (hides order snapshot l).

Lemma update_at j e : l !! j = Some e -> update_ok e.
Proof. intros E. rewrite Forall_lookup in Hl. by apply (Hl j). Qed.

Lemma total_length : length (table_entries l) = length l.
Proof. apply length_map. Qed.

Lemma total_at j e : l !! j = Some e -> table_entries l !! j = Some (entry_key e, e_value e).
Proof. intros E. pose proof (list_lookup_fmap (fun e => (entry_key e, e_value e)) l j) as El. by rewrite E in El. Qed.

Lemma entry_user e : ExtractUserKey (entry_key e) = Ok (e_user e).
Proof.
  unfold entry_key, encoded. rewrite ExtractUserKey_ok, user_part_join; [done|]. rewrite zlen_join. pose proof (zlen_nonneg (e_user e)). lia.
Qed.

(** Internal keys are in order of their user keys. *)
Lemma users_sorted i j e e' : l !! i = Some e -> l !! j = Some e' -> (i <= j)%nat -> order (e_user e) (e_user e') <> Gt.
Proof.
  intros E E' Hij. destruct (decide (i = j)) as [->|Hne]; [rewrite E in E'; injection E' as <-; by rewrite (order_refl order)|].
  assert (Hlt : internal_order order (entry_key e) (entry_key e') = Lt).
  { apply (sorted_lookup _ (keys_of (table_entries l)) i j _ _ Hsorted); [| |lia]; unfold keys_of; rewrite list_lookup_fmap.
    - by rewrite (total_at i e E). - by rewrite (total_at j e' E'). }
  unfold internal_order, entry_key, encoded in Hlt. rewrite !user_part_join in Hlt. by destruct (order (e_user e) (e_user e')).
Qed.

Lemma user_compare e e' : update_ok e -> valid e' -> exists r, Compare (e_user e) e' = Ok r /\ (r ?= 0) = order (e_user e) e'.
Proof. intros (Hv & _) Hv'. by apply compare_law. Qed.

Lemma at_entry t j e : at_ t j -> l !! j = Some e -> key t = Ok (entry_key e) /\ value t = Ok (e_value e).
Proof. intros Hat E. apply (entry_law t j); [done|]. by apply total_at. Qed.

Lemma at_valid t p : at_ t p -> Iterator.Valid t = Ok (p <? length l)%nat.
Proof. intros Hat. rewrite <- total_length. by apply valid_law. Qed.

Definition wrapped (q : nat) : nat := match q with O => length l | Datatypes.S p => p end.

Lemma at_next t p : at_ t p -> (p < length l)%nat -> exists t', Iterator.Next t = Ok t' /\ at_ t' (p + 1)%nat.
Proof. intros Hat Hp. apply next_law; [done|]. by rewrite total_length. Qed.
Lemma at_prev t p : at_ t p -> (p < length l)%nat -> exists t', Iterator.Prev t = Ok t' /\ at_ t' (wrapped p).
Proof. intros Hat Hp. unfold wrapped. rewrite <- total_length. apply prev_law; [done|]. by rewrite total_length. Qed.

(** What holds in every state of the iterator. *)
Record sane (d : d_iter) : Prop := {
  sane_status : status_ d = OK;
  sane_sequence : sequence_ d = snapshot;
  sane_sampling : sampling_ok d
}.

Lemma ParseKey_ok d p e : sane d -> at_ (iter_ d) p -> l !! p = Some e ->
  exists d', ParseKey d = Ok (Some (mk_parsed (e_user e) (e_sequence e) (e_type e)), d') /\ sampled d d'.
Proof.
  intros [_ _ Hs] Hat E. destruct (at_entry _ p e Hat E) as [Ek Ev]. destruct (update_at p e E) as (Hv & Hsq & Ht & Hz).
  unfold ParseKey. rewrite Ek, Ev. cbn [obind]. assert (Hzk : zlen (entry_key e) = zlen (e_user e) + 8) by apply zlen_join.
  pose proof (zlen_nonneg (e_user e)). pose proof (zlen_nonneg (e_value e)). rewrite wrap_small by lia.
  destruct (draw_ok (entry_key e) (zlen (entry_key e) + zlen (e_value e)) ltac:(lia)
    (Z.to_nat (2 * (zlen (entry_key e) + zlen (e_value e)) + 2)) d Hs) as (d' & -> & [[Hr Hbu] (r & b & s & Ed)] & Hle); [lia|destruct Hs; lia|].
  cbn [obind]. rewrite (proj2 (Z.leb_le _ _) Hle). cbn [assert]. unfold entry_key. rewrite ParseInternalKey_encoded by done. cbn [obind].
  eexists. split; [done|]. split; [split; cbn; [done|]|rewrite Ed; by do 3 eexists]. fold (entry_key e). rewrite wrap_small by lia. lia.
Qed.

(** ** Forward *)
Definition skips (skipping : bool) (skip : list Z) (e : DbEntry) : Prop := skipping = true /\ order (e_user e) skip <> Gt.

(** The search for the first shown update from [b] on has come to [p]. *)
Record next_inv (p b : nat) (skipping : bool) (skip : list Z) : Prop := {
  next_skips : forall m e, (p <= m)%nat -> shown m = true -> l !! m = Some e -> skips skipping skip e <-> (m < b)%nat;
  next_shown : forall m e, (p <= m)%nat -> l !! m = Some e -> e_sequence e <= snapshot -> e_type e = kTypeValue ->
    ~ skips skipping skip e -> (forall m', (p <= m' < m)%nat -> ~ hides m' e) -> shown m = true;
  next_after : skipping = true -> valid skip /\ forall m e, (p <= m)%nat -> l !! m = Some e -> e_sequence e <= snapshot -> order (e_user e) skip <> Lt;
  next_passed : forall m, (b <= m < p)%nat -> shown m = false
}.

Lemma shown_visible m e : shown m = true -> l !! m = Some e ->
  e_sequence e <= snapshot /\ e_type e = kTypeValue /\ forall m', (m' < m)%nat -> ~ hides m' e.
Proof. intros (e' & E' & H')%shown_spec E. rewrite E in E'. by injection E' as <-. Qed.

Lemma not_shown m e : l !! m = Some e -> ~ e_sequence e <= snapshot \/ e_type e <> kTypeValue -> shown m = false.
Proof. intros E Hn. apply not_true_iff_false. intros Hs. destruct (shown_visible m e Hs E) as (? & ? & _). by destruct Hn. Qed.

Lemma next_invisible p b e skipping skip : next_inv p b skipping skip -> l !! p = Some e -> ~ e_sequence e <= snapshot ->
  next_inv (Datatypes.S p) b skipping skip.
Proof.
  intros [Hs Hn Ha Hp] E Hi. split.
  - intros m em Hm. apply Hs. lia.
  - intros m em Hm Em Hv Ht Hk Hh. apply (Hn m em); try done; [lia|]. intros m' Hm'. destruct (decide (m' = p)) as [->|Hne]; [|apply Hh; lia].
    intros (e' & E' & Hv' & _). rewrite E in E'. by injection E' as <-.
  - intros Hsk. destruct (Ha Hsk) as [? Hle]. split; [done|]. intros m em Hm. apply Hle. lia.
  - intros m Hm. destruct (decide (m = p)) as [->|]; [apply (not_shown p e E); by left|apply Hp; lia].
Qed.

Lemma next_deletion p b e skipping skip : next_inv p b skipping skip -> l !! p = Some e -> e_sequence e <= snapshot -> e_type e = kTypeDeletion ->
  next_inv (Datatypes.S p) b true (e_user e).
Proof.
  intros [Hs Hn Ha Hp] E Hv Ht.
  assert (Hold : forall m em, (p <= m)%nat -> l !! m = Some em -> ~ skips true (e_user e) em -> ~ skips skipping skip em).
  { intros m em Hm Em Hk [Hsk Hle]. apply Hk. split; [done|]. destruct (Ha Hsk) as [_ Hge]. apply (order_trans (e_user em) skip); [done|].
    apply (order_flip order). apply (Hge p e); done. }
  assert (Hsep : forall m em, (p <= m)%nat -> l !! m = Some em -> ~ hides p em -> ~ skips true (e_user e) em).
  { intros m em Hm Em Hh [_ Hle]. apply Hh. exists e. split; [done|]. split; [done|]. pose proof (users_sorted p m e em E Em Hm) as Ho.
    rewrite (order_antisym (e_user e)) in Hle. by destruct (order (e_user e) (e_user em)). }
  split.
  - intros m em Hm Hsm Em. destruct (shown_visible m em Hsm Em) as (_ & _ & Hh). assert (Hk := Hsep m em ltac:(lia) Em (Hh p ltac:(lia))).
    split; [done|]. intros Hb. apply (Hs m em) in Hb; [|lia|done|done]. by destruct (Hold m em ltac:(lia) Em Hk).
  - intros m em Hm Em Hvm Htm Hk Hh. apply (Hn m em); try done; [lia|apply (Hold m); [lia|done|done]|]. intros m' Hm'.
    destruct (decide (m' = p)) as [->|Hne]; [|apply Hh; lia]. intros (e' & E' & _ & Eu). rewrite E in E'. injection E' as <-.
    apply Hk. split; [done|]. rewrite (order_antisym (e_user e)), Eu. done.
  - intros _. split; [by apply (update_at p e)|]. intros m em Hm Em _. apply (order_flip order). apply (users_sorted p m); [done|done|lia].
  - intros m Hm. destruct (decide (m = p)) as [->|]; [apply (not_shown p e E); right; by rewrite Ht|apply Hp; lia].
Qed.

Lemma next_hidden p b e skipping skip : next_inv p b skipping skip -> l !! p = Some e -> skips skipping skip e ->
  next_inv (Datatypes.S p) b skipping skip.
Proof.
  intros [Hs Hn Ha Hp] E Hk. split.
  - intros m em Hm. apply Hs. lia.
  - intros m em Hm Em Hv Ht Hkm Hh. apply (Hn m em); try done; [lia|]. intros m' Hm'. destruct (decide (m' = p)) as [->|Hne]; [|apply Hh; lia].
    intros (e' & E' & _ & Eu). rewrite E in E'. injection E' as <-. apply Hkm. destruct Hk as [Hsk Hle]. split; [done|].
    by rewrite <- (order_eq_l order (e_user e) (e_user em) skip Eu).
  - intros Hsk. destruct (Ha Hsk) as [? Hle]. split; [done|]. intros m em Hm. apply Hle. lia.
  - intros m Hm. destruct (decide (m = p)) as [->|]; [|apply Hp; lia]. apply not_true_iff_false. intros Hsp. apply (Hs p e) in Hk; [lia|lia|done|done].
Qed.

Lemma next_found p b e skipping skip : next_inv p b skipping skip -> l !! p = Some e -> e_sequence e <= snapshot -> e_type e = kTypeValue ->
  ~ skips skipping skip e -> shown p = true /\ count p = count b.
Proof.
  intros [Hs Hn Ha Hp] E Hv Ht Hk. assert (Hsp : shown p = true) by (apply (Hn p e); try done; intros m' ?; lia). split; [done|].
  symmetry. apply count_same; [|by intros m Hm; apply Hp]. destruct (Nat.le_gt_cases b p) as [|Hlt]; [done|]. by apply (Hs p e) in Hlt.
Qed.

(** The places of the cursor: forward at the update that is shown, backward
    before the updates of its user key that are seen. *)
Definition reverse_at (p j : nat) : Prop := exists q, (q <= j)%nat /\ p = wrapped q /\
  (forall m e, (q <= m < j)%nat -> l !! m = Some e -> ~ e_sequence e <= snapshot) /\
  (forall r e e', q = Datatypes.S r -> l !! r = Some e -> l !! j = Some e' -> order (e_user e) (e_user e') = Lt).
Definition user_at (d : d_iter) (g : nat) : Prop := sane d /\ (g <= length view)%nat /\
  if valid_ d then exists j e p, shown_list order snapshot l !! g = Some j /\ l !! j = Some e /\ at_ (iter_ d) p /\
    match direction_ d with
    | kForward => p = j
    | kReverse => reverse_at p j /\ saved_key_ d = e_user e /\ saved_value_ d = e_value e
    end
  else g = length view /\ exists p, at_ (iter_ d) p.
Definition db_usable (d : d_iter) : Prop := sane d /\ usable (iter_ d).

(** One turn of the search. *)
Lemma next_body_ok skipping d p b e : sane d -> at_ (iter_ d) p -> l !! p = Some e -> next_inv p b skipping (saved_key_ d) ->
  exists c d', next_body skipping d = Ok (c, d') /\ sane d' /\ iter_ d' = iter_ d /\ direction_ d' = direction_ d /\
    match c with
    | Some skipping' => next_inv (Datatypes.S p) b skipping' (saved_key_ d')
    | None => valid_ d' = true /\ shown p = true /\ count p = count b
    end.
Proof.
  intros Hd Hat E Hi. destruct (ParseKey_ok d p e Hd Hat E) as (d1 & Ep & [Hs1 (r & bu & sm & ->)]). unfold next_body. rewrite Ep. cbn [obind].
  set (d1 := set_sampling d r bu sm) in *. assert (Hd1 : sane d1) by (destruct Hd; by split).
  cbn [user_key sequence type]. rewrite (sane_sequence _ Hd1). destruct (Z.leb_spec (e_sequence e) snapshot) as [Hv|Hv].
  2: { exists (Some skipping), d1. split; [done|]. split; [done|]. split; [done|]. split; [done|]. apply (next_invisible p b e); [done|done|lia]. }
  destruct (update_at p e E) as (Hu & _ & [Ht|Ht] & _); rewrite Ht; cbn [Z.eqb kTypeDeletion kTypeValue].
  - exists (Some true), (set_saved_key d1 (e_user e)). split; [done|]. split; [by destruct Hd1; split|]. split; [done|]. split; [done|].
    by apply (next_deletion p b e skipping (saved_key_ d)).
  - assert (Hh : exists h : bool, (if skipping then let! r := Compare (e_user e) (saved_key_ d1) in Ok (r <=? 0) else Ok false) = Ok h /\ (h = true <-> skips skipping (saved_key_ d) e)).
    { unfold skips. destruct skipping; [|exists false; split; [done|by split; [|intros []]]]. destruct (next_after _ _ _ _ Hi eq_refl) as [Hvs _].
      destruct (compare_law (e_user e) (saved_key_ d) Hu Hvs) as (c & Ec & <-). change (saved_key_ d1) with (saved_key_ d). rewrite Ec. cbn [obind].
      exists (c <=? 0). split; [done|]. rewrite Z.leb_le, Z.compare_le_iff. split; [by intros Hle; split|by intros [_ Hle]]. }
    destruct Hh as (h & -> & Hh). cbn [obind]. destruct h.
    + exists (Some skipping), d1. split; [done|]. split; [done|]. split; [done|]. split; [done|]. apply (next_hidden p b e); [done|done|by apply Hh].
    + exists None, (set_saved_key (set_valid d1 true) []). split; [done|]. split; [by destruct Hd1; split|]. split; [done|]. split; [done|]. split; [done|].
      apply (next_found p b e skipping (saved_key_ d)); try done. intros Hk. by apply Hh in Hk.
Qed.

Lemma count_le q : (count q <= length view)%nat.
Proof.
  destruct (Nat.le_gt_cases q (length l)) as [Hq|Hq].
  - rewrite <- (count_all order). induction Hq as [|m _ IH]; [done|]. rewrite count_S. lia.
  - rewrite <- (count_all order). rewrite <- (count_same order snapshot l (length l) q); [done|lia|]. intros m Hm. apply not_true_iff_false. intros Hs.
    apply shown_lt in Hs. lia.
Qed.

Lemma at_shown d p : sane d -> valid_ d = true -> direction_ d = kForward -> at_ (iter_ d) p -> shown p = true -> user_at d (count p).
Proof.
  intros Hd Hv Hdir Hat Hs. split; [done|]. split; [apply count_le|]. rewrite Hv, Hdir. pose proof Hs as (e & E & _)%shown_spec.
  exists p, e, p. split; [by apply shown_list_at|done].
Qed.

Lemma at_end d b p : sane d -> valid_ d = false -> at_ (iter_ d) p -> (b <= length l)%nat -> (forall m, (b <= m < length l)%nat -> shown m = false) ->
  user_at d (count b).
Proof.
  intros Hd Hv Hat Hb Hn. split; [done|]. split; [apply count_le|]. rewrite Hv. split; [|by exists p].
  rewrite <- (count_all order). by apply count_same.
Qed.

Lemma next_loop_ok n : forall p b skipping d, sane d -> direction_ d = kForward -> at_ (iter_ d) p -> (p < length l)%nat -> (length l < n + p)%nat ->
  (b <= length l)%nat -> next_inv p b skipping (saved_key_ d) -> exists d', next_loop n skipping d = Ok d' /\ user_at d' (count b).
Proof.
  induction n as [|n IH]; intros p b skipping d Hd Hdir Hat Hp Hn Hb Hi; [lia|]. destruct (lookup_lt_is_Some_2 l p Hp) as [e E].
  destruct (next_body_ok skipping d p b e Hd Hat E Hi) as (c & d1 & Eb & Hd1 & Ei & Edir & Hc). cbn [next_loop]. rewrite Eb. cbn [obind].
  rewrite <- Ei in Hat. destruct c as [sk|].
  - destruct (at_next _ p Hat Hp) as (t & Et & Hat'). unfold move. rewrite Et. cbn [obind]. change (iter_ (set_iter d1 t)) with t.
    rewrite (at_valid t _ Hat'). cbn [obind]. rewrite Nat.add_1_r in *. destruct (Nat.ltb_spec (Datatypes.S p) (length l)) as [Hlt|Hge].
    + apply (IH (Datatypes.S p) b); [by destruct Hd1; split|by cbn; rewrite Edir|done|done|lia|done|done].
    + eexists. split; [done|]. apply (at_end _ b (Datatypes.S p)); [by destruct Hd1; split|done|done|done|].
      intros m Hm. apply (next_passed _ _ _ _ Hc). lia.
  - destruct Hc as (Hv & Hsp & <-). exists d1. split; [done|]. apply at_shown; [done|done|by rewrite Edir|done|done].
Qed.

Lemma FindNextUserEntry_ok p b skipping d : sane d -> direction_ d = kForward -> at_ (iter_ d) p -> (p < length l)%nat ->
  (b <= length l)%nat -> next_inv p b skipping (saved_key_ d) ->
  exists d', FindNextUserEntry fuel skipping d = Ok d' /\ user_at d' (count b).
Proof.
  intros Hd Hdir Hat Hp Hb Hi. unfold FindNextUserEntry. rewrite (at_valid _ _ Hat), (proj2 (Nat.ltb_lt _ _) Hp). cbn [obind assert]. rewrite Hdir.
  apply (next_loop_ok fuel p); try done. lia.
Qed.

(** A search that starts, without a key to skip. *)
Lemma next_start p : (forall m m' e, (p <= m)%nat -> (m' < p)%nat -> l !! m = Some e -> e_sequence e <= snapshot -> ~ hides m' e) ->
  forall skip, next_inv p p false skip.
Proof.
  intros Hp skip. split; [| |done|intros m ?; lia].
  - intros m e Hm _ _. split; [by intros []|lia].
  - intros m e Hm E Hv Ht _ Hh. apply shown_spec. exists e. split_and!; try done.
    intros m' Hm'. destruct (Nat.le_gt_cases p m'); [apply Hh; lia|by apply (Hp m)].
Qed.

(** A search that leaves the key of update [j]. *)
Lemma next_leave p j e : shown j = true -> l !! j = Some e -> (p <= j)%nat ->
  (forall m e, (p <= m < j)%nat -> l !! m = Some e -> ~ e_sequence e <= snapshot) ->
  next_inv p (Datatypes.S j) true (e_user e).
Proof.
  intros Hj E Hp Hm0. split.
  - intros m em Hm Hs Em. unfold skips. destruct (Nat.lt_trichotomy m j) as [Hlt|[->|Hlt]].
    + destruct (shown_visible m em Hs Em) as (Hv & _). by destruct (Hm0 m em ltac:(lia) Em).
    + rewrite E in Em. injection Em as <-. rewrite (order_refl order). split; [lia|done].
    + split; [|lia]. intros [_ Hle]. destruct (shown_visible m em Hs Em) as (_ & _ & Hh). exfalso. apply (Hh j Hlt). exists e. split; [done|].
      split; [by apply (shown_visible j e Hj E)|]. pose proof (users_sorted j m e em E Em ltac:(lia)) as Ho.
      rewrite (order_antisym (e_user e)) in Hle. by destruct (order (e_user e) (e_user em)).
  - intros m em Hm Em Hv Ht Hk Hh. apply shown_spec. exists em. split_and!; try done. intros m' Hm' Hh'.
    destruct (Nat.le_gt_cases p m') as [|Hlt]; [by apply (Hh m')|]. destruct Hh' as (e' & E' & Hv' & Eu). apply Hk. split; [done|].
    rewrite <- (order_eq_l order (e_user e') (e_user em) (e_user e) Eu). by apply (users_sorted m' j e' e E' E ltac:(lia)).
  - intros _. split; [by apply (update_at j e)|]. intros m em Hm Em Hv. destruct (Nat.lt_ge_cases m j); [by destruct (Hm0 m em ltac:(lia) Em)|].
    apply (order_flip order). by apply (users_sorted j m).
  - intros m ?. lia.
Qed.

Lemma set_sane d : sane d -> (forall x, sane (set_iter d x)) /\ (forall x, sane (set_saved_key d x)) /\ (forall x, sane (set_saved_value d x)) /\
  (forall x, sane (set_direction d x)) /\ (forall x, sane (set_valid d x)).
Proof. intros [? ? ?]. split_and!; intros x; by split. Qed.

Lemma db_SeekToFirst_ok d : db_usable d -> exists d', db_SeekToFirst fuel d = Ok d' /\ user_at d' 0.
Proof.
  intros [Hd Hu]. destruct (first_law (iter_ d) Hu) as (t & Et & Hat). unfold db_SeekToFirst, move, ClearSavedValue. cbn [iter_ set_saved_value set_direction].
  rewrite Et. cbn [obind]. change (iter_ _) with t. rewrite (at_valid t 0 Hat). cbn [obind].
  match goal with |- context [FindNextUserEntry fuel false ?d'] => set (d1 := d') end. assert (Hd1 : sane d1) by (destruct Hd; by split).
  change 0%nat with (count 0) at 2. destruct (Nat.ltb_spec 0 (length l)) as [Hlt|Hge].
  - apply (FindNextUserEntry_ok 0 0 false d1); try done; [lia|]. apply next_start. intros m m' e _ ?. lia.
  - eexists. split; [done|]. apply (at_end _ 0 0); [by apply set_sane|done|done|lia|]. intros m ?. lia.
Qed.

(** Where [Seek] starts to search. *)
Lemma user_seek_order u e : update_ok e -> e_sequence e <= snapshot \/ order (e_user e) u <> Eq ->
  internal_order order (entry_key e) (encoded u snapshot kValueTypeForSeek) = Lt <-> order (e_user e) u = Lt.
Proof.
  intros (_ & Hs & Ht & _) Hv. unfold entry_key. rewrite (internal_order_encoded order) by (done || by right).
  destruct (order (e_user e) u) eqn:Eu; [|done|done]. destruct Hv as [Hv|]; [|done].
  destruct (Z.compare_spec snapshot (e_sequence e)) as [->|Hlt|Hgt]; [|lia|done].
  by destruct Ht as [-> | ->].
Qed.

Lemma db_Seek_ok target d : db_usable d -> valid target ->
  exists d', db_Seek fuel target d = Ok d' /\ user_at d' (place order target (keys_of view)).
Proof.
  intros [Hd Hu] Ht. set (k := encoded target snapshot kValueTypeForSeek).
  assert (Hk : valid_internal valid k).
  { destruct (encoded_valid target snapshot kValueTypeForSeek (Hbytes _ Ht)) as [Hb H8]. split; [done|]. split; [done|]. unfold k, encoded. by rewrite user_part_join. }
  unfold db_Seek, move, ClearSavedValue. change (sequence_ (set_saved_value _ _)) with (sequence_ d). rewrite (sane_sequence _ Hd), AppendInternalKey_ok by (done || by right).
  cbn [obind]. rewrite app_nil_l. fold k. destruct (seek_law (iter_ d) k Hu Hk) as (t & Et & Hat). change (iter_ (set_saved_key _ _)) with (iter_ d). rewrite Et. cbn [obind].
  match goal with |- context [FindNextUserEntry fuel false ?d'] => set (d1 := d') end. assert (Hd1 : sane d1) by (destruct Hd; by split).
  set (p := place (internal_order order) k (keys_of (table_entries l))) in *. change (iter_ d1) with t. rewrite (at_valid t p Hat). cbn [obind].
  assert (Hp : (p <= length l)%nat) by (pose proof (place_le (internal_order order) k (keys_of (table_entries l))) as Hle; unfold keys_of in Hle at 2; by rewrite length_map, total_length in Hle).
  assert (Hbefore : forall m e, l !! m = Some e -> e_sequence e <= snapshot -> order (e_user e) target = Lt <-> (m < p)%nat).
  { intros m e E Hv. rewrite <- (user_seek_order target e (update_at m e E) (or_introl Hv)). symmetry. apply (place_before (internal_order order) k _ m (entry_key e) Hsorted).
    unfold keys_of. rewrite list_lookup_fmap. by rewrite (total_at m e E). }
  rewrite (place_view order snapshot l target p Hp).
  - destruct (Nat.ltb_spec p (length l)) as [Hlt|Hge].
    + apply (FindNextUserEntry_ok p p false d1); try done. apply next_start. intros m m' e Hm Hm' E Hv (e' & E' & Hv' & Eu).
      apply (Hbefore m' e' E' Hv') in Hm'. rewrite (order_eq_l order (e_user e') (e_user e) target Eu) in Hm'. apply (Hbefore m e E Hv) in Hm'. lia.
    + eexists. split; [done|]. apply (at_end _ p p); [by apply set_sane|done|done|done|]. intros m ?. lia.
  - intros m e Hs E. destruct (shown_visible m e Hs E) as (Hv & _). rewrite <- (Hbefore m e E Hv). unfold less. by destruct (order (e_user e) target).
Qed.

Lemma user_at_inv d g : user_at d g -> (g < length view)%nat -> sane d /\ valid_ d = true /\
  exists j e p, shown j = true /\ count j = g /\ l !! j = Some e /\ at_ (iter_ d) p /\
    match direction_ d with
    | kForward => p = j
    | kReverse => reverse_at p j /\ saved_key_ d = e_user e /\ saved_value_ d = e_value e
    end.
Proof.
  intros (Hd & _ & Hm) Hg. split; [done|]. destruct (valid_ d); [|lia]. split; [done|].
  destruct Hm as (j & e & p & Hj & E & Hat & Hdir). exists j, e, p. by destruct (shown_list_inv order snapshot l g j Hj).
Qed.

Lemma count_shown j : shown j = true -> count (Datatypes.S j) = (count j + 1)%nat.
Proof. intros Hs. rewrite count_S. by rewrite Hs. Qed.

Lemma db_Next_ok d g : user_at d g -> (g < length view)%nat -> exists d', db_Next fuel d = Ok d' /\ user_at d' (g + 1).
Proof.
  intros Hat Hg. destruct (user_at_inv d g Hat Hg) as (Hd & Hv & j & e & p & Hs & Hc & E & Hp & Hdir).
  pose proof (lookup_lt_Some _ _ _ E) as Hj. unfold db_Next. rewrite Hv. cbn [assert]. rewrite <- Hc, <- (count_shown j Hs).
  destruct (direction_ d) eqn:Ed.
  - subst p. destruct (at_entry _ j e Hp E) as [-> _]. cbn [obind]. rewrite entry_user. cbn [obind].
    apply (FindNextUserEntry_ok j (Datatypes.S j) true); [by apply set_sane|done|done|done|lia|].
    apply (next_leave j j e Hs E); [done|]. intros m em ?. lia.
  - destruct Hdir as ((q & Hqj & -> & Hinv & _) & Ek & _). set (d1 := set_direction d kForward).
    rewrite (at_valid (iter_ d1) _ Hp). cbn [obind].
    assert (Hmove : exists t, (if (wrapped q <? length l)%nat then move Iterator.Next d1 else move Iterator.SeekToFirst d1) = Ok (set_iter d1 t) /\ at_ t q).
    { unfold move. change (iter_ d1) with (iter_ d). destruct q as [|q]; cbn [wrapped] in *.
      - rewrite Nat.ltb_irrefl. destruct (first_law (iter_ d)) as (t & -> & Hat'); [by destruct (at_usable _ _ Hp)|]. cbn [obind]. by eexists.
      - rewrite (proj2 (Nat.ltb_lt q (length l))) by lia. destruct (at_next _ q Hp ltac:(lia)) as (t & -> & Hat'). cbn [obind]. exists t. by rewrite Nat.add_1_r in Hat'. }
    destruct Hmove as (t & -> & Hat'). cbn [obind]. change (iter_ (set_iter d1 t)) with t. rewrite (at_valid t q Hat').
    rewrite (proj2 (Nat.ltb_lt q (length l))) by lia. cbn [obind].
    apply (FindNextUserEntry_ok q (Datatypes.S j) true); [destruct Hd; by split|done|done|lia|lia|]. cbn [saved_key_ set_iter d1]. change (saved_key_ _) with (saved_key_ d). rewrite Ek.
    by apply (next_leave q j e Hs E).
Qed.

(** ** Backward *)

(** The search for the last shown update before [b] has [q] left.  The
    candidate [c] is what [saved_key_] and [saved_value_] hold. *)
Definition candidate (q b c : nat) (e : DbEntry) : Prop :=
  (q <= c < b)%nat /\ l !! c = Some e /\ e_sequence e <= snapshot /\ e_type e = kTypeValue /\
  (forall m e', (q <= m < c)%nat -> l !! m = Some e' -> ~ e_sequence e' <= snapshot) /\
  (forall m, (c < m < b)%nat -> shown m = false).
Definition prev_inv (q b : nat) (value_type : Z) (d : d_iter) : Prop := (q <= b <= length l)%nat /\
  ((value_type = kTypeDeletion /\ forall m, (q <= m < b)%nat -> shown m = false) \/
   (value_type = kTypeValue /\ exists c e, candidate q b c e /\ saved_key_ d = e_user e /\ saved_value_ d = e_value e)).

Lemma prev_invisible q b e vt d : prev_inv (Datatypes.S q) b vt d -> l !! q = Some e -> ~ e_sequence e <= snapshot -> prev_inv q b vt d.
Proof.
  intros [Hq Hi] E Hv. split; [lia|]. destruct Hi as [[-> Hn]|(-> & c & ec & (Hc & Ec & Hvc & Htc & Hm & Hn) & Ek)].
  - left. split; [done|]. intros m Hm. destruct (decide (m = q)) as [->|]; [apply (not_shown q e E); by left|apply Hn; lia].
  - right. split; [done|]. exists c, ec. split; [|done]. split; [lia|]. split_and!; try done. intros m em Hmq Em.
    destruct (decide (m = q)) as [->|]; [rewrite E in Em; by injection Em as <-|by apply (Hm m em); [lia|]].
Qed.

(** What was found so far is hidden by update [q], of the same user key. *)
Lemma prev_hidden q b e vt d : prev_inv (Datatypes.S q) b vt d -> l !! q = Some e -> e_sequence e <= snapshot ->
  (vt = kTypeValue -> order (e_user e) (saved_key_ d) <> Lt) -> forall m, (q < m < b)%nat -> shown m = false.
Proof.
  intros [Hq Hi] E Hv Hstop m Hm. destruct Hi as [[-> Hn]|(-> & c & ec & (Hc & Ec & Hvc & Htc & Hin & Hn) & Ek & _)]; [apply Hn; lia|].
  destruct (Nat.lt_trichotomy m c) as [Hlt|[->|Hlt]]; [|apply not_true_iff_false; intros Hs|apply Hn; lia].
  - destruct (lookup_lt_is_Some_2 l m) as [em Em]; [apply lookup_lt_Some in Ec; lia|]. apply (not_shown m em Em). left. by apply (Hin m em); [lia|].
  - destruct (shown_visible c ec Hs Ec) as (_ & _ & Hh). apply (Hh q); [lia|]. exists e. split; [done|]. split; [done|].
    specialize (Hstop eq_refl). rewrite Ek in Hstop. pose proof (users_sorted q c e ec E Ec ltac:(lia)). by destruct (order (e_user e) (e_user ec)).
Qed.

Lemma prev_body_ok vt d q b e : sane d -> at_ (iter_ d) q -> l !! q = Some e -> prev_inv (Datatypes.S q) b vt d ->
  exists c d', prev_body vt d = Ok (c, d') /\ sane d' /\ iter_ d' = iter_ d /\ direction_ d' = direction_ d /\
    match c with
    | Some vt' => prev_inv q b vt' d'
    | None => prev_inv (Datatypes.S q) b vt d' /\ vt = kTypeValue /\ order (e_user e) (saved_key_ d') = Lt
    end.
Proof.
  intros Hd Hat E Hi. destruct (ParseKey_ok d q e Hd Hat E) as (d1 & Ep & [Hs1 (r & bu & sm & ->)]). unfold prev_body. rewrite Ep. cbn [obind].
  set (d1 := set_sampling d r bu sm) in *. assert (Hd1 : sane d1) by (destruct Hd; by split). assert (Hi1 : prev_inv (Datatypes.S q) b vt d1) by exact Hi.
  cbn [user_key sequence type]. rewrite (sane_sequence _ Hd1). destruct (Z.leb_spec (e_sequence e) snapshot) as [Hv|Hv].
  2: { exists (Some vt), d1. split; [done|]. split; [done|]. split; [done|]. split; [done|]. apply (prev_invisible q b e); [done|done|lia]. }
  destruct (update_at q e E) as (Hu & _ & Hty & _).
  assert (Hstop : exists st : bool, (if negb (vt =? kTypeDeletion) then let! r := Compare (e_user e) (saved_key_ d1) in Ok (r <? 0) else Ok false) = Ok st /\
    (st = true <-> vt = kTypeValue /\ order (e_user e) (saved_key_ d1) = Lt)).
  { pose proof Hi1 as [_ [[-> _]|(-> & c & ec & (_ & Ec & _) & Ek & _)]]; [exists false; split; [done|by split; [|intros [[=] _]]]|].
    cbn [negb Z.eqb kTypeValue kTypeDeletion]. destruct (compare_law (e_user e) (saved_key_ d1) Hu) as (rc & -> & <-); [rewrite Ek; by apply (update_at c ec)|].
    cbn [obind]. exists (rc <? 0). split; [done|]. rewrite Z.ltb_lt, Z.compare_lt_iff. split; [done|by intros [_ ?]]. }
  destruct Hstop as (st & -> & Hst). cbn [obind]. destruct st.
  { exists None, d1. split; [done|]. split; [done|]. split; [done|]. split; [done|]. split; [done|]. by apply Hst. }
  assert (Hhid : forall m, (q < m < b)%nat -> shown m = false).
  { apply (prev_hidden q b e vt d1 Hi1 E Hv). intros Ev Ho. assert (false = true) by (by apply Hst). done. }
  assert (Hqb : (q < b <= length l)%nat) by (destruct Hi1; lia).
  destruct Hty as [Ht|Ht]; rewrite Ht; cbn [Z.eqb kTypeDeletion kTypeValue].
  - exists (Some kTypeDeletion), (ClearSavedValue (set_saved_key d1 [])). split; [done|]. split; [by apply set_sane, set_sane|]. split; [done|]. split; [done|].
    split; [lia|]. left. split; [done|]. intros m Hm. destruct (decide (m = q)) as [->|]; [apply (not_shown q e E); right; by rewrite Ht|apply Hhid; lia].
  - change (iter_ d1) with (iter_ d). destruct (at_entry _ q e Hat E) as [-> ->]. cbn [obind]. rewrite entry_user. cbn [obind].
    eexists _, _. split; [done|]. split; [by apply set_sane, set_sane|]. split; [done|]. split; [done|].
    split; [lia|]. right. split; [done|]. exists q, e. split; [|done]. split; [lia|]. split_and!; try done. intros m em ?. lia.
Qed.

(** Where the search ends. *)
Definition prev_end (q : nat) (vt : Z) (d : d_iter) : Prop := q = 0%nat \/
  exists p e, q = Datatypes.S p /\ vt = kTypeValue /\ l !! p = Some e /\ order (e_user e) (saved_key_ d) = Lt.

Lemma prev_loop_ok n : forall q b vt d, sane d -> at_ (iter_ d) q -> (q < length l)%nat -> (q < n)%nat -> prev_inv (Datatypes.S q) b vt d ->
  exists vt' d' q', prev_loop n vt d = Ok (vt', d') /\ sane d' /\ direction_ d' = direction_ d /\ at_ (iter_ d') (wrapped q') /\
    prev_inv q' b vt' d' /\ prev_end q' vt' d'.
Proof.
  induction n as [|n IH]; intros q b vt d Hd Hat Hq Hn Hi; [lia|]. destruct (lookup_lt_is_Some_2 l q Hq) as [e E].
  destruct (prev_body_ok vt d q b e Hd Hat E Hi) as (c & d1 & Eb & Hd1 & Ei & Edir & Hc). cbn [prev_loop]. rewrite Eb. cbn [obind].
  rewrite <- Ei in Hat. destruct c as [vt1|].
  - destruct (at_prev _ q Hat Hq) as (t & Et & Hat'). unfold move. rewrite Et. cbn [obind]. change (iter_ (set_iter d1 t)) with t.
    rewrite (at_valid t _ Hat'). cbn [obind]. destruct q as [|q]; cbn [wrapped] in *.
    + rewrite Nat.ltb_irrefl. exists vt1, (set_iter d1 t), 0%nat. split; [done|]. split; [by apply set_sane|]. split; [by cbn|]. split; [done|].
      split; [done|by left].
    + rewrite (proj2 (Nat.ltb_lt q (length l))) by lia.
      destruct (IH q b vt1 (set_iter d1 t)) as (vt' & d' & q' & Ed & Hd' & Hdir & H'); [by apply set_sane|done|lia|lia|done|].
      exists vt', d', q'. split; [done|]. split; [done|]. split; [by rewrite Hdir|done].
  - destruct Hc as (Hc & Ev & Ho). exists vt, d1, (Datatypes.S q). split; [done|]. split; [done|]. split; [done|]. split; [done|]. split; [done|].
    right. by exists q, e.
Qed.

Lemma candidate_shown q b c e d : candidate q b c e -> saved_key_ d = e_user e -> prev_end q kTypeValue d ->
  shown c = true /\ count b = Datatypes.S (count c) /\ reverse_at (wrapped q) c.
Proof.
  intros (Hc & Ec & Hv & Ht & Hm & Hn) Ek Hend.
  assert (Hlow : forall r er, q = Datatypes.S r -> l !! r = Some er -> order (e_user er) (e_user e) = Lt).
  { intros r er -> Er. destruct Hend as [[=]|(p & ep & [= <-] & _ & E & Ho)]. rewrite Er in E. injection E as <-. by rewrite <- Ek. }
  assert (Hs : shown c = true).
  { apply shown_spec. exists e. split_and!; try done. intros m Hmc (e' & E' & Hv' & Eu). destruct (Nat.le_gt_cases q m) as [|Hlt]; [by apply (Hm m e')|].
    destruct q as [|r]; [lia|]. destruct (lookup_lt_is_Some_2 l r) as [er Er]; [apply lookup_lt_Some in Ec; lia|].
    pose proof (order_le_lt order _ _ _ (users_sorted m r e' er E' Er ltac:(lia)) (Hlow r er eq_refl Er)) as Hlt2. congruence. }
  split; [done|]. split; [|exists q; split_and!; try done; [lia|intros r er e' Eq Er Ee'; rewrite Ec in Ee'; injection Ee' as <-; by apply (Hlow r er)]].
  rewrite <- Nat.add_1_r, <- (count_shown c Hs). symmetry. apply count_same; [lia|]. intros m Hmc. apply Hn. lia.
Qed.

Lemma FindPrevUserEntry_ok d b : sane d -> direction_ d = kReverse -> at_ (iter_ d) (wrapped b) -> (b <= length l)%nat ->
  exists d', FindPrevUserEntry fuel d = Ok d' /\ user_at d' (match count b with O => length view | Datatypes.S g => g end).
Proof.
  intros Hd Hdir Hat Hb. unfold FindPrevUserEntry. rewrite Hdir. cbn [assert]. rewrite (at_valid _ _ Hat). cbn [obind].
  assert (Hstart : prev_inv b b kTypeDeletion d) by (split; [lia|]; left; split; [done|]; intros m ?; lia).
  assert (Hloop : exists vt' d' q', (if (wrapped b <? length l)%nat then prev_loop fuel kTypeDeletion d else Ok (kTypeDeletion, d)) = Ok (vt', d') /\
    sane d' /\ direction_ d' = direction_ d /\ at_ (iter_ d') (wrapped q') /\ prev_inv q' b vt' d' /\ prev_end q' vt' d').
  { destruct b as [|b]; cbn [wrapped] in *.
    - rewrite Nat.ltb_irrefl. exists kTypeDeletion, d, 0%nat. split_and!; try done. by left.
    - rewrite (proj2 (Nat.ltb_lt b (length l))) by lia. apply (prev_loop_ok fuel b); try done; lia. }
  destruct Hloop as (vt & d1 & q & -> & Hd1 & Ed1 & Hat1 & [Hq Hi] & Hend). cbn [obind].
  destruct Hi as [[-> Hn]|(-> & c & e & Hc & Ek & Ev)]; cbn [Z.eqb kTypeDeletion kTypeValue].
  - destruct Hend as [->|(p & e & _ & [=] & _)]. rewrite <- (count_same order snapshot l 0 b); [|lia|done]. cbn [count length List.filter seq].
    eexists. split; [done|]. split; [by destruct Hd1; split|]. split; [done|]. cbn [valid_ set_direction ClearSavedValue set_saved_value set_saved_key set_valid].
    split; [done|]. by exists (wrapped 0).
  - destruct (candidate_shown q b c e d1 Hc Ek Hend) as (Hs & -> & Hr). eexists. split; [done|].
    split; [by apply set_sane|]. split; [apply count_le|]. cbn [valid_ set_valid]. exists c, e, (wrapped q).
    split; [by apply shown_list_at|]. split; [by destruct Hc as (_ & ? & _)|]. split; [done|]. cbn [direction_ set_valid]. rewrite Ed1, Hdir. done.
Qed.

Lemma db_SeekToLast_ok d : db_usable d -> exists d', db_SeekToLast fuel d = Ok d' /\ user_at d' (length view - 1).
Proof.
  intros [Hd Hu]. destruct (last_law (iter_ d) Hu) as (t & Et & Hat). unfold db_SeekToLast, move, ClearSavedValue. cbn [iter_ set_saved_value set_direction].
  rewrite Et. cbn [obind]. match goal with |- context [FindPrevUserEntry fuel ?d'] => set (d1 := d') end.
  destruct (FindPrevUserEntry_ok d1 (length l)) as (d' & -> & Hat'); [destruct Hd; by split|done| |done|].
  - rewrite total_length in Hat. change (iter_ d1) with t. destruct (length l) as [|n] eqn:El; unfold wrapped; rewrite ?El; cbn in Hat |- *; [done|].
    by rewrite Nat.sub_0_r in Hat.
  - exists d'. split; [done|]. rewrite (count_all order) in Hat'. destruct (length view); cbn in *; [done|]. by rewrite Nat.sub_0_r.
Qed.

(** The entries that [Prev] leaves behind have the user key of update [j]. *)
Lemma same_user_hidden p j e : shown j = true -> l !! j = Some e ->
  (forall m em, (p <= m < j)%nat -> l !! m = Some em -> order (e_user em) (e_user e) <> Lt) -> forall m, (p <= m < j)%nat -> shown m = false.
Proof.
  intros Hj E Hall m Hm. apply not_true_iff_false. intros Hs. pose proof Hs as (em & Em & Hv & _)%shown_spec.
  destruct (shown_visible j e Hj E) as (_ & _ & Hh). apply (Hh m); [lia|]. exists em. split; [done|]. split; [done|].
  pose proof (users_sorted m j em e Em E ltac:(lia)). pose proof (Hall m em Hm Em). by destruct (order (e_user em) (e_user e)).
Qed.

Lemma leave_key_ok n j e : shown j = true -> l !! j = Some e -> forall p d, sane d -> saved_key_ d = e_user e -> at_ (iter_ d) p -> (p <= j)%nat -> (p < n)%nat ->
  (forall m em, (p <= m < j)%nat -> l !! m = Some em -> order (e_user em) (e_user e) <> Lt) ->
  exists found d', leave_key n d = Ok (found, d') /\
    if found : bool then sane d' /\ exists r, (r < j)%nat /\ at_ (iter_ d') r /\ count (Datatypes.S r) = count j
    else count j = 0%nat /\ user_at d' (length view).
Proof.
  intros Hs E. pose proof (lookup_lt_Some _ _ _ E) as Hj. induction n as [|n IH]; intros p d Hd Ek Hat Hp Hn Hall; [lia|]. cbn [leave_key].
  destruct (at_prev _ p Hat ltac:(lia)) as (t & Et & Hat'). unfold move. rewrite Et. cbn [obind]. change (iter_ (set_iter d t)) with t.
  rewrite (at_valid t _ Hat'). cbn [obind]. destruct p as [|p]; cbn [wrapped] in *.
  - rewrite Nat.ltb_irrefl. eexists _, _. split; [done|]. split.
    + rewrite <- (count_same order snapshot l 0 j); [done|lia|]. by apply (same_user_hidden 0 j e).
    + split; [by destruct Hd; split|]. split; [done|]. cbn. split; [done|]. by exists (length l).
  - rewrite (proj2 (Nat.ltb_lt p (length l))) by lia. destruct (lookup_lt_is_Some_2 l p ltac:(lia)) as [ep Ep].
    destruct (at_entry t p ep Hat' Ep) as [-> _]. cbn [obind]. rewrite entry_user. cbn [obind].
    destruct (compare_law (e_user ep) (e_user e)) as (r & Er & Ho); [by apply (update_at p ep)|by apply (update_at j e)|].
    change (saved_key_ (set_iter d t)) with (saved_key_ d). rewrite Ek, Er. cbn [obind]. destruct (Z.ltb_spec r 0) as [Hlt|Hge].
    + eexists _, _. split; [done|]. split; [by apply set_sane|]. exists p. split; [lia|]. split; [done|].
      apply count_same; [lia|]. by apply (same_user_hidden _ j e).
    + apply (IH p (set_iter d t)); [by apply set_sane|done|done|lia|lia|]. intros m em Hm Em.
      destruct (decide (m = p)) as [->|]; [|apply (Hall m); [lia|done]]. rewrite Ep in Em. injection Em as <-. rewrite <- Ho. by apply Z.compare_ge_iff.
Qed.

Lemma db_Prev_ok d g : user_at d g -> (g < length view)%nat ->
  exists d', db_Prev fuel d = Ok d' /\ user_at d' (match g with O => length view | Datatypes.S g' => g' end).
Proof.
  intros Hat Hg. destruct (user_at_inv d g Hat Hg) as (Hd & Hv & j & e & p & Hs & Hc & E & Hp & Hdir).
  pose proof (lookup_lt_Some _ _ _ E) as Hj. unfold db_Prev. rewrite Hv. cbn [assert]. destruct (direction_ d) eqn:Ed.
  - subst p. rewrite (at_valid _ j Hp), (proj2 (Nat.ltb_lt _ _) Hj). cbn [obind assert]. destruct (at_entry _ j e Hp E) as [-> _]. cbn [obind]. rewrite entry_user. cbn [obind].
    destruct (leave_key_ok fuel j e Hs E j (set_saved_key d (e_user e))) as (found & d1 & -> & Hf); [by apply set_sane|done|done|lia|lia|intros m em ?; lia|].
    cbn [obind]. destruct found.
    + destruct Hf as (Hd1 & r & Hr & Hat1 & Ecount). destruct (FindPrevUserEntry_ok (set_direction d1 kReverse) (Datatypes.S r)) as (d' & -> & Hat'); [by apply set_sane|done|done|lia|].
      exists d'. split; [done|]. by rewrite Ecount, Hc in Hat'.
    + destruct Hf as [Hz Hend]. rewrite Hc in Hz. rewrite Hz. by exists d1.
  - destruct Hdir as ((q & Hqj & -> & Hinv & _) & _). destruct (FindPrevUserEntry_ok d q Hd Ed Hp ltac:(lia)) as (d' & -> & Hat').
    exists d'. split; [done|]. rewrite (count_same order snapshot l q j), Hc in Hat'; [done|done|]. intros m Hm.
    destruct (lookup_lt_is_Some_2 l m ltac:(lia)) as [em Em]. apply (not_shown m em Em). left. by apply (Hinv m).
Qed.

(** The database iterator is lawful over the view. *)
#[export] Instance db_iter_lawful : @LawfulIterator d_iter (db_iterator fuel) order valid view db_usable user_at.
Proof.
  split.
  - intros d g (Hd & Hg & Hm). split; [|done]. split; [done|]. destruct (valid_ d).
    + destruct Hm as (j & e & p & _ & _ & Hat & _). apply (proj1 (at_usable (iter_ d) p Hat)).
    + destruct Hm as (_ & p & Hat). apply (proj1 (at_usable (iter_ d) p Hat)).
  - apply db_SeekToFirst_ok.
  - apply db_SeekToLast_ok.
  - intros d target. apply db_Seek_ok.
  - apply db_Next_ok.
  - apply db_Prev_ok.
  - intros d g (_ & Hg & Hm). cbn. f_equal. symmetry. destruct (valid_ d).
    + destruct Hm as (j & e & p & Hj & _). apply Nat.ltb_lt. unfold DbIterProof.view. rewrite length_map. by apply lookup_lt_Some in Hj.
    + destruct Hm as [-> _]. apply Nat.ltb_irrefl.
  - intros d g k v Hat Ev. pose proof (lookup_lt_Some _ _ _ Ev) as Hg. destruct (user_at_inv d g Hat Hg) as (Hd & Hv & j & e & p & Hs & Hc & E & Hp & Hdir).
    destruct (view_lookup order snapshot l g Hg) as (j' & e' & Hj' & E' & Ev'). destruct (shown_list_inv order snapshot l g j' Hj') as [_ Hc'].
    assert (j' = j) as ->. { pose proof (shown_list_at order snapshot l j Hs) as Hj. rewrite Hc, Hj' in Hj. by injection Hj. }
    rewrite E in E'. injection E' as <-. pose proof (eq_trans (eq_sym Ev) Ev') as Ekv. injection Ekv as -> ->.
    cbn. unfold db_key, db_value. rewrite Hv. cbn [assert]. destruct (direction_ d).
    + subst p. destruct (at_entry _ j e Hp E) as [-> ->]. cbn [obind]. by rewrite entry_user.
    + by destruct Hdir as (_ & -> & ->).
  - intros d g (Hd & _ & Hm). cbn. unfold db_status. rewrite (sane_status _ Hd). cbn [ok]. destruct (valid_ d).
    + destruct Hm as (j & e & p & _ & _ & Hat & _). by apply (status_law (iter_ d) p).
    + destruct Hm as (_ & p & Hat). by apply (status_law (iter_ d) p).
Qed.

Lemma NewDBIterator_ok t seed : usable t -> db_usable (NewDBIterator t snapshot seed).
Proof.
  intros Hu. unfold NewDBIterator. destruct (Uniform_ok (2 * kReadBytesPeriod) (new_Random seed) ltac:(done) (new_Random_ok seed)) as [Hp Hs].
  fold (RandomCompactionPeriod (new_Random seed)) in Hp, Hs. destruct (RandomCompactionPeriod _) as [period rnd]. cbn in Hp, Hs.
  split; [|done]. split; [done|done|]. split; [done|]. cbn. unfold kReadBytesPeriod in Hp. lia.
Qed.
End Cursor.
