(* ===== verification/DbIterSpec.v ===== *)
(** * Reading the database through iterators

    The iterator of a memtable is lawful; the database iterator over the
    merged iterators of memtables shows what a snapshot sees. *)
From Stdlib Require Import Sorting.Sorted.
From S2P Require Import Prelude Order Coding CodingProof Env Comparator ComparatorProof DbFormat DbFormatProof SkipList SkipListProof SkipListSet Iterator TwoLevelProof.
From S2P Require Import MemTable MemTableSpec Merger MergerProof DbIter DbIterProof.
Import DBIter.

(** ** Keys that fit in an entry *)
Definition fits (valid : list Z -> Prop) (k : list Z) : Prop := valid k /\ zlen k + 8 < 2 ^ 32.

#[export] Instance fits_lawful `{Comparator} valid order `{!LawfulComparator valid order} `{!ShortComparator} : LawfulComparator (fits valid) order.
Proof.
  split; [|apply _| |].
  - intros a b [Ha _] [Hb _]. by apply compare_law.
  - intros start limit [Hs Hz] [Hl _] Ho. destruct (separator_law start limit Hs Hl Ho) as (s & E & Hv & Hrest).
    exists s. split; [done|]. split; [|done]. split; [done|]. pose proof (separator_short _ _ _ E). lia.
  - intros key [Hk Hz]. destruct (successor_law key Hk) as (s & E & Hv & Hle). exists s. split; [done|]. split; [|done].
    split; [done|]. pose proof (successor_short _ _ E). lia.
Qed.

(** ** Sorted updates *)
Section Sort.
Context {A B : Type} (f : A -> B) (order : B -> B -> comparison) {Horder : TotalOrder order}.

Lemma insert_perm {K} (o : K -> K -> comparison) k ks : insert_key o k ks ≡ₚ k :: ks.
Proof. induction ks as [|k' ks IH]; [done|]. cbn [insert_key]. destruct (less o k' k); [|done]. rewrite IH. by constructor. Qed.

Lemma sort_perm {K} (o : K -> K -> comparison) ks : sort o ks ≡ₚ ks.
Proof.
  induction ks as [|k ks IH] using rev_ind; [done|]. rewrite sort_snoc, insert_perm, IH. by rewrite Permutation_app_comm.
Qed.

Lemma insert_sorted {K} (o : K -> K -> comparison) `{!TotalOrder o} k ks : sorted o ks -> Forall (fun k' => o k' k <> Eq) ks -> sorted o (insert_key o k ks).
Proof.
  induction ks as [|k' ks IH]; intros Hs Hd; [by constructor; [constructor|]|]. apply Forall_cons in Hd as [Hne Hd]. cbn [insert_key]. unfold less.
  pose proof Hs as Hs'. apply StronglySorted_inv in Hs' as [Hs' Hf]. destruct (o k' k) eqn:E; [done| |].
  - constructor; [by apply IH|]. rewrite insert_perm. by constructor.
  - assert (Ek : o k k' = Lt) by (rewrite (order_antisym k' k), E; done). constructor; [done|]. constructor; [done|].
    eapply Forall_impl; [exact Hf|]. intros x Hx. by apply (order_lt_trans o k k' x).
Qed.

(** Sorting by what the elements are mapped to. *)
Lemma sort_map (o : A -> A -> comparison) (P : A -> Prop) l :
  (forall a b, P a -> P b -> order (f a) (f b) = o a b) -> Forall P l -> sort order (map f l) = map f (sort o l).
Proof.
  intros Ho Hl. assert (Hi : forall a l, P a -> Forall P l -> insert_key order (f a) (map f l) = map f (insert_key o a l)).
  { intros a l' Ha. induction 1 as [|b l' Hb Hl' IH]; [done|]. cbn [map insert_key]. unfold less. rewrite (Ho b a Hb Ha).
    destruct (o b a); cbn [map]; by rewrite ?IH. }
  induction l as [|a l IH] using rev_ind; [done|]. apply Forall_app in Hl as [Hl [Ha _]%Forall_cons].
  rewrite map_app. cbn [map]. rewrite !sort_snoc, IH by done. apply Hi; [done|]. by rewrite (sort_perm o l).
Qed.
End Sort.

(** ** The iterator of a memtable *)
Section MemIter.
Context `{Comparator} (valid : list Z -> Prop) (order : list Z -> list Z -> comparison).
Context {Hlaw : LawfulComparator valid order} {Hshort : ShortComparator} (Hbytes : forall k, valid k -> bytes k).
#[local] Abbreviation iorder := (internal_order order).

Definition updates (es : list DbEntry) : list DbEntry := sort (order_on entry_key iorder) es.

Definition mem_usable (m : MemTable) (i : MemTableIterator) : Prop := mem_table i = m.
Definition mem_at (m : MemTable) (es : list DbEntry) (i : MemTableIterator) (p : nat) : Prop :=
  mem_table i = m /\ (p <= length (updates es))%nat /\
  exists ns, holds (table_order order) (table_valid valid) (table_ m) ns (map entry_bytes (updates es)) /\ mem_node i = ns !! p.

Context (m : MemTable) (es : list DbEntry) (Hes : Forall (entry_ok valid) es) (Hm : entries_of valid order m es).

Lemma updates_ok : Forall (entry_ok valid) (updates es).
Proof. unfold updates. by rewrite sort_perm. Qed.

Lemma entry_table_order a b : entry_ok valid a -> entry_ok valid b -> table_order order (entry_bytes a) (entry_bytes b) = order_on entry_key iorder a b.
Proof.
  intros Ha Hb. unfold table_order, order_on, key_in. by rewrite (entry_slice valid Hbytes a Ha), (entry_slice valid Hbytes b Hb).
Qed.

Lemma mem_holds : exists ns, holds (table_order order) (table_valid valid) (table_ m) ns (map entry_bytes (updates es)).
Proof.
  destruct Hm as (ns & Hh). exists ns. unfold updates. rewrite <- (sort_map entry_bytes (table_order order) (order_on entry_key iorder) (entry_ok valid)); [done|apply entry_table_order|done].
Qed.

Lemma updates_sorted : sorted iorder (keys_of (table_entries (updates es))).
Proof.
  destruct mem_holds as (ns & Hh). destruct (holds_keys _ _ _ _ _ Hh) as (Hs & _ & _). pose proof updates_ok as Hok. clear Hh.
  unfold keys_of, table_entries. rewrite map_map. cbn. induction Hok as [|e l He Hl IH]; [constructor|].
  cbn [map] in *. apply StronglySorted_inv in Hs as [Hs Hf]. constructor; [by apply IH|]. clear IH Hs.
  apply Forall_map. apply Forall_map in Hf. rewrite Forall_forall in *. intros x Hx. specialize (Hf x Hx).
  rewrite <- Hf. symmetry. apply entry_table_order; [done|by apply Hl].
Qed.

Lemma encode_key k : zlen k < 2 ^ 32 -> key_in (EncodeKey k) = k.
Proof.
  intros Hk. unfold key_in. change (EncodeKey k) with (EncodeLengthPrefixed k). rewrite <- (app_nil_r (EncodeLengthPrefixed k)).
  by rewrite slice_at_encode.
Qed.

Lemma mem_place k : zlen k < 2 ^ 32 ->
  place (table_order order) (EncodeKey k) (map entry_bytes (updates es)) = place iorder k (keys_of (table_entries (updates es))).
Proof.
  intros Hk. unfold place, keys_of, table_entries. rewrite map_map. cbn [fst]. induction updates_ok as [|e l He Hl IH]; [done|].
  cbn [map List.filter]. assert (E : less (table_order order) (entry_bytes e) (EncodeKey k) = less iorder (entry_key e) k).
  { unfold less, table_order, order_on. rewrite encode_key by done. unfold key_in. by rewrite (entry_slice valid Hbytes e He). }
  rewrite E. destruct (less iorder (entry_key e) k); [apply (f_equal Datatypes.S)|]; exact IH.
Qed.

Lemma mem_node_at ns p e : holds (table_order order) (table_valid valid) (table_ m) ns (map entry_bytes (updates es)) -> updates es !! p = Some e ->
  exists x, ns !! p = Some x /\ get_key x (table_ m) = Ok (entry_bytes e).
Proof.
  intros Hh E. destruct (holds_keys _ _ _ _ _ Hh) as (_ & _ & Hlen). rewrite length_map in Hlen.
  destruct (lookup_lt_is_Some_2 ns p) as [x Ex]; [rewrite Hlen; by apply lookup_lt_Some in E|].
  destruct (holds_key_at _ _ _ _ _ _ _ Hh Ex) as (k & Hk & Eg & _). exists x. split; [done|]. rewrite Eg.
  pose proof (list_lookup_fmap entry_bytes (updates es) p) as El. rewrite E in El. pose proof (eq_trans (eq_sym Hk) El) as E2. by injection E2 as ->.
Qed.

#[export] Instance mem_lawful : LawfulIterator MemTableIterator iorder (valid_internal (fits valid)) (table_entries (updates es)) (mem_usable m) (mem_at m es).
Proof.
  assert (Elen : length (table_entries (updates es)) = length (updates es)) by apply length_map.
  assert (Hns : forall ns, holds (table_order order) (table_valid valid) (table_ m) ns (map entry_bytes (updates es)) -> length ns = length (updates es)).
  { intros ns Hh. destruct (holds_keys _ _ _ _ _ Hh) as (_ & _ & E). by rewrite length_map in E. }
  split; rewrite ?Elen.
  - intros i p (Et & Hp & _). done.
  - intros i Hi. destruct mem_holds as (ns & Hh). cbn. unfold mem_iter_move. rewrite Hi, (first_ok _ _ _ _ _ Hh). cbn [obind].
    eexists. split; [done|]. split; [done|]. split; [lia|]. by exists ns.
  - intros i Hi. destruct mem_holds as (ns & Hh). cbn. unfold mem_iter_move. rewrite Hi, (last_ok _ _ _ _ _ Hh). cbn [obind].
    eexists. split; [done|]. split; [done|]. split; [lia|]. exists ns. split; [done|]. cbn. rewrite last_lookup, (Hns ns Hh).
    f_equal. lia.
  - intros i target Hi (H8 & Hb & Hv & Hz). destruct mem_holds as (ns & Hh). cbn. unfold mem_iter_Seek. rewrite Hi.
    assert (Hzt : zlen target < 2 ^ 32). { unfold user_part in Hz. unfold zlen in *. rewrite length_take in Hz. lia. }
    rewrite (place_seek_ok KeyComparator _ _ (table_compare valid order) _ ns _ (EncodeKey target) Hh).
    + cbn [obind]. eexists. split; [done|]. split; [done|]. rewrite <- mem_place by done. split; [|by exists ns].
      pose proof (place_le (table_order order) (EncodeKey target) (map entry_bytes (updates es))) as Hle. by rewrite length_map in Hle.
    + exists target, []. split; [|done]. change (EncodeKey target) with (EncodeLengthPrefixed target). rewrite <- (app_nil_r (EncodeLengthPrefixed target)).
      by apply slice_at_encode.
  - intros i p (Et & _ & ns & Hh & En) Hp. destruct (lookup_lt_is_Some_2 (updates es) p Hp) as [e E]. destruct (mem_node_at ns p e Hh E) as (x & Ex & _).
    cbn. unfold mem_iter_move. rewrite Et, En, Ex, (next_ok _ _ _ _ _ _ _ Hh Ex). cbn [obind]. eexists. split; [done|]. split; [done|]. split; [lia|].
    exists ns. by rewrite Nat.add_1_r.
  - intros i p (Et & _ & ns & Hh & En) Hp. destruct (lookup_lt_is_Some_2 (updates es) p Hp) as [e E]. destruct (mem_node_at ns p e Hh E) as (x & Ex & _).
    cbn. unfold mem_iter_move. rewrite Et, En, Ex, (prev_ok KeyComparator _ _ (table_compare valid order) _ _ _ _ _ Hh Ex). cbn [obind]. eexists. split; [done|].
    split; [done|]. split; [destruct p; lia|]. exists ns. split; [done|]. destruct p as [|p]; [|done]. cbn. symmetry. apply lookup_ge_None. by rewrite (Hns ns Hh).
  - intros i p (Et & Hp & ns & Hh & En). cbn. rewrite En. f_equal. unfold iter_Valid. destruct (Nat.ltb_spec p (length (updates es))) as [Hlt|Hge].
    + destruct (lookup_lt_is_Some_2 ns p) as [x Ex]; [by rewrite (Hns ns Hh)|]. by rewrite Ex.
    + rewrite lookup_ge_None_2; [done|]. by rewrite (Hns ns Hh).
  - intros i p k v (Et & Hp & ns & Hh & En) E. pose proof (list_lookup_fmap (fun e => (entry_key e, e_value e)) (updates es) p) as El.
    pose proof (eq_trans (eq_sym El) E) as E2. destruct (updates es !! p) as [e|] eqn:Ee; [|done]. injection E2 as <- <-.
    destruct (mem_node_at ns p e Hh Ee) as (x & Ex & Eg). pose proof updates_ok as Hok. rewrite Forall_lookup in Hok. specialize (Hok p e Ee).
    cbn. unfold mem_iter_key, mem_iter_value, SkipList.iter_key. rewrite Et, En, Ex, Eg. cbn [obind]. rewrite (entry_slice valid Hbytes e Hok). cbn [obind].
    split; [done|]. rewrite <- (app_nil_r (EncodeLengthPrefixed (e_value e))), slice_at_encode; [done|]. by destruct Hok as (_ & _ & _ & _ & ?).
  - done.
Qed.
End MemIter.

(** ** What a snapshot sees, without positions *)
Section Snapshot.
Context (order : list Z -> list Z -> comparison) {Horder : TotalOrder order}.

(** The newest update of its user key that is not later than [s]. *)
Definition newest_value (s : Z) (es : list DbEntry) (e : DbEntry) : Prop :=
  e ∈ es /\ e_sequence e <= s /\ e_type e = kTypeValue /\
  forall e', e' ∈ es -> order (e_user e') (e_user e) = Eq -> e_sequence e' <= s -> e_sequence e' <= e_sequence e.

Context (s : Z) (l : list DbEntry).
Context (Hok : Forall (fun e => sequence_ok (e_sequence e) /\ type_ok (e_type e)) l) (Hl : sorted (internal_order order) (keys_of (table_entries l))).

Lemma updates_before m j e e' : l !! m = Some e -> l !! j = Some e' -> (m < j)%nat ->
  order (e_user e) (e_user e') = Lt \/ order (e_user e) (e_user e') = Eq /\
    (e_sequence e' < e_sequence e \/ e_sequence e' = e_sequence e /\ e_type e' < e_type e).
Proof.
  intros E E' Hm. rewrite Forall_lookup in Hok. destruct (Hok m e E) as [Hs Ht]. destruct (Hok j e' E') as [Hs' Ht'].
  assert (Hlt : internal_order order (entry_key e) (entry_key e') = Lt).
  { pose proof (list_lookup_fmap (fun e => entry_key e) l m) as Em. rewrite E in Em. pose proof (list_lookup_fmap (fun e => entry_key e) l j) as Ej. rewrite E' in Ej.
    apply (sorted_lookup _ (keys_of (table_entries l)) m j _ _ Hl); [| |done]; unfold keys_of, table_entries; by rewrite map_map. }
  unfold entry_key in Hlt. rewrite (internal_order_encoded order) in Hlt by done. destruct (order (e_user e) (e_user e')); [|by left|done].
  right. split; [done|]. destruct (Z.compare_spec (e_sequence e') (e_sequence e)) as [->|?|?]; [right; split; [done|]|by left|done].
  by apply Z.compare_lt_iff.
Qed.

Lemma shown_newest j : shown order s l j = true <-> exists e, l !! j = Some e /\ newest_value s l e.
Proof.
  rewrite shown_spec. split; intros (e & E & H').
  - destruct H' as (Hs & Ht & Hh). exists e. split; [done|]. split; [by eapply list_elem_of_lookup_2|]. split_and!; try done.
    intros e' (m & E')%list_elem_of_lookup Ho Hs'. destruct (Nat.lt_trichotomy m j) as [Hm|[->|Hm]].
    + exfalso. apply (Hh m Hm). by exists e'.
    + rewrite E in E'. by injection E' as <-.
    + destruct (updates_before j m e e' E E' Hm) as [Hc|[_ Hc]]; [|lia]. rewrite (order_antisym (e_user e)), Hc in Ho. done.
  - destruct H' as (_ & Hs & Ht & Hn). exists e. split_and!; try done. intros m Hm (e' & E' & Hs' & Ho).
    specialize (Hn e' ltac:(by eapply list_elem_of_lookup_2) Ho Hs'). destruct (updates_before m j e' e E' E Hm) as [Hc|[_ Hc]]; [congruence|].
    rewrite Forall_lookup in Hok. destruct (Hok m e' E') as [_ [Ht'|Ht']]; rewrite Ht, Ht' in Hc; unfold kTypeValue, kTypeDeletion in Hc; lia.
Qed.

(** The view has exactly the newest values. *)
Lemma view_newest k v : (k, v) ∈ view order s l <-> exists e, newest_value s l e /\ e_user e = k /\ e_value e = v.
Proof.
  split.
  - intros (g & Eg)%list_elem_of_lookup. destruct (view_lookup order s l g (lookup_lt_Some _ _ _ Eg)) as (j & e & Hj & E & Ev).
    pose proof (eq_trans (eq_sym Eg) Ev) as Ekv. injection Ekv as -> ->. destruct (shown_list_inv order s l g j Hj) as [Hs _].
    apply shown_newest in Hs as (e' & E' & Hn). rewrite E in E'. injection E' as <-. by exists e.
  - intros (e & Hn & <- & <-). pose proof Hn as [(j & E)%list_elem_of_lookup _].
    assert (Hs : shown order s l j = true) by (apply shown_newest; by exists e).
    apply (list_elem_of_lookup_2 _ (count order s l j)). pose proof (shown_list_at order s l j Hs) as Hj.
    pose proof (list_lookup_fmap (user_entry l) (shown_list order s l) (count order s l j)) as El. rewrite Hj in El. refine (eq_trans El _).
    cbn. unfold user_entry. by rewrite E.
Qed.

(** Its keys increase. *)
Lemma view_sorted : sorted order (keys_of (view order s l)).
Proof.
  unfold keys_of, view. rewrite map_map. unfold shown_list. generalize 0%nat. induction (length l) as [|n IH]; intros p; [constructor|].
  cbn [seq List.filter]. destruct (shown order s l p) eqn:Ep; [|apply IH]. cbn [map]. constructor; [apply IH|].
  apply Forall_map, Forall_forall. intros j [Hj Hs]%list_elem_of_In%filter_In. apply in_seq in Hj. cbn beta.
  apply shown_newest in Ep as (e & E & _ & Hv & _). apply shown_spec in Hs as (e' & E' & _ & _ & Hh). unfold user_entry. rewrite E, E'. cbn [fst].
  destruct (updates_before p j e e' E E' ltac:(lia)) as [|[Ho _]]; [done|]. exfalso. apply (Hh p ltac:(lia)). by exists e.
Qed.
End Snapshot.

(** ** Memtables through merged iterators *)
Section Database.
Context `{Comparator} (valid : list Z -> Prop) (order : list Z -> list Z -> comparison).
Context {Hlaw : LawfulComparator valid order} {Hshort : ShortComparator} (Hbytes : forall k, valid k -> bytes k).

Lemma newest_perm s es es' e : es ≡ₚ es' -> newest_value order s es e <-> newest_value order s es' e.
Proof. intros Hp. unfold newest_value. by setoid_rewrite Hp. Qed.

Lemma updates_distinct es : Forall (entry_ok valid) es -> seqs_distinct es -> sorted (order_on entry_key (internal_order order)) (updates order es).
Proof.
  enough (H' : forall es, Forall (entry_ok valid) es -> (forall i j e e', es !! i = Some e -> es !! j = Some e' -> e_sequence e = e_sequence e' -> i = j) ->
    sorted (order_on entry_key (internal_order order)) (updates order es)).
  { intros Hok Hd. apply H'; [done|]. induction es as [|e es' IH]; intros [|i] [|j] x y Ex Ey Es; try done; cbn in Ex, Ey.
    - injection Ex as <-. apply list_elem_of_lookup_2 in Ey. destruct Hd as [Hn _]. symmetry in Es. by destruct (Hn y Ey).
    - injection Ey as <-. apply list_elem_of_lookup_2 in Ex. destruct Hd as [Hn _]. by destruct (Hn x Ex).
    - f_equal. apply Forall_cons in Hok as [_ Hok]. destruct Hd as [_ Hd]. by apply (IH Hok Hd i j x y). }
  clear es. intros es Hok Hd. unfold updates. induction es as [|e es IH] using rev_ind; [constructor|]. apply Forall_app in Hok as [Hok [He _]%Forall_cons].
  rewrite sort_snoc. apply insert_sorted; [apply _|apply IH; [done|]|].
  - intros i j x y Ex Ey. apply Hd; by apply lookup_app_l_Some.
  - rewrite sort_perm. apply Forall_lookup. intros i x Ex. rewrite Forall_lookup in Hok. destruct (Hok i x Ex) as (Hs & Ht & _). destruct He as (Hse & Hte & _).
    unfold order_on, entry_key. rewrite (internal_order_encoded order) by done. destruct (order (e_user x) (e_user e)); [|done|done].
    destruct (Z.compare_spec (e_sequence e) (e_sequence x)) as [Es| |]; [|done|done]. exfalso.
    assert (i = length es); [|apply lookup_lt_Some in Ex; lia]. apply (Hd i (length es) x e); [by apply lookup_app_l_Some|by apply list_lookup_middle|done].
Qed.

Lemma sorted_keys l : sorted (order_on entry_key (internal_order order)) l -> sorted (internal_order order) (keys_of (table_entries l)).
Proof.
  unfold keys_of, table_entries. rewrite map_map. cbn [fst]. induction l as [|e l IH]; [constructor|]. intros [Hs Hf]%StronglySorted_inv.
  constructor; [by apply IH|]. by apply Forall_map.
Qed.

(** What the database reads from: the merged iterators of memtables, under
    the database iterator. *)
Definition Snapshot : Type := DBIter (Merged MemTableIterator).
Definition internal_iterator : Iterator (Merged MemTableIterator) := @merged_iterator MemTableIterator mem_iterator InternalKeyComparator.
Definition snapshot_iterator (fuel : nat) : Iterator Snapshot := @db_iterator _ internal_iterator _ fuel.

Section Merged.
Context (ms : list MemTable) (ess : list (list DbEntry)).
Context (Hok : Forall (Forall (entry_ok valid)) ess) (Hms : Forall2 (entries_of valid order) ms ess) (Hd : seqs_distinct (concat ess)).
#[local] Abbreviation total := (table_entries (updates order (concat ess))).
#[local] Abbreviation children := (map (fun es => table_entries (updates order es)) ess).

Definition child_usable (i : nat) (t : MemTableIterator) : Prop := exists m, ms !! i = Some m /\ mem_usable m t.
Definition child_at (i : nat) (t : MemTableIterator) (p : nat) : Prop :=
  exists m es, ms !! i = Some m /\ ess !! i = Some es /\ mem_at valid order m es t p.

Lemma child_entries i es : ess !! i = Some es -> MergerProof.es children i = table_entries (updates order es).
Proof.
  intros E. unfold MergerProof.es. apply nth_lookup_Some. pose proof (list_lookup_fmap (fun es => table_entries (updates order es)) ess i) as El. by rewrite E in El.
Qed.

Lemma child_lawful i : (i < length children)%nat ->
  LawfulIterator MemTableIterator (internal_order order) (valid_internal (fits valid)) (MergerProof.es children i) (child_usable i) (child_at i).
Proof.
  rewrite length_map. intros Hi. destruct (lookup_lt_is_Some_2 ess i Hi) as [es Ees]. rewrite (child_entries i es Ees).
  destruct (Forall2_lookup_r _ _ _ _ _ Hms Ees) as (m & Em & Hm). rewrite Forall_lookup in Hok. pose proof (Hok i es Ees) as Hes.
  pose proof (mem_lawful valid order Hbytes m es Hes Hm) as Hl.
  assert (Eu : forall t, child_usable i t <-> mem_usable m t) by (intros t; split; [intros (m' & E & Hu); congruence|by exists m]).
  assert (Ea : forall t p, child_at i t p <-> mem_at valid order m es t p) by (intros t p; split; [intros (m' & es' & E & E' & Hu); congruence|by exists m, es]).
  destruct Hl. split.
  - intros t p. rewrite Ea, Eu. apply at_usable.
  - intros t. rewrite Eu. setoid_rewrite Ea. apply first_law.
  - intros t. rewrite Eu. setoid_rewrite Ea. apply last_law.
  - intros t k. rewrite Eu. setoid_rewrite Ea. apply seek_law.
  - intros t p. rewrite Ea. setoid_rewrite Ea. apply next_law.
  - intros t p. rewrite Ea. setoid_rewrite Ea. apply prev_law.
  - intros t p. rewrite Ea. apply valid_law.
  - intros t p k v. rewrite Ea. apply entry_law.
  - intros t p. rewrite Ea. apply status_law.
Qed.

Lemma total_ok : Forall (entry_ok valid) (concat ess).
Proof. by apply Forall_concat. Qed.

Lemma total_perm : total ≡ₚ concat children.
Proof.
  unfold table_entries. unfold updates at 1. rewrite (sort_perm _ (concat ess)). clear. induction ess as [|es ess' IH]; [done|]. cbn [concat map].
  rewrite map_app, IH. apply Permutation_app_tail. unfold updates. by rewrite sort_perm.
Qed.
End Merged.
(** C9: Reading the database at a snapshot.  Memtables hold updates with
    distinct sequence numbers.  The merging iterator over their iterators can be
    made, and over it the database iterator walks, forward and backward,
    through exactly the newest values of every user key that are not later
    than the snapshot, in the order of the user keys; [Seek] starts at the
    first key that is not smaller, in either direction. *)
Theorem db_iterator_snapshot (ms : list MemTable) (ess : list (list DbEntry)) snapshot seed fuel :
  Forall (Forall (entry_ok valid)) ess -> Forall2 (entries_of valid order) ms ess -> seqs_distinct (concat ess) ->
  sequence_ok snapshot -> (length (concat ess) < fuel)%nat ->
  exists m es, NewMergingIterator (map NewIterator ms) = Ok m /\
    sorted order (keys_of es) /\ (forall k v, (k, v) ∈ es <-> exists e, newest_value order snapshot (concat ess) e /\ e_user e = k /\ e_value e = v) /\
    let d : Snapshot := NewDBIterator m snapshot seed in
    let I := snapshot_iterator fuel in
    (exists f, SeekToFirst d = Ok f /\ walk_entries fuel Next f = Ok es) /\
    (exists f, SeekToLast d = Ok f /\ walk_entries fuel Prev f = Ok (rev es)) /\
    (forall u, fits valid u -> exists f, Seek u d = Ok f /\
      let i := place order u (keys_of es) in
      walk_entries fuel Next f = Ok (drop i es) /\
      ((i < length es)%nat -> walk_entries fuel Prev f = Ok (rev (take (i + 1) es)))).
Proof.
  intros Hok Hms Hd Hsnap Hfuel. set (l := updates order (concat ess)). set (total := table_entries l).
  assert (Hl : Forall (entry_ok valid) l) by (unfold l, updates; rewrite (sort_perm _ (concat ess)); by apply total_ok).
  assert (Hs : sorted (internal_order order) (keys_of total)) by (apply sorted_keys, updates_distinct; [by apply total_ok|done]).
  assert (Hlen : length l = length (concat ess)) by apply length_sort.
  pose proof (@internal_lawful _ (fits valid) order _ (fun k Hk => Hbytes k (proj1 Hk))) as Hint.
  set (children := map (fun es => table_entries (updates order es)) ess).
  assert (Hmerged : @LawfulIterator (Merged MemTableIterator) internal_iterator (internal_order order) (valid_internal (fits valid)) total
    (merged_usable children (child_usable ms)) (merged_at children (child_at ms ess) total)).
  { apply (@merged_lawful _ _ InternalKeyComparator _ _ Hint); [by apply child_lawful|by apply total_perm|done| |].
    - intros i. unfold MergerProof.es, children. destruct (nth_lookup_or_length (map (fun es => table_entries (updates order es)) ess) i []) as [E|E]; [|rewrite nth_overflow by done; constructor].
      pose proof (list_lookup_fmap (fun es => table_entries (updates order es)) ess i) as El. pose proof (eq_trans (eq_sym El) E) as E2.
      destruct (ess !! i) as [es|] eqn:Ees; [|done]. injection E2 as <-. destruct (Forall2_lookup_r _ _ _ _ _ Hms Ees) as (m & _ & Hm).
      rewrite Forall_lookup in Hok. by apply (updates_sorted valid order Hbytes m es (Hok i es Ees)).
    - apply Forall_map. eapply Forall_impl; [exact Hl|]. intros e He. cbn. destruct (entry_key_ok valid Hbytes e He) as [(H8 & Hb & Hv) Hz].
      split; [done|]. split; [done|]. split; [done|]. unfold entry_key, encoded in *. rewrite user_part_join. by destruct He as (_ & _ & _ & ? & _). }
  destruct (NewMergingIterator_ok (valid_internal (fits valid)) (internal_order order) children (child_usable ms) (child_at ms ess)
    (child_lawful ms ess Hok Hms) total (total_perm ess) (map NewIterator ms)) as (m & Em & Hm).
  - unfold children. by rewrite !length_map, (Forall2_length _ _ _ Hms).
  - intros i t Et. pose proof (list_lookup_fmap NewIterator ms i) as El. pose proof (eq_trans (eq_sym El) Et) as E2.
    destruct (ms !! i) as [mt|] eqn:Emt; [|done]. injection E2 as <-. split; [by exists mt|]. by exists false.
  - assert (Hst : Forall (fun e => sequence_ok (e_sequence e) /\ type_ok (e_type e)) l) by (eapply Forall_impl; [exact Hl|]; by intros e (? & ? & _)).
    exists m, (view order snapshot l). split; [done|]. split; [exact (view_sorted order snapshot l Hst Hs)|split].
    + intros k v. rewrite (view_newest order snapshot l Hst Hs). unfold l, updates. by setoid_rewrite (newest_perm snapshot _ _ _ (sort_perm _ (concat ess))).
    + assert (Hu : Forall (update_ok (fits valid)) l).
      { eapply Forall_impl; [exact Hl|]. intros e (Hse & Hte & Hv & Hz & Hz'). split; [by split|]. split; [done|]. split; [done|]. lia. }
      intros d I. pose proof (@db_iter_lawful _ internal_iterator _ (fits valid) order _ (fun k Hk => Hbytes k (proj1 Hk)) l _ _ Hmerged Hu Hs fuel ltac:(lia) snapshot Hsnap) as Hdb.
      apply (@lawful_walks Snapshot I order (fits valid) _ _ _ Hdb d fuel); [by apply (NewDBIterator_ok l _ fuel ltac:(lia))|].
      pose proof (view_le order snapshot l). lia.
Qed.
End Database.

(** ** Two memtables *)
Definition newer_updates : list DbEntry := [mk_entry [1] 7 kTypeDeletion []; mk_entry [2] 8 kTypeValue [20]].
Definition older_updates : list DbEntry := [mk_entry [1] 3 kTypeValue [10]; mk_entry [2] 4 kTypeValue [21]; mk_entry [3] 5 kTypeValue [30]].

Lemma sample_memtable es : forallb (fun e => (0 <=? e_sequence e) && (e_sequence e <=? kMaxSequenceNumber) && ((e_type e =? 0) || (e_type e =? 1))
    && (zlen (e_user e) <? 100) && (zlen (e_value e) <? 100) && forallb (fun b => (0 <=? b) && (b <? 256)) (e_user e)) es = true -> seqs_distinct es ->
  Forall (entry_ok bytes) es /\ exists m0 m, new_MemTable = Ok m0 /\ @add_all BytewiseComparator es m0 = Ok m /\ @entries_of bytes lex m es.
Proof.
  intros Hc Hd. assert (Hok : Forall (entry_ok bytes) es).
  { apply Forall_forall. intros e He. rewrite forallb_forall in Hc. specialize (Hc e (proj1 (list_elem_of_In _ _) He)). rewrite !andb_true_iff in Hc.
    destruct Hc as [[[[[Hs1 Hs2] Ht] Hz1] Hz2] Hb]. split; [split; by apply Z.leb_le|]. split; [|split; [|lia]].
    - apply orb_true_iff in Ht as [Ht|Ht]; apply Z.eqb_eq in Ht; [by left|by right].
    - apply Forall_forall. intros b Hin. rewrite forallb_forall in Hb. specialize (Hb b (proj1 (list_elem_of_In _ _) Hin)). unfold is_byte. lia. }
  split; [done|]. destruct (new_MemTable_ok bytes lex) as (m0 & E0 & H0).
  destruct (@add_all_ok BytewiseComparator bytes lex bytewise_lawful (fun k Hk => Hk) es [] m0 Hok) as (m & E & Hm); [by intros e _ e' H'%elem_of_nil|done|done|].
  by exists m0, m.
Qed.

(** At sequence number 7 key 1 is deleted and key 2 has its older value. *)
Lemma db_iterator_snapshot_witness : exists m0 newer older m f es,
  new_MemTable = Ok m0 /\ @add_all BytewiseComparator newer_updates m0 = Ok newer /\ @add_all BytewiseComparator older_updates m0 = Ok older /\
  @NewMergingIterator _ (@mem_iterator BytewiseComparator) [NewIterator newer; NewIterator older] = Ok m /\
  let I := @snapshot_iterator BytewiseComparator 6 in
  SeekToFirst (NewDBIterator m 7 301 : Snapshot) = Ok f /\ walk_entries 6 Next f = Ok es /\ ([2], [21]) ∈ es /\ forall v, ([1], v) ∉ es.
Proof.
  destruct (sample_memtable newer_updates) as (Hn & m0 & newer & E0 & En & Hnm); [by vm_compute|by repeat split; intros e' H'; repeat (apply elem_of_cons in H' as [->|H']; [done|]); apply elem_of_nil in H'|].
  destruct (sample_memtable older_updates) as (Ho & m0' & older & E0' & Eo & Hom); [by vm_compute|by repeat split; intros e' H'; repeat (apply elem_of_cons in H' as [->|H']; [done|]); apply elem_of_nil in H'|].
  assert (m0' = m0) as -> by congruence.
  destruct (@db_iterator_snapshot BytewiseComparator bytes lex bytewise_lawful bytewise_short (fun k Hk => Hk) [newer; older] [newer_updates; older_updates] 7 301 6)
    as (m & es & Em & _ & Hes & (f & Ef & Ew) & _).
  - by repeat constructor.
  - by repeat constructor.
  - by repeat split; intros e' H'; repeat (apply elem_of_cons in H' as [->|H']; [done|]); apply elem_of_nil in H'.
  - by vm_compute.
  - cbn. lia.
  - exists m0, newer, older, m, f, es. do 6 (split; [done|]). split.
    + apply Hes. exists (mk_entry [2] 4 kTypeValue [21]). split; [|done]. split; [by apply list_elem_of_In; cbn; tauto|].
      split; [done|]. split; [done|]. intros e' He'. unfold newer_updates, older_updates in He'. cbn in He'.
      repeat (apply elem_of_cons in He' as [->|He']; [by vm_compute|]). by apply elem_of_nil in He'.
    + intros v Hv. apply Hes in Hv as (e & (He & Hs & Ht & Hmax) & Hu & _).
      pose proof (Hmax (mk_entry [1] 7 kTypeDeletion []) ltac:(by apply list_elem_of_In; cbn; tauto)) as Hd. rewrite Hu in Hd. specialize (Hd eq_refl ltac:(done)).
      cbn in He, Hd. repeat (apply elem_of_cons in He as [->|He]; [by vm_compute in Ht, Hu, Hs, Hd|]). by apply elem_of_nil in He.
Defined.
